(** * SUNDIALS: the band SUNMatrix module and the CVODES interface

    A shallow embedding of [src/sunmat_band/sunmatrix_band.c] (with the
    accessor macros of [include/sunmatrix/sunmatrix_band.h]) and of the
    constants, enumerations and documented contracts of
    [cvodes/include/cvodes.h].

    Part I holds the definitions, Part II the statements and proofs.
    The integrator itself (cvodes.c) is not among the sources; what is
    said about it rests on definitions written after cvodes.h and the
    specification, each marked as such. *)

From Stdlib Require Import ZArith QArith Qabs Qcanon Qcabs Lia Ring.
From stdpp Require Import base option list gmap.

Local Open Scope Z_scope.

(** * Part I: definitions *)

(** ** realtype

    [realtype] is the floating-point type chosen at configuration time
    (sundials_types.h).  The code is embedded over any carrier with the
    operations it uses; no algebraic law is assumed unless a statement
    lists it. *)

Class RealType := {
  realtype : Type;
  ZERO : realtype;
  ONE : realtype;
  radd : realtype -> realtype -> realtype;
  rmul : realtype -> realtype -> realtype
}.

(** What the integrator needs beyond + and *: the remaining arithmetic,
    ABS, the comparisons of C on realtype, and the conversion of an int. *)
Class RealMath (R : RealType) := {
  rsub : realtype -> realtype -> realtype;
  rdiv : realtype -> realtype -> realtype;
  rabs : realtype -> realtype;
  rleb : realtype -> realtype -> bool;
  rltb : realtype -> realtype -> bool;
  rofZ : Z -> realtype
}.

(** Integer-valued entries: on them the arithmetic of every [realtype]
    configuration is exact. *)
#[export] Instance Z_real : RealType :=
  {| realtype := Z; ZERO := 0; ONE := 1; radd := Z.add; rmul := Z.mul |}.

(** Exact rational arithmetic. *)
#[export] Instance Qc_real : RealType :=
  {| realtype := Qc; ZERO := Q2Qc 0; ONE := Q2Qc 1; radd := Qcplus; rmul := Qcmult |}.

#[export] Instance Qc_math : RealMath Qc_real :=
  {| rsub := Qcminus; rdiv := Qcdiv; rabs := Qcabs;
     rleb := λ a b, Qle_bool (this a) (this b);
     rltb := λ a b, negb (Qle_bool (this b) (this a));
     rofZ := λ z, Q2Qc (inject_Z z) |}.

(** ** Memory: realtype arrays addressed by block and element offset *)

Definition block := nat.

Record ptr := Ptr { p_block : block; p_off : Z }.

Definition ptr_add (p : ptr) (k : Z) : ptr := Ptr (p_block p) (p_off p + k).

Section Memory.
Context {R : RealType}.

(** [load m p k] is the rvalue [p[k]]; [None] stands for an access outside
    the array (undefined behaviour). *)
Definition load (m : gmap block (list realtype)) (p : ptr) (k : Z) : option realtype :=
  if decide (0 <= p_off p + k)
  then m !! p_block p ≫= λ a, a !! Z.to_nat (p_off p + k)
  else None.

(** [store m p k v] is the assignment [p[k] = v]. *)
Definition store (m : gmap block (list realtype)) (p : ptr) (k : Z) (v : realtype)
  : option (gmap block (list realtype)) :=
  a ← m !! p_block p;
  if decide (0 <= p_off p + k < Z.of_nat (length a))
  then Some (<[p_block p := <[Z.to_nat (p_off p + k) := v]> a]> m)
  else None.

End Memory.

(** [for (i = lo; i < hi; i++) body] over a state, stopping at the first
    undefined step. *)
Fixpoint for_loop {St : Type} (n : nat) (i : Z) (body : Z -> St -> option St) (s : St)
  : option St :=
  match n with
  | O => Some s
  | S n' => s' ← body i s; for_loop n' (i + 1) body s'
  end.

Definition for_range {St : Type} (lo hi : Z) (body : Z -> St -> option St) (s : St)
  : option St :=
  for_loop (Z.to_nat (hi - lo)) lo body s.

(** sundials_math.h *)
Definition SUNMAX (a b : Z) : Z := if a >? b then a else b.
Definition SUNMIN (a b : Z) : Z := if a <? b then a else b.

(** ** The band matrix and the vectors it is applied to

    [long int] quantities are integers; the sizes and indices of a matrix
    that fits in memory stay within its range. *)

(** sundials_matrix.h (not among the sources): the matrix IDs. *)
Inductive SUNMatrix_ID :=
  SUNMATRIX_DENSE | SUNMATRIX_BAND | SUNMATRIX_SPARSE | SUNMATRIX_CUSTOM.

#[export] Instance SUNMatrix_ID_eq_dec : EqDecision SUNMatrix_ID.
Proof. solve_decision. Defined.

(** sundials_nvector.h (not among the sources): the vector IDs. *)
Inductive N_Vector_ID :=
  SUNDIALS_NVEC_SERIAL | SUNDIALS_NVEC_PARALLEL | SUNDIALS_NVEC_OPENMP
| SUNDIALS_NVEC_PTHREADS | SUNDIALS_NVEC_PARHYP | SUNDIALS_NVEC_PETSC
| SUNDIALS_NVEC_CUSTOM.

#[export] Instance N_Vector_ID_eq_dec : EqDecision N_Vector_ID.
Proof. solve_decision. Defined.

(** struct _SUNMatrixContent_Band; [c_data] is [None] for a NULL pointer,
    [c_cols] is the pointer array. *)
Record SUNMatrixContent_Band := {
  c_M : Z;
  c_N : Z;
  c_ldim : Z;
  c_mu : Z;
  c_ml : Z;
  c_s_mu : Z;
  c_data : option ptr;
  c_ldata : Z;
  c_cols : list ptr
}.

(** The operation table of a matrix: the one SUNMatrixNew_Band fills in,
    or the table of another implementation, of which only the answer of
    [getid] matters here. *)
Inductive SUNMatrix_Ops :=
| BandOps
| OtherOps (id : SUNMatrix_ID).

(** The generic SUNMatrix: content and ops. *)
Record SUNMatrix := {
  sm_content : SUNMatrixContent_Band;
  sm_ops : SUNMatrix_Ops
}.

(** The vectors as the band module sees them: the vector ID, the [length]
    field read by NV_LENGTH_S / NV_LENGTH_OMP / NV_LENGTH_PT, and what
    N_VGetArrayPointer returns. *)
Record N_Vector := {
  nv_id : N_Vector_ID;
  nv_length : Z;
  nv_data : option ptr
}.

Definition SUNMatrixGetID_Band (A : SUNMatrix) : SUNMatrix_ID := SUNMATRIX_BAND.

(** SUNMatrixGetID(A) = A->ops->getid(A) *)
Definition SUNMatrixGetID (A : SUNMatrix) : SUNMatrix_ID :=
  match sm_ops A with
  | BandOps => SUNMatrixGetID_Band A
  | OtherOps id => id
  end.

Definition N_VGetVectorID (x : N_Vector) : N_Vector_ID := nv_id x.
Definition N_VGetArrayPointer (x : N_Vector) : option ptr := nv_data x.
Definition NV_LENGTH_S (x : N_Vector) : Z := nv_length x.
Definition NV_LENGTH_OMP (x : N_Vector) : Z := nv_length x.
Definition NV_LENGTH_PT (x : N_Vector) : Z := nv_length x.

Definition SM_CONTENT_B (A : SUNMatrix) : SUNMatrixContent_Band := sm_content A.
Definition SM_ROWS_B (A : SUNMatrix) : Z := c_M (SM_CONTENT_B A).
Definition SM_COLUMNS_B (A : SUNMatrix) : Z := c_N (SM_CONTENT_B A).
Definition SM_LDATA_B (A : SUNMatrix) : Z := c_ldata (SM_CONTENT_B A).
Definition SM_UBAND_B (A : SUNMatrix) : Z := c_mu (SM_CONTENT_B A).
Definition SM_LBAND_B (A : SUNMatrix) : Z := c_ml (SM_CONTENT_B A).
Definition SM_SUBAND_B (A : SUNMatrix) : Z := c_s_mu (SM_CONTENT_B A).
Definition SM_DATA_B (A : SUNMatrix) : option ptr := c_data (SM_CONTENT_B A).

(** [cols[j]]: reading the pointer array outside its bounds is undefined. *)
Definition SM_COLS_B (A : SUNMatrix) (j : Z) : option ptr :=
  if decide (0 <= j) then c_cols (SM_CONTENT_B A) !! Z.to_nat j else None.

(** SM_COLUMN_B(A,j) = cols[j] + s_mu *)
Definition SM_COLUMN_B (A : SUNMatrix) (j : Z) : option ptr :=
  c ← SM_COLS_B A j; Some (ptr_add c (SM_SUBAND_B A)).

(** SM_ELEMENT_B(A,i,j) = cols[j][i-j+s_mu], as the pointer and the index
    of the lvalue. *)
Definition SM_ELEMENT_B (A : SUNMatrix) (i j : Z) : option (ptr * Z) :=
  c ← SM_COLS_B A j; Some (c, i - j + SM_SUBAND_B A).

(** ** The allocator

    [malloc] either fails (returns NULL) or hands out a fresh block; which
    of the two is decided by [h_plan], the outcomes of the coming calls
    ([false]: NULL; an exhausted plan: success).  Fresh realtype storage
    holds whatever [h_junk] says. *)

Section Band.
Context {R : RealType}.

Record heap := {
  h_mem : gmap block (list realtype);
  h_objs : gset block;
  h_next : block;
  h_plan : list bool;
  h_junk : Z -> realtype
}.

(** malloc for a struct or a pointer array *)
Definition malloc (h : heap) : option block * heap :=
  match h_plan h with
  | false :: pl =>
      (None, {| h_mem := h_mem h; h_objs := h_objs h; h_next := h_next h;
                h_plan := pl; h_junk := h_junk h |})
  | pl =>
      (Some (h_next h),
       {| h_mem := h_mem h; h_objs := {[h_next h]} ∪ h_objs h;
          h_next := S (h_next h); h_plan := tail pl; h_junk := h_junk h |})
  end.

(** malloc(n * sizeof(realtype)) *)
Definition malloc_array (h : heap) (n : Z) : option block * heap :=
  match h_plan h with
  | false :: pl =>
      (None, {| h_mem := h_mem h; h_objs := h_objs h; h_next := h_next h;
                h_plan := pl; h_junk := h_junk h |})
  | pl =>
      (Some (h_next h),
       {| h_mem := <[h_next h := h_junk h <$> seqZ 0 n]> (h_mem h);
          h_objs := h_objs h;
          h_next := S (h_next h); h_plan := tail pl; h_junk := h_junk h |})
  end.

Definition free (h : heap) (b : block) : heap :=
  {| h_mem := delete b (h_mem h); h_objs := h_objs h ∖ {[b]};
     h_next := h_next h; h_plan := h_plan h; h_junk := h_junk h |}.

(** ** SUNMatrixNew_Band *)

Definition SUNMatrixNew_Band (h : heap) (N mu ml smu : Z) : option SUNMatrix * heap :=
  (* return with NULL matrix on illegal dimension input *)
  if (N <=? 0) || (smu <? 0) || (ml <? 0) then (None, h) else
  (* Create matrix *)
  match malloc h with
  | (None, h1) => (None, h1)
  | (Some A, h1) =>
  (* Create matrix operation structure *)
  match malloc h1 with
  | (None, h2) => (None, free h2 A)
  | (Some ops, h2) =>
  (* Create content *)
  match malloc h2 with
  | (None, h3) => (None, free (free h3 ops) A)
  | (Some content, h3) =>
  (* Fill content *)
  let colSize := smu + ml + 1 in
  match malloc_array h3 (N * colSize) with
  | (None, h4) => (None, free (free (free h4 content) ops) A)
  | (Some data, h4) =>
  match malloc h4 with
  | (None, h5) => (None, free (free (free (free h5 data) content) ops) A)
  | (Some cols, h5) =>
      (Some {| sm_content :=
                 {| c_M := N; c_N := N; c_ldim := colSize;
                    c_mu := mu; c_ml := ml; c_s_mu := smu;
                    c_data := Some (Ptr data 0);
                    c_ldata := N * colSize;
                    c_cols := (λ j, ptr_add (Ptr data 0) (j * colSize)) <$> seqZ 0 N |};
               sm_ops := BandOps |},
       h5)
  end end end end end.

(** ** Matrix operations

    Each returns the int result and the memory it leaves; [None] stands
    for undefined behaviour. *)

Definition SUNMatrixZero_Band (A : SUNMatrix) (m : gmap block (list realtype))
  : option (Z * gmap block (list realtype)) :=
  (* Verify that A is a band matrix *)
  if decide (SUNMatrixGetID A ≠ SUNMATRIX_BAND) then Some (1, m) else
  (* Perform operation *)
  m' ← for_range 0 (SM_LDATA_B A)
         (λ i m, Adata ← SM_DATA_B A; store m Adata i ZERO) m;
  Some (0, m').

Definition SUNMatrixAddIdentity_Band (A : SUNMatrix) (m : gmap block (list realtype))
  : option (Z * gmap block (list realtype)) :=
  (* Verify that A is a band matrix *)
  if decide (SUNMatrixGetID A ≠ SUNMATRIX_BAND) then Some (1, m) else
  (* Perform operation *)
  m' ← for_range 0 (SM_COLUMNS_B A)
         (λ i m, '(c, k) ← SM_ELEMENT_B A i i;
                 a ← load m c k;
                 store m c k (radd a ONE)) m;
  Some (0, m').

(** [vector_mismatch v n]: the branch of SMCompatible2_Band for one vector
    returns FALSE: the vector is not one of {SERIAL, OPENMP, PTHREADS}, or
    its length is not [n]. *)
Definition vector_mismatch (v : N_Vector) (n : Z) : bool :=
  if decide (N_VGetVectorID v = SUNDIALS_NVEC_SERIAL) then
    bool_decide (NV_LENGTH_S v ≠ n)
  else if decide (N_VGetVectorID v = SUNDIALS_NVEC_OPENMP) then
    bool_decide (NV_LENGTH_OMP v ≠ n)
  else if decide (N_VGetVectorID v = SUNDIALS_NVEC_PTHREADS) then
    bool_decide (NV_LENGTH_PT v ≠ n)
  else (* incompatible type *) true.

Definition SMCompatible2_Band (A : SUNMatrix) (x y : N_Vector) : bool :=
  (* matrix must be SUNMATRIX_BAND *)
  if decide (SUNMatrixGetID A ≠ SUNMATRIX_BAND) then false else
  (* vectors must be one of {SERIAL, OPENMP, PTHREADS}, and
     have compatible dimensions *)
  if vector_mismatch x (SM_COLUMNS_B A) then false else
  if vector_mismatch y (SM_ROWS_B A) then false else
  true.

Definition SUNMatrixMatvec_Band (A : SUNMatrix) (x y : N_Vector)
    (m : gmap block (list realtype)) : option (Z * gmap block (list realtype)) :=
  (* Verify that A, x and y are compatible *)
  if negb (SMCompatible2_Band A x y) then Some (1, m) else
  (* access vector data (return if failure) *)
  match N_VGetArrayPointer x, N_VGetArrayPointer y with
  | Some xd, Some yd =>
      (* Perform operation *)
      m1 ← for_range 0 (SM_ROWS_B A) (λ i m, store m yd i ZERO) m;
      m2 ← for_range 0 (SM_COLUMNS_B A)
             (λ j m,
                col_j ← SM_COLUMN_B A j;
                let is_ := SUNMAX 0 (j - SM_UBAND_B A) in
                let ie := SUNMIN (SM_ROWS_B A - 1) (j + SM_LBAND_B A) in
                for_range is_ (ie + 1)
                  (λ i m,
                     yi ← load m yd i;
                     a ← load m col_j (i - j);
                     xj ← load m xd j;
                     store m yd i (radd yi (rmul a xj))) m) m1;
      Some (0, m2)
  | _, _ => Some (1, m)
  end.

(** ** What the statements about the band operations speak of *)

(** The value of the element A(i,j) = SM_ELEMENT_B(A,i,j) held in [m]. *)
Definition band_elem (A : SUNMatrix) (m : gmap block (list realtype)) (i j : Z)
  : realtype :=
  default ZERO ('(c, k) ← SM_ELEMENT_B A i j; load m c k).

Definition vec_elem (m : gmap block (list realtype)) (xd : ptr) (j : Z) : realtype :=
  default ZERO (load m xd j).

(** The sum of a(i,j)*xv(j) over the columns j < n with j-mu <= i <= j+ml,
    accumulated from ZERO in increasing j. *)
Fixpoint band_sum (a : Z -> Z -> realtype) (xv : Z -> realtype) (mu ml : Z)
    (n : nat) (i : Z) : realtype :=
  match n with
  | O => ZERO
  | S n' =>
      let j := Z.of_nat n' in
      let acc := band_sum a xv mu ml n' i in
      if (j - mu <=? i) && (i <=? j + ml) then radd acc (rmul (a i j) (xv j)) else acc
  end.

(** The storage layout SUNMatrixNew_Band sets up: one array of
    N*(s_mu+ml+1) elements in block [b], column j starting at j*ldim. *)
Record band_layout (A : SUNMatrix) (m : gmap block (list realtype)) (b : block)
  : Prop := {
  bl_data : SM_DATA_B A = Some (Ptr b 0);
  bl_N : 0 <= SM_COLUMNS_B A;
  bl_smu : 0 <= SM_SUBAND_B A;
  bl_ml : 0 <= SM_LBAND_B A;
  bl_ldim : c_ldim (SM_CONTENT_B A) = SM_SUBAND_B A + SM_LBAND_B A + 1;
  bl_ldata : SM_LDATA_B A = SM_COLUMNS_B A * c_ldim (SM_CONTENT_B A);
  bl_cols : c_cols (SM_CONTENT_B A)
            = (λ j, ptr_add (Ptr b 0) (j * c_ldim (SM_CONTENT_B A)))
                <$> seqZ 0 (SM_COLUMNS_B A);
  bl_arr : exists arr, m !! b = Some arr /\ Z.of_nat (length arr) = SM_LDATA_B A
}.

(** A heap on which every malloc succeeds. *)
Definition heap0 : heap :=
  {| h_mem := ∅; h_objs := ∅; h_next := 0%nat; h_plan := []; h_junk := λ _, ZERO |}.

End Band.

(** ** The remaining operations of sunmatrix_band.c *)

(** SM_COLUMN_ELEMENT_B(col_j,i,j) = col_j[i-j], as the pointer and the
    index of the lvalue. *)
Definition SM_COLUMN_ELEMENT_B (col_j : ptr) (i j : Z) : ptr * Z := (col_j, i - j).

Definition SUNMatrixBand_Rows (A : SUNMatrix) : Z := SM_ROWS_B A.
Definition SUNMatrixBand_Columns (A : SUNMatrix) : Z := SM_COLUMNS_B A.
Definition SUNMatrixBand_LowerBandwidth (A : SUNMatrix) : Z := SM_LBAND_B A.
Definition SUNMatrixBand_UpperBandwidth (A : SUNMatrix) : Z := SM_UBAND_B A.
Definition SUNMatrixBand_StoredUpperBandwidth (A : SUNMatrix) : Z := SM_SUBAND_B A.
Definition SUNMatrixBand_Data (A : SUNMatrix) : option ptr := SM_DATA_B A.
Definition SUNMatrixBand_Column (A : SUNMatrix) (j : Z) : option ptr := SM_COLUMN_B A j.

Definition SMCompatible_Band (A B : SUNMatrix) : bool :=
  (* both matrices must be SUNMATRIX_BAND *)
  if decide (SUNMatrixGetID A ≠ SUNMATRIX_BAND) then false else
  if decide (SUNMatrixGetID B ≠ SUNMATRIX_BAND) then false else
  (* both matrices must have the same shape
     (note that we do not require the same ldim or smu,
      only the active bandwidth) *)
  if decide (SM_ROWS_B A ≠ SM_ROWS_B B) then false else
  if decide (SM_COLUMNS_B A ≠ SM_COLUMNS_B B) then false else
  if decide (SM_UBAND_B A ≠ SM_UBAND_B B) then false else
  if decide (SM_LBAND_B A ≠ SM_LBAND_B B) then false else
  true.

(** What SUNMatrixPrint_Band sends to the file, one item for each fprintf:
    the line break, the blank field of width 12 and the field holding an
    element. *)
Inductive print_item {R : RealType} :=
| PrintNewline
| PrintBlank
| PrintElement (a : realtype).

Section BandMore.
Context {R : RealType}.

Definition SUNMatrixClone_Band (h : heap) (A : SUNMatrix) : option SUNMatrix * heap :=
  SUNMatrixNew_Band h (SM_COLUMNS_B A) (SM_UBAND_B A) (SM_LBAND_B A) (SM_SUBAND_B A).

Definition SUNMatrixPrint_Band (A : SUNMatrix) (m : gmap block (list realtype))
    (outfile : list print_item) : option (list print_item) :=
  (* should not be called unless A is a band matrix;
     otherwise return immediately *)
  if decide (SUNMatrixGetID A ≠ SUNMATRIX_BAND) then Some outfile else
  (* perform operation *)
  out ← for_range 0 (SM_ROWS_B A)
          (λ i out,
             let start := SUNMAX 0 (i - SM_LBAND_B A) in
             let finish := SUNMIN (SM_COLUMNS_B A - 1) (i + SM_UBAND_B A) in
             out ← for_range 0 start (λ j out, Some (out ++ [PrintBlank])) out;
             out ← for_range start (finish + 1)
                     (λ j out, '(c, k) ← SM_ELEMENT_B A i j;
                               a ← load m c k;
                               Some (out ++ [PrintElement a])) out;
             Some (out ++ [PrintNewline]))
          (outfile ++ [PrintNewline]);
  Some (out ++ [PrintNewline]).

Definition SUNMatrixScale_Band (c : realtype) (A : SUNMatrix)
    (m : gmap block (list realtype)) : option (Z * gmap block (list realtype)) :=
  (* Verify that A is a band matrix *)
  if decide (SUNMatrixGetID A ≠ SUNMATRIX_BAND) then Some (1, m) else
  (* Perform operation *)
  m' ← for_range 0 (SM_LDATA_B A)
         (λ i m, Adata ← SM_DATA_B A;
                 a ← load m Adata i;
                 store m Adata i (rmul a c)) m;
  Some (0, m').

(** The name is spelled SUNMatrixCopy_BAND in sunmatrix_band.c. *)
Definition SUNMatrixCopy_BAND (A B : SUNMatrix) (m : gmap block (list realtype))
  : option (Z * gmap block (list realtype)) :=
  (* Verify that A and B are compatible *)
  if negb (SMCompatible_Band A B) then Some (1, m) else
  (* Perform operation *)
  let copysize := SM_UBAND_B A + SM_LBAND_B A + 1 in
  m' ← for_range 0 (SM_COLUMNS_B A)
         (λ j m,
            cA ← SM_COLUMN_B A j;
            cB ← SM_COLUMN_B B j;
            let A_colj := ptr_add (ptr_add cA (SM_SUBAND_B A)) (- SM_UBAND_B A) in
            let B_colj := ptr_add (ptr_add cB (SM_SUBAND_B B)) (- SM_UBAND_B B) in
            for_range 0 copysize
              (λ i m, b ← load m B_colj i; store m A_colj i b) m) m;
  Some (0, m').

Definition SUNMatrixAdd_Band (A B : SUNMatrix) (m : gmap block (list realtype))
  : option (Z * gmap block (list realtype)) :=
  (* Verify that A and B are compatible *)
  if negb (SMCompatible_Band A B) then Some (1, m) else
  (* Perform operation *)
  let addsize := SM_UBAND_B A + SM_LBAND_B A + 1 in
  m' ← for_range 0 (SM_COLUMNS_B A)
         (λ j m,
            cA ← SM_COLUMN_B A j;
            cB ← SM_COLUMN_B B j;
            let A_colj := ptr_add (ptr_add cA (SM_SUBAND_B A)) (- SM_UBAND_B A) in
            let B_colj := ptr_add (ptr_add cB (SM_SUBAND_B B)) (- SM_UBAND_B B) in
            for_range 0 addsize
              (λ i m, a ← load m A_colj i;
                      b ← load m B_colj i;
                      store m A_colj i (radd a b)) m) m;
  Some (0, m').

(** The rvalue SM_ELEMENT_B(A,i,j) in the memory [m]. *)
Definition SM_ELEMENT_B_get (A : SUNMatrix) (m : gmap block (list realtype)) (i j : Z)
  : option realtype :=
  '(c, k) ← SM_ELEMENT_B A i j; load m c k.

(** Row i of the matrix as it appears on paper: a blank field for each
    column left of the band, then the elements A(i,j) of the band within
    the columns 0 .. N-1, then the line break. *)
Definition print_row (A : SUNMatrix) (m : gmap block (list realtype)) (i : Z)
  : list print_item :=
  let start := Z.max 0 (i - SM_LBAND_B A) in
  let finish := Z.min (SM_COLUMNS_B A - 1) (i + SM_UBAND_B A) in
  ((λ _, PrintBlank) <$> seqZ 0 start)
  ++ ((λ j, PrintElement (band_elem A m i j)) <$> seqZ start (finish + 1 - start))
  ++ [PrintNewline].

(** The arrays of [m'] have the lengths of those of [m]. *)
Definition same_lengths (m m' : gmap block (list realtype)) : Prop :=
  forall b, length <$> m' !! b = length <$> m !! b.

(** No block from [h_next] on has been handed out yet. *)
Definition heap_fresh (h : heap) : Prop :=
  forall b, (h_next h <= b)%nat -> (b ∉ h_objs h) /\ h_mem h !! b = None.

End BandMore.

(** ** CVODES: cvodes.h *)

Module Cvodes.

(** *** cvodes.h: enumerations and constants *)

(* lmm *)
Definition ADAMS : Z := 0.
Definition BDF : Z := 1.
(* iter *)
Definition FUNCTIONAL : Z := 0.
Definition NEWTON : Z := 1.
(* itol, itolQ *)
Definition SS : Z := 0.
Definition SV : Z := 1.
(* itask *)
Definition NORMAL : Z := 0.
Definition ONE_STEP : Z := 1.
Definition NORMAL_TSTOP : Z := 2.
Definition ONE_STEP_TSTOP : Z := 3.

(* Error return values for CVodeSet* functions *)
Definition CVS_NO_MEM : Z := -1.
Definition CVS_ILL_INPUT : Z := -2.
(* Error return values for CVodeMalloc *)
Definition CVM_NO_MEM : Z := -1.
Definition CVM_MEM_FAIL : Z := -2.
Definition CVM_ILL_INPUT : Z := -3.
(* Error return values for CVodeReInit *)
Definition CVREI_NO_MEM : Z := -1.
Definition CVREI_NO_MALLOC : Z := -2.
Definition CVREI_ILL_INPUT : Z := -3.

(* CVode return values *)
Definition SUCCESS : Z := 0.
Definition TSTOP_RETURN : Z := 1.
Definition CVODE_NO_MEM : Z := -1.
Definition CVODE_NO_MALLOC : Z := -2.
Definition ILL_INPUT : Z := -3.
Definition TOO_MUCH_WORK : Z := -4.
Definition TOO_MUCH_ACC : Z := -5.
Definition ERR_FAILURE : Z := -6.
Definition CONV_FAILURE : Z := -7.
Definition SETUP_FAILURE : Z := -8.
Definition SOLVE_FAILURE : Z := -9.

(* CVodeGet* return values *)
Definition OKAY : Z := 0.
Definition CVG_NO_MEM : Z := -1.
Definition CVG_NO_SLDET : Z := -2.
Definition BAD_K : Z := -3.
Definition BAD_T : Z := -4.
Definition BAD_DKY : Z := -5.
Definition BAD_IS : Z := -6.
Definition CVG_NO_QUAD : Z := -7.
Definition CVG_NO_SENS : Z := -8.

(* Basic CVODES constants *)
Definition ADAMS_Q_MAX : Z := 12.
Definition BDF_Q_MAX : Z := 5.
Definition Q_MAX : Z := ADAMS_Q_MAX.
Definition L_MAX : Z := Q_MAX + 1.
Definition NUM_TESTS : Z := 5.

(* cv_linit return values *)
Definition LINIT_OK : Z := 0.
Definition LINIT_ERR : Z := -1.
(* Constants for convfail (input to cv_lsetup) *)
Definition NO_FAILURES : Z := 0.
Definition FAIL_BAD_J : Z := 1.
Definition FAIL_OTHER : Z := 2.

(** A C array [T a[n]]: exactly n cells, indexed from 0. *)
Definition carray (T : Type) (n : Z) : Type := { l : list T | length l = Z.to_nat n }.

Definition cells {T n} (a : carray T n) : list T := proj1_sig a.

Definition cget {T n} (a : carray T n) (j : Z) : option T :=
  if decide (0 <= j) then cells a !! Z.to_nat j else None.

(** N-vectors of the integrator, by value. *)
Abbreviation N_Vector := (list realtype).

Section Integrator.
Context {R : RealType} {RM : RealMath R}.

(** itol with the tolerances it selects: a scalar relative tolerance and a
    scalar (SS) or vector (SV) absolute tolerance. *)
Inductive tolerances :=
| TolSS (reltol abstol : realtype)
| TolSV (reltol : realtype) (abstol : N_Vector).

Definition itol_of (tol : tolerances) : Z :=
  match tol with TolSS _ _ => SS | TolSV _ _ => SV end.

(** struct CVodeMemRec: the fields read or written below, with the array
    bounds of the declaration. *)
Record CVodeMemRec := {
  cv_lmm : Z;                           (* lmm = ADAMS or BDF *)
  cv_iter : Z;                          (* iter = FUNCTIONAL or NEWTON *)
  cv_tol : tolerances;                  (* cv_itol, cv_reltol, cv_abstol *)
  cv_zn : carray N_Vector L_MAX;        (* N_Vector cv_zn[L_MAX]: Nordsieck array *)
  cv_ewt : N_Vector;                    (* error weight vector *)
  cv_q : Z;                             (* current order *)
  cv_h : realtype;                      (* current step size *)
  cv_tn : realtype;                     (* current internal value of t *)
  cv_tau : carray realtype (L_MAX + 1); (* realtype cv_tau[L_MAX+1] *)
  cv_tq : carray realtype (NUM_TESTS + 1); (* realtype cv_tq[NUM_TESTS+1] *)
  cv_l : carray realtype L_MAX;         (* realtype cv_l[L_MAX] *)
  cv_qmax : Z;                          (* q <= qmax *)
  cv_mxstep : Z;                        (* maximum number of internal steps *)
  cv_nst : Z;                           (* number of internal steps taken *)
  cv_nsetups : Z;                       (* number of setup calls *)
  cv_lrw : Z;                           (* realtype words in work vectors *)
  cv_liw : Z;                           (* integer words in work vectors *)
  cv_forceSetup : bool;
  cv_qu : Z;                            (* last successful q value used *)
  cv_hu : realtype;                     (* last successful h value used *)
  cv_jcur : bool;                       (* is the Jacobian info current? *)
  cv_MallocDone : bool
}.

(** *** The vector facade *)

(** Modelled from the spec: the vector facade V of section 4.1 (nvector.h
    and its implementations are not part of the sources): dimension
    preserving, component-wise operations with an explicit result. *)
Definition N_VLinearSum (a : realtype) (x : N_Vector) (b : realtype) (y : N_Vector)
  : N_Vector :=
  zip_with (λ xi yi, radd (rmul a xi) (rmul b yi)) x y.

(** Modelled from the spec: [scale] of the facade, z = c x. *)
Definition N_VScale (c : realtype) (x : N_Vector) : N_Vector := rmul c <$> x.

(** Modelled from the spec: [axpy] of the facade, z = a x + y. *)
Definition N_VAxpy (a : realtype) (x y : N_Vector) : N_Vector :=
  zip_with (λ xi yi, radd (rmul a xi) yi) x y.

(** Modelled from the spec: [const_fill] of the facade. *)
Definition N_VConst (c : realtype) (n : nat) : N_Vector := replicate n c.

(** Modelled from the spec: [abs] of the facade. *)
Definition N_VAbs (x : N_Vector) : N_Vector := rabs <$> x.

(** Modelled from the spec: [inv] of the facade, the element-wise inverse. *)
Definition N_VInv (x : N_Vector) : N_Vector := rdiv ONE <$> x.

(** Modelled from the spec: [prod] of the facade. *)
Definition N_VProd (x y : N_Vector) : N_Vector := zip_with rmul x y.

(** Modelled from the spec: [dot] of the facade, summed from ZERO in
    increasing index. *)
Definition N_VDotProd (x y : N_Vector) : realtype := foldl radd ZERO (N_VProd x y).

(** Modelled from the spec: [wrms_norm(v,w)] of the facade,
    sqrt((1/N) sum (v_i w_i)^2); RSqrt (sundials_math.h) is a parameter. *)
Definition N_VWrmsNorm (RSqrt : realtype -> realtype) (v w : N_Vector) : realtype :=
  RSqrt (rmul (rdiv ONE (rofZ (Z.of_nat (length v))))
           (N_VDotProd (N_VProd v w) (N_VProd v w))).

(** *** Error weights *)

(** Modelled from the spec: the weight computation of section 4.5, step 2
    (CVEwtSet lives in cvodes.c, which is not part of the sources):
    ewt = inv(rtol |y| + atol). *)
Definition CVEwtSet (tol : tolerances) (ycur : N_Vector) : N_Vector :=
  match tol with
  | TolSS rtol atol =>
      N_VInv (N_VAxpy rtol (N_VAbs ycur) (N_VConst atol (length ycur)))
  | TolSV rtol atol =>
      N_VInv (N_VAxpy rtol (N_VAbs ycur) atol)
  end.

(** sum over i < n of (v_i w_i)^2, accumulated in increasing i *)
Fixpoint wsum (v w : N_Vector) (n : nat) : realtype :=
  match n with
  | O => ZERO
  | S n' =>
      let p := rmul (default ZERO (v !! n')) (default ZERO (w !! n')) in
      radd (wsum v w n') (rmul p p)
  end.

(** sum over i < n of p_i^2, accumulated in increasing i *)
Fixpoint sum_sq (p : N_Vector) (n : nat) : realtype :=
  match n with
  | O => ZERO
  | S n' => radd (sum_sq p n') (rmul (default ZERO (p !! n')) (default ZERO (p !! n')))
  end.

(** Modelled from the spec: the positivity test on the weights of
    section 4.5, step 2: some component is nonpositive. *)
Definition ewt_nonpositive (ewt : N_Vector) : bool :=
  existsb (λ e, rleb e ZERO) ewt.

(** *** Dense output *)

(** zn[j] *)
Definition zn (cv : CVodeMemRec) (j : Z) : N_Vector := default [] (cget (cv_zn cv) j).

(** Modelled from the spec: the factor of the k-th derivative of s^j,
    c = j (j-1) ... (j-k+1). *)
Fixpoint falling (j : Z) (k : nat) : Z :=
  match k with
  | O => 1
  | S k' => j * falling (j - 1) k'
  end.

(** Modelled from the spec: the integer power a^n by repeated product. *)
Fixpoint RPowerI (a : realtype) (n : nat) : realtype :=
  match n with
  | O => ONE
  | S n' => rmul a (RPowerI a n')
  end.

(** Modelled from the spec: the rounds of the Horner evaluation for
    j = jtop, jtop-1, ..., jtop-n+1: dky = c_j zn[j] + s dky. *)
Fixpoint dky_rounds (cv : CVodeMemRec) (s : realtype) (k : nat) (n : nat) (jtop : Z)
    (dky : N_Vector) : N_Vector :=
  match n with
  | O => dky
  | S n' =>
      dky_rounds cv s k n' (jtop - 1)
        (N_VLinearSum (rofZ (falling jtop k)) (zn cv jtop) s dky)
  end.

(** Modelled from the spec: the Horner evaluation of the k-th derivative of
    the interpolating polynomial sum_j zn[j] ((t-tn)/h)^j over the
    Nordsieck array (section 4.6; the body of CVodeGetDky is in cvodes.c). *)
Definition dky_horner (cv : CVodeMemRec) (t : realtype) (k : Z) : N_Vector :=
  let s := rdiv (rsub t (cv_tn cv)) (cv_h cv) in
  let q := cv_q cv in
  let top := N_VScale (rofZ (falling q (Z.to_nat k))) (zn cv q) in
  let sum := dky_rounds cv s (Z.to_nat k) (Z.to_nat (q - k)) (q - 1) top in
  if decide (k = 0) then sum
  else N_VScale (rdiv ONE (RPowerI (cv_h cv) (Z.to_nat k))) sum.

(** sum over m < n of c_(jlow+m) z_(jlow+m) s^m with
    c_j = j (j-1) ... (j-k+1), lowest power first: the k-th derivative in s
    of sum_j z_j s^j, for the columns jlow .. jlow+n-1. *)
Fixpoint deriv_sum (z : Z -> realtype) (s : realtype) (k : nat) (n : nat) (jlow : Z)
  : realtype :=
  match n with
  | O => ZERO
  | S n' =>
      radd (deriv_sum z s k n' jlow)
        (rmul (rmul (rofZ (falling (jlow + Z.of_nat n') k)) (z (jlow + Z.of_nat n')))
              (RPowerI s n'))
  end.

(** Modelled from the spec: the legal range of t for dense output,
    tn - hu <= t <= tn (section 4.6 and the CVodeGetDky comment). *)
Definition t_legal (cv : CVodeMemRec) (t : realtype) : bool :=
  rleb (rsub (cv_tn cv) (cv_hu cv)) t && rleb t (cv_tn cv).

(** Modelled from the spec: CVodeGetDky as cvodes.h documents it: the
    handle and the output vector must not be NULL, k must lie in [0, qu]
    and t in [tn-hu, tn]; the codes are tested in the order in which the
    header lists them for the arguments k, t; the result is the flag and
    the contents of dky. *)
Definition CVodeGetDky (cvode_mem : option CVodeMemRec) (t : realtype) (k : Z)
    (dky : option N_Vector) : Z * option N_Vector :=
  match cvode_mem with
  | None => (CVG_NO_MEM, dky)
  | Some cv =>
      match dky with
      | None => (BAD_DKY, None)
      | Some _ =>
          if (k <? 0) || (cv_qu cv <? k) then (BAD_K, dky)
          else if negb (t_legal cv t) then (BAD_T, dky)
          else (OKAY, Some (dky_horner cv t k))
      end
  end.

(** *** The driver and the weights *)

(** cv_mem->cv_ewt = ewt *)
Definition set_ewt (cv : CVodeMemRec) (ewt : N_Vector) : CVodeMemRec :=
  {| cv_lmm := cv_lmm cv; cv_iter := cv_iter cv; cv_tol := cv_tol cv;
     cv_zn := cv_zn cv; cv_ewt := ewt; cv_q := cv_q cv; cv_h := cv_h cv;
     cv_tn := cv_tn cv; cv_tau := cv_tau cv; cv_tq := cv_tq cv; cv_l := cv_l cv;
     cv_qmax := cv_qmax cv; cv_mxstep := cv_mxstep cv; cv_nst := cv_nst cv;
     cv_nsetups := cv_nsetups cv; cv_lrw := cv_lrw cv; cv_liw := cv_liw cv;
     cv_forceSetup := cv_forceSetup cv; cv_qu := cv_qu cv; cv_hu := cv_hu cv;
     cv_jcur := cv_jcur cv; cv_MallocDone := cv_MallocDone cv |}.

Section Driver.
(** The rest of one step attempt once the weights are set (section 4.5,
    steps 3 to 8: predictor, coefficients, corrector, error test, next order
    and step): a failure flag or the state after the accepted step. *)
Variable CVStep : CVodeMemRec -> Z + CVodeMemRec.
(** The driver's test that tn has reached tout. *)
Variable reached : realtype -> CVodeMemRec -> bool.

(** Modelled from the spec: the driver loop of section 4.6 for itask =
    NORMAL around the step attempts of section 4.5 (CVode and CVStep are in
    cvodes.c): each attempt first recomputes ewt from (rtol, atol, itol,
    Z[0]) and returns ILL_INPUT if a component is nonpositive; at most
    [n] internal steps are taken.  The result is the flag, the state, and
    the weight vectors handed to the attempts, latest first. *)
Fixpoint CVode_loop (n : nat) (tout : realtype) (cv : CVodeMemRec)
    (used : list N_Vector) : Z * CVodeMemRec * list N_Vector :=
  match n with
  | O => (TOO_MUCH_WORK, cv, used)
  | S n' =>
      let ewt := CVEwtSet (cv_tol cv) (zn cv 0) in
      if ewt_nonpositive ewt then (ILL_INPUT, cv, used)
      else
        match CVStep (set_ewt cv ewt) with
        | inl flag => (flag, cv, ewt :: used)
        | inr cv' =>
            if reached tout cv' then (SUCCESS, cv', ewt :: used)
            else CVode_loop n' tout cv' (ewt :: used)
        end
  end.

(** Modelled from the spec: CVode (section 4.6, [step]): the handle checks
    of cvodes.h, then the loop with the budget mxstep. *)
Definition CVode (cvode_mem : option CVodeMemRec) (tout : realtype)
  : Z * option CVodeMemRec * list N_Vector :=
  match cvode_mem with
  | None => (CVODE_NO_MEM, None, [])
  | Some cv =>
      if negb (cv_MallocDone cv) then (CVODE_NO_MALLOC, Some cv, [])
      else
        let '(flag, cv', used) := CVode_loop (Z.to_nat (cv_mxstep cv)) tout cv [] in
        (flag, Some cv', used)
  end.

End Driver.

(** *** The Newton corrector and the linear solver *)

(** Modelled from the spec: how the Newton iterations of section 4.4 end
    for the matrix data at hand. *)
Inductive newton_outcome :=
| Converged        (* the iteration converged *)
| NotConverged     (* no convergence, divergence, or a recoverable solve failure *)
| SolveFailed.     (* cv_lsolve failed unrecoverably *)

(** Modelled from the spec: the exits of the corrector of section 4.4:
    exit-ok, exit-recoverable, and exit-fatal for setup or solve. *)
Inductive nls_result :=
| NLS_SOLVED | NLS_CONV_FAIL | NLS_SETUP_FAIL_UNREC | NLS_SOLVE_FAIL_UNREC.

(** Modelled from the spec: the flag CVode returns for an exit of the
    corrector that the step controller does not recover (section 7). *)
Definition nls_flag (r : nls_result) : Z :=
  match r with
  | NLS_SOLVED => SUCCESS
  | NLS_CONV_FAIL => CONV_FAILURE
  | NLS_SETUP_FAIL_UNREC => SETUP_FAILURE
  | NLS_SOLVE_FAIL_UNREC => SOLVE_FAILURE
  end.

Section Newton.
(** cv_lmem *)
Variable LMem : Type.
(** cv_lsetup(cv_mem, convfail, ..., jcurPtr, ...): the return value (0, > 0
    recoverable, < 0 unrecoverable), *jcurPtr, and the solver memory. *)
Variable lsetup : LMem -> Z -> Z * bool * LMem.
(** The Newton iterations run with the matrix data at hand. *)
Variable iterations : LMem -> newton_outcome.

(** Modelled from the spec: the Newton corrector of section 4.4,
    entry -> iterate -> converged | recoverable | setup-stale ->
    request-setup -> iterate | unrecoverable, with the linear-solver
    contract of cvodes.h (the corrector itself is in cvodes.c).  A failed
    iteration with stale Jacobian data asks for a setup with convfail =
    FAIL_BAD_J and iterates again; nothing counts these requests.
    [None]: still iterating after [fuel] rounds. *)
Fixpoint nls_newton (fuel : nat) (callSetup : bool) (convfail : Z) (jcur : bool)
    (lmem : LMem) : option nls_result :=
  match fuel with
  | O => None
  | S fuel' =>
      let '(ier, jcur1, lmem1) :=
        if callSetup then lsetup lmem convfail else (0, jcur, lmem) in
      if ier <? 0 then Some NLS_SETUP_FAIL_UNREC
      else if 0 <? ier then Some NLS_CONV_FAIL
      else
        match iterations lmem1 with
        | Converged => Some NLS_SOLVED
        | SolveFailed => Some NLS_SOLVE_FAIL_UNREC
        | NotConverged =>
            if jcur1 then Some NLS_CONV_FAIL
            else nls_newton fuel' true FAIL_BAD_J jcur1 lmem1
        end
  end.

End Newton.

(** *** Re-initialisation *)

(** a[j] = v *)
Definition carray_set {T n} (a : carray T n) (j : nat) (v : T) : carray T n :=
  exist _ (<[j:=v]> (cells a)) (eq_trans (length_insert (cells a) j v) (proj2_sig a)).

Section ReInit.
(** The input checks CVodeReInit shares with CVodeMalloc (f, y0, itol,
    reltol, abstol), which cvodes.h does not enumerate. *)
Variable legal_input : realtype -> option N_Vector -> Z -> bool.

(** Modelled from the spec: [reinit] of section 4.6 as cvodes.h documents
    CVodeReInit (its body is in cvodes.c): no memory allocation; NO_MEM for
    a NULL handle, NO_MALLOC before CVodeMalloc, ILL_INPUT for an illegal
    input, including a maximum order [maxord] of the new problem that
    would widen qmax; otherwise the problem is installed in the existing
    storage: Z[0] = y0, tn = t0, qmax = maxord, counters reset. *)
Definition CVodeReInit (cvode_mem : option CVodeMemRec) (maxord : Z)
    (t0 : realtype) (y0 : option N_Vector) (tol : tolerances)
  : Z * option CVodeMemRec :=
  match cvode_mem with
  | None => (CVREI_NO_MEM, None)
  | Some cv =>
      if negb (cv_MallocDone cv) then (CVREI_NO_MALLOC, Some cv)
      else if negb (legal_input t0 y0 (itol_of tol)) then (CVREI_ILL_INPUT, Some cv)
      else if cv_qmax cv <? maxord then (CVREI_ILL_INPUT, Some cv)
      else
        match y0 with
        | None => (CVREI_ILL_INPUT, Some cv)
        | Some y0 =>
            (SUCCESS,
             Some {| cv_lmm := cv_lmm cv; cv_iter := cv_iter cv; cv_tol := tol;
                     cv_zn := carray_set (cv_zn cv) 0 y0;
                     cv_ewt := cv_ewt cv; cv_q := 1; cv_h := cv_h cv;
                     cv_tn := t0; cv_tau := cv_tau cv; cv_tq := cv_tq cv;
                     cv_l := cv_l cv;
                     cv_qmax := maxord; cv_mxstep := cv_mxstep cv; cv_nst := 0;
                     cv_nsetups := 0; cv_lrw := cv_lrw cv; cv_liw := cv_liw cv;
                     cv_forceSetup := false; cv_qu := 0; cv_hu := ZERO;
                     cv_jcur := false; cv_MallocDone := true |})
        end
  end.

End ReInit.

End Integrator.
End Cvodes.

(** ** Sample objects *)

(** A heap over integer-valued entries whose fresh storage holds 7. *)
Definition zheap : heap (R:=Z_real) :=
  {| h_mem := ∅; h_objs := ∅; h_next := 0%nat; h_plan := [];
     h_junk := λ _, 7 : @realtype Z_real |}.

(** What SUNMatrixNew_Band(3, 1, 1, 1) returns on [zheap]: a tridiagonal
    matrix with its data in block 3. *)
Definition A_tri : SUNMatrix :=
  {| sm_content :=
       {| c_M := 3; c_N := 3; c_ldim := 3; c_mu := 1; c_ml := 1; c_s_mu := 1;
          c_data := Some (Ptr 3%nat 0); c_ldata := 9;
          c_cols := [Ptr 3%nat 0; Ptr 3%nat 3; Ptr 3%nat 6] |};
     sm_ops := BandOps |}.

(** The matrix (1 2 0; 4 5 3; 0 7 6) stored by columns in block 3, the
    vector (1, 10, 100) in block 10 and an output array in block 11. *)
Definition m_tri : gmap block (list (@realtype Z_real)) :=
  <[3%nat := [0; 1; 4; 2; 5; 7; 3; 6; 0]]>
    (<[10%nat := [1; 10; 100]]> (<[11%nat := [9; 9; 9]]> ∅)).

Definition x_tri : N_Vector :=
  {| nv_id := SUNDIALS_NVEC_SERIAL; nv_length := 3; nv_data := Some (Ptr 10%nat 0) |}.

Definition y_tri : N_Vector :=
  {| nv_id := SUNDIALS_NVEC_SERIAL; nv_length := 3; nv_data := Some (Ptr 11%nat 0) |}.

(** A serial vector of length 3 without a data array, as N_VNewEmpty_Serial
    leaves it. *)
Definition x_empty : N_Vector :=
  {| nv_id := SUNDIALS_NVEC_SERIAL; nv_length := 3; nv_data := None |}.

(** What SUNMatrixNew_Band(2, 1, 0, 0) returns on [zheap]: mu exceeds the
    stored upper bandwidth. *)
Definition A_wide : SUNMatrix :=
  {| sm_content :=
       {| c_M := 2; c_N := 2; c_ldim := 1; c_mu := 1; c_ml := 0; c_s_mu := 0;
          c_data := Some (Ptr 3%nat 0); c_ldata := 2;
          c_cols := [Ptr 3%nat 0; Ptr 3%nat 1] |};
     sm_ops := BandOps |}.

Definition m_wide : gmap block (list (@realtype Z_real)) :=
  <[3%nat := [7; 7]]> (<[10%nat := [1; 1]]> (<[11%nat := [9; 9]]> ∅)).

Definition x_wide : N_Vector :=
  {| nv_id := SUNDIALS_NVEC_SERIAL; nv_length := 2; nv_data := Some (Ptr 10%nat 0) |}.

Definition y_wide : N_Vector :=
  {| nv_id := SUNDIALS_NVEC_SERIAL; nv_length := 2; nv_data := Some (Ptr 11%nat 0) |}.

Definition qc (n : Z) (d : positive) : Qc := Q2Qc (n # d).

(** A Nordsieck array for N = 2 and q = 2: columns (1, 2), (1/2, 1),
    (1/4, 0), the remaining ten columns zero. *)
Definition zn_demo : Cvodes.carray (list Qc) Cvodes.L_MAX :=
  exist _ ([[qc 1 1; qc 2 1]; [qc 1 2; qc 1 1]; [qc 1 4; qc 0 1]]
             ++ replicate 10 [qc 0 1; qc 0 1]) eq_refl.

(** An integrator after three steps of a BDF run at order 2, tn = 1,
    h = hu = 1/2. *)
Definition cv_demo : Cvodes.CVodeMemRec (R:=Qc_real) :=
  {| Cvodes.cv_lmm := Cvodes.BDF; Cvodes.cv_iter := Cvodes.NEWTON;
     Cvodes.cv_tol := Cvodes.TolSS (qc 1 1000) (qc 1 1000000);
     Cvodes.cv_zn := zn_demo; Cvodes.cv_ewt := [qc 1 1; qc 1 1];
     Cvodes.cv_q := 2; Cvodes.cv_h := qc 1 2; Cvodes.cv_tn := qc 1 1;
     Cvodes.cv_tau := exist _ (replicate 14 (qc 0 1)) eq_refl;
     Cvodes.cv_tq := exist _ (replicate 6 (qc 0 1)) eq_refl;
     Cvodes.cv_l := exist _ (replicate 13 (qc 0 1)) eq_refl;
     Cvodes.cv_qmax := 5; Cvodes.cv_mxstep := 500; Cvodes.cv_nst := 3;
     Cvodes.cv_nsetups := 1; Cvodes.cv_lrw := 38; Cvodes.cv_liw := 0;
     Cvodes.cv_forceSetup := false; Cvodes.cv_qu := 2; Cvodes.cv_hu := qc 1 2;
     Cvodes.cv_jcur := false; Cvodes.cv_MallocDone := true |}.

(** The same integrator with the tolerances rtol = 0, atol = -1. *)
Definition cv_negtol : Cvodes.CVodeMemRec (R:=Qc_real) :=
  {| Cvodes.cv_lmm := Cvodes.BDF; Cvodes.cv_iter := Cvodes.NEWTON;
     Cvodes.cv_tol := Cvodes.TolSS (qc 0 1) (qc (-1) 1);
     Cvodes.cv_zn := zn_demo; Cvodes.cv_ewt := [qc 1 1; qc 1 1];
     Cvodes.cv_q := 2; Cvodes.cv_h := qc 1 2; Cvodes.cv_tn := qc 1 1;
     Cvodes.cv_tau := exist _ (replicate 14 (qc 0 1)) eq_refl;
     Cvodes.cv_tq := exist _ (replicate 6 (qc 0 1)) eq_refl;
     Cvodes.cv_l := exist _ (replicate 13 (qc 0 1)) eq_refl;
     Cvodes.cv_qmax := 5; Cvodes.cv_mxstep := 500; Cvodes.cv_nst := 3;
     Cvodes.cv_nsetups := 1; Cvodes.cv_lrw := 38; Cvodes.cv_liw := 0;
     Cvodes.cv_forceSetup := false; Cvodes.cv_qu := 2; Cvodes.cv_hu := qc 1 2;
     Cvodes.cv_jcur := false; Cvodes.cv_MallocDone := true |}.

(** A step that always succeeds and advances tn by h. *)
Definition CVStep_demo (cv : Cvodes.CVodeMemRec (R:=Qc_real))
  : Z + Cvodes.CVodeMemRec (R:=Qc_real) :=
  inr {| Cvodes.cv_lmm := Cvodes.cv_lmm cv; Cvodes.cv_iter := Cvodes.cv_iter cv;
         Cvodes.cv_tol := Cvodes.cv_tol cv; Cvodes.cv_zn := Cvodes.cv_zn cv;
         Cvodes.cv_ewt := Cvodes.cv_ewt cv; Cvodes.cv_q := Cvodes.cv_q cv;
         Cvodes.cv_h := Cvodes.cv_h cv;
         Cvodes.cv_tn := Qcplus (Cvodes.cv_tn cv) (Cvodes.cv_h cv);
         Cvodes.cv_tau := Cvodes.cv_tau cv; Cvodes.cv_tq := Cvodes.cv_tq cv;
         Cvodes.cv_l := Cvodes.cv_l cv; Cvodes.cv_qmax := Cvodes.cv_qmax cv;
         Cvodes.cv_mxstep := Cvodes.cv_mxstep cv;
         Cvodes.cv_nst := Cvodes.cv_nst cv + 1;
         Cvodes.cv_nsetups := Cvodes.cv_nsetups cv;
         Cvodes.cv_lrw := Cvodes.cv_lrw cv; Cvodes.cv_liw := Cvodes.cv_liw cv;
         Cvodes.cv_forceSetup := Cvodes.cv_forceSetup cv;
         Cvodes.cv_qu := Cvodes.cv_q cv; Cvodes.cv_hu := Cvodes.cv_h cv;
         Cvodes.cv_jcur := Cvodes.cv_jcur cv;
         Cvodes.cv_MallocDone := Cvodes.cv_MallocDone cv |}.

Definition reached_demo (tout : Qc) (cv : Cvodes.CVodeMemRec (R:=Qc_real)) : bool :=
  Qle_bool (this tout) (this (Cvodes.cv_tn cv)).

(** A linear solver whose setup succeeds without ever refreshing its
    Jacobian data, under a Newton iteration that never converges. *)
Definition lsetup_stale (lmem : unit) (convfail : Z) : Z * bool * unit :=
  (0, false, tt).

Definition iterations_fail (lmem : unit) : Cvodes.newton_outcome :=
  Cvodes.NotConverged.

(** A linear solver whose setup fails unrecoverably. *)
Definition lsetup_broken (lmem : unit) (convfail : Z) : Z * bool * unit :=
  (-1, false, tt).

Definition legal_any (t0 : Qc) (y0 : option (list Qc)) (itol : Z) : bool := true.

(** The heap [zheap] with a fourth malloc that fails. *)
Definition zheap_fail : heap (R:=Z_real) :=
  {| h_mem := ∅; h_objs := ∅; h_next := 0%nat; h_plan := [true; true; true; false];
     h_junk := λ _, 7 : @realtype Z_real |}.

(** The heap SUNMatrixNew_Band(3, 1, 1, 1) leaves behind on [zheap]. *)
Definition zheap_tri : heap (R:=Z_real) := snd (SUNMatrixNew_Band zheap 3 1 1 1).

(** What SUNMatrixClone_Band returns for [A_tri] on [zheap_tri]: the same
    shape, with its data in block 8. *)
Definition A_tri_clone : SUNMatrix :=
  {| sm_content :=
       {| c_M := 3; c_N := 3; c_ldim := 3; c_mu := 1; c_ml := 1; c_s_mu := 1;
          c_data := Some (Ptr 8%nat 0); c_ldata := 9;
          c_cols := [Ptr 8%nat 0; Ptr 8%nat 3; Ptr 8%nat 6] |};
     sm_ops := BandOps |}.

(** What SUNMatrixNew_Band(3, 0, 1, 0) returns on [zheap], and what a second
    call returns after it: two lower bidiagonal matrices, with their data
    in the blocks 3 and 8. *)
Definition A_low : SUNMatrix :=
  {| sm_content :=
       {| c_M := 3; c_N := 3; c_ldim := 2; c_mu := 0; c_ml := 1; c_s_mu := 0;
          c_data := Some (Ptr 3%nat 0); c_ldata := 6;
          c_cols := [Ptr 3%nat 0; Ptr 3%nat 2; Ptr 3%nat 4] |};
     sm_ops := BandOps |}.

Definition B_low : SUNMatrix :=
  {| sm_content :=
       {| c_M := 3; c_N := 3; c_ldim := 2; c_mu := 0; c_ml := 1; c_s_mu := 0;
          c_data := Some (Ptr 8%nat 0); c_ldata := 6;
          c_cols := [Ptr 8%nat 0; Ptr 8%nat 2; Ptr 8%nat 4] |};
     sm_ops := BandOps |}.

(** The matrices (1 0 0; 2 3 0; 0 4 5) and (10 0 0; 20 30 0; 0 40 50)
    stored by columns; the last cell of each array is not an element of
    the matrix. *)
Definition m_low : gmap block (list (@realtype Z_real)) :=
  <[3%nat := [1; 2; 3; 4; 5; 6]]> (<[8%nat := [10; 20; 30; 40; 50; 60]]> ∅).

(** ** The food web example: idas/examples_par/iwebpk.c *)

(** What iwebpk.c needs of realtype beyond [RealMath]: the unary minus,
    sin of math.h and the value of a decimal literal, as in RCONST(0.05). *)
Class WebMath (R : RealType) := {
  rneg : realtype -> realtype;
  rsin : realtype -> realtype;
  RCONST : Q -> realtype
}.

(** Exact rational arithmetic; sin has no rational values to offer and is
    replaced by the identity, which the statements do not look at. *)
#[export] Instance Qc_web : WebMath Qc_real :=
  {| rneg := Qcopp; rsin := λ x, x; RCONST := Q2Qc |}.

Module Iwebpk.

(** *** Problem constants

    NUM_SPECIES is defined without parentheses, as 2*NPREY; wherever the
    file uses it, the product it expands into has the value written
    here. *)
Definition NPREY : Z := 1.
Definition NUM_SPECIES : Z := 2 * NPREY.
Definition MXSUB : Z := 10.
Definition MYSUB : Z := 10.
Definition NPEX : Z := 2.
Definition NPEY : Z := 2.
Definition MX : Z := MXSUB * NPEX.
Definition MY : Z := MYSUB * NPEY.
Definition NSMXSUB : Z := NUM_SPECIES * MXSUB.
Definition NEQ : Z := NUM_SPECIES * MX * MY.

(** The calls of the MPI library, in the order they are made: the buffer,
    the count, the destination or source, the tag, and for a receive the
    index of its request in request[4]. *)
Inductive mpi_call :=
| MPI_Send (buf : ptr) (count dest tag : Z)
| MPI_Irecv (buf : ptr) (count source tag request : Z)
| MPI_Wait (request : Z).

(** IJ_Vptr(vv,i,j) = &NV_Ith_P(vv, i*NUM_SPECIES + j*NSMXSUB) *)
Definition IJ_Vptr (vv : ptr) (i j : Z) : ptr :=
  ptr_add vv (i * NUM_SPECIES + j * NSMXSUB).

Section Web.
Context {R : RealType} {RM : RealMath R} {WM : WebMath R}.

Definition PI : realtype := RCONST (31415926535898 # 10000000000000).
Definition FOURPI : realtype := rmul (RCONST 4) PI.
Definition AA : realtype := RCONST 1.
Definition EE : realtype := RCONST 10000.
Definition GG : realtype := RCONST (5 # 10000000).
Definition BB : realtype := RCONST 1.
Definition DPREY : realtype := RCONST 1.
Definition DPRED : realtype := RCONST (5 # 100).
Definition ALPHA : realtype := RCONST 50.
Definition BETA : realtype := RCONST 1000.
Definition AX : realtype := RCONST 1.
Definition AY : realtype := RCONST 1.

(** The type UserData, without the preconditioner blocks PP and pivot, the
    communicator and ida_mem.  A vector is passed as the pointer NV_DATA_P
    gives, an array inside the structure as the pointer to its first
    element; acoef, made by denalloc, is an array of row pointers. *)
Record UserData := {
  ud_ns : Z; ud_np : Z; ud_thispe : Z; ud_npes : Z;
  ud_ixsub : Z; ud_jysub : Z; ud_npex : Z; ud_npey : Z;
  ud_mxsub : Z; ud_mysub : Z; ud_nsmxsub : Z; ud_nsmxsub2 : Z;
  ud_dx : realtype; ud_dy : realtype;
  ud_acoef : list ptr;
  ud_cox : ptr; ud_coy : ptr; ud_bcoef : ptr; ud_rhs : ptr; ud_cext : ptr;
  ud_rates : ptr
}.

(** acoef[i]: reading the row pointer outside the array is undefined. *)
Definition acoef_row (webdata : UserData) (i : Z) : option ptr :=
  if decide (0 <= i) then ud_acoef webdata !! Z.to_nat i else None.

(** [p] points to at least [n] elements of an array of [m]. *)
Definition array_at (m : gmap block (list realtype)) (p : ptr) (n : Z) : Prop :=
  exists arr, m !! p_block p = Some arr /\
    0 <= p_off p /\ p_off p + n <= Z.of_nat (length arr).

(** dst[k] has been assigned src[j] by one of the copies
    [for (i = 0; i < n2; i++) dst[g a + i] = src[f a + i]], a = 0 .. n1-1. *)
Definition copied (n1 n2 : Z) (f g : Z -> Z) (k j : Z) : Prop :=
  exists a i, 0 <= a < n1 /\ 0 <= i < n2 /\ k = g a + i /\ j = f a + i.

(** [u] is [m] after the assignments dst[k] = src[j] for the pairs (k,j) of
    [S]: nothing else has changed. *)
Definition extended (S : Z -> Z -> Prop) (src dst : ptr)
    (m u : gmap block (list realtype)) : Prop :=
  same_lengths m u /\
  (forall b, b ≠ p_block dst -> u !! b = m !! b) /\
  (forall k j, S k j -> load u dst k = load m src j) /\
  (forall k, (forall j, ~ S k j) -> load u dst k = load m dst k).

(** *** InitUserData *)

Definition InitUserData (webdata : UserData) (thispe npes : Z)
    (m : gmap block (list realtype)) : option (UserData * gmap block (list realtype)) :=
  let jysub := thispe `quot` NPEX in
  let ixsub := thispe - jysub * NPEX in
  let dx := rdiv AX (rofZ (MX - 1)) in
  let dy := rdiv AY (rofZ (MY - 1)) in
  let webdata' :=
    {| ud_ns := NUM_SPECIES; ud_np := NPREY;
       ud_thispe := thispe; ud_npes := npes;
       ud_ixsub := ixsub; ud_jysub := jysub;
       ud_npex := NPEX; ud_npey := NPEY;
       ud_mxsub := MXSUB; ud_mysub := MYSUB;
       ud_nsmxsub := MXSUB * NUM_SPECIES;
       ud_nsmxsub2 := (MXSUB + 2) * NUM_SPECIES;
       ud_dx := dx; ud_dy := dy;
       ud_acoef := ud_acoef webdata;
       ud_cox := ud_cox webdata; ud_coy := ud_coy webdata;
       ud_bcoef := ud_bcoef webdata; ud_rhs := ud_rhs webdata;
       ud_cext := ud_cext webdata; ud_rates := ud_rates webdata |} in
  (* Set up the coefficients a and b plus others found in the equations. *)
  let np := ud_np webdata' in
  let dx2 := rmul (ud_dx webdata') (ud_dx webdata') in
  let dy2 := rmul (ud_dy webdata') (ud_dy webdata') in
  let bcoef := ud_bcoef webdata' in
  let cox := ud_cox webdata' in
  let coy := ud_coy webdata' in
  m' ← for_range 0 np
         (λ i m,
            a1 ← (λ r, ptr_add r np) <$> acoef_row webdata' i;
            a2 ← (λ r, ptr_add r 0) <$> acoef_row webdata' (i + np);
            a3 ← (λ r, ptr_add r 0) <$> acoef_row webdata' i;
            a4 ← (λ r, ptr_add r np) <$> acoef_row webdata' (i + np);
            (* Fill in the portion of acoef in the four quadrants, row by row. *)
            s ← for_range 0 np
                  (λ j '(m, a1, a2, a3, a4),
                     m ← store m a1 0 (rneg GG);
                     m ← store m a2 0 EE;
                     m ← store m a3 0 ZERO;
                     m ← store m a4 0 ZERO;
                     Some (m, ptr_add a1 1, ptr_add a2 1, ptr_add a3 1, ptr_add a4 1))
                  (m, a1, a2, a3, a4);
            let m := s.1.1.1.1 in
            (* Reset the diagonal elements of acoef to -AA. *)
            r ← acoef_row webdata' i;
            m ← store m r i (rneg AA);
            r ← acoef_row webdata' (i + np);
            m ← store m r (i + np) (rneg AA);
            (* Set coefficients for b and diffusion terms. *)
            m ← store m bcoef i BB;
            m ← store m bcoef (i + np) (rneg BB);
            m ← store m cox i (rdiv DPREY dx2);
            m ← store m cox (i + np) (rdiv DPRED dx2);
            m ← store m coy i (rdiv DPREY dy2);
            store m coy (i + np) (rdiv DPRED dy2)) m;
  Some (webdata', m').

(** *** The communication of rescomm *)

(** BSend; [bufleft] and [bufright] are its two local arrays. *)
Definition BSend (my_pe ixsub jysub dsizex dsizey : Z) (cdata : ptr)
    (bufleft bufright : ptr) (m : gmap block (list realtype))
  : option (list mpi_call * gmap block (list realtype)) :=
  (* If jysub > 0, send data from bottom x-line of cc. *)
  let calls :=
    if decide (jysub ≠ 0)
    then [MPI_Send (ptr_add cdata 0) dsizex (my_pe - NPEX) 0] else [] in
  (* If jysub < NPEY-1, send data from top x-line of cc. *)
  let calls :=
    if decide (jysub ≠ NPEY - 1)
    then let offsetc := (MYSUB - 1) * dsizex in
         calls ++ [MPI_Send (ptr_add cdata offsetc) dsizex (my_pe + NPEX) 0]
    else calls in
  (* If ixsub > 0, send data from left y-line of cc (via bufleft). *)
  s ← (if decide (ixsub ≠ 0)
       then m ← for_range 0 MYSUB
                  (λ ly m,
                     let offsetbuf := ly * NUM_SPECIES in
                     let offsetc := ly * dsizex in
                     for_range 0 NUM_SPECIES
                       (λ i m, v ← load m cdata (offsetc + i);
                               store m bufleft (offsetbuf + i) v) m) m;
            Some (calls ++ [MPI_Send (ptr_add bufleft 0) dsizey (my_pe - 1) 0], m)
       else Some (calls, m));
  (* If ixsub < NPEX-1, send data from right y-line of cc (via bufright). *)
  (if decide (ixsub ≠ NPEX - 1)
   then m ← for_range 0 MYSUB
              (λ ly m,
                 let offsetbuf := ly * NUM_SPECIES in
                 let offsetc := offsetbuf * MXSUB + (MXSUB - 1) * NUM_SPECIES in
                 for_range 0 NUM_SPECIES
                   (λ i m, v ← load m cdata (offsetc + i);
                           store m bufright (offsetbuf + i) v) m) s.2;
        Some (s.1 ++ [MPI_Send (ptr_add bufright 0) dsizey (my_pe + 1) 0], m)
   else Some s).

Definition BRecvPost (my_pe ixsub jysub dsizex dsizey : Z) (cext buffer : ptr)
  : list mpi_call :=
  (* Have bufleft and bufright use the same buffer. *)
  let bufleft := buffer in
  let bufright := ptr_add buffer (NUM_SPECIES * MYSUB) in
  (* If jysub > 0, receive data for bottom x-line of cext. *)
  (if decide (jysub ≠ 0)
   then [MPI_Irecv (ptr_add cext NUM_SPECIES) dsizex (my_pe - NPEX) 0 0] else [])
  (* If jysub < NPEY-1, receive data for top x-line of cext. *)
  ++ (if decide (jysub ≠ NPEY - 1)
      then let offsetce := NUM_SPECIES * (1 + (MYSUB + 1) * (MXSUB + 2)) in
           [MPI_Irecv (ptr_add cext offsetce) dsizex (my_pe + NPEX) 0 1]
      else [])
  (* If ixsub > 0, receive data for left y-line of cext (via bufleft). *)
  ++ (if decide (ixsub ≠ 0)
      then [MPI_Irecv (ptr_add bufleft 0) dsizey (my_pe - 1) 0 2] else [])
  (* If ixsub < NPEX-1, receive data for right y-line of cext (via bufright). *)
  ++ (if decide (ixsub ≠ NPEX - 1)
      then [MPI_Irecv (ptr_add bufright 0) dsizey (my_pe + 1) 0 3] else []).

(** BRecvWait; [wait r m] is the memory when MPI_Wait on request r returns,
    the message received being in its buffer. *)
Definition BRecvWait (wait : Z -> gmap block (list realtype) -> gmap block (list realtype))
    (ixsub jysub dsizex : Z) (cext buffer : ptr) (m : gmap block (list realtype))
  : option (list mpi_call * gmap block (list realtype)) :=
  let bufleft := buffer in
  let bufright := ptr_add buffer (NUM_SPECIES * MYSUB) in
  let dsizex2 := dsizex + 2 * NUM_SPECIES in
  (* If jysub > 0, receive data for bottom x-line of cext. *)
  let s := if decide (jysub ≠ 0) then ([MPI_Wait 0], wait 0 m) else ([], m) in
  (* If jysub < NPEY-1, receive data for top x-line of cext. *)
  let s := if decide (jysub ≠ NPEY - 1)
           then (s.1 ++ [MPI_Wait 1], wait 1 s.2) else s in
  (* If ixsub > 0, receive data for left y-line of cext (via bufleft). *)
  s ← (if decide (ixsub ≠ 0)
       then (* Copy the buffer to cext *)
            m ← for_range 0 MYSUB
                  (λ ly m,
                     let offsetbuf := ly * NUM_SPECIES in
                     let offsetce := (ly + 1) * dsizex2 in
                     for_range 0 NUM_SPECIES
                       (λ i m, v ← load m bufleft (offsetbuf + i);
                               store m cext (offsetce + i) v) m) (wait 2 s.2);
            Some (s.1 ++ [MPI_Wait 2], m)
       else Some s);
  (* If ixsub < NPEX-1, receive data for right y-line of cext (via bufright). *)
  (if decide (ixsub ≠ NPEX - 1)
   then (* Copy the buffer to cext *)
        m ← for_range 0 MYSUB
              (λ ly m,
                 let offsetbuf := ly * NUM_SPECIES in
                 let offsetce := (ly + 2) * dsizex2 - NUM_SPECIES in
                 for_range 0 NUM_SPECIES
                   (λ i m, v ← load m bufright (offsetbuf + i);
                           store m cext (offsetce + i) v) m) (wait 3 s.2);
        Some (s.1 ++ [MPI_Wait 3], m)
   else Some s).

(** rescomm; [buffer] is its local array, [bufleft] and [bufright] those
    of BSend.  The vector cp is not used. *)
Definition rescomm (wait : Z -> gmap block (list realtype) -> gmap block (list realtype))
    (cc cp : ptr) (rdata : UserData) (buffer bufleft bufright : ptr)
    (m : gmap block (list realtype))
  : option (Z * list mpi_call * gmap block (list realtype)) :=
  let webdata := rdata in
  let cdata := cc in
  (* Get comm, thispe, subgrid indices, data sizes, extended array cext. *)
  let thispe := ud_thispe webdata in
  let ixsub := ud_ixsub webdata in
  let jysub := ud_jysub webdata in
  let cext := ud_cext webdata in
  let nsmxsub := ud_nsmxsub webdata in
  let nsmysub := ud_ns webdata * ud_mysub webdata in
  (* Start receiving boundary data from neighboring PEs. *)
  let posted := BRecvPost thispe ixsub jysub nsmxsub nsmysub cext buffer in
  (* Send data from boundary of local grid to neighboring PEs. *)
  sent ← BSend thispe ixsub jysub nsmxsub nsmysub cdata bufleft bufright m;
  (* Finish receiving boundary data from neighboring PEs. *)
  waited ← BRecvWait wait ixsub jysub nsmxsub cext buffer sent.2;
  Some (0, posted ++ sent.1 ++ waited.1, waited.2).

(** *** The residual *)

(** The array at [p] starts with the elements [xs]. *)
Definition holds (m : gmap block (list realtype)) (p : ptr) (xs : list realtype) : Prop :=
  forall i x, xs !! i = Some x -> load m p (Z.of_nat i) = Some x.

(** xs[0]*ys[0] + xs[1]*ys[1] + ..., added up from ZERO in this order. *)
Definition dot (xs ys : list realtype) : realtype :=
  foldl (λ acc p, radd acc (rmul p.1 p.2)) ZERO (zip xs ys).

Definition dotprod (size : Z) (x1 x2 : ptr) (m : gmap block (list realtype))
  : option realtype :=
  s ← for_range 0 size
        (λ i '(temp, xx1, xx2),
           a ← load m xx1 0;
           b ← load m xx2 0;
           Some (radd temp (rmul a b), ptr_add xx1 1, ptr_add xx2 1))
        (ZERO, x1, x2);
  Some s.1.1.

Definition WebRates (xx yy : realtype) (cxy ratesxy : ptr) (webdata : UserData)
    (m : gmap block (list realtype)) : option (gmap block (list realtype)) :=
  m ← for_range 0 NUM_SPECIES
        (λ is_ m, row ← acoef_row webdata is_;
                  d ← dotprod NUM_SPECIES cxy row m;
                  store m ratesxy is_ d) m;
  let fac := radd (radd ONE (rmul (rmul ALPHA xx) yy))
                  (rmul (rmul BETA (rsin (rmul FOURPI xx))) (rsin (rmul FOURPI yy))) in
  for_range 0 NUM_SPECIES
    (λ is_ m, c ← load m cxy is_;
              b ← load m (ud_bcoef webdata) is_;
              r ← load m ratesxy is_;
              store m ratesxy is_ (rmul c (radd (rmul b fac) r))) m.

(** The copy loop [for (i = 0; i < n; i++) cext[locce+i] = cdata[locc+i]]. *)
Definition copy_line (n : Z) (cext : ptr) (locce : Z) (cdata : ptr) (locc : Z)
    (m : gmap block (list realtype)) : option (gmap block (list realtype)) :=
  for_range 0 n (λ i m, v ← load m cdata (locc + i); store m cext (locce + i) v) m.

Definition reslocal (tt : realtype) (cc cp res : ptr) (rdata : UserData)
    (m : gmap block (list realtype)) : option (Z * gmap block (list realtype)) :=
  let webdata := rdata in
  let mxsub := ud_mxsub webdata in
  let mysub := ud_mysub webdata in
  let npex := ud_npex webdata in
  let npey := ud_npey webdata in
  let ixsub := ud_ixsub webdata in
  let jysub := ud_jysub webdata in
  let nsmxsub := ud_nsmxsub webdata in
  let nsmxsub2 := ud_nsmxsub2 webdata in
  let np := ud_np webdata in
  let dx := ud_dx webdata in
  let dy := ud_dy webdata in
  let cox := ud_cox webdata in
  let coy := ud_coy webdata in
  let rhs := ud_rhs webdata in
  let cext := ud_cext webdata in
  let rates := ud_rates webdata in
  (* Get data pointers, subgrid data, array sizes, work array cext. *)
  let cdata := cc in
  (* Copy local segment of cc vector into the working extended array cext. *)
  s ← for_range 0 mysub
        (λ jy '(m, locc, locce),
           m ← copy_line nsmxsub cext locce cdata locc m;
           Some (m, locc + nsmxsub, locce + nsmxsub2))
        (m, 0, nsmxsub2 + NUM_SPECIES);
  let m := s.1.1 in
  (* If jysub = 0, copy x-line 2 of cc to cext. *)
  m ← (if decide (jysub = 0)
       then copy_line nsmxsub cext NUM_SPECIES cdata nsmxsub m else Some m);
  (* If jysub = npey-1, copy x-line mysub-1 of cc to cext. *)
  m ← (if decide (jysub = npey - 1)
       then let locc := (mysub - 2) * nsmxsub in
            let locce := (mysub + 1) * nsmxsub2 + NUM_SPECIES in
            copy_line nsmxsub cext locce cdata locc m
       else Some m);
  (* If ixsub = 0, copy y-line 2 of cc to cext. *)
  m ← (if decide (ixsub = 0)
       then for_range 0 mysub
              (λ jy m,
                 let locc := jy * nsmxsub + NUM_SPECIES in
                 let locce := (jy + 1) * nsmxsub2 in
                 copy_line NUM_SPECIES cext locce cdata locc m) m
       else Some m);
  (* If ixsub = npex-1, copy y-line mxsub-1 of cc to cext. *)
  m ← (if decide (ixsub = npex - 1)
       then for_range 0 mysub
              (λ jy m,
                 let locc := (jy + 1) * nsmxsub - 2 * NUM_SPECIES in
                 let locce := (jy + 2) * nsmxsub2 - NUM_SPECIES in
                 copy_line NUM_SPECIES cext locce cdata locc m) m
       else Some m);
  (* Loop over all grid points, setting local array rates to right-hand sides.
     Then set res values appropriately for prey/predator components of F. *)
  m ← for_range 0 mysub
        (λ jy m,
           let ylocce := (jy + 1) * nsmxsub2 in
           let yy := rmul (rofZ (jy + jysub * mysub)) dy in
           for_range 0 mxsub
             (λ ix m,
                let locce := ylocce + (ix + 1) * NUM_SPECIES in
                let xx := rmul (rofZ (ix + ixsub * mxsub)) dx in
                let ratesxy := IJ_Vptr rates ix jy in
                m ← WebRates xx yy (ptr_add cext locce) ratesxy webdata m;
                let resxy := IJ_Vptr res ix jy in
                let cpxy := IJ_Vptr cp ix jy in
                for_range 0 NUM_SPECIES
                  (λ is_ m,
                     c ← load m cext (locce + is_);
                     cyl ← load m cext (locce + is_ - nsmxsub2);
                     cyu ← load m cext (locce + is_ + nsmxsub2);
                     cxl ← load m cext (locce + is_ - NUM_SPECIES);
                     cxu ← load m cext (locce + is_ + NUM_SPECIES);
                     let dcyli := rsub c cyl in
                     let dcyui := rsub cyu c in
                     let dcxli := rsub c cxl in
                     let dcxui := rsub cxu c in
                     co_x ← load m cox is_;
                     co_y ← load m coy is_;
                     rt ← load m ratesxy is_;
                     m ← store m rhs is_
                           (radd (radd (rmul co_x (rsub dcxui dcxli))
                                       (rmul co_y (rsub dcyui dcyli))) rt);
                     rh ← load m rhs is_;
                     if decide (is_ < np)
                     then cpv ← load m cpxy is_; store m resxy is_ (rsub cpv rh)
                     else store m resxy is_ (rneg rh)) m) m) m;
  Some (0, m).

(** The two parts of reslocal, for the statements about it: the copies into
    the extended array cext, and the loop over the grid points. *)
Definition reslocal_extend (cc : ptr) (rdata : UserData)
    (m : gmap block (list realtype)) : option (gmap block (list realtype)) :=
  let webdata := rdata in
  let mxsub := ud_mxsub webdata in
  let mysub := ud_mysub webdata in
  let npex := ud_npex webdata in
  let npey := ud_npey webdata in
  let ixsub := ud_ixsub webdata in
  let jysub := ud_jysub webdata in
  let nsmxsub := ud_nsmxsub webdata in
  let nsmxsub2 := ud_nsmxsub2 webdata in
  let np := ud_np webdata in
  let dx := ud_dx webdata in
  let dy := ud_dy webdata in
  let cox := ud_cox webdata in
  let coy := ud_coy webdata in
  let rhs := ud_rhs webdata in
  let cext := ud_cext webdata in
  let rates := ud_rates webdata in
  (* Get data pointers, subgrid data, array sizes, work array cext. *)
  let cdata := cc in
  (* Copy local segment of cc vector into the working extended array cext. *)
  s ← for_range 0 mysub
        (λ jy '(m, locc, locce),
           m ← copy_line nsmxsub cext locce cdata locc m;
           Some (m, locc + nsmxsub, locce + nsmxsub2))
        (m, 0, nsmxsub2 + NUM_SPECIES);
  let m := s.1.1 in
  (* If jysub = 0, copy x-line 2 of cc to cext. *)
  m ← (if decide (jysub = 0)
       then copy_line nsmxsub cext NUM_SPECIES cdata nsmxsub m else Some m);
  (* If jysub = npey-1, copy x-line mysub-1 of cc to cext. *)
  m ← (if decide (jysub = npey - 1)
       then let locc := (mysub - 2) * nsmxsub in
            let locce := (mysub + 1) * nsmxsub2 + NUM_SPECIES in
            copy_line nsmxsub cext locce cdata locc m
       else Some m);
  (* If ixsub = 0, copy y-line 2 of cc to cext. *)
  m ← (if decide (ixsub = 0)
       then for_range 0 mysub
              (λ jy m,
                 let locc := jy * nsmxsub + NUM_SPECIES in
                 let locce := (jy + 1) * nsmxsub2 in
                 copy_line NUM_SPECIES cext locce cdata locc m) m
       else Some m);
  (* If ixsub = npex-1, copy y-line mxsub-1 of cc to cext. *)
  m ← (if decide (ixsub = npex - 1)
       then for_range 0 mysub
              (λ jy m,
                 let locc := (jy + 1) * nsmxsub - 2 * NUM_SPECIES in
                 let locce := (jy + 2) * nsmxsub2 - NUM_SPECIES in
                 copy_line NUM_SPECIES cext locce cdata locc m) m
       else Some m);
  Some m.

Definition reslocal_points (cp res : ptr) (rdata : UserData)
    (m : gmap block (list realtype)) : option (gmap block (list realtype)) :=
  let webdata := rdata in
  let mxsub := ud_mxsub webdata in
  let mysub := ud_mysub webdata in
  let npex := ud_npex webdata in
  let npey := ud_npey webdata in
  let ixsub := ud_ixsub webdata in
  let jysub := ud_jysub webdata in
  let nsmxsub := ud_nsmxsub webdata in
  let nsmxsub2 := ud_nsmxsub2 webdata in
  let np := ud_np webdata in
  let dx := ud_dx webdata in
  let dy := ud_dy webdata in
  let cox := ud_cox webdata in
  let coy := ud_coy webdata in
  let rhs := ud_rhs webdata in
  let cext := ud_cext webdata in
  let rates := ud_rates webdata in
  (* Loop over all grid points, setting local array rates to right-hand sides.
     Then set res values appropriately for prey/predator components of F. *)
  m ← for_range 0 mysub
        (λ jy m,
           let ylocce := (jy + 1) * nsmxsub2 in
           let yy := rmul (rofZ (jy + jysub * mysub)) dy in
           for_range 0 mxsub
             (λ ix m,
                let locce := ylocce + (ix + 1) * NUM_SPECIES in
                let xx := rmul (rofZ (ix + ixsub * mxsub)) dx in
                let ratesxy := IJ_Vptr rates ix jy in
                m ← WebRates xx yy (ptr_add cext locce) ratesxy webdata m;
                let resxy := IJ_Vptr res ix jy in
                let cpxy := IJ_Vptr cp ix jy in
                for_range 0 NUM_SPECIES
                  (λ is_ m,
                     c ← load m cext (locce + is_);
                     cyl ← load m cext (locce + is_ - nsmxsub2);
                     cyu ← load m cext (locce + is_ + nsmxsub2);
                     cxl ← load m cext (locce + is_ - NUM_SPECIES);
                     cxu ← load m cext (locce + is_ + NUM_SPECIES);
                     let dcyli := rsub c cyl in
                     let dcyui := rsub cyu c in
                     let dcxli := rsub c cxl in
                     let dcxui := rsub cxu c in
                     co_x ← load m cox is_;
                     co_y ← load m coy is_;
                     rt ← load m ratesxy is_;
                     m ← store m rhs is_
                           (radd (radd (rmul co_x (rsub dcxui dcxli))
                                       (rmul co_y (rsub dcyui dcyli))) rt);
                     rh ← load m rhs is_;
                     if decide (is_ < np)
                     then cpv ← load m cpxy is_; store m resxy is_ (rsub cpv rh)
                     else store m resxy is_ (rneg rh)) m) m) m;
  Some m.

(** What reslocal computes at the grid point (ix,jy) for the species is_,
    as the header comment of iwebpk.c has it: with the concentrations cs at
    the point, taken from cext, the coefficients of InitUserData, and the
    four neighbours of the point in cext,
      rates = c*(b*fac + dot(cs, acoef[is_])),
      rhs   = cox*((cxu-c)-(c-cxl)) + coy*((cyu-c)-(c-cyl)) + rates,
      res   = cp - rhs for a prey species, -rhs for a predator.
    The inputs are read in the memory [t], the results in [u]. *)
Definition residual_at (webdata : UserData) (cp res : ptr)
    (t u : gmap block (list realtype)) (ix jy is_ : Z) : Prop :=
  let cext := ud_cext webdata in
  let nsmxsub2 := ud_nsmxsub2 webdata in
  let locce := (jy + 1) * nsmxsub2 + (ix + 1) * NUM_SPECIES in
  let xx := rmul (rofZ (ix + ud_ixsub webdata * ud_mxsub webdata)) (ud_dx webdata) in
  let yy := rmul (rofZ (jy + ud_jysub webdata * ud_mysub webdata)) (ud_dy webdata) in
  let fac := radd (radd ONE (rmul (rmul ALPHA xx) yy))
                  (rmul (rmul BETA (rsin (rmul FOURPI xx))) (rsin (rmul FOURPI yy))) in
  exists cs row as_ c b cxl cxu cyl cyu co_x co_y cpv,
    holds t (ptr_add cext locce) cs /\ length cs = Z.to_nat NUM_SPECIES /\
    acoef_row webdata is_ = Some row /\
    holds t row as_ /\ length as_ = Z.to_nat NUM_SPECIES /\
    load t cext (locce + is_) = Some c /\
    load t (ud_bcoef webdata) is_ = Some b /\
    load t cext (locce + is_ - NUM_SPECIES) = Some cxl /\
    load t cext (locce + is_ + NUM_SPECIES) = Some cxu /\
    load t cext (locce + is_ - nsmxsub2) = Some cyl /\
    load t cext (locce + is_ + nsmxsub2) = Some cyu /\
    load t (ud_cox webdata) is_ = Some co_x /\
    load t (ud_coy webdata) is_ = Some co_y /\
    load t (IJ_Vptr cp ix jy) is_ = Some cpv /\
    let rate := rmul c (radd (rmul b fac) (dot cs as_)) in
    let rhs := radd (radd (rmul co_x (rsub (rsub cxu c) (rsub c cxl)))
                          (rmul co_y (rsub (rsub cyu c) (rsub c cyl)))) rate in
    load u (IJ_Vptr (ud_rates webdata) ix jy) is_ = Some rate /\
    load u (IJ_Vptr res ix jy) is_
    = Some (if decide (is_ < ud_np webdata) then rsub cpv rhs else rneg rhs).

(** resweb: rescomm, then reslocal; the results of both are dropped and 0
    is returned. *)
Definition resweb (wait : Z -> gmap block (list realtype) -> gmap block (list realtype))
    (tt : realtype) (cc cp res : ptr) (rdata : UserData)
    (buffer bufleft bufright : ptr) (m : gmap block (list realtype))
  : option (Z * list mpi_call * gmap block (list realtype)) :=
  let webdata := rdata in
  (* Call rescomm to do inter-processor communication. *)
  c ← rescomm wait cc cp webdata buffer bufleft bufright m;
  (* Call reslocal to calculate the local portion of residual vector. *)
  r ← reslocal tt cc cp res webdata c.2;
  Some (0, c.1.2, r.2).

End Web.

End Iwebpk.

(** ** Sample objects of the food web example

    The arrays of one process of iwebpk.c in exact rational arithmetic:
    block 0 holds the vector cc with cc[k] = k, 1 cp, 2 res, 3 rates,
    4 cext, 5 cox, 6 coy, 7 bcoef, 8 rhs, 9 and 10 the two rows of acoef,
    11 the array buffer of rescomm, 12 and 13 bufleft and bufright of
    BSend. *)
Definition web_cc : ptr := Ptr 0%nat 0.
Definition web_cp : ptr := Ptr 1%nat 0.
Definition web_res : ptr := Ptr 2%nat 0.
Definition web_buffer : ptr := Ptr 11%nat 0.
Definition web_bufleft : ptr := Ptr 12%nat 0.
Definition web_bufright : ptr := Ptr 13%nat 0.

Definition web_zeros (n : nat) : list (@realtype Qc_real) := replicate n (Q2Qc 0).

Definition web_cc_elems : list (@realtype Qc_real) :=
  (λ k, Q2Qc (inject_Z k)) <$> seqZ 0 200.

(** The structure AllocUserData returns, nothing set but the arrays. *)
Definition web_data0 : @Iwebpk.UserData Qc_real :=
  {| Iwebpk.ud_ns := 0; Iwebpk.ud_np := 0; Iwebpk.ud_thispe := 0; Iwebpk.ud_npes := 0;
     Iwebpk.ud_ixsub := 0; Iwebpk.ud_jysub := 0; Iwebpk.ud_npex := 0; Iwebpk.ud_npey := 0;
     Iwebpk.ud_mxsub := 0; Iwebpk.ud_mysub := 0;
     Iwebpk.ud_nsmxsub := 0; Iwebpk.ud_nsmxsub2 := 0;
     Iwebpk.ud_dx := Q2Qc 0; Iwebpk.ud_dy := Q2Qc 0;
     Iwebpk.ud_acoef := [Ptr 9%nat 0; Ptr 10%nat 0];
     Iwebpk.ud_cox := Ptr 5%nat 0; Iwebpk.ud_coy := Ptr 6%nat 0;
     Iwebpk.ud_bcoef := Ptr 7%nat 0; Iwebpk.ud_rhs := Ptr 8%nat 0;
     Iwebpk.ud_cext := Ptr 4%nat 0; Iwebpk.ud_rates := Ptr 3%nat 0 |}.

Definition web_arrays (a0 a1 b cx cy : list (@realtype Qc_real))
  : gmap block (list (@realtype Qc_real)) :=
  list_to_map
    [(0%nat, web_cc_elems); (1%nat, web_zeros 200); (2%nat, web_zeros 200);
     (3%nat, web_zeros 200); (4%nat, web_zeros 288);
     (5%nat, cx); (6%nat, cy); (7%nat, b); (8%nat, web_zeros 2);
     (9%nat, a0); (10%nat, a1);
     (11%nat, web_zeros 40); (12%nat, web_zeros 20); (13%nat, web_zeros 20)].

(** The memory before InitUserData. *)
Definition web_mem0 : gmap block (list (@realtype Qc_real)) :=
  web_arrays (web_zeros 2) (web_zeros 2) (web_zeros 2) (web_zeros 2) (web_zeros 2).

(** The structure and the memory after InitUserData(webdata, thispe, 4). *)
Definition web_data (thispe : Z) : @Iwebpk.UserData Qc_real :=
  {| Iwebpk.ud_ns := 2; Iwebpk.ud_np := 1;
     Iwebpk.ud_thispe := thispe; Iwebpk.ud_npes := 4;
     Iwebpk.ud_ixsub := thispe - thispe `quot` 2 * 2; Iwebpk.ud_jysub := thispe `quot` 2;
     Iwebpk.ud_npex := 2; Iwebpk.ud_npey := 2;
     Iwebpk.ud_mxsub := 10; Iwebpk.ud_mysub := 10;
     Iwebpk.ud_nsmxsub := 20; Iwebpk.ud_nsmxsub2 := 24;
     Iwebpk.ud_dx := rdiv Iwebpk.AX (rofZ 19); Iwebpk.ud_dy := rdiv Iwebpk.AY (rofZ 19);
     Iwebpk.ud_acoef := [Ptr 9%nat 0; Ptr 10%nat 0];
     Iwebpk.ud_cox := Ptr 5%nat 0; Iwebpk.ud_coy := Ptr 6%nat 0;
     Iwebpk.ud_bcoef := Ptr 7%nat 0; Iwebpk.ud_rhs := Ptr 8%nat 0;
     Iwebpk.ud_cext := Ptr 4%nat 0; Iwebpk.ud_rates := Ptr 3%nat 0 |}.

Definition web_dx2 : @realtype Qc_real :=
  rmul (rdiv Iwebpk.AX (rofZ 19)) (rdiv Iwebpk.AX (rofZ 19)).

Definition web_mem : gmap block (list (@realtype Qc_real)) :=
  web_arrays [rneg Iwebpk.AA; rneg Iwebpk.GG] [Iwebpk.EE; rneg Iwebpk.AA]
             [Iwebpk.BB; rneg Iwebpk.BB]
             [rdiv Iwebpk.DPREY web_dx2; rdiv Iwebpk.DPRED web_dx2]
             [rdiv Iwebpk.DPREY web_dx2; rdiv Iwebpk.DPRED web_dx2].

(** MPI_Wait that delivers nothing new. *)
Definition web_wait (r : Z) (m : gmap block (list (@realtype Qc_real)))
  : gmap block (list (@realtype Qc_real)) := m.

(** The calls rescomm makes on the processes 0 and 1. *)
Definition web_calls0 : list Iwebpk.mpi_call :=
  [Iwebpk.MPI_Irecv (Ptr 4%nat 266) 20 2 0 1; Iwebpk.MPI_Irecv (Ptr 11%nat 20) 20 1 0 3;
   Iwebpk.MPI_Send (Ptr 0%nat 180) 20 2 0; Iwebpk.MPI_Send (Ptr 13%nat 0) 20 1 0;
   Iwebpk.MPI_Wait 1; Iwebpk.MPI_Wait 3].

Definition web_calls1 : list Iwebpk.mpi_call :=
  [Iwebpk.MPI_Irecv (Ptr 4%nat 266) 20 3 0 1; Iwebpk.MPI_Irecv (Ptr 11%nat 0) 20 0 0 2;
   Iwebpk.MPI_Send (Ptr 0%nat 180) 20 3 0; Iwebpk.MPI_Send (Ptr 12%nat 0) 20 0 0;
   Iwebpk.MPI_Wait 1; Iwebpk.MPI_Wait 2].

(** The time 0, the concentrations at the grid point (1,0), and the
    coefficients b and a as InitUserData sets them. *)
Definition web_t0 : @realtype Qc_real := Q2Qc 0.
Definition web_c10 : list (@realtype Qc_real) := [Q2Qc 2; Q2Qc 3].
Definition web_bcoef : list (@realtype Qc_real) := [Iwebpk.BB; rneg Iwebpk.BB].
Definition web_acoef : list (list (@realtype Qc_real)) :=
  [[rneg Iwebpk.AA; rneg Iwebpk.GG]; [Iwebpk.EE; rneg Iwebpk.AA]].

(** * Part II: statements and proofs *)

(** ** Memory and loops *)

Section BandFacts.
Context {R : RealType}.

Implicit Types (m : gmap block (list realtype)) (A : SUNMatrix) (h : heap).

Lemma load_insert_ne m p k b a :
  p_block p ≠ b -> load (<[b:=a]> m) p k = load m p k.
Proof.
  intros Hne. unfold load. case_decide; [|done].
  by rewrite lookup_insert_ne.
Qed.

Lemma load_insert_eq m p k a :
  0 <= p_off p + k ->
  load (<[p_block p:=a]> m) p k = a !! Z.to_nat (p_off p + k).
Proof.
  intros Hk. unfold load. case_decide; [|lia].
  by rewrite lookup_insert_eq.
Qed.

Lemma store_insert_eq m p k v a :
  0 <= p_off p + k < Z.of_nat (length a) ->
  store (<[p_block p:=a]> m) p k v
  = Some (<[p_block p:=<[Z.to_nat (p_off p + k):=v]> a]> m).
Proof.
  intros Hk. unfold store. rewrite lookup_insert_eq. simpl.
  case_decide; [|lia]. by rewrite insert_insert_eq.
Qed.

Lemma for_loop_inv {St : Type} (P : Z -> St -> Prop) (body : Z -> St -> option St) n lo s :
  P lo s ->
  (forall i t, lo <= i < lo + Z.of_nat n -> P i t ->
     exists t', body i t = Some t' /\ P (i + 1) t') ->
  exists t, for_loop n lo body s = Some t /\ P (lo + Z.of_nat n) t.
Proof.
  revert lo s. induction n as [|n IH]; intros lo s Hs Hstep.
  - exists s. split; [done|]. by replace (lo + Z.of_nat 0) with lo by lia.
  - destruct (Hstep lo s) as (t' & Hb & Ht'); [lia|done|].
    destruct (IH (lo + 1) t') as (t & Hl & Ht); [done| |].
    + intros i u Hi Hu. apply Hstep; [lia|done].
    + exists t. split.
      * simpl. rewrite Hb. simpl. done.
      * by replace (lo + Z.of_nat (S n)) with (lo + 1 + Z.of_nat n) by lia.
Qed.

(** A loop whose [i]-th round rewrites the one cell [idx i] of the array
    in block [yb], the cells being pairwise distinct. *)
Lemma for_loop_pointwise
    (idx : Z -> Z) (g : Z -> realtype -> realtype)
    (body : Z -> gmap block (list realtype) -> option (gmap block (list realtype)))
    m yb n lo ys :
  (forall i, lo <= i < lo + Z.of_nat n -> 0 <= idx i < Z.of_nat (length ys)) ->
  (forall i i', lo <= i < i' -> i' < lo + Z.of_nat n -> idx i ≠ idx i') ->
  (forall i ys' v, lo <= i < lo + Z.of_nat n -> length ys' = length ys ->
     ys' !! Z.to_nat (idx i) = Some v ->
     body i (<[yb:=ys']> m) = Some (<[yb:=<[Z.to_nat (idx i):=g i v]> ys']> m)) ->
  exists ys', for_loop n lo body (<[yb:=ys]> m) = Some (<[yb:=ys']> m) /\
    length ys' = length ys /\
    (forall i, lo <= i < lo + Z.of_nat n ->
       ys' !! Z.to_nat (idx i) = g i <$> ys !! Z.to_nat (idx i)) /\
    (forall k : nat, (forall i, lo <= i < lo + Z.of_nat n -> k ≠ Z.to_nat (idx i)) ->
       ys' !! k = ys !! k).
Proof.
  revert lo ys. induction n as [|n IH]; intros lo ys Hin Hinj Hbody.
  - exists ys. split; [done|]. split; [done|]. split; [intros; lia|done].
  - assert (Hlo : 0 <= idx lo < Z.of_nat (length ys)) by (apply Hin; lia).
    destruct (lookup_lt_is_Some_2 ys (Z.to_nat (idx lo))) as [v Hv]; [lia|].
    specialize (Hbody lo ys v ltac:(lia) eq_refl Hv) as Hb.
    set (ys1 := <[Z.to_nat (idx lo):=g lo v]> ys) in *.
    assert (Hlen1 : length ys1 = length ys) by apply length_insert.
    destruct (IH (lo + 1) ys1) as (ys' & Hl & Hlen & Hupd & Hframe).
    + intros i Hi. rewrite Hlen1. apply Hin. lia.
    + intros i i' Hi Hi'. apply Hinj; lia.
    + intros i ys2 w Hi Hlen2 Hw. apply Hbody; [lia|congruence|done].
    + exists ys'. split; [|split; [congruence|split]].
      * simpl. rewrite Hb. simpl. done.
      * intros i Hi. destruct (decide (i = lo)) as [->|Hne].
        -- rewrite Hframe.
           ++ unfold ys1. rewrite list_lookup_insert_eq by lia. by rewrite Hv.
           ++ intros i' Hi' Heq.
              assert (idx lo ≠ idx i') by (apply Hinj; lia).
              assert (0 <= idx i') by (apply Hin; lia). lia.
        -- rewrite Hupd by lia. unfold ys1.
           rewrite list_lookup_insert_ne; [done|].
           assert (idx lo ≠ idx i) by (apply Hinj; lia).
           assert (0 <= idx i) by (apply Hin; lia). lia.
      * intros k Hk. rewrite Hframe.
        -- unfold ys1. rewrite list_lookup_insert_ne; [done|].
           intros Heq. apply (Hk lo); [lia|done].
        -- intros i Hi. apply Hk. lia.
Qed.

(** ** The layout of a band matrix *)

Lemma band_cols A m b j :
  band_layout A m b -> 0 <= j < SM_COLUMNS_B A ->
  SM_COLS_B A j = Some (Ptr b (j * c_ldim (SM_CONTENT_B A))).
Proof.
  intros HL Hj. unfold SM_COLS_B. case_decide; [|lia].
  rewrite (bl_cols _ _ _ HL), list_lookup_fmap, lookup_seqZ_lt by lia.
  simpl. unfold ptr_add. simpl. rewrite Z2Nat.id by lia. done.
Qed.

Lemma load_ptr_add m p a k : load m (ptr_add p a) k = load m p (a + k).
Proof.
  unfold load, ptr_add. simpl.
  by replace (p_off p + a + k) with (p_off p + (a + k)) by lia.
Qed.

(** Column j is addressable in the rows 0 .. j+ml, whatever mu is: above
    row j-s_mu the cell belongs to the storage of an earlier column. *)
Lemma band_elem_index A m b i j :
  band_layout A m b -> 0 <= j < SM_COLUMNS_B A ->
  0 <= i <= j + SM_LBAND_B A ->
  0 <= j * c_ldim (SM_CONTENT_B A) + (i - j + SM_SUBAND_B A) < SM_LDATA_B A.
Proof.
  intros HL Hj Hi.
  pose proof (bl_smu _ _ _ HL). pose proof (bl_ml _ _ _ HL).
  rewrite (bl_ldata _ _ _ HL).
  pose proof (bl_ldim _ _ _ HL) as Hld.
  set (L := c_ldim (SM_CONTENT_B A)) in *.
  assert (j * 1 <= j * L) by (apply Z.mul_le_mono_nonneg_l; lia).
  assert ((j + 1) * L <= SM_COLUMNS_B A * L)
    by (apply Z.mul_le_mono_nonneg_r; lia).
  lia.
Qed.

Lemma SUNMAX_spec a b : SUNMAX a b = Z.max a b.
Proof. unfold SUNMAX. destruct (Z.gtb_spec a b); lia. Qed.

Lemma SUNMIN_spec a b : SUNMIN a b = Z.min a b.
Proof. unfold SUNMIN. destruct (Z.ltb_spec a b); lia. Qed.

Lemma band_sum_S a xv mu ml j i :
  0 <= j ->
  band_sum a xv mu ml (Z.to_nat (j + 1)) i
  = if (j - mu <=? i) && (i <=? j + ml)
    then radd (band_sum a xv mu ml (Z.to_nat j) i) (rmul (a i j) (xv j))
    else band_sum a xv mu ml (Z.to_nat j) i.
Proof.
  intros Hj. replace (Z.to_nat (j + 1)) with (S (Z.to_nat j)) by lia.
  simpl. by rewrite Z2Nat.id by lia.
Qed.

(** ** Matvec *)

(** The product loop: row i of y receives the in-band terms of row i, one
    column after the other. *)
Lemma SUNMatrixMatvec_Band_ok A x y m b xd yd ys :
  band_layout A m b ->
  SMCompatible2_Band A x y = true ->
  N_VGetArrayPointer x = Some xd -> N_VGetArrayPointer y = Some yd ->
  (forall j, 0 <= j < SM_COLUMNS_B A -> is_Some (load m xd j)) ->
  m !! p_block yd = Some ys ->
  0 <= p_off yd -> p_off yd + SM_ROWS_B A <= Z.of_nat (length ys) ->
  p_block yd ≠ p_block xd -> p_block yd ≠ b ->
  exists ys', SUNMatrixMatvec_Band A x y m = Some (0, <[p_block yd:=ys']> m) /\
    length ys' = length ys /\
    (forall i, 0 <= i < SM_ROWS_B A ->
       ys' !! Z.to_nat (p_off yd + i)
       = Some (band_sum (band_elem A m) (vec_elem m xd)
                 (SM_UBAND_B A) (SM_LBAND_B A) (Z.to_nat (SM_COLUMNS_B A)) i)) /\
    (forall k : nat, ~ (p_off yd <= Z.of_nat k < p_off yd + SM_ROWS_B A) ->
       ys' !! k = ys !! k).
Proof.
  intros HL Hc Hx Hy Hxs Hys Hoy Hlen Hxy Hby.
  unfold SUNMatrixMatvec_Band. rewrite Hc, Hx, Hy. simpl.
  assert (Hm : <[p_block yd:=ys]> m = m) by (by apply insert_id).
  (* the rows of y are cleared *)
  destruct (for_loop_pointwise (λ i, p_off yd + i) (λ _ _, ZERO)
              (λ i m, store m yd i ZERO) m (p_block yd)
              (Z.to_nat (SM_ROWS_B A - 0)) 0 ys)
    as (ys1 & Hl1 & Hlen1 & Hz1 & Hf1).
  { intros i Hi. lia. }
  { intros i i' Hi Hi'. lia. }
  { intros i ys' v Hi Hl' Hv. apply store_insert_eq. lia. }
  rewrite Hm in Hl1.
  (* the columns are accumulated one after the other *)
  match goal with |- context [for_range 0 (SM_COLUMNS_B A) ?f] => set (body := f) end.
  set (P := λ (j : Z) (t : gmap block (list realtype)),
         exists ysj, t = <[p_block yd:=ysj]> m /\ length ysj = length ys /\
           (forall i, 0 <= i < SM_ROWS_B A ->
              ysj !! Z.to_nat (p_off yd + i)
              = Some (band_sum (band_elem A m) (vec_elem m xd)
                        (SM_UBAND_B A) (SM_LBAND_B A) (Z.to_nat j) i)) /\
           (forall k : nat, ~ (p_off yd <= Z.of_nat k < p_off yd + SM_ROWS_B A) ->
              ysj !! k = ys !! k)).
  pose proof (bl_N _ _ _ HL) as HN.
  destruct (for_loop_inv P body (Z.to_nat (SM_COLUMNS_B A - 0)) 0
              (<[p_block yd:=ys1]> m))
    as (t & Hl2 & ysN & -> & HlenN & HsumN & HfN).
  { exists ys1. split; [done|]. split; [done|]. split.
    - intros i Hi. rewrite Hz1 by lia. simpl.
      destruct (lookup_lt_is_Some_2 ys (Z.to_nat (p_off yd + i))) as [v ->]; [lia|done].
    - intros k Hk. apply Hf1. intros i Hi. lia. }
  { intros j t Hj (ysj & -> & Hlenj & Hsumj & Hfj).
    unfold body. unfold SM_COLUMN_B.
    rewrite (band_cols A m b j HL) by lia. simpl.
    set (c := Ptr b _).
    set (is_ := SUNMAX _ _). set (ie := SUNMIN _ _).
    assert (His : is_ = Z.max 0 (j - SM_UBAND_B A)) by apply SUNMAX_spec.
    assert (Hie : ie = Z.min (SM_ROWS_B A - 1) (j + SM_LBAND_B A)) by apply SUNMIN_spec.
    destruct (Hxs j) as [xj Hxj]; [lia|].
    destruct (for_loop_pointwise (λ i, p_off yd + i)
                (λ i v, radd v (rmul (band_elem A m i j) (vec_elem m xd j)))
                (λ i m,
                   yi ← load m yd i;
                   a ← load m (ptr_add c (SM_SUBAND_B A)) (i - j);
                   xj ← load m xd j;
                   store m yd i (radd yi (rmul a xj)))
                m (p_block yd) (Z.to_nat (ie + 1 - is_)) is_ ysj)
      as (ys2 & Hl & Hlen2 & Hu2 & Hf2).
    { intros i Hi. lia. }
    { intros i i' Hi Hi'. lia. }
    { intros i ys' v Hi Hl' Hv.
      rewrite load_insert_eq by lia. rewrite Hv. simpl.
      rewrite load_insert_ne by (subst c; simpl; done).
      rewrite load_insert_ne by done.
      rewrite load_ptr_add.
      assert (Hidx : 0 <= j * c_ldim (SM_CONTENT_B A) + (SM_SUBAND_B A + (i - j))
                     < SM_LDATA_B A).
      { replace (SM_SUBAND_B A + (i - j)) with (i - j + SM_SUBAND_B A) by lia.
        apply (band_elem_index A m b); [done|lia|lia]. }
      destruct (bl_arr _ _ _ HL) as (arr & Harr & Hla).
      destruct (lookup_lt_is_Some_2 arr
                  (Z.to_nat (j * c_ldim (SM_CONTENT_B A) + (SM_SUBAND_B A + (i - j)))))
        as [a Ha]; [lia|].
      assert (Hload : load m c (SM_SUBAND_B A + (i - j)) = Some a).
      { unfold load. subst c. simpl. case_decide; [|lia]. rewrite Harr. simpl. done. }
      rewrite Hload. simpl. rewrite Hxj. simpl.
      rewrite store_insert_eq by lia.
      assert (band_elem A m i j = a) as ->.
      { unfold band_elem, SM_ELEMENT_B.
        rewrite (band_cols A m b j HL) by lia. simpl. fold c.
        replace (i - j + SM_SUBAND_B A) with (SM_SUBAND_B A + (i - j)) by lia.
        by rewrite Hload. }
      assert (vec_elem m xd j = xj) as -> by (unfold vec_elem; by rewrite Hxj).
      done. }
    exists (<[p_block yd:=ys2]> m). split.
    { unfold for_range. exact Hl. }
    exists ys2. split; [done|]. split; [congruence|]. split.
    - intros i Hi. rewrite band_sum_S by lia.
      destruct (decide (is_ <= i <= ie)) as [Hin|Hout].
      + rewrite Hu2 by lia. rewrite Hsumj by lia. simpl.
        replace ((j - SM_UBAND_B A <=? i) && (i <=? j + SM_LBAND_B A)) with true; [done|].
        symmetry. apply andb_true_iff. split; apply Z.leb_le; lia.
      + rewrite Hf2 by (intros i' Hi'; lia). rewrite Hsumj by lia.
        replace ((j - SM_UBAND_B A <=? i) && (i <=? j + SM_LBAND_B A)) with false; [done|].
        symmetry. apply andb_false_iff.
        destruct (decide (i < is_)); [left|right]; apply Z.leb_gt; lia.
    - intros k Hk. rewrite Hf2 by (intros i' Hi'; lia). by apply Hfj. }
  exists ysN. split; [|split; [done|split; [|done]]].
  { unfold for_range. rewrite Hl1. simpl. rewrite Hl2. done. }
  intros i Hi. rewrite HsumN by done. do 3 f_equal. lia.
Qed.

(** ** Zero and AddIdentity *)

Lemma band_layout_insert A m b arr arr' :
  band_layout A m b -> m !! b = Some arr -> length arr' = length arr ->
  band_layout A (<[b:=arr']> m) b.
Proof.
  intros HL Harr Hlen. destruct HL as [? ? ? ? ? ? ? (arr0 & Harr0 & Hl0)].
  split; try done. exists arr'. rewrite lookup_insert_eq. split; [done|].
  rewrite Hlen. congruence.
Qed.

Lemma SMCompatible2_Band_id A x y :
  SMCompatible2_Band A x y = true -> SUNMatrixGetID A = SUNMATRIX_BAND.
Proof.
  unfold SMCompatible2_Band. case_decide as Hid; [done|].
  intros _. by destruct (decide (SUNMatrixGetID A = SUNMATRIX_BAND)).
Qed.

Lemma SUNMatrixZero_Band_ok A m b :
  band_layout A m b -> SUNMatrixGetID A = SUNMATRIX_BAND ->
  exists arr', SUNMatrixZero_Band A m = Some (0, <[b:=arr']> m) /\
    Z.of_nat (length arr') = SM_LDATA_B A /\
    (forall k : nat, Z.of_nat k < SM_LDATA_B A -> arr' !! k = Some ZERO).
Proof.
  intros HL Hid. destruct (bl_arr _ _ _ HL) as (arr & Harr & Hlen).
  unfold SUNMatrixZero_Band. case_decide; [done|].
  destruct (for_loop_pointwise (λ i, i) (λ _ _, ZERO)
              (λ i m, Adata ← SM_DATA_B A; store m Adata i ZERO)
              m b (Z.to_nat (SM_LDATA_B A - 0)) 0 arr)
    as (arr' & Hl & Hlen' & Hu & Hf).
  { intros i Hi. lia. }
  { intros i i' Hi Hi'. lia. }
  { intros i ys' v Hi Hl' Hv. rewrite (bl_data _ _ _ HL). simpl.
    apply (store_insert_eq m (Ptr b 0) i). simpl. lia. }
  rewrite (insert_id m b arr Harr) in Hl.
  exists arr'. split; [|split].
  - unfold for_range. rewrite Hl. done.
  - lia.
  - intros k Hk. specialize (Hu (Z.of_nat k) ltac:(lia)).
    rewrite Nat2Z.id in Hu. rewrite Hu.
    destruct (lookup_lt_is_Some_2 arr k) as [v ->]; [lia|done].
Qed.

Lemma column_start_inj (L s i i' : Z) : 0 < L -> i < i' -> i * L + s ≠ i' * L + s.
Proof.
  intros HL Hi. assert (i * L < i' * L) by (apply Z.mul_lt_mono_pos_r; lia). lia.
Qed.

Lemma SUNMatrixAddIdentity_Band_ok A m b arr :
  band_layout A m b -> SUNMatrixGetID A = SUNMATRIX_BAND -> m !! b = Some arr ->
  exists arr', SUNMatrixAddIdentity_Band A m = Some (0, <[b:=arr']> m) /\
    length arr' = length arr /\
    (forall j, 0 <= j < SM_COLUMNS_B A ->
       arr' !! Z.to_nat (j * c_ldim (SM_CONTENT_B A) + SM_SUBAND_B A)
       = (λ a, radd a ONE) <$> arr !! Z.to_nat (j * c_ldim (SM_CONTENT_B A) + SM_SUBAND_B A)) /\
    (forall k : nat,
       (forall j, 0 <= j < SM_COLUMNS_B A ->
          k ≠ Z.to_nat (j * c_ldim (SM_CONTENT_B A) + SM_SUBAND_B A)) ->
       arr' !! k = arr !! k).
Proof.
  intros HL Hid Harr. destruct (bl_arr _ _ _ HL) as (arr0 & Harr0 & Hlen).
  assert (arr0 = arr) as -> by congruence.
  pose proof (bl_smu _ _ _ HL) as Hs. pose proof (bl_ml _ _ _ HL) as Hml.
  pose proof (bl_ldim _ _ _ HL) as Hld.
  unfold SUNMatrixAddIdentity_Band. case_decide; [done|].
  destruct (for_loop_pointwise
              (λ i, i * c_ldim (SM_CONTENT_B A) + SM_SUBAND_B A)
              (λ _ a, radd a ONE)
              (λ i m, '(c, k) ← SM_ELEMENT_B A i i;
                      a ← load m c k; store m c k (radd a ONE))
              m b (Z.to_nat (SM_COLUMNS_B A - 0)) 0 arr)
    as (arr' & Hl & Hlen' & Hu & Hf).
  { intros i Hi.
    pose proof (band_elem_index A m b i i HL ltac:(lia) ltac:(lia)). lia. }
  { intros i i' Hi Hi'. apply column_start_inj; lia. }
  { intros i ys' v Hi Hl' Hv. unfold SM_ELEMENT_B.
    rewrite (band_cols A m b i HL) by lia. simpl.
    pose proof (band_elem_index A m b i i HL ltac:(lia) ltac:(lia)) as Hidx.
    rewrite (load_insert_eq m (Ptr b _)) by (simpl; lia). simpl.
    replace (i * c_ldim (SM_CONTENT_B A) + (i - i + SM_SUBAND_B A))
      with (i * c_ldim (SM_CONTENT_B A) + SM_SUBAND_B A) by lia.
    rewrite Hv. simpl.
    rewrite (store_insert_eq m (Ptr b _)) by (simpl; lia). simpl.
    by replace (i * c_ldim (SM_CONTENT_B A) + (i - i + SM_SUBAND_B A))
      with (i * c_ldim (SM_CONTENT_B A) + SM_SUBAND_B A) by lia. }
  rewrite (insert_id m b arr Harr) in Hl.
  exists arr'. split; [|split; [done|split]].
  - unfold for_range. rewrite Hl. done.
  - intros j Hj. apply Hu. lia.
  - intros k Hk. apply Hf. intros i Hi. apply Hk. lia.
Qed.


(** ** The constructor *)

Lemma malloc_Some h b h' :
  malloc h = (Some b, h') -> b = h_next h /\ h_mem h' = h_mem h.
Proof.
  unfold malloc. destruct (h_plan h) as [|[] pl]; intros [= <- <-]; done.
Qed.

Lemma malloc_array_Some h n b h' :
  malloc_array h n = (Some b, h') ->
  b = h_next h /\ h_mem h' = <[b:=h_junk h <$> seqZ 0 n]> (h_mem h).
Proof.
  unfold malloc_array. destruct (h_plan h) as [|[] pl]; intros [= <- <-]; done.
Qed.

(** What a successful construction returns. *)
Lemma SUNMatrixNew_Band_Some h N mu ml smu A h' :
  SUNMatrixNew_Band h N mu ml smu = (Some A, h') ->
  exists data,
    0 < N /\ 0 <= smu /\ 0 <= ml /\
    A = {| sm_content :=
             {| c_M := N; c_N := N; c_ldim := smu + ml + 1;
                c_mu := mu; c_ml := ml; c_s_mu := smu;
                c_data := Some (Ptr data 0);
                c_ldata := N * (smu + ml + 1);
                c_cols := (λ j, ptr_add (Ptr data 0) (j * (smu + ml + 1))) <$> seqZ 0 N |};
           sm_ops := BandOps |} /\
    exists arr, h_mem h' !! data = Some arr /\
                Z.of_nat (length arr) = N * (smu + ml + 1).
Proof.
  unfold SUNMatrixNew_Band.
  destruct ((N <=? 0) || (smu <? 0) || (ml <? 0)) eqn:Hg; [done|].
  apply orb_false_iff in Hg as [Hg Hml]. apply orb_false_iff in Hg as [HN Hsmu].
  apply Z.leb_gt in HN. apply Z.ltb_ge in Hsmu. apply Z.ltb_ge in Hml.
  destruct (malloc h) as [[a|] h1] eqn:E1; [|done].
  destruct (malloc h1) as [[ops|] h2] eqn:E2; [|done].
  destruct (malloc h2) as [[content|] h3] eqn:E3; [|done].
  destruct (malloc_array h3 _) as [[data|] h4] eqn:E4; [|done].
  destruct (malloc h4) as [[cols|] h5] eqn:E5; [|done].
  intros [= <- <-]. exists data. do 4 (split; [done|]).
  apply malloc_array_Some in E4 as [-> E4]. apply malloc_Some in E5 as [_ E5].
  eexists. rewrite E5, E4, lookup_insert_eq. split; [done|].
  rewrite length_fmap, length_seqZ.
  assert (0 <= N * (smu + ml + 1)) by (apply Z.mul_nonneg_nonneg; lia). lia.
Qed.

Lemma SUNMatrixNew_Band_layout h N mu ml smu A h' :
  SUNMatrixNew_Band h N mu ml smu = (Some A, h') ->
  exists b, band_layout A (h_mem h') b /\
    SUNMatrixGetID A = SUNMATRIX_BAND /\
    SM_ROWS_B A = N /\ SM_COLUMNS_B A = N /\
    SM_UBAND_B A = mu /\ SM_LBAND_B A = ml /\ SM_SUBAND_B A = smu.
Proof.
  intros HA. apply SUNMatrixNew_Band_Some in HA as (data & HN & Hs & Hml & -> & Harr).
  exists data. split; [|done].
  split; unfold SM_DATA_B, SM_COLUMNS_B, SM_SUBAND_B, SM_LBAND_B, SM_LDATA_B,
    SM_CONTENT_B; simpl; [done|lia|lia|lia|done|done|done|exact Harr].
Qed.

(** The result is NULL or not independently of mu. *)
Lemma SUNMatrixNew_Band_mu h N mu mu' ml smu :
  is_Some (fst (SUNMatrixNew_Band h N mu ml smu))
  <-> is_Some (fst (SUNMatrixNew_Band h N mu' ml smu)).
Proof.
  unfold SUNMatrixNew_Band.
  destruct ((N <=? 0) || (smu <? 0) || (ml <? 0)); [done|].
  destruct (malloc h) as [[a|] h1]; [|done].
  destruct (malloc h1) as [[ops|] h2]; [|done].
  destruct (malloc h2) as [[content|] h3]; [|done].
  destruct (malloc_array h3 _) as [[data|] h4]; [|done].
  destruct (malloc h4) as [[cols|] h5]; [|done].
  simpl. split; intros _; eauto.
Qed.

(** C8: a call SUNMatrixNew_Band(N, mu, ml, smu) with N <= 0, smu < 0 or
    ml < 0 returns NULL and leaves the heap as it found it (nothing is
    allocated); mu is not validated: whether the result is NULL does not
    depend on mu, every matrix returned has cols[j] = data + j*(smu+ml+1),
    and some call with a negative mu and N > 0, smu >= 0, ml >= 0 returns
    such a matrix. *)
Theorem SUNMatrixNew_Band_guard :
  (forall h N mu ml smu, N <= 0 \/ smu < 0 \/ ml < 0 ->
     SUNMatrixNew_Band h N mu ml smu = (None, h)) /\
  (forall h N mu mu' ml smu,
     is_Some (fst (SUNMatrixNew_Band h N mu ml smu))
     <-> is_Some (fst (SUNMatrixNew_Band h N mu' ml smu))) /\
  (forall h N mu ml smu A h',
     SUNMatrixNew_Band h N mu ml smu = (Some A, h') ->
     exists data, SM_DATA_B A = Some data /\
       forall j, 0 <= j < N -> SM_COLS_B A j = Some (ptr_add data (j * (smu + ml + 1)))) /\
  (exists h N mu ml smu A h' data,
     mu < 0 /\ 0 < N /\ 0 <= smu /\ 0 <= ml /\
     SUNMatrixNew_Band h N mu ml smu = (Some A, h') /\
     SM_DATA_B A = Some data /\
     forall j, 0 <= j < N -> SM_COLS_B A j = Some (ptr_add data (j * (smu + ml + 1)))).
Proof.
  assert (Hcols : forall h N mu ml smu A h',
     SUNMatrixNew_Band h N mu ml smu = (Some A, h') ->
     exists data, SM_DATA_B A = Some data /\
       forall j, 0 <= j < N -> SM_COLS_B A j = Some (ptr_add data (j * (smu + ml + 1)))).
  { intros h N mu ml smu A h' HA.
    apply SUNMatrixNew_Band_Some in HA as (data & HN & Hs & Hml & -> & Harr).
    exists (Ptr data 0). split; [done|].
    intros j Hj. unfold SM_COLS_B. simpl. case_decide; [|lia].
    rewrite list_lookup_fmap, lookup_seqZ_lt by lia. simpl.
    by rewrite Z2Nat.id by lia. }
  split; [|split; [|split]].
  - intros h N mu ml smu Hg. unfold SUNMatrixNew_Band.
    replace ((N <=? 0) || (smu <? 0) || (ml <? 0)) with true; [done|].
    symmetry. rewrite !orb_true_iff, Z.leb_le, !Z.ltb_lt. tauto.
  - apply SUNMatrixNew_Band_mu.
  - exact Hcols.
  - destruct (SUNMatrixNew_Band heap0 2 (-1) 1 1) as [[A|] h'] eqn:HA;
      [|vm_compute in HA; discriminate HA].
    destruct (Hcols _ _ _ _ _ _ _ HA) as (data & Hd & Hc).
    exists heap0, 2, (-1), 1, 1, A, h', data.
    split; [lia|]. split; [lia|]. split; [lia|]. split; [lia|]. done.
Qed.

(** C9, amended: SUNMatrixMatvec_Band returns 1 and leaves the memory, and
    with it y, unchanged when the compatibility check fails, and also when
    x or y has no data array; when the check passes, both arrays are
    there, the matrix has the band layout and the array of y is neither
    the array of x nor the matrix data, it returns 0 and overwrites the
    rows 0..M-1 of y with y[i] = sum over j with j-mu <= i <= j+ml of
    A(i,j)*x[j], accumulated from ZERO in increasing j, and nothing else
    in memory changes. *)
Theorem SUNMatrixMatvec_Band_spec (A : SUNMatrix) (x y : N_Vector)
    (m : gmap block (list realtype)) :
  (SMCompatible2_Band A x y = false ->
     SUNMatrixMatvec_Band A x y m = Some (1, m)) /\
  (N_VGetArrayPointer x = None \/ N_VGetArrayPointer y = None ->
     SUNMatrixMatvec_Band A x y m = Some (1, m)) /\
  (forall b xd yd ys,
     SMCompatible2_Band A x y = true ->
     N_VGetArrayPointer x = Some xd -> N_VGetArrayPointer y = Some yd ->
     band_layout A m b ->
     (forall j, 0 <= j < SM_COLUMNS_B A -> is_Some (load m xd j)) ->
     m !! p_block yd = Some ys ->
     0 <= p_off yd -> p_off yd + SM_ROWS_B A <= Z.of_nat (length ys) ->
     p_block yd ≠ p_block xd -> p_block yd ≠ b ->
     exists ys',
       SUNMatrixMatvec_Band A x y m = Some (0, <[p_block yd:=ys']> m) /\
       length ys' = length ys /\
       (forall i, 0 <= i < SM_ROWS_B A ->
          ys' !! Z.to_nat (p_off yd + i)
          = Some (band_sum (band_elem A m) (vec_elem m xd)
                    (SM_UBAND_B A) (SM_LBAND_B A) (Z.to_nat (SM_COLUMNS_B A)) i)) /\
       (forall k : nat, ~ (p_off yd <= Z.of_nat k < p_off yd + SM_ROWS_B A) ->
          ys' !! k = ys !! k)).
Proof.
  split; [|split].
  - intros Hc. unfold SUNMatrixMatvec_Band. by rewrite Hc.
  - intros Hnull. unfold SUNMatrixMatvec_Band.
    destruct (SMCompatible2_Band A x y); [|done]. simpl.
    destruct Hnull as [-> | ->]; [done|]. by destruct (N_VGetArrayPointer x).
  - intros b xd yd ys Hc Hx Hy HL Hxs Hys Hoy Hlen Hxy Hby.
    by apply (SUNMatrixMatvec_Band_ok A x y m b xd yd ys).
Qed.

End BandFacts.

(** ** Zero, AddIdentity, Matvec in exact arithmetic *)

Section BandIdentity.
Context {R : RealType}.
Implicit Types (m : gmap block (list realtype)) (A : SUNMatrix).

Hypothesis radd_0_l : forall a, radd ZERO a = a.
Hypothesis radd_0_r : forall a, radd a ZERO = a.
Hypothesis rmul_0_l : forall a, rmul ZERO a = ZERO.
Hypothesis rmul_1_l : forall a, rmul ONE a = a.

Lemma band_sum_identity (a : Z -> Z -> realtype) xv mu ml n i :
  0 <= mu -> 0 <= ml -> 0 <= i ->
  (forall j, 0 <= j < Z.of_nat n -> j - mu <= i <= j + ml ->
     a i j = if decide (i = j) then ONE else ZERO) ->
  band_sum a xv mu ml n i = if decide (i < Z.of_nat n) then xv i else ZERO.
Proof.
  intros Hmu Hml Hi. induction n as [|n IH]; intros Ha.
  - simpl. case_decide; [lia|done].
  - simpl. rewrite IH by (intros j Hj; apply Ha; lia).
    destruct ((Z.of_nat n - mu <=? i) && (i <=? Z.of_nat n + ml)) eqn:Hband.
    + apply andb_true_iff in Hband as [H1 H2].
      apply Z.leb_le in H1. apply Z.leb_le in H2.
      rewrite Ha by lia.
      destruct (decide (i = Z.of_nat n)) as [->|Hne].
      * rewrite rmul_1_l. repeat case_decide; try lia. apply radd_0_l.
      * rewrite rmul_0_l, radd_0_r. repeat case_decide; try lia; done.
    + apply andb_false_iff in Hband.
      repeat case_decide; try done; try lia.
      all: destruct Hband as [Hb|Hb]; apply Z.leb_gt in Hb; lia.
Qed.


Lemma column_cell_ne (L s d j j' : Z) :
  0 <= d < L -> 0 <= s < L -> d ≠ s -> j * L + d ≠ j' * L + s.
Proof.
  intros Hd Hs Hne Heq.
  destruct (Z.lt_trichotomy j j') as [Hlt|[->|Hgt]].
  - assert ((j + 1) * L <= j' * L) by (apply Z.mul_le_mono_nonneg_r; lia). lia.
  - lia.
  - assert ((j' + 1) * L <= j * L) by (apply Z.mul_le_mono_nonneg_r; lia). lia.
Qed.

(** C10, amended: for a square band matrix with the band layout and
    0 <= mu <= s_mu, in an arithmetic where 0+a = a+0 = a, 0*a = 0 and
    1*a = a, and with the arrays of x, of y and of the matrix pairwise
    distinct, SUNMatrixZero_Band, then SUNMatrixAddIdentity_Band, then
    SUNMatrixMatvec_Band all return 0 and leave y[i] = x[i] for every
    i < N. *)
Theorem band_identity_roundtrip A x y m b xd yd ys :
  band_layout A m b ->
  SMCompatible2_Band A x y = true ->
  SM_ROWS_B A = SM_COLUMNS_B A ->
  0 <= SM_UBAND_B A <= SM_SUBAND_B A ->
  N_VGetArrayPointer x = Some xd -> N_VGetArrayPointer y = Some yd ->
  (forall j, 0 <= j < SM_COLUMNS_B A -> is_Some (load m xd j)) ->
  m !! p_block yd = Some ys ->
  0 <= p_off yd -> p_off yd + SM_ROWS_B A <= Z.of_nat (length ys) ->
  p_block yd ≠ p_block xd -> p_block yd ≠ b -> p_block xd ≠ b ->
  exists m1 m2 m3,
    SUNMatrixZero_Band A m = Some (0, m1) /\
    SUNMatrixAddIdentity_Band A m1 = Some (0, m2) /\
    SUNMatrixMatvec_Band A x y m2 = Some (0, m3) /\
    (forall i, 0 <= i < SM_COLUMNS_B A -> load m3 yd i = load m xd i).
Proof.
  intros HL Hc Hsq Hmu Hx Hy Hxs Hys Hoy Hlen Hxy Hby Hxb.
  pose proof (SMCompatible2_Band_id A x y Hc) as Hid.
  destruct (bl_arr _ _ _ HL) as (arr & Harr & Hla).
  pose proof (bl_smu _ _ _ HL) as Hs. pose proof (bl_ml _ _ _ HL) as Hml.
  pose proof (bl_ldim _ _ _ HL) as Hld. pose proof (bl_N _ _ _ HL) as HN.
  destruct (SUNMatrixZero_Band_ok A m b HL Hid) as (arr1 & Hz & Hl1 & Hz1).
  assert (HL1 : band_layout A (<[b:=arr1]> m) b).
  { apply (band_layout_insert A m b arr); [done|done|lia]. }
  destruct (SUNMatrixAddIdentity_Band_ok A (<[b:=arr1]> m) b arr1 HL1 Hid)
    as (arr2 & Ha & Hl2 & Hu2 & Hf2); [by rewrite lookup_insert_eq|].
  rewrite insert_insert_eq in Ha.
  assert (HL2 : band_layout A (<[b:=arr2]> m) b).
  { apply (band_layout_insert A m b arr); [done|done|lia]. }
  destruct (SUNMatrixMatvec_Band_ok A x y (<[b:=arr2]> m) b xd yd ys HL2 Hc Hx Hy)
    as (ys' & Hmv & Hl3 & Hsum & Hf3); try done.
  { intros j Hj. rewrite load_insert_ne by done. by apply Hxs. }
  { by rewrite lookup_insert_ne. }
  exists (<[b:=arr1]> m), (<[b:=arr2]> m), (<[p_block yd:=ys']> (<[b:=arr2]> m)).
  split; [done|]. split; [done|]. split; [done|].
  intros i Hi. rewrite load_insert_eq by lia. rewrite Hsum by lia.
  destruct (Hxs i Hi) as [v Hv]. rewrite Hv. f_equal.
  rewrite band_sum_identity; [| lia | lia | lia |].
  - case_decide; [|lia]. unfold vec_elem.
    rewrite load_insert_ne by done. by rewrite Hv.
  - intros j Hj Hband. unfold band_elem, SM_ELEMENT_B.
    rewrite (band_cols A _ b j HL2) by lia. simpl.
    pose proof (band_elem_index A _ b i j HL2 ltac:(lia) ltac:(lia)) as Hidx.
    rewrite (load_insert_eq m (Ptr b _)) by (simpl; lia). simpl.
    destruct (decide (i = j)) as [->|Hne].
    + replace (j * c_ldim (SM_CONTENT_B A) + (j - j + SM_SUBAND_B A))
        with (j * c_ldim (SM_CONTENT_B A) + SM_SUBAND_B A) by lia.
      rewrite Hu2 by lia. rewrite Hz1 by lia. simpl. apply radd_0_l.
    + rewrite Hf2.
      * rewrite Hz1 by lia. done.
      * intros j' Hj' Heq.
        apply (column_cell_ne (c_ldim (SM_CONTENT_B A)) (SM_SUBAND_B A)
                 (i - j + SM_SUBAND_B A) j j'); [lia|lia|lia|].
        pose proof (band_elem_index A _ b j' j' HL2 ltac:(lia) ltac:(lia)). lia.
Qed.



End BandIdentity.

(** ** The band operations on the sample objects *)

Example A_tri_constructed :
  fst (SUNMatrixNew_Band zheap 3 1 1 1) = Some A_tri.
Proof. vm_compute. reflexivity. Qed.

Example A_wide_constructed :
  fst (SUNMatrixNew_Band zheap 2 1 0 0) = Some A_wide.
Proof. vm_compute. reflexivity. Qed.

(** (1 2 0; 4 5 3; 0 7 6) (1, 10, 100) = (21, 354, 670) *)
Example matvec_tri :
  SUNMatrixMatvec_Band (R:=Z_real) A_tri x_tri y_tri m_tri ≫= (λ r, snd r !! 11%nat)
  = Some [21; 354; 670].
Proof. vm_compute. reflexivity. Qed.

(** Row 1 of the product: 4*1 + 5*10 + 3*100. *)
Example band_sum_tri :
  band_sum (band_elem A_tri m_tri) (vec_elem m_tri (Ptr 10%nat 0)) 1 1 3 1 = 354.
Proof. vm_compute. reflexivity. Qed.

Lemma SUNMatrixNew_Band_guard_witness :
  SUNMatrixNew_Band zheap 0 1 1 1 = (None, zheap).
Proof. apply (proj1 (SUNMatrixNew_Band_guard (R:=Z_real))). left. lia. Defined.

Lemma A_tri_layout : band_layout A_tri m_tri 3%nat.
Proof.
  split; try (vm_compute; congruence); try reflexivity.
  exists [0; 1; 4; 2; 5; 7; 3; 6; 0]. split; reflexivity.
Defined.

Lemma x_tri_readable j : 0 <= j < 3 -> is_Some (load m_tri (Ptr 10%nat 0) j).
Proof.
  intros Hj. assert (j = 0 \/ j = 1 \/ j = 2) as [->|[->| ->]] by lia;
    vm_compute; eauto.
Defined.

Lemma SUNMatrixMatvec_Band_spec_witness :
  exists ys',
    SUNMatrixMatvec_Band (R:=Z_real) A_tri x_tri y_tri m_tri
    = Some (0, <[11%nat:=ys']> m_tri) /\
    length ys' = 3%nat /\
    (forall i, 0 <= i < 3 ->
       ys' !! Z.to_nat (0 + i)
       = Some (band_sum (band_elem A_tri m_tri) (vec_elem m_tri (Ptr 10%nat 0))
                 1 1 3 i)) /\
    (forall k : nat, ~ (0 <= Z.of_nat k < 0 + 3) -> ys' !! k = [9; 9; 9] !! k).
Proof.
  apply (proj2 (proj2 (SUNMatrixMatvec_Band_spec (R:=Z_real) A_tri x_tri y_tri m_tri))
           3%nat (Ptr 10%nat 0) (Ptr 11%nat 0) [9; 9; 9]).
  - reflexivity.
  - reflexivity.
  - reflexivity.
  - exact A_tri_layout.
  - exact x_tri_readable.
  - reflexivity.
  - simpl. lia.
  - vm_compute. congruence.
  - simpl. lia.
  - simpl. lia.
Defined.

(** The compatibility check passes for a vector without data array, and
    the product is refused with 1. *)
Lemma SUNMatrixMatvec_Band_null_data :
  SMCompatible2_Band A_tri x_empty y_tri = true /\
  SUNMatrixMatvec_Band (R:=Z_real) A_tri x_empty y_tri m_tri = Some (1, m_tri).
Proof. split; reflexivity. Qed.

Lemma band_identity_roundtrip_witness :
  exists m1 m2 m3,
    SUNMatrixZero_Band (R:=Z_real) A_tri m_tri = Some (0, m1) /\
    SUNMatrixAddIdentity_Band A_tri m1 = Some (0, m2) /\
    SUNMatrixMatvec_Band A_tri x_tri y_tri m2 = Some (0, m3) /\
    (forall i, 0 <= i < 3 -> load m3 (Ptr 11%nat 0) i = load m_tri (Ptr 10%nat 0) i).
Proof.
  apply (band_identity_roundtrip (R:=Z_real) Z.add_0_l Z.add_0_r Z.mul_0_l Z.mul_1_l
           A_tri x_tri y_tri m_tri 3%nat (Ptr 10%nat 0) (Ptr 11%nat 0) [9; 9; 9]).
  - exact A_tri_layout.
  - reflexivity.
  - reflexivity.
  - vm_compute. split; congruence.
  - reflexivity.
  - reflexivity.
  - exact x_tri_readable.
  - reflexivity.
  - simpl. lia.
  - vm_compute. congruence.
  - simpl. lia.
  - simpl. lia.
  - simpl. lia.
Defined.

(** On the 2 x 2 matrix made with mu = 1 and smu = 0 the three calls
    return 0 and turn x = (1, 1) into y = (2, 1). *)
Lemma band_identity_roundtrip_fails :
  SMCompatible2_Band A_wide x_wide y_wide = true /\
  SM_ROWS_B A_wide = SM_COLUMNS_B A_wide /\
  exists m1 m2 m3,
    SUNMatrixZero_Band (R:=Z_real) A_wide m_wide = Some (0, m1) /\
    SUNMatrixAddIdentity_Band A_wide m1 = Some (0, m2) /\
    SUNMatrixMatvec_Band A_wide x_wide y_wide m2 = Some (0, m3) /\
    m3 !! 11%nat = Some [2; 1] /\ m_wide !! 10%nat = Some [1; 1].
Proof.
  split; [reflexivity|]. split; [reflexivity|].
  eexists _, _, _. split; [vm_compute; reflexivity|].
  split; [vm_compute; reflexivity|].
  split; [vm_compute; reflexivity|].
  split; vm_compute; reflexivity.
Qed.

(** ** Compatibility of two band matrices *)

Section BandMoreFacts.
Context {R : RealType}.

Implicit Types (m : gmap block (list realtype)) (A B : SUNMatrix) (h : heap).

Lemma SMCompatible_Band_true A B :
  SMCompatible_Band A B = true <->
  SUNMatrixGetID A = SUNMATRIX_BAND /\ SUNMatrixGetID B = SUNMATRIX_BAND /\
  SM_ROWS_B A = SM_ROWS_B B /\ SM_COLUMNS_B A = SM_COLUMNS_B B /\
  SM_UBAND_B A = SM_UBAND_B B /\ SM_LBAND_B A = SM_LBAND_B B.
Proof.
  unfold SMCompatible_Band.
  repeat case_decide; split; try done; try tauto.
Qed.

(** SMCompatible_Band is a partial equivalence: it holds of a matrix and
    itself exactly when the matrix is a band matrix, it is symmetric and
    transitive, and it looks at the matrix ID, M, N, mu and ml only, not at
    s_mu, ldim or the storage. *)
Theorem SMCompatible_Band_equivalence :
  (forall A, SMCompatible_Band A A = true <-> SUNMatrixGetID A = SUNMATRIX_BAND) /\
  (forall A B, SMCompatible_Band A B = SMCompatible_Band B A) /\
  (forall A B C, SMCompatible_Band A B = true -> SMCompatible_Band B C = true ->
     SMCompatible_Band A C = true) /\
  (forall A B B', SUNMatrixGetID B = SUNMatrixGetID B' ->
     SM_ROWS_B B = SM_ROWS_B B' -> SM_COLUMNS_B B = SM_COLUMNS_B B' ->
     SM_UBAND_B B = SM_UBAND_B B' -> SM_LBAND_B B = SM_LBAND_B B' ->
     SMCompatible_Band A B = SMCompatible_Band A B').
Proof.
  split; [|split; [|split]].
  - intros A. rewrite SMCompatible_Band_true. intuition congruence.
  - intros A B. apply eq_true_iff_eq. rewrite !SMCompatible_Band_true. intuition congruence.
  - intros A B C. rewrite !SMCompatible_Band_true. intuition congruence.
  - intros A B B' ?????. apply eq_true_iff_eq. rewrite !SMCompatible_Band_true.
    intuition congruence.
Qed.

End BandMoreFacts.

(** ** The constructor and the heap *)

Section BandHeapFacts.
Context {R : RealType}.

Implicit Types (m : gmap block (list realtype)) (A B : SUNMatrix) (h : heap).


Ltac set_cases := set_unfold; intros ?; split; intuition congruence.

Lemma malloc_inv h r h' :
  malloc h = (r, h') ->
  h_mem h' = h_mem h /\ h_junk h' = h_junk h /\
  (r = None /\ h_objs h' = h_objs h /\ h_next h' = h_next h \/
   r = Some (h_next h) /\ h_objs h' = {[h_next h]} ∪ h_objs h /\
   h_next h' = S (h_next h)).
Proof.
  unfold malloc. destruct (h_plan h) as [|[] pl]; intros [= <- <-]; simpl; auto 7.
Qed.

Lemma malloc_array_inv h n r h' :
  malloc_array h n = (r, h') ->
  h_objs h' = h_objs h /\ h_junk h' = h_junk h /\
  (r = None /\ h_mem h' = h_mem h /\ h_next h' = h_next h \/
   r = Some (h_next h) /\ h_mem h' = <[h_next h:=h_junk h <$> seqZ 0 n]> (h_mem h) /\
   h_next h' = S (h_next h)).
Proof.
  unfold malloc_array. destruct (h_plan h) as [|[] pl]; intros [= <- <-]; simpl; auto 7.
Qed.

(** What the constructor does to the heap, whether it succeeds or not. *)
Lemma SUNMatrixNew_Band_heap h N mu ml smu r h' :
  heap_fresh h ->
  SUNMatrixNew_Band h N mu ml smu = (r, h') ->
  heap_fresh h' /\
  match r with
  | None => h_mem h' = h_mem h /\ h_objs h' = h_objs h
  | Some A =>
      exists data,
        SM_DATA_B A = Some (Ptr data 0) /\ (h_next h <= data)%nat /\
        h_mem h' = <[data:=h_junk h <$> seqZ 0 (N * (smu + ml + 1))]> (h_mem h) /\
        h_objs h ⊆ h_objs h'
  end.
Proof.
  intros Hf. unfold SUNMatrixNew_Band.
  destruct ((N <=? 0) || (smu <? 0) || (ml <? 0)); [by intros [= <- <-]|].
  destruct (malloc h) as [r1 h1] eqn:E1.
  apply malloc_inv in E1 as (Hm1 & Hj1 & [(-> & Ho1 & Hn1)|(-> & Ho1 & Hn1)]).
  { intros [= <- <-]. split; [|done].
    intros b Hb. rewrite Hm1, Ho1. apply Hf. lia. }
  destruct (malloc h1) as [r2 h2] eqn:E2.
  apply malloc_inv in E2 as (Hm2 & Hj2 & [(-> & Ho2 & Hn2)|(-> & Ho2 & Hn2)]).
  { intros [= <- <-]. unfold heap_fresh. simpl. rewrite ?Hm2, ?Hm1, ?Ho2, ?Ho1, ?Hn2, ?Hn1.
    pose proof (Hf (h_next h) ltac:(lia)) as [? ?].
    assert (Hmem : delete (h_next h) (h_mem h) = h_mem h) by (by apply delete_id).
    assert (Hobj : ({[h_next h]} ∪ h_objs h) ∖ {[h_next h]} = h_objs h) by set_cases.
    split; [|done].
    intros b Hb. destruct (Hf b ltac:(lia)) as [Hb1 Hb2]. split.
    - set_unfold. tauto.
    - by rewrite ?lookup_delete_ne, ?lookup_insert_ne by lia. }
  destruct (malloc h2) as [r3 h3] eqn:E3.
  apply malloc_inv in E3 as (Hm3 & Hj3 & [(-> & Ho3 & Hn3)|(-> & Ho3 & Hn3)]).
  { intros [= <- <-]. unfold heap_fresh. simpl. rewrite ?Hm3, ?Hm2, ?Hm1, ?Ho3, ?Ho2, ?Ho1, ?Hn3, ?Hn2, ?Hn1.
    pose proof (Hf (h_next h) ltac:(lia)) as [? ?].
    pose proof (Hf (S (h_next h)) ltac:(lia)) as [? ?].
    assert (Hmem : delete (h_next h) (delete (S (h_next h)) (h_mem h)) = h_mem h)
      by (rewrite (delete_id (h_mem h) (S (h_next h))) by done; by apply delete_id).
    assert (Hobj : ({[S (h_next h)]} ∪ ({[h_next h]} ∪ h_objs h))
                     ∖ {[S (h_next h)]} ∖ {[h_next h]} = h_objs h) by set_cases.
    split; [|done].
    intros b Hb. destruct (Hf b ltac:(lia)) as [Hb1 Hb2]. split.
    - set_unfold. tauto.
    - by rewrite ?lookup_delete_ne, ?lookup_insert_ne by lia. }
  destruct (malloc_array h3 _) as [r4 h4] eqn:E4.
  apply malloc_array_inv in E4 as (Ho4 & Hj4 & [(-> & Hm4 & Hn4)|(-> & Hm4 & Hn4)]).
  { intros [= <- <-]. unfold heap_fresh. simpl.
    rewrite ?Hm4, ?Hm3, ?Hm2, ?Hm1, ?Ho4, ?Ho3, ?Ho2, ?Ho1, ?Hn4, ?Hn3, ?Hn2, ?Hn1.
    pose proof (Hf (h_next h) ltac:(lia)) as [? ?].
    pose proof (Hf (S (h_next h)) ltac:(lia)) as [? ?].
    pose proof (Hf (S (S (h_next h))) ltac:(lia)) as [? ?].
    assert (Hmem : delete (h_next h) (delete (S (h_next h))
                     (delete (S (S (h_next h))) (h_mem h))) = h_mem h)
      by (rewrite (delete_id (h_mem h) (S (S (h_next h)))) by done;
          rewrite (delete_id (h_mem h) (S (h_next h))) by done; by apply delete_id).
    assert (Hobj : ({[S (S (h_next h))]} ∪ ({[S (h_next h)]} ∪ ({[h_next h]} ∪ h_objs h)))
                     ∖ {[S (S (h_next h))]} ∖ {[S (h_next h)]} ∖ {[h_next h]}
                   = h_objs h) by set_cases.
    split; [|done].
    intros b Hb. destruct (Hf b ltac:(lia)) as [Hb1 Hb2]. split.
    - set_unfold. tauto.
    - by rewrite ?lookup_delete_ne, ?lookup_insert_ne by lia. }
  destruct (malloc h4) as [r5 h5] eqn:E5.
  apply malloc_inv in E5 as (Hm5 & Hj5 & [(-> & Ho5 & Hn5)|(-> & Ho5 & Hn5)]).
  { intros [= <- <-]. unfold heap_fresh. simpl.
    rewrite ?Hm5, ?Hm4, ?Hm3, ?Hm2, ?Hm1, ?Ho5, ?Ho4, ?Ho3, ?Ho2, ?Ho1, ?Hn5, ?Hn4, ?Hn3, ?Hn2, ?Hn1.
    pose proof (Hf (h_next h) ltac:(lia)) as [? ?].
    pose proof (Hf (S (h_next h)) ltac:(lia)) as [? ?].
    pose proof (Hf (S (S (h_next h))) ltac:(lia)) as [? ?].
    pose proof (Hf (S (S (S (h_next h)))) ltac:(lia)) as [? ?].
    assert (Hmem : delete (h_next h) (delete (S (h_next h))
                     (delete (S (S (h_next h)))
                        (delete (S (S (S (h_next h))))
                           (<[S (S (S (h_next h))):=
                                h_junk h3 <$> seqZ 0 (N * (smu + ml + 1))]> (h_mem h)))))
                   = h_mem h)
      by (rewrite delete_insert_id by done;
          rewrite (delete_id (h_mem h) (S (S (h_next h)))) by done;
          rewrite (delete_id (h_mem h) (S (h_next h))) by done; by apply delete_id).
    assert (Hobj : ({[S (S (h_next h))]} ∪ ({[S (h_next h)]} ∪ ({[h_next h]} ∪ h_objs h)))
                     ∖ {[S (S (S (h_next h)))]}
                     ∖ {[S (S (h_next h))]} ∖ {[S (h_next h)]} ∖ {[h_next h]}
                   = h_objs h) by set_cases.
    split; [|done].
    intros b Hb. destruct (Hf b ltac:(lia)) as [Hb1 Hb2]. split.
    - set_unfold. tauto.
    - by rewrite ?lookup_delete_ne, ?lookup_insert_ne by lia. }
  intros [= <- <-]. split.
  - intros b Hb. rewrite Hn5, Hn4, Hn3, Hn2, Hn1 in Hb.
    rewrite Hm5, Hm4, Hm3, Hm2, Hm1, Ho5, Ho4, Ho3, Ho2, Ho1, Hn4, Hn3, Hn2, Hn1.
    destruct (Hf b ltac:(lia)) as [? ?]. split.
    + set_unfold. intros [?|[?|[?|[?|?]]]]; try lia. done.
    + rewrite lookup_insert_ne by lia. done.
  - exists (h_next h3). split; [done|]. split; [lia|].
    rewrite Hm5, Hm4, Hm3, Hm2, Hm1, Hj3, Hj2, Hj1. split; [done|].
    rewrite Ho5, Ho4, Ho3, Ho2, Ho1. set_unfold. tauto.
Qed.

(** A call of SUNMatrixNew_Band that returns NULL has freed whatever it had
    allocated: the arrays and the objects on the heap are those before the
    call, and no block handed out later is in use. *)
Theorem SUNMatrixNew_Band_no_leak h N mu ml smu h' :
  heap_fresh h ->
  SUNMatrixNew_Band h N mu ml smu = (None, h') ->
  h_mem h' = h_mem h /\ h_objs h' = h_objs h /\ heap_fresh h'.
Proof.
  intros Hf HA.
  destruct (SUNMatrixNew_Band_heap h N mu ml smu None h' Hf HA) as (Hf' & Hm & Ho).
  done.
Qed.


(** The accessor functions give back what SUNMatrixNew_Band was called
    with: N rows and N columns, mu, ml and smu; the matrix is a band
    matrix, SUNMatrixBand_Data is the data array and SUNMatrixBand_Column(A,j)
    points smu elements into column j, which starts at j*(smu+ml+1).  For
    any matrix, SM_COLUMN_ELEMENT_B on that column pointer and
    SM_ELEMENT_B name the same element. *)
Theorem SUNMatrixBand_accessors :
  (forall h N mu ml smu A h',
     SUNMatrixNew_Band h N mu ml smu = (Some A, h') ->
     SUNMatrixGetID A = SUNMATRIX_BAND /\
     SUNMatrixBand_Rows A = N /\ SUNMatrixBand_Columns A = N /\
     SUNMatrixBand_UpperBandwidth A = mu /\ SUNMatrixBand_LowerBandwidth A = ml /\
     SUNMatrixBand_StoredUpperBandwidth A = smu /\
     exists data, SUNMatrixBand_Data A = Some data /\
       forall j, 0 <= j < N ->
         SUNMatrixBand_Column A j = Some (ptr_add data (j * (smu + ml + 1) + smu))) /\
  (forall A m i j,
     (col_j ← SUNMatrixBand_Column A j;
      load m (SM_COLUMN_ELEMENT_B col_j i j).1 (SM_COLUMN_ELEMENT_B col_j i j).2)
     = SM_ELEMENT_B_get A m i j).
Proof.
  split.
  - intros h N mu ml smu A h' HA.
    apply SUNMatrixNew_Band_Some in HA as (data & HN & Hs & Hml & -> & Harr).
    do 6 (split; [done|]). exists (Ptr data 0). split; [done|].
    intros j Hj. unfold SUNMatrixBand_Column, SM_COLUMN_B, SM_COLS_B. simpl.
    case_decide; [|lia].
    rewrite list_lookup_fmap, lookup_seqZ_lt by lia. simpl.
    unfold ptr_add. simpl. rewrite Z2Nat.id by lia. do 2 f_equal; lia.
  - intros A m i j.
    unfold SUNMatrixBand_Column, SM_COLUMN_B, SM_ELEMENT_B_get, SM_ELEMENT_B,
      SM_COLUMN_ELEMENT_B.
    destruct (SM_COLS_B A j) as [c|]; [|done]. simpl.
    rewrite load_ptr_add. f_equal. lia.
Qed.


End BandHeapFacts.

(** ** Zero, AddIdentity and Scale, element by element *)

Section BandElementFacts.
Context {R : RealType}.

Implicit Types (m : gmap block (list realtype)) (A B : SUNMatrix).

Lemma SM_ELEMENT_B_get_layout A m b arr i j :
  band_layout A m b -> m !! b = Some arr -> 0 <= j < SM_COLUMNS_B A ->
  0 <= j * c_ldim (SM_CONTENT_B A) + (i - j + SM_SUBAND_B A) ->
  SM_ELEMENT_B_get A m i j
  = arr !! Z.to_nat (j * c_ldim (SM_CONTENT_B A) + (i - j + SM_SUBAND_B A)).
Proof.
  intros HL Harr Hj Hk. unfold SM_ELEMENT_B_get, SM_ELEMENT_B.
  rewrite (band_cols A m b j HL) by lia. simpl.
  unfold load. simpl. case_decide; [|lia]. by rewrite Harr.
Qed.

(** The cells of column j: rows j-s_mu .. j+ml. *)
Lemma stored_index A m b i j :
  band_layout A m b -> 0 <= j < SM_COLUMNS_B A ->
  j - SM_SUBAND_B A <= i <= j + SM_LBAND_B A ->
  0 <= j * c_ldim (SM_CONTENT_B A) + (i - j + SM_SUBAND_B A) < SM_LDATA_B A.
Proof.
  intros HL Hj Hi.
  pose proof (bl_smu _ _ _ HL). pose proof (bl_ml _ _ _ HL).
  rewrite (bl_ldata _ _ _ HL).
  pose proof (bl_ldim _ _ _ HL) as Hld.
  set (L := c_ldim (SM_CONTENT_B A)) in *.
  assert (0 <= j * L) by (apply Z.mul_nonneg_nonneg; lia).
  assert ((j + 1) * L <= SM_COLUMNS_B A * L)
    by (apply Z.mul_le_mono_nonneg_r; lia).
  lia.
Qed.

(** SUNMatrixZero_Band returns 1 and changes nothing when A is not a band
    matrix; on a band matrix laid out as the constructor does it returns
    0, leaves every other array as it was and makes every stored element
    A(i,j), 0 <= j < N, j-s_mu <= i <= j+ml, read ZERO. *)
Theorem SUNMatrixZero_Band_spec A m :
  (SUNMatrixGetID A ≠ SUNMATRIX_BAND -> SUNMatrixZero_Band A m = Some (1, m)) /\
  (forall b, SUNMatrixGetID A = SUNMATRIX_BAND -> band_layout A m b ->
     exists m', SUNMatrixZero_Band A m = Some (0, m') /\
       band_layout A m' b /\
       (forall b', b' ≠ b -> m' !! b' = m !! b') /\
       (forall i j, 0 <= j < SM_COLUMNS_B A ->
          j - SM_SUBAND_B A <= i <= j + SM_LBAND_B A ->
          SM_ELEMENT_B_get A m' i j = Some ZERO)).
Proof.
  split.
  - intros Hid. unfold SUNMatrixZero_Band. by case_decide.
  - intros b Hid HL. destruct (bl_arr _ _ _ HL) as (arr & Harr & Hla).
    destruct (SUNMatrixZero_Band_ok A m b HL Hid) as (arr' & Hz & Hl' & Hz').
    assert (HL' : band_layout A (<[b:=arr']> m) b).
    { apply (band_layout_insert A m b arr); [done|done|lia]. }
    exists (<[b:=arr']> m). split; [done|]. split; [done|]. split.
    + intros b' Hb'. by rewrite lookup_insert_ne.
    + intros i j Hj Hi.
      pose proof (stored_index A _ b i j HL' Hj Hi) as Hidx.
      rewrite (SM_ELEMENT_B_get_layout A _ b arr' i j HL');
        [|by rewrite lookup_insert_eq|done|lia].
      apply Hz'. lia.
Qed.

(** SUNMatrixAddIdentity_Band returns 1 and changes nothing when A is not
    a band matrix; on a band matrix laid out as the constructor does it
    returns 0, adds ONE to each diagonal element A(j,j), 0 <= j < N, and
    leaves the other stored elements and every other array as they
    were. *)
Theorem SUNMatrixAddIdentity_Band_spec A m :
  (SUNMatrixGetID A ≠ SUNMATRIX_BAND -> SUNMatrixAddIdentity_Band A m = Some (1, m)) /\
  (forall b, SUNMatrixGetID A = SUNMATRIX_BAND -> band_layout A m b ->
     exists m', SUNMatrixAddIdentity_Band A m = Some (0, m') /\
       band_layout A m' b /\
       (forall b', b' ≠ b -> m' !! b' = m !! b') /\
       (forall i j, 0 <= j < SM_COLUMNS_B A ->
          j - SM_SUBAND_B A <= i <= j + SM_LBAND_B A ->
          is_Some (SM_ELEMENT_B_get A m i j) /\
          SM_ELEMENT_B_get A m' i j
          = (λ a, if decide (i = j) then radd a ONE else a) <$> SM_ELEMENT_B_get A m i j)).
Proof.
  split.
  - intros Hid. unfold SUNMatrixAddIdentity_Band. by case_decide.
  - intros b Hid HL. destruct (bl_arr _ _ _ HL) as (arr & Harr & Hla).
    pose proof (bl_smu _ _ _ HL) as Hs. pose proof (bl_ml _ _ _ HL) as Hml.
    pose proof (bl_ldim _ _ _ HL) as Hld.
    destruct (SUNMatrixAddIdentity_Band_ok A m b arr HL Hid Harr)
      as (arr' & Ha & Hl' & Hu & Hf).
    assert (HL' : band_layout A (<[b:=arr']> m) b).
    { apply (band_layout_insert A m b arr); [done|done|lia]. }
    exists (<[b:=arr']> m). split; [done|]. split; [done|]. split.
    + intros b' Hb'. by rewrite lookup_insert_ne.
    + intros i j Hj Hi.
      pose proof (stored_index A _ b i j HL Hj Hi) as Hidx.
      rewrite (SM_ELEMENT_B_get_layout A _ b arr' i j HL');
        [|by rewrite lookup_insert_eq|done|lia].
      rewrite (SM_ELEMENT_B_get_layout A _ b arr i j HL); [|done|done|lia].
      split; [apply lookup_lt_is_Some_2; lia|].
      destruct (decide (i = j)) as [->|Hne].
      * replace (j * c_ldim (SM_CONTENT_B A) + (j - j + SM_SUBAND_B A))
          with (j * c_ldim (SM_CONTENT_B A) + SM_SUBAND_B A) by lia.
        rewrite Hu by lia. apply option_fmap_ext. intros a. done.
      * rewrite Hf.
        -- by destruct (arr !! _).
        -- intros j' Hj' Heq.
           apply (column_cell_ne (c_ldim (SM_CONTENT_B A)) (SM_SUBAND_B A)
                    (i - j + SM_SUBAND_B A) j j'); [lia|lia|lia|].
           pose proof (stored_index A _ b j' j' HL ltac:(lia) ltac:(lia)). lia.
Qed.

Lemma SUNMatrixScale_Band_ok c A m b arr :
  band_layout A m b -> SUNMatrixGetID A = SUNMATRIX_BAND -> m !! b = Some arr ->
  exists arr', SUNMatrixScale_Band c A m = Some (0, <[b:=arr']> m) /\
    length arr' = length arr /\
    (forall k : nat, Z.of_nat k < SM_LDATA_B A ->
       arr' !! k = (λ a, rmul a c) <$> arr !! k).
Proof.
  intros HL Hid Harr. destruct (bl_arr _ _ _ HL) as (arr0 & Harr0 & Hlen).
  assert (arr0 = arr) as -> by congruence.
  unfold SUNMatrixScale_Band. case_decide; [done|].
  destruct (for_loop_pointwise (λ i, i) (λ _ a, rmul a c)
              (λ i m, Adata ← SM_DATA_B A;
                      a ← load m Adata i;
                      store m Adata i (rmul a c))
              m b (Z.to_nat (SM_LDATA_B A - 0)) 0 arr)
    as (arr' & Hl & Hlen' & Hu & Hf).
  { intros i Hi. lia. }
  { intros i i' Hi Hi'. lia. }
  { intros i ys' v Hi Hl' Hv. rewrite (bl_data _ _ _ HL). simpl.
    rewrite (load_insert_eq m (Ptr b 0) i) by (simpl; lia). simpl.
    rewrite Z.add_0_l, Hv. simpl.
    apply (store_insert_eq m (Ptr b 0) i). simpl. lia. }
  rewrite (insert_id m b arr Harr) in Hl.
  exists arr'. split; [|split; [done|]].
  - unfold for_range. rewrite Hl. done.
  - intros k Hk. specialize (Hu (Z.of_nat k) ltac:(lia)).
    by rewrite Nat2Z.id in Hu.
Qed.

(** SUNMatrixScale_Band returns 1 and changes nothing when A is not a band
    matrix; on a band matrix laid out as the constructor does it returns
    0, replaces every stored element A(i,j) by A(i,j)*c and leaves every
    other array as it was. *)
Theorem SUNMatrixScale_Band_spec c A m :
  (SUNMatrixGetID A ≠ SUNMATRIX_BAND -> SUNMatrixScale_Band c A m = Some (1, m)) /\
  (forall b, SUNMatrixGetID A = SUNMATRIX_BAND -> band_layout A m b ->
     exists m', SUNMatrixScale_Band c A m = Some (0, m') /\
       band_layout A m' b /\
       (forall b', b' ≠ b -> m' !! b' = m !! b') /\
       (forall i j, 0 <= j < SM_COLUMNS_B A ->
          j - SM_SUBAND_B A <= i <= j + SM_LBAND_B A ->
          is_Some (SM_ELEMENT_B_get A m i j) /\
          SM_ELEMENT_B_get A m' i j = (λ a, rmul a c) <$> SM_ELEMENT_B_get A m i j)).
Proof.
  split.
  - intros Hid. unfold SUNMatrixScale_Band. by case_decide.
  - intros b Hid HL. destruct (bl_arr _ _ _ HL) as (arr & Harr & Hla).
    destruct (SUNMatrixScale_Band_ok c A m b arr HL Hid Harr)
      as (arr' & Hs & Hl' & Hu).
    assert (HL' : band_layout A (<[b:=arr']> m) b).
    { apply (band_layout_insert A m b arr); [done|done|lia]. }
    exists (<[b:=arr']> m). split; [done|]. split; [done|]. split.
    + intros b' Hb'. by rewrite lookup_insert_ne.
    + intros i j Hj Hi.
      pose proof (stored_index A _ b i j HL Hj Hi) as Hidx.
      rewrite (SM_ELEMENT_B_get_layout A _ b arr' i j HL');
        [|by rewrite lookup_insert_eq|done|lia].
      rewrite (SM_ELEMENT_B_get_layout A _ b arr i j HL); [|done|done|lia].
      split; [apply lookup_lt_is_Some_2; lia|].
      apply Hu. lia.
Qed.

(** Where a*0 = 0 for every a, scaling a band matrix laid out as the
    constructor does by ZERO is SUNMatrixZero_Band: the two calls return
    the same value and leave the same memory. *)
Theorem SUNMatrixScale_Band_ZERO A m b :
  (forall a : realtype, rmul a ZERO = ZERO) ->
  band_layout A m b ->
  SUNMatrixScale_Band ZERO A m = SUNMatrixZero_Band A m.
Proof.
  intros Hmul HL.
  destruct (decide (SUNMatrixGetID A = SUNMATRIX_BAND)) as [Hid|Hid].
  - destruct (bl_arr _ _ _ HL) as (arr & Harr & Hla).
    destruct (SUNMatrixScale_Band_ok ZERO A m b arr HL Hid Harr)
      as (arrS & -> & HlS & HuS).
    destruct (SUNMatrixZero_Band_ok A m b HL Hid) as (arrZ & -> & HlZ & HuZ).
    do 3 f_equal. apply list_eq. intros k.
    destruct (decide (Z.of_nat k < SM_LDATA_B A)) as [Hk|Hk].
    + rewrite HuS, HuZ by done.
      destruct (lookup_lt_is_Some_2 arr k) as [a ->]; [lia|]. simpl. by rewrite Hmul.
    + rewrite !lookup_ge_None_2 by lia. done.
  - unfold SUNMatrixScale_Band, SUNMatrixZero_Band. by case_decide.
Qed.

End BandElementFacts.

(** ** Zero and Scale under Matvec *)

Section BandCompose.
Context {R : RealType}.

Implicit Types (m : gmap block (list realtype)) (A B : SUNMatrix).

Lemma band_elem_layout A m b arr i j :
  band_layout A m b -> m !! b = Some arr -> 0 <= j < SM_COLUMNS_B A ->
  0 <= i <= j + SM_LBAND_B A ->
  band_elem A m i j
  = default ZERO (arr !! Z.to_nat (j * c_ldim (SM_CONTENT_B A) + (i - j + SM_SUBAND_B A))).
Proof.
  intros HL Harr Hj Hi.
  pose proof (band_elem_index A m b i j HL Hj Hi) as Hidx.
  change (band_elem A m i j) with (default ZERO (SM_ELEMENT_B_get A m i j)).
  by rewrite (SM_ELEMENT_B_get_layout A m b arr i j HL Harr Hj) by lia.
Qed.

Lemma band_sum_zero (a : Z -> Z -> realtype) xv mu ml n i :
  (forall x : realtype, rmul ZERO x = ZERO) -> radd ZERO ZERO = ZERO ->
  (forall j, 0 <= j < Z.of_nat n -> j - mu <= i <= j + ml -> a i j = ZERO) ->
  band_sum a xv mu ml n i = ZERO.
Proof.
  intros Hmul Hadd. induction n as [|n IH]; intros Ha; [done|].
  simpl. rewrite IH by (intros j Hj; apply Ha; lia).
  destruct ((Z.of_nat n - mu <=? i) && (i <=? Z.of_nat n + ml)) eqn:Hband; [|done].
  apply andb_true_iff in Hband as [H1 H2].
  apply Z.leb_le in H1. apply Z.leb_le in H2.
  rewrite Ha by lia. by rewrite Hmul.
Qed.

(** Where 0*a = 0 and 0+0 = 0, SUNMatrixZero_Band followed by
    SUNMatrixMatvec_Band stores ZERO in every row of y, whatever x holds
    and whatever mu is. *)
Theorem band_zero_matvec A x y m b xd yd ys :
  (forall a : realtype, rmul ZERO a = ZERO) -> radd ZERO ZERO = ZERO ->
  band_layout A m b ->
  SMCompatible2_Band A x y = true ->
  N_VGetArrayPointer x = Some xd -> N_VGetArrayPointer y = Some yd ->
  (forall j, 0 <= j < SM_COLUMNS_B A -> is_Some (load m xd j)) ->
  m !! p_block yd = Some ys ->
  0 <= p_off yd -> p_off yd + SM_ROWS_B A <= Z.of_nat (length ys) ->
  p_block yd ≠ p_block xd -> p_block yd ≠ b -> p_block xd ≠ b ->
  exists m1 m2,
    SUNMatrixZero_Band A m = Some (0, m1) /\
    SUNMatrixMatvec_Band A x y m1 = Some (0, m2) /\
    (forall i, 0 <= i < SM_ROWS_B A -> load m2 yd i = Some ZERO).
Proof.
  intros Hmul Hadd HL Hc Hx Hy Hxs Hys Hoy Hlen Hxy Hby Hxb.
  pose proof (SMCompatible2_Band_id A x y Hc) as Hid.
  destruct (bl_arr _ _ _ HL) as (arr & Harr & Hla).
  destruct (SUNMatrixZero_Band_ok A m b HL Hid) as (arr1 & Hz & Hl1 & Hz1).
  assert (HL1 : band_layout A (<[b:=arr1]> m) b).
  { apply (band_layout_insert A m b arr); [done|done|lia]. }
  destruct (SUNMatrixMatvec_Band_ok A x y (<[b:=arr1]> m) b xd yd ys HL1 Hc Hx Hy)
    as (ys' & Hmv & Hl3 & Hsum & Hf3); try done.
  { intros j Hj. rewrite load_insert_ne by done. by apply Hxs. }
  { by rewrite lookup_insert_ne. }
  exists (<[b:=arr1]> m), (<[p_block yd:=ys']> (<[b:=arr1]> m)).
  split; [done|]. split; [done|].
  intros i Hi. rewrite load_insert_eq by lia. rewrite Hsum by lia. f_equal.
  apply band_sum_zero; [done|done|].
  intros j Hj Hband.
  rewrite (band_elem_layout A _ b arr1 i j HL1); [|by rewrite lookup_insert_eq|lia|lia].
  pose proof (band_elem_index A _ b i j HL1 ltac:(lia) ltac:(lia)) as Hidx.
  rewrite Hz1 by lia. done.
Qed.

Section Scaled.
Hypothesis real_semiring : semi_ring_theory ZERO ONE radd rmul eq.
Add Ring real_ring_band : real_semiring.

Lemma band_sum_scale (a a' : Z -> Z -> realtype) xv xv' mu ml n i c :
  (forall j, 0 <= j < Z.of_nat n -> j - mu <= i <= j + ml -> a' i j = rmul (a i j) c) ->
  (forall j, 0 <= j < Z.of_nat n -> xv' j = xv j) ->
  band_sum a' xv' mu ml n i = rmul (band_sum a xv mu ml n i) c.
Proof.
  induction n as [|n IH]; intros Ha Hx.
  - simpl. ring.
  - simpl. rewrite IH by (intros j Hj; first [apply Ha|apply Hx]; lia).
    destruct ((Z.of_nat n - mu <=? i) && (i <=? Z.of_nat n + ml)) eqn:Hband; [|done].
    apply andb_true_iff in Hband as [H1 H2].
    apply Z.leb_le in H1. apply Z.leb_le in H2.
    rewrite Ha, Hx by lia. ring.
Qed.

(** In exact arithmetic (the semiring laws), scaling the matrix by c and
    then multiplying gives c times the product: after SUNMatrixScale_Band
    and SUNMatrixMatvec_Band, y[i] is the y[i] of SUNMatrixMatvec_Band on
    the unscaled matrix, times c. *)
Theorem band_scale_matvec c A x y m b xd yd ys :
  band_layout A m b ->
  SMCompatible2_Band A x y = true ->
  N_VGetArrayPointer x = Some xd -> N_VGetArrayPointer y = Some yd ->
  (forall j, 0 <= j < SM_COLUMNS_B A -> is_Some (load m xd j)) ->
  m !! p_block yd = Some ys ->
  0 <= p_off yd -> p_off yd + SM_ROWS_B A <= Z.of_nat (length ys) ->
  p_block yd ≠ p_block xd -> p_block yd ≠ b -> p_block xd ≠ b ->
  exists m1 m2 m0,
    SUNMatrixScale_Band c A m = Some (0, m1) /\
    SUNMatrixMatvec_Band A x y m1 = Some (0, m2) /\
    SUNMatrixMatvec_Band A x y m = Some (0, m0) /\
    (forall i, 0 <= i < SM_ROWS_B A ->
       is_Some (load m0 yd i) /\
       load m2 yd i = (λ v, rmul v c) <$> load m0 yd i).
Proof.
  intros HL Hc Hx Hy Hxs Hys Hoy Hlen Hxy Hby Hxb.
  pose proof (SMCompatible2_Band_id A x y Hc) as Hid.
  destruct (bl_arr _ _ _ HL) as (arr & Harr & Hla).
  destruct (SUNMatrixScale_Band_ok c A m b arr HL Hid Harr) as (arr1 & Hs & Hl1 & Hu1).
  assert (HL1 : band_layout A (<[b:=arr1]> m) b).
  { apply (band_layout_insert A m b arr); [done|done|lia]. }
  destruct (SUNMatrixMatvec_Band_ok A x y (<[b:=arr1]> m) b xd yd ys HL1 Hc Hx Hy)
    as (ys1 & Hmv1 & Hlen1 & Hsum1 & Hf1); try done.
  { intros j Hj. rewrite load_insert_ne by done. by apply Hxs. }
  { by rewrite lookup_insert_ne. }
  destruct (SUNMatrixMatvec_Band_ok A x y m b xd yd ys HL Hc Hx Hy)
    as (ys0 & Hmv0 & Hlen0 & Hsum0 & Hf0); try done.
  exists (<[b:=arr1]> m), (<[p_block yd:=ys1]> (<[b:=arr1]> m)), (<[p_block yd:=ys0]> m).
  split; [done|]. split; [done|]. split; [done|].
  intros i Hi. rewrite !load_insert_eq by lia. rewrite Hsum1, Hsum0 by lia.
  split; [done|]. simpl. f_equal.
  apply band_sum_scale.
  - intros j Hj Hband.
    rewrite (band_elem_layout A _ b arr1 i j HL1); [|by rewrite lookup_insert_eq|lia|lia].
    rewrite (band_elem_layout A _ b arr i j HL); [|done|lia|lia].
    pose proof (band_elem_index A _ b i j HL ltac:(lia) ltac:(lia)) as Hidx.
    rewrite Hu1 by lia.
    destruct (lookup_lt_is_Some_2 arr
                (Z.to_nat (j * c_ldim (SM_CONTENT_B A) + (i - j + SM_SUBAND_B A))))
      as [v ->]; [lia|done].
  - intros j Hj. unfold vec_elem. by rewrite load_insert_ne.
Qed.

Lemma band_sum_plus_identity (a a' : Z -> Z -> realtype) xv xv' mu ml n i :
  0 <= mu -> 0 <= ml -> 0 <= i ->
  (forall j, 0 <= j < Z.of_nat n -> j - mu <= i <= j + ml ->
     a' i j = if decide (i = j) then radd (a i j) ONE else a i j) ->
  (forall j, 0 <= j < Z.of_nat n -> xv' j = xv j) ->
  band_sum a' xv' mu ml n i
  = if decide (i < Z.of_nat n) then radd (band_sum a xv mu ml n i) (xv i)
    else band_sum a xv mu ml n i.
Proof.
  intros Hmu Hml Hi. induction n as [|n IH]; intros Ha Hx.
  - simpl. case_decide; [lia|done].
  - simpl. rewrite IH by (intros j Hj; first [apply Ha|apply Hx]; lia).
    destruct ((Z.of_nat n - mu <=? i) && (i <=? Z.of_nat n + ml)) eqn:Hband.
    + apply andb_true_iff in Hband as [H1 H2].
      apply Z.leb_le in H1. apply Z.leb_le in H2.
      rewrite Ha, Hx by lia.
      destruct (decide (i = Z.of_nat n)) as [->|Hne].
      * repeat case_decide; try lia. ring.
      * repeat case_decide; try lia; ring.
    + apply andb_false_iff in Hband.
      repeat case_decide; try done; try lia.
      all: destruct Hband as [Hb|Hb]; apply Z.leb_gt in Hb; lia.
Qed.

(** In exact arithmetic, SUNMatrixAddIdentity_Band makes the product
    (A + I) x: on a square band matrix with 0 <= mu <= s_mu, after
    SUNMatrixAddIdentity_Band and SUNMatrixMatvec_Band y[i] is the y[i]
    of SUNMatrixMatvec_Band on the matrix as it was, plus x[i]. *)
Theorem band_addidentity_matvec A x y m b xd yd ys :
  band_layout A m b ->
  SMCompatible2_Band A x y = true ->
  SM_ROWS_B A = SM_COLUMNS_B A ->
  0 <= SM_UBAND_B A <= SM_SUBAND_B A ->
  N_VGetArrayPointer x = Some xd -> N_VGetArrayPointer y = Some yd ->
  (forall j, 0 <= j < SM_COLUMNS_B A -> is_Some (load m xd j)) ->
  m !! p_block yd = Some ys ->
  0 <= p_off yd -> p_off yd + SM_ROWS_B A <= Z.of_nat (length ys) ->
  p_block yd ≠ p_block xd -> p_block yd ≠ b -> p_block xd ≠ b ->
  exists m1 m2 m0,
    SUNMatrixAddIdentity_Band A m = Some (0, m1) /\
    SUNMatrixMatvec_Band A x y m1 = Some (0, m2) /\
    SUNMatrixMatvec_Band A x y m = Some (0, m0) /\
    (forall i, 0 <= i < SM_ROWS_B A ->
       exists y0 xi, load m0 yd i = Some y0 /\ load m xd i = Some xi /\
         load m2 yd i = Some (radd y0 xi)).
Proof.
  intros HL Hc Hsq Hmu Hx Hy Hxs Hys Hoy Hlen Hxy Hby Hxb.
  pose proof (SMCompatible2_Band_id A x y Hc) as Hid.
  destruct (bl_arr _ _ _ HL) as (arr & Harr & Hla).
  pose proof (bl_smu _ _ _ HL) as Hs. pose proof (bl_ml _ _ _ HL) as Hml.
  pose proof (bl_ldim _ _ _ HL) as Hld. pose proof (bl_N _ _ _ HL) as HN.
  destruct (SUNMatrixAddIdentity_Band_ok A m b arr HL Hid Harr)
    as (arr1 & Ha & Hl1 & Hu1 & Hf1).
  assert (HL1 : band_layout A (<[b:=arr1]> m) b).
  { apply (band_layout_insert A m b arr); [done|done|lia]. }
  destruct (SUNMatrixMatvec_Band_ok A x y (<[b:=arr1]> m) b xd yd ys HL1 Hc Hx Hy)
    as (ys1 & Hmv1 & Hlen1 & Hsum1 & Hfr1); try done.
  { intros j Hj. rewrite load_insert_ne by done. by apply Hxs. }
  { by rewrite lookup_insert_ne. }
  destruct (SUNMatrixMatvec_Band_ok A x y m b xd yd ys HL Hc Hx Hy)
    as (ys0 & Hmv0 & Hlen0 & Hsum0 & Hfr0); try done.
  exists (<[b:=arr1]> m), (<[p_block yd:=ys1]> (<[b:=arr1]> m)), (<[p_block yd:=ys0]> m).
  split; [done|]. split; [done|]. split; [done|].
  intros i Hi. rewrite !load_insert_eq by lia. rewrite Hsum1, Hsum0 by lia.
  destruct (Hxs i ltac:(lia)) as [xi Hxi].
  eexists _, xi. split; [done|]. split; [done|]. f_equal.
  rewrite (band_sum_plus_identity (band_elem A m) _ (vec_elem m xd));
    [| lia | lia | lia | |].
  - case_decide; [|lia]. unfold vec_elem. by rewrite Hxi.
  - intros j Hj Hband.
    rewrite (band_elem_layout A _ b arr1 i j HL1); [|by rewrite lookup_insert_eq|lia|lia].
    rewrite (band_elem_layout A _ b arr i j HL); [|done|lia|lia].
    pose proof (band_elem_index A _ b i j HL ltac:(lia) ltac:(lia)) as Hidx.
    destruct (decide (i = j)) as [->|Hne].
    + replace (j * c_ldim (SM_CONTENT_B A) + (j - j + SM_SUBAND_B A))
        with (j * c_ldim (SM_CONTENT_B A) + SM_SUBAND_B A) in * by lia.
      rewrite Hu1 by lia.
      destruct (lookup_lt_is_Some_2 arr
                  (Z.to_nat (j * c_ldim (SM_CONTENT_B A) + SM_SUBAND_B A)))
        as [v ->]; [lia|done].
    + rewrite Hf1; [done|].
      intros j' Hj' Heq.
      apply (column_cell_ne (c_ldim (SM_CONTENT_B A)) (SM_SUBAND_B A)
               (i - j + SM_SUBAND_B A) j j'); [lia|lia|lia|].
      pose proof (band_elem_index A _ b j' j' HL ltac:(lia) ltac:(lia)). lia.
  - intros j Hj. unfold vec_elem. by rewrite load_insert_ne.
Qed.

End Scaled.

End BandCompose.

(** ** Copy and Add *)

Section BandCopyAdd.
Context {R : RealType}.

Implicit Types (m : gmap block (list realtype)) (A B : SUNMatrix).

(** A loop with an undefined round is undefined. *)
Lemma for_loop_None {St : Type} (P : St -> Prop) (body : Z -> St -> option St) n lo s k :
  P s ->
  (forall i t t', P t -> body i t = Some t' -> P t') ->
  lo <= k < lo + Z.of_nat n ->
  (forall t, P t -> body k t = None) ->
  for_loop n lo body s = None.
Proof.
  revert lo s. induction n as [|n IH]; intros lo s Hs Hpres Hk Hfail; [lia|].
  simpl. destruct (body lo s) as [s'|] eqn:Hb; [|done]. simpl.
  destruct (decide (k = lo)) as [->|Hne].
  - rewrite Hfail in Hb by done. done.
  - apply IH; [by eapply Hpres|done|lia|done].
Qed.

Lemma for_loop_pres {St : Type} (P : St -> Prop) (body : Z -> St -> option St) n lo s t :
  P s ->
  (forall i t t', P t -> body i t = Some t' -> P t') ->
  for_loop n lo body s = Some t -> P t.
Proof.
  revert lo s. induction n as [|n IH]; intros lo s Hs Hpres; simpl.
  - by intros [= <-].
  - destruct (body lo s) as [s'|] eqn:Hb; [|done]. simpl.
    apply IH; [by eapply Hpres|done].
Qed.

Lemma store_same_lengths m0 m p k v m' :
  same_lengths m0 m -> store m p k v = Some m' -> same_lengths m0 m'.
Proof.
  intros Hs. unfold store. destruct (m !! p_block p) as [a|] eqn:Ha; [|done]. simpl.
  case_decide; [|done]. intros [= <-] b.
  destruct (decide (b = p_block p)) as [->|Hne].
  - rewrite lookup_insert_eq. simpl. rewrite length_insert.
    rewrite <- (Hs (p_block p)), Ha. done.
  - rewrite lookup_insert_ne by done. apply Hs.
Qed.

Lemma load_beyond m0 m p k arr :
  same_lengths m0 m -> m0 !! p_block p = Some arr ->
  p_off p + k < 0 \/ Z.of_nat (length arr) <= p_off p + k ->
  load m p k = None.
Proof.
  intros Hs Harr Hk. unfold load. case_decide; [|done].
  specialize (Hs (p_block p)). rewrite Harr in Hs. simpl in Hs.
  destruct (m !! p_block p) as [a|]; [|done]. simpl in *.
  apply lookup_ge_None_2. injection Hs as Hs. lia.
Qed.

Lemma store_beyond m0 m p k v arr :
  same_lengths m0 m -> m0 !! p_block p = Some arr ->
  p_off p + k < 0 \/ Z.of_nat (length arr) <= p_off p + k ->
  store m p k v = None.
Proof.
  intros Hs Harr Hk. unfold store.
  specialize (Hs (p_block p)). rewrite Harr in Hs. simpl in Hs.
  destruct (m !! p_block p) as [a|]; [|done]. simpl in *.
  injection Hs as Hs. case_decide; [lia|done].
Qed.

Lemma band_column_ptr A m b j :
  band_layout A m b -> 0 <= j < SM_COLUMNS_B A ->
  SM_COLUMN_B A j = Some (Ptr b (j * c_ldim (SM_CONTENT_B A) + SM_SUBAND_B A)).
Proof.
  intros HL Hj. unfold SM_COLUMN_B. by rewrite (band_cols A m b j HL Hj).
Qed.

(** The column loop shared by Copy and Add, over any element operation
    [ib] that is undefined when one of its two accesses is outside the
    array: one access outside makes the whole loop undefined. *)
Lemma column_loop_None
    (ib : ptr -> ptr -> Z -> gmap block (list realtype) -> option (gmap block (list realtype)))
    A B m bA bB sz j i :
  band_layout A m bA -> band_layout B m bB ->
  SM_COLUMNS_B A = SM_COLUMNS_B B ->
  (forall pa pb i t t', same_lengths m t -> ib pa pb i t = Some t' -> same_lengths m t') ->
  (forall pa pb i t arr, same_lengths m t ->
     (m !! p_block pa = Some arr /\
        (p_off pa + i < 0 \/ Z.of_nat (length arr) <= p_off pa + i)) \/
     (m !! p_block pb = Some arr /\
        (p_off pb + i < 0 \/ Z.of_nat (length arr) <= p_off pb + i)) ->
     ib pa pb i t = None) ->
  0 <= j < SM_COLUMNS_B A -> 0 <= i < sz ->
  (let k := j * c_ldim (SM_CONTENT_B A) + SM_SUBAND_B A + SM_SUBAND_B A
            + - SM_UBAND_B A + i in
   k < 0 \/ SM_LDATA_B A <= k) \/
  (let k := j * c_ldim (SM_CONTENT_B B) + SM_SUBAND_B B + SM_SUBAND_B B
            + - SM_UBAND_B B + i in
   k < 0 \/ SM_LDATA_B B <= k) ->
  for_range 0 (SM_COLUMNS_B A)
    (λ j m,
       cA ← SM_COLUMN_B A j;
       cB ← SM_COLUMN_B B j;
       let A_colj := ptr_add (ptr_add cA (SM_SUBAND_B A)) (- SM_UBAND_B A) in
       let B_colj := ptr_add (ptr_add cB (SM_SUBAND_B B)) (- SM_UBAND_B B) in
       for_range 0 sz (ib A_colj B_colj) m) m = None.
Proof.
  intros HLA HLB HN Hpres Hfail Hj Hi Hout.
  destruct (bl_arr _ _ _ HLA) as (arrA & HarrA & HlA).
  destruct (bl_arr _ _ _ HLB) as (arrB & HarrB & HlB).
  assert (Hinner : forall pa pb n lo t t', same_lengths m t ->
            for_loop n lo (ib pa pb) t = Some t' -> same_lengths m t').
  { intros pa pb n lo t t' Ht. apply (for_loop_pres (same_lengths m)); [done|].
    intros i' u u'. apply Hpres. }
  unfold for_range.
  apply (for_loop_None (same_lengths m) _ _ 0 m j).
  - intros b. done.
  - intros j' t t' Ht.
    destruct (SM_COLUMN_B A j') as [cA|]; [|done]. simpl.
    destruct (SM_COLUMN_B B j') as [cB|]; [|done]. simpl.
    by apply Hinner.
  - lia.
  - intros t Ht.
    rewrite (band_column_ptr A m bA j HLA Hj).
    rewrite (band_column_ptr B m bB j HLB) by lia. simpl.
    apply (for_loop_None (same_lengths m) _ _ 0 t i); [done| |lia|].
    + intros i' u u'. apply Hpres.
    + intros u Hu. destruct Hout as [Hout|Hout]; simpl in Hout.
      * apply (Hfail _ _ _ _ arrA Hu). left. simpl. split; [done|]. lia.
      * apply (Hfail _ _ _ _ arrB Hu). right. simpl. split; [done|]. lia.
Qed.

(** Copy and Add overrun the data: for compatible matrices laid out as
    the constructor does, with at least one column and mu+ml >= 0, both
    functions go outside a data array unless both stored upper
    bandwidths are 0 and mu <= 0.  (Their column pointers start from
    SM_COLUMN_B, which is already s_mu elements into the column.) *)
Theorem band_copy_add_overrun A B m bA bB :
  SMCompatible_Band A B = true ->
  band_layout A m bA -> band_layout B m bB ->
  1 <= SM_COLUMNS_B A -> 0 <= SM_UBAND_B A + SM_LBAND_B A ->
  ~ (SM_SUBAND_B A = 0 /\ SM_SUBAND_B B = 0 /\ SM_UBAND_B A <= 0) ->
  SUNMatrixCopy_BAND A B m = None /\ SUNMatrixAdd_Band A B m = None.
Proof.
  intros Hc HLA HLB HN Hsz Hbad.
  apply SMCompatible_Band_true in Hc as Hc'.
  destruct Hc' as (HidA & HidB & HM & HNN & Hmu & Hml).
  pose proof (bl_smu _ _ _ HLA) as HsA. pose proof (bl_smu _ _ _ HLB) as HsB.
  pose proof (bl_ml _ _ _ HLA) as HmlA. pose proof (bl_ml _ _ _ HLB) as HmlB.
  pose proof (bl_ldim _ _ _ HLA) as HldA. pose proof (bl_ldim _ _ _ HLB) as HldB.
  pose proof (bl_ldata _ _ _ HLA) as HdA. pose proof (bl_ldata _ _ _ HLB) as HdB.
  (* an element access outside the array *)
  assert (Hout : exists j i, 0 <= j < SM_COLUMNS_B A /\
            0 <= i < SM_UBAND_B A + SM_LBAND_B A + 1 /\
            ((let k := j * c_ldim (SM_CONTENT_B A) + SM_SUBAND_B A + SM_SUBAND_B A
                       + - SM_UBAND_B A + i in
              k < 0 \/ SM_LDATA_B A <= k) \/
             (let k := j * c_ldim (SM_CONTENT_B B) + SM_SUBAND_B B + SM_SUBAND_B B
                       + - SM_UBAND_B B + i in
              k < 0 \/ SM_LDATA_B B <= k))).
  { destruct (decide (1 <= SM_SUBAND_B A)) as [HA1|HA0].
    { exists (SM_COLUMNS_B A - 1), (SM_UBAND_B A + SM_LBAND_B A).
      split; [lia|]. split; [lia|]. left. simpl. right. rewrite HdA. lia. }
    destruct (decide (1 <= SM_SUBAND_B B)) as [HB1|HB0].
    { exists (SM_COLUMNS_B A - 1), (SM_UBAND_B A + SM_LBAND_B A).
      split; [lia|]. split; [lia|]. right. simpl. right. rewrite HdB. lia. }
    exists 0, 0. split; [lia|]. split; [lia|]. left. simpl. left. lia. }
  destruct Hout as (j & i & Hj & Hi & Hout).
  unfold SUNMatrixCopy_BAND, SUNMatrixAdd_Band. rewrite Hc. simpl. split.
  - rewrite (column_loop_None
               (λ A_colj B_colj i m, b ← load m B_colj i; store m A_colj i b)
               A B m bA bB _ j i); try done.
    + intros pa pb i' t t' Ht. destruct (load t pb i') as [v|]; [|done]. simpl.
      by apply store_same_lengths.
    + intros pa pb i' t arr Ht [[Harr Hk]|[Harr Hk]].
      * destruct (load t pb i'); [|done]. simpl. by apply (store_beyond m t pa i' _ arr).
      * by rewrite (load_beyond m t pb i' arr).
  - rewrite (column_loop_None
               (λ A_colj B_colj i m, a ← load m A_colj i;
                                     b ← load m B_colj i;
                                     store m A_colj i (radd a b))
               A B m bA bB _ j i); try done.
    + intros pa pb i' t t' Ht. destruct (load t pa i') as [v|]; [|done]. simpl.
      destruct (load t pb i') as [w|]; [|done]. simpl.
      by apply store_same_lengths.
    + intros pa pb i' t arr Ht [[Harr Hk]|[Harr Hk]].
      * by rewrite (load_beyond m t pa i' arr).
      * destruct (load t pa i'); [|done]. simpl.
        by rewrite (load_beyond m t pb i' arr).
Qed.

End BandCopyAdd.

Section BandCopyAddLower.
Context {R : RealType}.

Implicit Types (m : gmap block (list realtype)) (A B : SUNMatrix).

Lemma column_cells_ne (L j j' k k' : Z) :
  0 <= k < L -> 0 <= k' < L -> j ≠ j' -> j * L + k ≠ j' * L + k'.
Proof.
  intros Hk Hk' Hne Heq.
  destruct (Z.lt_trichotomy j j') as [Hlt|[->|Hgt]]; [|done|].
  - assert ((j + 1) * L <= j' * L) by (apply Z.mul_le_mono_nonneg_r; lia). lia.
  - assert ((j' + 1) * L <= j * L) by (apply Z.mul_le_mono_nonneg_r; lia). lia.
Qed.

(** The column loop shared by Copy and Add on matrices without stored
    upper band and with mu <= 0: the element operation [ib] turns a(i,j)
    into [g a(i,j) b(i,j)] on the rows j-mu .. j+ml of every column. *)
Lemma column_loop_lower
    (g : realtype -> realtype -> realtype)
    (ib : ptr -> ptr -> Z -> gmap block (list realtype) -> option (gmap block (list realtype)))
    A B m bA bB arrA arrB :
  SMCompatible_Band A B = true ->
  band_layout A m bA -> band_layout B m bB -> bA ≠ bB ->
  m !! bA = Some arrA -> m !! bB = Some arrB ->
  SM_SUBAND_B A = 0 -> SM_SUBAND_B B = 0 -> SM_UBAND_B A <= 0 ->
  (forall pa pb i ys' v w,
     p_block pa = bA -> p_block pb = bB -> p_off pb = p_off pa ->
     0 <= p_off pa + i ->
     ys' !! Z.to_nat (p_off pa + i) = Some v ->
     arrB !! Z.to_nat (p_off pa + i) = Some w ->
     ib pa pb i (<[bA:=ys']> m)
     = Some (<[bA:=<[Z.to_nat (p_off pa + i):=g v w]> ys']> m)) ->
  exists arr',
    for_range 0 (SM_COLUMNS_B A)
      (λ j m,
         cA ← SM_COLUMN_B A j;
         cB ← SM_COLUMN_B B j;
         let A_colj := ptr_add (ptr_add cA (SM_SUBAND_B A)) (- SM_UBAND_B A) in
         let B_colj := ptr_add (ptr_add cB (SM_SUBAND_B B)) (- SM_UBAND_B B) in
         for_range 0 (SM_UBAND_B A + SM_LBAND_B A + 1) (ib A_colj B_colj) m) m
    = Some (<[bA:=arr']> m) /\
    length arr' = length arrA /\
    (forall j k, 0 <= j < SM_COLUMNS_B A -> 0 <= k <= SM_LBAND_B A ->
       arr' !! Z.to_nat (j * (SM_LBAND_B A + 1) + k)
       = if decide (- SM_UBAND_B A <= k)
         then a ← arrA !! Z.to_nat (j * (SM_LBAND_B A + 1) + k);
              b ← arrB !! Z.to_nat (j * (SM_LBAND_B A + 1) + k);
              Some (g a b)
         else arrA !! Z.to_nat (j * (SM_LBAND_B A + 1) + k)).
Proof.
  intros Hc HLA HLB Hne HarrA HarrB HsA HsB Hmu Hib.
  apply SMCompatible_Band_true in Hc as (HidA & HidB & HM & HNN & HmuB & HmlB).
  pose proof (bl_ml _ _ _ HLA) as Hml. pose proof (bl_N _ _ _ HLA) as HN.
  pose proof (bl_ldim _ _ _ HLA) as HldA. pose proof (bl_ldim _ _ _ HLB) as HldB.
  pose proof (bl_ldata _ _ _ HLA) as HdA. pose proof (bl_ldata _ _ _ HLB) as HdB.
  destruct (bl_arr _ _ _ HLA) as (arrA0 & HarrA0 & HlA).
  destruct (bl_arr _ _ _ HLB) as (arrB0 & HarrB0 & HlB).
  assert (arrA0 = arrA) as -> by congruence.
  assert (arrB0 = arrB) as -> by congruence.
  set (mu := SM_UBAND_B A) in *. set (ml := SM_LBAND_B A) in *.
  set (N := SM_COLUMNS_B A) in *.
  assert (HLd : c_ldim (SM_CONTENT_B A) = ml + 1) by lia.
  assert (HLdB : c_ldim (SM_CONTENT_B B) = ml + 1) by lia.
  assert (Hcell : forall j k, 0 <= j < N -> 0 <= k <= ml ->
            0 <= j * (ml + 1) + k < Z.of_nat (length arrA) /\
            0 <= j * (ml + 1) + k < Z.of_nat (length arrB)).
  { intros j k Hj Hk.
    assert (0 <= j * (ml + 1)) by (apply Z.mul_nonneg_nonneg; lia).
    assert ((j + 1) * (ml + 1) <= N * (ml + 1))
      by (apply Z.mul_le_mono_nonneg_r; lia).
    rewrite HlA, HlB, HdA, HdB, HLd, HLdB, <- HNN. fold N. lia. }
  set (P := λ (j : Z) (t : gmap block (list realtype)),
         exists ysj, t = <[bA:=ysj]> m /\ length ysj = length arrA /\
           (forall j' k, 0 <= j' < N -> 0 <= k <= ml ->
              ysj !! Z.to_nat (j' * (ml + 1) + k)
              = if decide (j' < j /\ - mu <= k)
                then a ← arrA !! Z.to_nat (j' * (ml + 1) + k);
                     b ← arrB !! Z.to_nat (j' * (ml + 1) + k);
                     Some (g a b)
                else arrA !! Z.to_nat (j' * (ml + 1) + k))).
  match goal with |- context [for_range 0 N ?f] => set (body := f) end.
  destruct (for_loop_inv P body (Z.to_nat (N - 0)) 0 m)
    as (t & Hl & arr' & -> & Hlen' & Hcells).
  { exists arrA. split; [by rewrite insert_id|]. split; [done|].
    intros j' k Hj' Hk. case_decide; [lia|done]. }
  { intros j t Hj (ysj & -> & Hlenj & Hcj).
    unfold body.
    rewrite (band_column_ptr A m bA j HLA) by lia.
    rewrite (band_column_ptr B m bB j HLB) by lia. simpl.
    rewrite HsA, HsB, <- HmuB, HLd, HLdB. fold mu.
    unfold ptr_add. simpl.
    destruct (for_loop_pointwise (λ i, j * (ml + 1) + 0 + 0 + - mu + i)
                (λ i v, g v (default ZERO
                               (arrB !! Z.to_nat (j * (ml + 1) + 0 + 0 + - mu + i))))
                (ib (Ptr bA (j * (ml + 1) + 0 + 0 + - mu))
                    (Ptr bB (j * (ml + 1) + 0 + 0 + - mu)))
                m bA (Z.to_nat (mu + ml + 1 - 0)) 0 ysj)
      as (ys2 & Hl2 & Hlen2 & Hu2 & Hf2).
    { intros i Hi. rewrite Hlenj.
      pose proof (Hcell j (- mu + i) ltac:(lia) ltac:(lia)). lia. }
    { intros i i' Hi Hi'. lia. }
    { intros i ys' v Hi Hl' Hv.
      pose proof (Hcell j (- mu + i) ltac:(lia) ltac:(lia)) as [HcA HcB].
      destruct (lookup_lt_is_Some_2 arrB
                  (Z.to_nat (j * (ml + 1) + 0 + 0 + - mu + i))) as [w Hw]; [lia|].
      rewrite Hw. simpl.
      apply (Hib (Ptr bA _) (Ptr bB _) i ys' v w); simpl; try done. lia. }
    exists (<[bA:=ys2]> m). split; [exact Hl2|].
    exists ys2. split; [done|]. split; [congruence|].
    intros j' k Hj' Hk.
    pose proof (Hcell j' k Hj' Hk) as [HcA HcB].
    destruct (decide (j' = j /\ - mu <= k)) as [[-> Hband]|Hout].
    - specialize (Hu2 (k + mu) ltac:(lia)). simpl in Hu2.
      replace (j * (ml + 1) + 0 + 0 + - mu + (k + mu)) with (j * (ml + 1) + k) in Hu2 by lia.
      rewrite Hu2, (Hcj j k) by lia.
      case_decide; [lia|]. case_decide; [|lia].
      destruct (lookup_lt_is_Some_2 arrA (Z.to_nat (j * (ml + 1) + k))) as [v ->]; [lia|].
      destruct (lookup_lt_is_Some_2 arrB (Z.to_nat (j * (ml + 1) + k))) as [w ->]; [lia|].
      done.
    - rewrite Hf2.
      + rewrite Hcj by lia. repeat case_decide; try done; lia.
      + intros i Hi Heq.
        destruct (decide (j' = j)) as [->|Hjj].
        * assert (j * (ml + 1) + k = j * (ml + 1) + 0 + 0 + - mu + i) by lia. lia.
        * pose proof (Hcell j (- mu + i) ltac:(lia) ltac:(lia)) as [HcA' _].
          apply (column_cells_ne (ml + 1) j' j k (- mu + i)); [lia|lia|done|lia]. }
  exists arr'. split; [|split; [done|]].
  - unfold for_range. rewrite Hl. do 3 f_equal.
  - intros j k Hj Hk. rewrite Hcells by lia.
    replace (0 + Z.of_nat (Z.to_nat (N - 0))) with N by lia.
    repeat case_decide; try done; lia.
Qed.

Lemma lower_element A m b arr i j :
  band_layout A m b -> m !! b = Some arr -> SM_SUBAND_B A = 0 ->
  0 <= j < SM_COLUMNS_B A -> j <= i <= j + SM_LBAND_B A ->
  SM_ELEMENT_B_get A m i j = arr !! Z.to_nat (j * (SM_LBAND_B A + 1) + (i - j)) /\
  is_Some (arr !! Z.to_nat (j * (SM_LBAND_B A + 1) + (i - j))).
Proof.
  intros HL Harr Hs Hj Hi.
  pose proof (stored_index A m b i j HL Hj ltac:(lia)) as Hidx.
  pose proof (bl_ldim _ _ _ HL) as Hld.
  destruct (bl_arr _ _ _ HL) as (arr0 & Harr0 & Hla).
  assert (arr0 = arr) as -> by congruence.
  rewrite (SM_ELEMENT_B_get_layout A m b arr i j HL Harr Hj) by lia.
  replace (j * c_ldim (SM_CONTENT_B A) + (i - j + SM_SUBAND_B A))
    with (j * (SM_LBAND_B A + 1) + (i - j)) in * by (rewrite Hld, Hs; lia).
  split; [done|]. apply lookup_lt_is_Some_2. lia.
Qed.

(** SUNMatrixCopy_BAND(A, B) returns 1 and changes nothing when the
    matrices are not compatible.  On compatible matrices laid out as the
    constructor does in two distinct arrays, with no stored upper band
    (s_mu = 0 in both) and mu <= 0, it returns 0 and copies B into A: each
    element of A in the band, rows j-mu .. j+ml of column j, becomes that
    of B; the stored elements of A above the band, B and every other
    array stay as they were. *)
Theorem SUNMatrixCopy_BAND_lower A B m :
  (SMCompatible_Band A B = false -> SUNMatrixCopy_BAND A B m = Some (1, m)) /\
  (forall bA bB,
     SMCompatible_Band A B = true ->
     band_layout A m bA -> band_layout B m bB -> bA ≠ bB ->
     SM_SUBAND_B A = 0 -> SM_SUBAND_B B = 0 -> SM_UBAND_B A <= 0 ->
     exists m', SUNMatrixCopy_BAND A B m = Some (0, m') /\
       band_layout A m' bA /\
       (forall b', b' ≠ bA -> m' !! b' = m !! b') /\
       (forall i j, 0 <= j < SM_COLUMNS_B A -> j <= i <= j + SM_LBAND_B A ->
          is_Some (SM_ELEMENT_B_get A m i j) /\ is_Some (SM_ELEMENT_B_get B m i j) /\
          SM_ELEMENT_B_get A m' i j
          = if decide (j - SM_UBAND_B A <= i) then SM_ELEMENT_B_get B m i j
            else SM_ELEMENT_B_get A m i j)).
Proof.
  split.
  - intros Hc. unfold SUNMatrixCopy_BAND. by rewrite Hc.
  - intros bA bB Hc HLA HLB Hne HsA HsB Hmu.
    destruct (bl_arr _ _ _ HLA) as (arrA & HarrA & HlA).
    destruct (bl_arr _ _ _ HLB) as (arrB & HarrB & HlB).
    destruct (column_loop_lower (λ a b, b)
                (λ A_colj B_colj i m, b ← load m B_colj i; store m A_colj i b)
                A B m bA bB arrA arrB) as (arr' & Hl & Hlen & Hcells); try done.
    { intros pa pb i ys' v w HpA HpB Hoff Hi Hv Hw. subst bA bB.
      rewrite load_insert_ne by done.
      unfold load. rewrite Hoff. case_decide; [|lia]. rewrite HarrB. simpl.
      rewrite Hw. simpl. apply store_insert_eq.
      apply lookup_lt_Some in Hv. lia. }
    assert (HLA' : band_layout A (<[bA:=arr']> m) bA).
    { apply (band_layout_insert A m bA arrA); [done|done|lia]. }
    apply SMCompatible_Band_true in Hc as Hc'.
    destruct Hc' as (HidA & HidB & HM & HNN & HmuB & HmlB).
    exists (<[bA:=arr']> m). split; [|split; [done|split]].
    + unfold SUNMatrixCopy_BAND. rewrite Hc.
      cbv beta iota zeta delta [negb]. cbv beta zeta in Hl. by rewrite Hl.
    + intros b' Hb'. by rewrite lookup_insert_ne.
    + intros i j Hj Hi.
      destruct (lower_element A m bA arrA i j HLA HarrA HsA Hj Hi) as [HgA HsomeA].
      destruct (lower_element B m bB arrB i j HLB HarrB HsB ltac:(lia) ltac:(lia))
        as [HgB HsomeB].
      destruct (lower_element A _ bA arr' i j HLA') as [HgA' _];
        [by rewrite lookup_insert_eq|done|done|done|].
      rewrite HgA, HgB, HgA'. rewrite <- HmlB in *.
      split; [done|]. split; [done|].
      rewrite Hcells by lia.
      destruct HsomeA as [a ->]. destruct HsomeB as [b ->]. simpl.
      repeat case_decide; try done; lia.
Qed.

(** SUNMatrixAdd_Band(A, B) returns 1 and changes nothing when the
    matrices are not compatible.  On compatible matrices laid out as the
    constructor does in two distinct arrays, with no stored upper band
    (s_mu = 0 in both) and mu <= 0, it returns 0 and adds B to A: each
    element of A in the band, rows j-mu .. j+ml of column j, becomes
    A(i,j) + B(i,j); the stored elements of A above the band, B and every
    other array stay as they were. *)
Theorem SUNMatrixAdd_Band_lower A B m :
  (SMCompatible_Band A B = false -> SUNMatrixAdd_Band A B m = Some (1, m)) /\
  (forall bA bB,
     SMCompatible_Band A B = true ->
     band_layout A m bA -> band_layout B m bB -> bA ≠ bB ->
     SM_SUBAND_B A = 0 -> SM_SUBAND_B B = 0 -> SM_UBAND_B A <= 0 ->
     exists m', SUNMatrixAdd_Band A B m = Some (0, m') /\
       band_layout A m' bA /\
       (forall b', b' ≠ bA -> m' !! b' = m !! b') /\
       (forall i j, 0 <= j < SM_COLUMNS_B A -> j <= i <= j + SM_LBAND_B A ->
          exists a b,
            SM_ELEMENT_B_get A m i j = Some a /\ SM_ELEMENT_B_get B m i j = Some b /\
            SM_ELEMENT_B_get A m' i j
            = Some (if decide (j - SM_UBAND_B A <= i) then radd a b else a))).
Proof.
  split.
  - intros Hc. unfold SUNMatrixAdd_Band. by rewrite Hc.
  - intros bA bB Hc HLA HLB Hne HsA HsB Hmu.
    destruct (bl_arr _ _ _ HLA) as (arrA & HarrA & HlA).
    destruct (bl_arr _ _ _ HLB) as (arrB & HarrB & HlB).
    destruct (column_loop_lower radd
                (λ A_colj B_colj i m, a ← load m A_colj i;
                                      b ← load m B_colj i;
                                      store m A_colj i (radd a b))
                A B m bA bB arrA arrB) as (arr' & Hl & Hlen & Hcells); try done.
    { intros pa pb i ys' v w HpA HpB Hoff Hi Hv Hw. subst bA bB.
      rewrite load_insert_eq by done. rewrite Hv. simpl.
      rewrite load_insert_ne by done.
      unfold load. rewrite Hoff. case_decide; [|lia]. rewrite HarrB. simpl.
      rewrite Hw. simpl. apply store_insert_eq.
      apply lookup_lt_Some in Hv. lia. }
    assert (HLA' : band_layout A (<[bA:=arr']> m) bA).
    { apply (band_layout_insert A m bA arrA); [done|done|lia]. }
    apply SMCompatible_Band_true in Hc as Hc'.
    destruct Hc' as (HidA & HidB & HM & HNN & HmuB & HmlB).
    exists (<[bA:=arr']> m). split; [|split; [done|split]].
    + unfold SUNMatrixAdd_Band. rewrite Hc.
      cbv beta iota zeta delta [negb]. cbv beta zeta in Hl. by rewrite Hl.
    + intros b' Hb'. by rewrite lookup_insert_ne.
    + intros i j Hj Hi.
      destruct (lower_element A m bA arrA i j HLA HarrA HsA Hj Hi) as [HgA HsomeA].
      destruct (lower_element B m bB arrB i j HLB HarrB HsB ltac:(lia) ltac:(lia))
        as [HgB HsomeB].
      destruct (lower_element A _ bA arr' i j HLA') as [HgA' _];
        [by rewrite lookup_insert_eq|done|done|done|].
      rewrite HgA, HgB, HgA'. rewrite <- HmlB in *.
      rewrite Hcells by lia.
      destruct HsomeA as [a ->]. destruct HsomeB as [b ->]. simpl.
      exists a, b. split; [done|]. split; [done|].
      repeat case_decide; try done; lia.
Qed.

End BandCopyAddLower.

(** ** Print *)

Section BandPrint.
Context {R : RealType}.

Implicit Types (m : gmap block (list realtype)) (A B : SUNMatrix).

(** A loop that appends to its state. *)
Lemma for_loop_app {T : Type} (f : Z -> list T) (body : Z -> list T -> option (list T))
    n lo out :
  (forall i out, lo <= i < lo + Z.of_nat n -> body i out = Some (out ++ f i)) ->
  for_loop n lo body out = Some (out ++ mjoin (f <$> seqZ lo (Z.of_nat n))).
Proof.
  revert lo out. induction n as [|n IH]; intros lo out Hb.
  - simpl. by rewrite app_nil_r.
  - rewrite (seqZ_cons lo (Z.of_nat (S n))) by lia.
    replace (Z.succ lo) with (lo + 1) by lia.
    replace (Z.pred (Z.of_nat (S n))) with (Z.of_nat n) by lia.
    cbn [for_loop]. rewrite Hb by lia. simpl.
    rewrite IH by (intros i out' Hi; apply Hb; lia).
    by rewrite <- app_assoc.
Qed.

Lemma mjoin_singletons {T U : Type} (f : U -> T) (l : list U) :
  mjoin ((λ x, [f x]) <$> l) = f <$> l.
Proof. induction l as [|x l IH]; simpl; [done|]. by f_equal. Qed.

(** SUNMatrixPrint_Band prints nothing when A is not a band matrix.  For a
    band matrix laid out as the constructor does it reads inside the data
    array only and prints a line break, the rows 0 .. M-1 as they appear
    on paper, each with its line break, and one more line break. *)
Theorem SUNMatrixPrint_Band_spec A m outfile :
  (SUNMatrixGetID A ≠ SUNMATRIX_BAND -> SUNMatrixPrint_Band A m outfile = Some outfile) /\
  (forall b, SUNMatrixGetID A = SUNMATRIX_BAND -> band_layout A m b ->
     SUNMatrixPrint_Band A m outfile
     = Some (outfile ++ [PrintNewline]
               ++ mjoin (print_row A m <$> seqZ 0 (SM_ROWS_B A))
               ++ [PrintNewline])).
Proof.
  split.
  - intros Hid. unfold SUNMatrixPrint_Band. by case_decide.
  - intros b Hid HL. unfold SUNMatrixPrint_Band. case_decide; [done|].
    unfold for_range at 1.
    rewrite (for_loop_app (print_row A m)).
    + simpl. rewrite Z.sub_0_r.
      destruct (decide (0 <= SM_ROWS_B A)) as [HM|HM].
      * rewrite Z2Nat.id by lia. by rewrite <- !app_assoc.
      * replace (Z.to_nat (SM_ROWS_B A)) with 0%nat by lia.
        rewrite (seqZ_nil 0 (SM_ROWS_B A)) by lia. simpl.
        by rewrite <- !app_assoc.
    + intros i out Hi. rewrite SUNMAX_spec, SUNMIN_spec.
      set (start := Z.max 0 (i - SM_LBAND_B A)).
      set (finish := Z.min (SM_COLUMNS_B A - 1) (i + SM_UBAND_B A)).
      unfold for_range.
      rewrite (for_loop_app (λ _, [PrintBlank])) by done. simpl.
      rewrite (for_loop_app (λ j, [PrintElement (band_elem A m i j)])).
      * simpl. unfold print_row. fold start finish.
        rewrite !mjoin_singletons.
        rewrite Z.sub_0_r, (Z2Nat.id start) by lia.
        destruct (decide (0 <= finish + 1 - start)) as [Hn|Hn].
        -- rewrite Z2Nat.id by lia. by rewrite <- !app_assoc.
        -- replace (Z.to_nat (finish + 1 - start)) with 0%nat by lia.
           rewrite (seqZ_nil start (finish + 1 - start)) by lia. simpl.
           by rewrite <- !app_assoc.
      * intros j out' Hj.
        destruct (bl_arr _ _ _ HL) as (arr & Harr & Hla).
        pose proof (band_elem_index A m b i j HL ltac:(lia) ltac:(lia)) as Hidx.
        change (band_elem A m i j) with (default ZERO (SM_ELEMENT_B_get A m i j)).
        unfold SM_ELEMENT_B_get.
        pose proof (SM_ELEMENT_B_get_layout A m b arr i j HL Harr ltac:(lia) ltac:(lia))
          as Hget.
        unfold SM_ELEMENT_B_get in Hget.
        destruct (lookup_lt_is_Some_2 arr
                    (Z.to_nat (j * c_ldim (SM_CONTENT_B A) + (i - j + SM_SUBAND_B A))))
          as [a Ha]; [lia|].
        rewrite Ha in Hget.
        destruct (SM_ELEMENT_B A i j) as [[c k]|]; simpl in *; [|done].
        by rewrite Hget.
Qed.

End BandPrint.

(** ** The remaining band operations on the sample objects *)

Example A_tri_cloned :
  fst (SUNMatrixClone_Band zheap_tri A_tri) = Some A_tri_clone.
Proof. vm_compute. reflexivity. Qed.

Example A_low_constructed :
  fst (SUNMatrixNew_Band zheap 3 0 1 0) = Some A_low /\
  fst (SUNMatrixNew_Band (snd (SUNMatrixNew_Band zheap 3 0 1 0)) 3 0 1 0) = Some B_low.
Proof. split; vm_compute; reflexivity. Qed.

(** On the tridiagonal sample, where s_mu = 1, Copy and Add leave the data
    array in its last column. *)
Example copy_add_tri :
  SUNMatrixCopy_BAND (R:=Z_real) A_tri A_tri m_tri = None /\
  SUNMatrixAdd_Band (R:=Z_real) A_tri A_tri m_tri = None.
Proof. split; vm_compute; reflexivity. Qed.

Example add_low :
  SUNMatrixAdd_Band (R:=Z_real) A_low B_low m_low ≫= (λ r, snd r !! 3%nat)
  = Some [11; 22; 33; 44; 55; 66].
Proof. vm_compute. reflexivity. Qed.

Example scale_tri :
  SUNMatrixScale_Band (R:=Z_real) 2 A_tri m_tri ≫= (λ r, snd r !! 3%nat)
  = Some [0; 2; 8; 4; 10; 14; 6; 12; 0].
Proof. vm_compute. reflexivity. Qed.

(** (1 2 0; 4 5 3; 0 7 6) as it is printed. *)
Example print_tri :
  SUNMatrixPrint_Band (R:=Z_real) A_tri m_tri []
  = Some [PrintNewline;
          @PrintElement Z_real 1; @PrintElement Z_real 2; PrintNewline;
          @PrintElement Z_real 4; @PrintElement Z_real 5; @PrintElement Z_real 3; PrintNewline;
          PrintBlank; @PrintElement Z_real 7; @PrintElement Z_real 6; PrintNewline;
          PrintNewline].
Proof. vm_compute. reflexivity. Qed.

Lemma zheap_fresh : heap_fresh zheap.
Proof. intros b _. split; [apply not_elem_of_empty|apply lookup_empty]. Defined.

Lemma zheap_fail_fresh : heap_fresh zheap_fail.
Proof. intros b _. split; [apply not_elem_of_empty|apply lookup_empty]. Defined.

Lemma zheap_tri_fresh : heap_fresh zheap_tri.
Proof.
  apply (SUNMatrixNew_Band_heap zheap 3 1 1 1 (Some A_tri) zheap_tri zheap_fresh).
  vm_compute. reflexivity.
Defined.

Lemma A_low_layout : band_layout A_low m_low 3%nat.
Proof.
  split; try (vm_compute; congruence); try reflexivity.
  exists [1; 2; 3; 4; 5; 6]. split; reflexivity.
Defined.

Lemma B_low_layout : band_layout B_low m_low 8%nat.
Proof.
  split; try (vm_compute; congruence); try reflexivity.
  exists [10; 20; 30; 40; 50; 60]. split; reflexivity.
Defined.

Lemma Z_semiring : semi_ring_theory (R:=Z) 0 1 Z.add Z.mul eq.
Proof.
  exact (mk_srt 0 1 Z.add Z.mul eq Z.add_0_l Z.add_comm Z.add_assoc
           Z.mul_1_l Z.mul_0_l Z.mul_comm Z.mul_assoc Z.mul_add_distr_r).
Defined.

Lemma SMCompatible_Band_equivalence_witness :
  SMCompatible_Band A_low A_low = true.
Proof.
  apply (proj1 (proj2 (proj2 SMCompatible_Band_equivalence)) A_low B_low A_low);
    reflexivity.
Defined.


Lemma SUNMatrixNew_Band_no_leak_witness :
  h_mem (snd (SUNMatrixNew_Band zheap_fail 3 1 1 1)) = h_mem zheap_fail /\
  h_objs (snd (SUNMatrixNew_Band zheap_fail 3 1 1 1)) = h_objs zheap_fail /\
  heap_fresh (snd (SUNMatrixNew_Band zheap_fail 3 1 1 1)).
Proof.
  apply (SUNMatrixNew_Band_no_leak zheap_fail 3 1 1 1).
  - exact zheap_fail_fresh.
  - vm_compute. reflexivity.
Defined.


Lemma SUNMatrixBand_accessors_witness :
  SUNMatrixGetID A_tri = SUNMATRIX_BAND /\
  SUNMatrixBand_Rows A_tri = 3 /\ SUNMatrixBand_Columns A_tri = 3 /\
  SUNMatrixBand_UpperBandwidth A_tri = 1 /\ SUNMatrixBand_LowerBandwidth A_tri = 1 /\
  SUNMatrixBand_StoredUpperBandwidth A_tri = 1 /\
  exists data, SUNMatrixBand_Data A_tri = Some data /\
    forall j, 0 <= j < 3 ->
      SUNMatrixBand_Column A_tri j = Some (ptr_add data (j * (1 + 1 + 1) + 1)).
Proof.
  apply (proj1 (SUNMatrixBand_accessors (R:=Z_real)) zheap 3 1 1 1 A_tri zheap_tri).
  vm_compute. reflexivity.
Defined.


Lemma SUNMatrixZero_Band_spec_witness :
  exists m', SUNMatrixZero_Band (R:=Z_real) A_tri m_tri = Some (0, m') /\
    band_layout A_tri m' 3%nat /\
    (forall b', b' ≠ 3%nat -> m' !! b' = m_tri !! b') /\
    (forall i j, 0 <= j < SM_COLUMNS_B A_tri ->
       j - SM_SUBAND_B A_tri <= i <= j + SM_LBAND_B A_tri ->
       SM_ELEMENT_B_get A_tri m' i j = Some ZERO).
Proof.
  apply (proj2 (SUNMatrixZero_Band_spec (R:=Z_real) A_tri m_tri) 3%nat).
  - reflexivity.
  - exact A_tri_layout.
Defined.

Lemma SUNMatrixAddIdentity_Band_spec_witness :
  exists m', SUNMatrixAddIdentity_Band (R:=Z_real) A_tri m_tri = Some (0, m') /\
    band_layout A_tri m' 3%nat /\
    (forall b', b' ≠ 3%nat -> m' !! b' = m_tri !! b') /\
    (forall i j, 0 <= j < SM_COLUMNS_B A_tri ->
       j - SM_SUBAND_B A_tri <= i <= j + SM_LBAND_B A_tri ->
       is_Some (SM_ELEMENT_B_get A_tri m_tri i j) /\
       SM_ELEMENT_B_get A_tri m' i j
       = (λ a, if decide (i = j) then radd a ONE else a) <$> SM_ELEMENT_B_get A_tri m_tri i j).
Proof.
  apply (proj2 (SUNMatrixAddIdentity_Band_spec (R:=Z_real) A_tri m_tri) 3%nat).
  - reflexivity.
  - exact A_tri_layout.
Defined.

Lemma SUNMatrixScale_Band_spec_witness :
  exists m', SUNMatrixScale_Band (R:=Z_real) 2 A_tri m_tri = Some (0, m') /\
    band_layout A_tri m' 3%nat /\
    (forall b', b' ≠ 3%nat -> m' !! b' = m_tri !! b') /\
    (forall i j, 0 <= j < SM_COLUMNS_B A_tri ->
       j - SM_SUBAND_B A_tri <= i <= j + SM_LBAND_B A_tri ->
       is_Some (SM_ELEMENT_B_get A_tri m_tri i j) /\
       SM_ELEMENT_B_get A_tri m' i j
       = (λ a, @rmul Z_real a 2) <$> SM_ELEMENT_B_get A_tri m_tri i j).
Proof.
  apply (proj2 (SUNMatrixScale_Band_spec (R:=Z_real) 2 A_tri m_tri) 3%nat).
  - reflexivity.
  - exact A_tri_layout.
Defined.

Lemma SUNMatrixScale_Band_ZERO_witness :
  SUNMatrixScale_Band (R:=Z_real) ZERO A_tri m_tri = SUNMatrixZero_Band A_tri m_tri.
Proof.
  apply (SUNMatrixScale_Band_ZERO (R:=Z_real) A_tri m_tri 3%nat).
  - exact Z.mul_0_r.
  - exact A_tri_layout.
Defined.

Lemma band_zero_matvec_witness :
  exists m1 m2,
    SUNMatrixZero_Band (R:=Z_real) A_tri m_tri = Some (0, m1) /\
    SUNMatrixMatvec_Band A_tri x_tri y_tri m1 = Some (0, m2) /\
    (forall i, 0 <= i < SM_ROWS_B A_tri -> load m2 (Ptr 11%nat 0) i = Some ZERO).
Proof.
  apply (band_zero_matvec (R:=Z_real) A_tri x_tri y_tri m_tri 3%nat
           (Ptr 10%nat 0) (Ptr 11%nat 0) [9; 9; 9]).
  - exact Z.mul_0_l.
  - reflexivity.
  - exact A_tri_layout.
  - reflexivity.
  - reflexivity.
  - reflexivity.
  - exact x_tri_readable.
  - reflexivity.
  - simpl. lia.
  - vm_compute. congruence.
  - simpl. lia.
  - simpl. lia.
  - simpl. lia.
Defined.

Lemma band_scale_matvec_witness :
  exists m1 m2 m0,
    SUNMatrixScale_Band (R:=Z_real) 2 A_tri m_tri = Some (0, m1) /\
    SUNMatrixMatvec_Band A_tri x_tri y_tri m1 = Some (0, m2) /\
    SUNMatrixMatvec_Band A_tri x_tri y_tri m_tri = Some (0, m0) /\
    (forall i, 0 <= i < SM_ROWS_B A_tri ->
       is_Some (load m0 (Ptr 11%nat 0) i) /\
       load m2 (Ptr 11%nat 0) i = (λ v, @rmul Z_real v 2) <$> load m0 (Ptr 11%nat 0) i).
Proof.
  apply (band_scale_matvec (R:=Z_real) Z_semiring 2 A_tri x_tri y_tri m_tri 3%nat
           (Ptr 10%nat 0) (Ptr 11%nat 0) [9; 9; 9]).
  - exact A_tri_layout.
  - reflexivity.
  - reflexivity.
  - reflexivity.
  - exact x_tri_readable.
  - reflexivity.
  - simpl. lia.
  - vm_compute. congruence.
  - simpl. lia.
  - simpl. lia.
  - simpl. lia.
Defined.

Lemma band_addidentity_matvec_witness :
  exists m1 m2 m0,
    SUNMatrixAddIdentity_Band (R:=Z_real) A_tri m_tri = Some (0, m1) /\
    SUNMatrixMatvec_Band A_tri x_tri y_tri m1 = Some (0, m2) /\
    SUNMatrixMatvec_Band A_tri x_tri y_tri m_tri = Some (0, m0) /\
    (forall i, 0 <= i < SM_ROWS_B A_tri ->
       exists y0 xi, load m0 (Ptr 11%nat 0) i = Some y0 /\
         load m_tri (Ptr 10%nat 0) i = Some xi /\
         load m2 (Ptr 11%nat 0) i = Some (radd y0 xi)).
Proof.
  apply (band_addidentity_matvec (R:=Z_real) Z_semiring A_tri x_tri y_tri m_tri 3%nat
           (Ptr 10%nat 0) (Ptr 11%nat 0) [9; 9; 9]).
  - exact A_tri_layout.
  - reflexivity.
  - reflexivity.
  - vm_compute. split; congruence.
  - reflexivity.
  - reflexivity.
  - exact x_tri_readable.
  - reflexivity.
  - simpl. lia.
  - vm_compute. congruence.
  - simpl. lia.
  - simpl. lia.
  - simpl. lia.
Defined.

Lemma band_copy_add_overrun_witness :
  SUNMatrixCopy_BAND (R:=Z_real) A_tri A_tri m_tri = None /\
  SUNMatrixAdd_Band (R:=Z_real) A_tri A_tri m_tri = None.
Proof.
  apply (band_copy_add_overrun (R:=Z_real) A_tri A_tri m_tri 3%nat 3%nat).
  - reflexivity.
  - exact A_tri_layout.
  - exact A_tri_layout.
  - vm_compute. congruence.
  - vm_compute. congruence.
  - vm_compute. intros (H & _). discriminate H.
Defined.

Lemma SUNMatrixCopy_BAND_lower_witness :
  exists m', SUNMatrixCopy_BAND (R:=Z_real) A_low B_low m_low = Some (0, m') /\
    band_layout A_low m' 3%nat /\
    (forall b', b' ≠ 3%nat -> m' !! b' = m_low !! b') /\
    (forall i j, 0 <= j < SM_COLUMNS_B A_low -> j <= i <= j + SM_LBAND_B A_low ->
       is_Some (SM_ELEMENT_B_get A_low m_low i j) /\
       is_Some (SM_ELEMENT_B_get B_low m_low i j) /\
       SM_ELEMENT_B_get A_low m' i j
       = if decide (j - SM_UBAND_B A_low <= i) then SM_ELEMENT_B_get B_low m_low i j
         else SM_ELEMENT_B_get A_low m_low i j).
Proof.
  apply (proj2 (SUNMatrixCopy_BAND_lower (R:=Z_real) A_low B_low m_low) 3%nat 8%nat).
  - reflexivity.
  - exact A_low_layout.
  - exact B_low_layout.
  - lia.
  - reflexivity.
  - reflexivity.
  - vm_compute. congruence.
Defined.

Lemma SUNMatrixAdd_Band_lower_witness :
  exists m', SUNMatrixAdd_Band (R:=Z_real) A_low B_low m_low = Some (0, m') /\
    band_layout A_low m' 3%nat /\
    (forall b', b' ≠ 3%nat -> m' !! b' = m_low !! b') /\
    (forall i j, 0 <= j < SM_COLUMNS_B A_low -> j <= i <= j + SM_LBAND_B A_low ->
       exists a b,
         SM_ELEMENT_B_get A_low m_low i j = Some a /\
         SM_ELEMENT_B_get B_low m_low i j = Some b /\
         SM_ELEMENT_B_get A_low m' i j
         = Some (if decide (j - SM_UBAND_B A_low <= i) then radd a b else a)).
Proof.
  apply (proj2 (SUNMatrixAdd_Band_lower (R:=Z_real) A_low B_low m_low) 3%nat 8%nat).
  - reflexivity.
  - exact A_low_layout.
  - exact B_low_layout.
  - lia.
  - reflexivity.
  - reflexivity.
  - vm_compute. congruence.
Defined.

Lemma SUNMatrixPrint_Band_spec_witness :
  SUNMatrixPrint_Band (R:=Z_real) A_tri m_tri []
  = Some ([] ++ [PrintNewline]
            ++ mjoin (print_row A_tri m_tri <$> seqZ 0 (SM_ROWS_B A_tri))
            ++ [PrintNewline]).
Proof.
  apply (proj2 (SUNMatrixPrint_Band_spec (R:=Z_real) A_tri m_tri []) 3%nat).
  - reflexivity.
  - exact A_tri_layout.
Defined.

(** ** The food web example: the grid and InitUserData *)

Section WebIndexFacts.
Import Iwebpk.

(** IJ_Vptr lays the species, the x index and the y index of the local
    grid out without gaps or overlaps: element [is] after IJ_Vptr(vv,i,j),
    for 0 <= is < NUM_SPECIES, 0 <= i < MXSUB, 0 <= j < MYSUB, lies in the
    array of vv among its first MXSUB*MYSUB*NUM_SPECIES elements, two
    different triples give different elements, and every one of these
    elements belongs to a triple. *)
Theorem IJ_Vptr_layout :
  (forall vv i j is_,
     0 <= is_ < NUM_SPECIES -> 0 <= i < MXSUB -> 0 <= j < MYSUB ->
     p_block (IJ_Vptr vv i j) = p_block vv /\
     p_off vv <= p_off (IJ_Vptr vv i j) + is_
     < p_off vv + MXSUB * MYSUB * NUM_SPECIES) /\
  (forall vv i j is_ i' j' is',
     0 <= is_ < NUM_SPECIES -> 0 <= i < MXSUB -> 0 <= j < MYSUB ->
     0 <= is' < NUM_SPECIES -> 0 <= i' < MXSUB -> 0 <= j' < MYSUB ->
     p_off (IJ_Vptr vv i j) + is_ = p_off (IJ_Vptr vv i' j') + is' ->
     i = i' /\ j = j' /\ is_ = is') /\
  (forall vv k, 0 <= k < MXSUB * MYSUB * NUM_SPECIES ->
     exists i j is_,
       0 <= is_ < NUM_SPECIES /\ 0 <= i < MXSUB /\ 0 <= j < MYSUB /\
       p_off (IJ_Vptr vv i j) + is_ = p_off vv + k).
Proof.
  unfold IJ_Vptr, ptr_add, NSMXSUB, NUM_SPECIES, NPREY, MXSUB, MYSUB. simpl.
  split; [|split].
  - intros vv i j is_ His Hi Hj. split; [done|lia].
  - intros vv i j is_ i' j' is' His Hi Hj His' Hi' Hj' Heq. lia.
  - intros vv k Hk.
    exists ((k mod 20) / 2), (k / 20), ((k mod 20) mod 2).
    pose proof (Z.div_mod k 20 ltac:(lia)).
    pose proof (Z.mod_pos_bound k 20 ltac:(lia)).
    pose proof (Z.div_mod (k mod 20) 2 ltac:(lia)).
    pose proof (Z.mod_pos_bound (k mod 20) 2 ltac:(lia)).
    assert (0 <= k / 20 < 10)
      by (split; [apply Z.div_pos; lia|apply Z.div_lt_upper_bound; lia]).
    assert (0 <= (k mod 20) / 2 < 10)
      by (split; [apply Z.div_pos; lia|apply Z.div_lt_upper_bound; lia]).
    lia.
Qed.

End WebIndexFacts.

Section WebInitFacts.
Import Iwebpk.
Context {R : RealType} {RM : RealMath R} {WM : WebMath R}.

Implicit Types (m : gmap block (list realtype)).

Lemma store_Some m p k v a :
  m !! p_block p = Some a -> 0 <= p_off p + k < Z.of_nat (length a) ->
  store m p k v = Some (<[p_block p:=<[Z.to_nat (p_off p + k):=v]> a]> m).
Proof.
  intros Ha Hk. unfold store. rewrite Ha. simpl. by case_decide.
Qed.

Lemma list_length_2 {T : Type} (l : list T) :
  length l = 2%nat -> exists x y, l = [x; y].
Proof.
  destruct l as [|x [|y [|z l]]]; simpl; intros H; try discriminate H. eauto.
Qed.

(** InitUserData computes the position of the process in the NPEX x NPEY
    array of processes by rows: for thispe >= 0, ixsub is the remainder
    and jysub the quotient of thispe by NPEX, so thispe = jysub*NPEX +
    ixsub with 0 <= ixsub < NPEX, and jysub < NPEY exactly when thispe <
    NPEX*NPEY; two processes never share a position.  It also records
    thispe and npes as given. *)
Theorem InitUserData_subgrid :
  (forall webdata thispe npes m w m',
     InitUserData webdata thispe npes m = Some (w, m') -> 0 <= thispe ->
     ud_thispe w = thispe /\ ud_npes w = npes /\
     thispe = ud_jysub w * NPEX + ud_ixsub w /\
     0 <= ud_ixsub w < NPEX /\ 0 <= ud_jysub w /\
     (ud_jysub w < NPEY <-> thispe < NPEX * NPEY)) /\
  (forall webdata1 thispe1 npes1 m1 w1 m1' webdata2 thispe2 npes2 m2 w2 m2',
     InitUserData webdata1 thispe1 npes1 m1 = Some (w1, m1') ->
     InitUserData webdata2 thispe2 npes2 m2 = Some (w2, m2') ->
     0 <= thispe1 -> 0 <= thispe2 ->
     ud_ixsub w1 = ud_ixsub w2 -> ud_jysub w1 = ud_jysub w2 ->
     thispe1 = thispe2).
Proof.
  assert (Hone : forall webdata thispe npes m w m',
     InitUserData webdata thispe npes m = Some (w, m') -> 0 <= thispe ->
     ud_thispe w = thispe /\ ud_npes w = npes /\
     thispe = ud_jysub w * NPEX + ud_ixsub w /\
     0 <= ud_ixsub w < NPEX /\ 0 <= ud_jysub w /\
     (ud_jysub w < NPEY <-> thispe < NPEX * NPEY)).
  { intros webdata thispe npes m w m' Hinit Hpe.
    unfold InitUserData in Hinit.
    destruct (for_range 0 _ _ m) as [m''|]; [|done].
    injection Hinit as <- <-. simpl.
    unfold NPEX, NPEY.
    pose proof (Z.quot_rem' thispe 2) as Hqr.
    pose proof (Z.rem_bound_pos thispe 2 Hpe ltac:(lia)) as Hr.
    pose proof (Z.quot_pos thispe 2 Hpe ltac:(lia)) as Hq.
    lia. }
  split; [exact Hone|].
  intros webdata1 thispe1 npes1 m1 w1 m1' webdata2 thispe2 npes2 m2 w2 m2'
    H1 H2 Hp1 Hp2 Hix Hjy.
  destruct (Hone _ _ _ _ _ _ H1 Hp1) as (_ & _ & E1 & _).
  destruct (Hone _ _ _ _ _ _ H2 Hp2) as (_ & _ & E2 & _).
  congruence.
Qed.

(** InitUserData with acoef allocated as two rows of NUM_SPECIES elements
    and the arrays bcoef, cox and coy of NUM_SPECIES elements, all five in
    different blocks: it returns, with the sizes ns = NUM_SPECIES,
    np = NPREY, mxsub = MXSUB, mysub = MYSUB, nsmxsub = NUM_SPECIES*MXSUB,
    nsmxsub2 = NUM_SPECIES*(MXSUB+2), the mesh widths dx = AX/(MX-1) and
    dy = AY/(MY-1), and the coefficients of the header comment:
    a = (-AA -GG; EE -AA), b = (BB, -BB), cox = (DPREY, DPRED)/dx^2 and
    coy = (DPREY, DPRED)/dy^2; nothing else in memory is changed. *)
Theorem InitUserData_coefficients webdata thispe npes m b0 b1 bb bx by_ :
  ud_acoef webdata = [Ptr b0 0; Ptr b1 0] ->
  ud_bcoef webdata = Ptr bb 0 -> ud_cox webdata = Ptr bx 0 -> ud_coy webdata = Ptr by_ 0 ->
  NoDup [b0; b1; bb; bx; by_] ->
  (forall b, b ∈ [b0; b1; bb; bx; by_] ->
     exists a, m !! b = Some a /\ Z.of_nat (length a) = NUM_SPECIES) ->
  exists w m',
    InitUserData webdata thispe npes m = Some (w, m') /\
    ud_ns w = NUM_SPECIES /\ ud_np w = NPREY /\
    ud_npex w = NPEX /\ ud_npey w = NPEY /\
    ud_mxsub w = MXSUB /\ ud_mysub w = MYSUB /\
    ud_nsmxsub w = NUM_SPECIES * MXSUB /\ ud_nsmxsub2 w = NUM_SPECIES * (MXSUB + 2) /\
    ud_dx w = rdiv AX (rofZ (MX - 1)) /\ ud_dy w = rdiv AY (rofZ (MY - 1)) /\
    ud_acoef w = ud_acoef webdata /\ ud_bcoef w = ud_bcoef webdata /\
    ud_cox w = ud_cox webdata /\ ud_coy w = ud_coy webdata /\
    ud_rhs w = ud_rhs webdata /\ ud_cext w = ud_cext webdata /\
    ud_rates w = ud_rates webdata /\
    m' !! b0 = Some [rneg AA; rneg GG] /\
    m' !! b1 = Some [EE; rneg AA] /\
    m' !! bb = Some [BB; rneg BB] /\
    m' !! bx = Some [rdiv DPREY (rmul (ud_dx w) (ud_dx w));
                     rdiv DPRED (rmul (ud_dx w) (ud_dx w))] /\
    m' !! by_ = Some [rdiv DPREY (rmul (ud_dy w) (ud_dy w));
                      rdiv DPRED (rmul (ud_dy w) (ud_dy w))] /\
    (forall b, b ∉ [b0; b1; bb; bx; by_] -> m' !! b = m !! b).
Proof.
  intros Hac Hbc Hcx Hcy Hnd Harr.
  destruct (Harr b0) as (a0 & Ha0 & Hl0); [rewrite !elem_of_cons; auto 10|].
  destruct (Harr b1) as (a1 & Ha1 & Hl1); [rewrite !elem_of_cons; auto 10|].
  destruct (Harr bb) as (ab & Hab & Hlb); [rewrite !elem_of_cons; auto 10|].
  destruct (Harr bx) as (ax & Hax & Hlx); [rewrite !elem_of_cons; auto 10|].
  destruct (Harr by_) as (ay & Hay & Hly); [rewrite !elem_of_cons; auto 10|].
  destruct (list_length_2 a0) as (? & ? & ->); [unfold NUM_SPECIES, NPREY in Hl0; lia|].
  destruct (list_length_2 a1) as (? & ? & ->); [unfold NUM_SPECIES, NPREY in Hl1; lia|].
  destruct (list_length_2 ab) as (? & ? & ->); [unfold NUM_SPECIES, NPREY in Hlb; lia|].
  destruct (list_length_2 ax) as (? & ? & ->); [unfold NUM_SPECIES, NPREY in Hlx; lia|].
  destruct (list_length_2 ay) as (? & ? & ->); [unfold NUM_SPECIES, NPREY in Hly; lia|].
  apply NoDup_cons in Hnd as [N0 Hnd]. apply NoDup_cons in Hnd as [N1 Hnd].
  apply NoDup_cons in Hnd as [N2 Hnd]. apply NoDup_cons in Hnd as [N3 _].
  repeat match goal with
         | H : _ ∉ _ :: _ |- _ => apply not_elem_of_cons in H as [? ?]
         end.
  unfold InitUserData, acoef_row. cbn [ud_np ud_acoef ud_bcoef ud_cox ud_coy ud_dx ud_dy].
  rewrite Hac, Hbc, Hcx, Hcy.
  unfold for_range, NPREY. simpl.
  repeat (erewrite store_Some;
          [ simpl
          | simpl; repeat first [rewrite lookup_insert_eq | rewrite lookup_insert_ne by done];
            eassumption || reflexivity
          | simpl; lia ]).
  eexists _, _. split; [reflexivity|]. simpl.
  do 17 (split; [reflexivity|]).
  do 5 (split; [repeat first [rewrite lookup_insert_eq | rewrite lookup_insert_ne by done];
                reflexivity|]).
  intros b Hb.
  repeat match goal with
         | H : _ ∉ _ :: _ |- _ => apply not_elem_of_cons in H as [? ?]
         end.
  by repeat rewrite lookup_insert_ne by done.
Qed.

End WebInitFacts.

(** ** The food web example: the message exchange *)

Section WebCommFacts.
Import Iwebpk.
Context {R : RealType} {RM : RealMath R} {WM : WebMath R}.

Implicit Types (m : gmap block (list realtype)).

Lemma InitUserData_fields webdata thispe npes m w m' :
  InitUserData webdata thispe npes m = Some (w, m') ->
  ud_thispe w = thispe /\
  ud_jysub w = thispe `quot` NPEX /\
  ud_ixsub w = thispe - thispe `quot` NPEX * NPEX /\
  ud_ns w = NUM_SPECIES /\ ud_mysub w = MYSUB /\ ud_nsmxsub w = MXSUB * NUM_SPECIES.
Proof.
  unfold InitUserData. destruct (for_range 0 _ _ m) as [m''|]; [|done].
  intros [= <- <-]. done.
Qed.

(** The messages BSend sends. *)
Lemma BSend_calls my_pe ixsub jysub dsizex dsizey cdata bufleft bufright m calls m' :
  BSend my_pe ixsub jysub dsizex dsizey cdata bufleft bufright m = Some (calls, m') ->
  calls
  = (if decide (jysub ≠ 0)
     then [MPI_Send (ptr_add cdata 0) dsizex (my_pe - NPEX) 0] else [])
    ++ (if decide (jysub ≠ NPEY - 1)
        then [MPI_Send (ptr_add cdata ((MYSUB - 1) * dsizex)) dsizex (my_pe + NPEX) 0]
        else [])
    ++ (if decide (ixsub ≠ 0)
        then [MPI_Send (ptr_add bufleft 0) dsizey (my_pe - 1) 0] else [])
    ++ (if decide (ixsub ≠ NPEX - 1)
        then [MPI_Send (ptr_add bufright 0) dsizey (my_pe + 1) 0] else []).
Proof.
  unfold BSend.
  destruct (decide (jysub ≠ 0)); destruct (decide (jysub ≠ NPEY - 1));
    destruct (decide (ixsub ≠ 0)); destruct (decide (ixsub ≠ NPEX - 1)); simpl;
    repeat match goal with
           | |- context [for_range ?a ?b ?f ?s] => destruct (for_range a b f s); simpl
           end;
    intros [= <- <-] || (intros; discriminate); by rewrite ?app_nil_r, <- ?app_assoc.
Qed.

(** The requests BRecvWait waits for. *)
Lemma BRecvWait_calls wait ixsub jysub dsizex cext buffer m calls m' :
  BRecvWait wait ixsub jysub dsizex cext buffer m = Some (calls, m') ->
  calls
  = (if decide (jysub ≠ 0) then [MPI_Wait 0] else [])
    ++ (if decide (jysub ≠ NPEY - 1) then [MPI_Wait 1] else [])
    ++ (if decide (ixsub ≠ 0) then [MPI_Wait 2] else [])
    ++ (if decide (ixsub ≠ NPEX - 1) then [MPI_Wait 3] else []).
Proof.
  unfold BRecvWait.
  destruct (decide (jysub ≠ 0)); destruct (decide (jysub ≠ NPEY - 1));
    destruct (decide (ixsub ≠ 0)); destruct (decide (ixsub ≠ NPEX - 1)); simpl;
    repeat match goal with
           | |- context [for_range ?a ?b ?f ?s] => destruct (for_range a b f s); simpl
           end;
    intros [= <- <-] || (intros; discriminate); by rewrite ?app_nil_r, <- ?app_assoc.
Qed.

Lemma elem_of_if_singleton {T : Type} (P : Prop) `{!Decision P} (x y : T) :
  x ∈ (if decide P then [y] else []) <-> P /\ x = y.
Proof.
  case_decide.
  - rewrite list_elem_of_singleton. tauto.
  - rewrite elem_of_nil. tauto.
Qed.

(** The sends and the receives in the calls of rescomm. *)
Lemma rescomm_calls wait cc cp webdata buffer bufleft bufright m r calls m' :
  rescomm wait cc cp webdata buffer bufleft bufright m = Some (r, calls, m') ->
  let p := ud_thispe webdata in
  let ix := ud_ixsub webdata in
  let jy := ud_jysub webdata in
  let dsx := ud_nsmxsub webdata in
  let dsy := ud_ns webdata * ud_mysub webdata in
  r = 0 /\
  (forall c d t,
     (exists buf, MPI_Send buf c d t ∈ calls) <->
     t = 0 /\ ((jy ≠ 0 /\ d = p - NPEX /\ c = dsx) \/
               (jy ≠ NPEY - 1 /\ d = p + NPEX /\ c = dsx) \/
               (ix ≠ 0 /\ d = p - 1 /\ c = dsy) \/
               (ix ≠ NPEX - 1 /\ d = p + 1 /\ c = dsy))) /\
  (forall c s t,
     (exists buf rq, MPI_Irecv buf c s t rq ∈ calls) <->
     t = 0 /\ ((jy ≠ 0 /\ s = p - NPEX /\ c = dsx) \/
               (jy ≠ NPEY - 1 /\ s = p + NPEX /\ c = dsx) \/
               (ix ≠ 0 /\ s = p - 1 /\ c = dsy) \/
               (ix ≠ NPEX - 1 /\ s = p + 1 /\ c = dsy))) /\
  (forall rq,
     (exists buf c s t, MPI_Irecv buf c s t rq ∈ calls) <-> MPI_Wait rq ∈ calls).
Proof.
  unfold rescomm.
  destruct (BSend _ _ _ _ _ _ _ _ _) as [[sent ms]|] eqn:Hs; [|done]. simpl.
  destruct (BRecvWait _ _ _ _ _ _ _) as [[waited mw]|] eqn:Hw; [|done]. simpl.
  intros [= <- <- <-].
  apply BSend_calls in Hs. apply BRecvWait_calls in Hw. subst sent waited.
  unfold BRecvPost. cbv zeta.
  split; [done|]. split; [|split].
  - intros c d t. split.
    + intros (buf & Hin).
      rewrite !elem_of_app, !elem_of_if_singleton in Hin.
      destruct Hin as [[H|[H|[H|H]]]|[[H|[H|[H|H]]]|[H|[H|[H|H]]]]];
        destruct H as [Hc [=]]; subst; tauto.
    + intros (-> & [H|[H|[H|H]]]); destruct H as (Hc & -> & ->); eexists;
        rewrite !elem_of_app, !elem_of_if_singleton; right; left.
      * left. done.
      * right. left. done.
      * right. right. left. done.
      * right. right. right. done.
  - intros c s t. split.
    + intros (buf & rq & Hin).
      rewrite !elem_of_app, !elem_of_if_singleton in Hin.
      destruct Hin as [[H|[H|[H|H]]]|[[H|[H|[H|H]]]|[H|[H|[H|H]]]]];
        destruct H as [Hc [=]]; subst; tauto.
    + intros (-> & [H|[H|[H|H]]]); destruct H as (Hc & -> & ->); eexists _, _;
        rewrite !elem_of_app, !elem_of_if_singleton; left.
      * left. done.
      * right. left. done.
      * right. right. left. done.
      * right. right. right. done.
  - intros rq. split.
    + intros (buf & c & s & t & Hin).
      rewrite !elem_of_app, !elem_of_if_singleton in Hin.
      rewrite !elem_of_app, !elem_of_if_singleton. right. right.
      destruct Hin as [[H|[H|[H|H]]]|[[H|[H|[H|H]]]|[H|[H|[H|H]]]]];
        destruct H as [Hc [=]]; subst; tauto.
    + intros Hin.
      rewrite !elem_of_app, !elem_of_if_singleton in Hin.
      destruct Hin as [[H|[H|[H|H]]]|[[H|[H|[H|H]]]|[H|[H|[H|H]]]]];
        destruct H as [Hc [=]]; subst; eexists _, _, _, _;
        rewrite !elem_of_app, !elem_of_if_singleton; left.
      * left. done.
      * right. left. done.
      * right. right. left. done.
      * right. right. right. done.
Qed.

(** The exchange of rescomm pairs up: when the processes p and q of the
    NPEX x NPEY array, set up by InitUserData, both run rescomm, p sends a
    message of some length to q exactly when q has posted a receive of
    that length from p, with the same tag.  Every message goes to, and
    every receive expects, another process of the array; and rescomm
    waits for exactly the requests it has posted. *)
Theorem rescomm_messages_match
    webdata_p p npes_p m0_p w_p m1_p wait_p cc_p cp_p buffer_p bufleft_p bufright_p m_p
    r_p calls_p m_p'
    webdata_q q npes_q m0_q w_q m1_q wait_q cc_q cp_q buffer_q bufleft_q bufright_q m_q
    r_q calls_q m_q' :
  0 <= p < NPEX * NPEY -> 0 <= q < NPEX * NPEY ->
  InitUserData webdata_p p npes_p m0_p = Some (w_p, m1_p) ->
  InitUserData webdata_q q npes_q m0_q = Some (w_q, m1_q) ->
  rescomm wait_p cc_p cp_p w_p buffer_p bufleft_p bufright_p m_p
  = Some (r_p, calls_p, m_p') ->
  rescomm wait_q cc_q cp_q w_q buffer_q bufleft_q bufright_q m_q
  = Some (r_q, calls_q, m_q') ->
  (forall count tag,
     (exists buf, MPI_Send buf count q tag ∈ calls_p) <->
     (exists buf rq, MPI_Irecv buf count p tag rq ∈ calls_q)) /\
  (forall buf count dest tag,
     MPI_Send buf count dest tag ∈ calls_p -> 0 <= dest < NPEX * NPEY /\ dest ≠ p) /\
  (forall buf count source tag rq,
     MPI_Irecv buf count source tag rq ∈ calls_p ->
     0 <= source < NPEX * NPEY /\ source ≠ p) /\
  (forall rq,
     (exists buf count source tag, MPI_Irecv buf count source tag rq ∈ calls_p) <->
     MPI_Wait rq ∈ calls_p).
Proof.
  intros Hp Hq Hip Hiq Hrp Hrq.
  apply InitUserData_fields in Hip as (Etp & Ejp & Eip & Ensp & Emyp & Edxp).
  apply InitUserData_fields in Hiq as (Etq & Ejq & Eiq & Ensq & Emyq & Edxq).
  apply rescomm_calls in Hrp as (_ & HSp & HRp & HWp).
  apply rescomm_calls in Hrq as (_ & HSq & HRq & HWq).
  cbv zeta in *.
  rewrite Etp, Ejp, Eip, Ensp, Emyp, Edxp in HSp, HRp.
  rewrite Etq, Ejq, Eiq, Ensq, Emyq, Edxq in HRq.
  unfold NPEX, NPEY in *.
  pose proof (Z.quot_rem' p 2) as Hqrp. pose proof (Z.quot_rem' q 2) as Hqrq.
  pose proof (Z.rem_bound_pos p 2 ltac:(lia) ltac:(lia)) as Hrbp.
  pose proof (Z.rem_bound_pos q 2 ltac:(lia) ltac:(lia)) as Hrbq.
  pose proof (Z.quot_pos p 2 ltac:(lia) ltac:(lia)) as Hqpp.
  pose proof (Z.quot_pos q 2 ltac:(lia) ltac:(lia)) as Hqpq.
  split; [|split; [|split]].
  - intros count tag. rewrite HSp, HRq. lia.
  - intros buf count dest tag Hin.
    assert (Hex : exists buf, MPI_Send buf count dest tag ∈ calls_p) by eauto.
    apply HSp in Hex. lia.
  - intros buf count source tag rq Hin.
    assert (Hex : exists buf rq, MPI_Irecv buf count source tag rq ∈ calls_p) by eauto.
    apply HRp in Hex. lia.
  - exact HWp.
Qed.

End WebCommFacts.

Section WebCopyFacts.
Import Iwebpk.
Context {R : RealType} {RM : RealMath R} {WM : WebMath R}.

Implicit Types (m : gmap block (list realtype)).

(** Two nested loops that copy src[f a i] to dst[g a i], the two arrays
    being different and the cells written pairwise different. *)
Lemma copy_loops (src dst : ptr) (f g : Z -> Z -> Z) n1 n2 m sarr darr :
  p_block src ≠ p_block dst ->
  m !! p_block src = Some sarr -> m !! p_block dst = Some darr ->
  (forall a i, 0 <= a < n1 -> 0 <= i < n2 ->
     0 <= p_off src + f a i < Z.of_nat (length sarr) /\
     0 <= p_off dst + g a i < Z.of_nat (length darr)) ->
  (forall a i a' i', 0 <= a < n1 -> 0 <= i < n2 -> 0 <= a' < n1 -> 0 <= i' < n2 ->
     g a i = g a' i' -> a = a' /\ i = i') ->
  exists darr',
    for_range 0 n1
      (λ a m, for_range 0 n2
                (λ i m, v ← load m src (f a i); store m dst (g a i) v) m) m
    = Some (<[p_block dst:=darr']> m) /\
    length darr' = length darr /\
    (forall a i, 0 <= a < n1 -> 0 <= i < n2 ->
       darr' !! Z.to_nat (p_off dst + g a i) = sarr !! Z.to_nat (p_off src + f a i)) /\
    (forall k : nat,
       (forall a i, 0 <= a < n1 -> 0 <= i < n2 -> k ≠ Z.to_nat (p_off dst + g a i)) ->
       darr' !! k = darr !! k).
Proof.
  intros Hne Hs Hd Hin Hinj.
  set (P := λ (a : Z) (t : gmap block (list realtype)),
         exists d, t = <[p_block dst:=d]> m /\ length d = length darr /\
           (forall a' i, 0 <= a' < a -> a' < n1 -> 0 <= i < n2 ->
              d !! Z.to_nat (p_off dst + g a' i) = sarr !! Z.to_nat (p_off src + f a' i)) /\
           (forall k : nat,
              (forall a' i, 0 <= a' < a -> a' < n1 -> 0 <= i < n2 ->
                 k ≠ Z.to_nat (p_off dst + g a' i)) ->
              d !! k = darr !! k)).
  match goal with |- context [for_range 0 n1 ?b] => set (body := b) end.
  destruct (for_loop_inv P body (Z.to_nat (n1 - 0)) 0 m)
    as (t & Hl & d & -> & Hlen & Hcp & Hfr).
  { exists darr. split; [by rewrite insert_id|]. split; [done|].
    split; [intros; lia|done]. }
  { intros a t Ha (d & -> & Hlen & Hcp & Hfr). unfold body.
    destruct (for_loop_pointwise (λ i, p_off dst + g a i)
                (λ i _, default ZERO (sarr !! Z.to_nat (p_off src + f a i)))
                (λ i m, v ← load m src (f a i); store m dst (g a i) v)
                m (p_block dst) (Z.to_nat (n2 - 0)) 0 d)
      as (d2 & Hl2 & Hlen2 & Hu2 & Hf2).
    { intros i Hi. rewrite Hlen. apply Hin; lia. }
    { intros i i' Hi Hi' Heq.
      destruct (Hinj a i a i') as [_ ?]; [lia|lia|lia|lia|lia|lia]. }
    { intros i ys' v Hi Hl' Hv.
      rewrite load_insert_ne by done.
      destruct (Hin a i) as [Hsi Hdi]; [lia|lia|].
      unfold load. case_decide; [|lia]. rewrite Hs. simpl.
      destruct (lookup_lt_is_Some_2 sarr (Z.to_nat (p_off src + f a i))) as [w Hw]; [lia|].
      rewrite Hw. simpl. apply store_insert_eq. lia. }
    exists (<[p_block dst:=d2]> m). split; [exact Hl2|].
    exists d2. split; [done|]. split; [congruence|]. split.
    - intros a' i Ha' Ha'' Hi.
      destruct (Hin a' i) as [Hsi Hdi]; [lia|lia|].
      destruct (decide (a' = a)) as [->|Hna].
      + rewrite Hu2 by lia.
        destruct (lookup_lt_is_Some_2 d (Z.to_nat (p_off dst + g a i))) as [v ->]; [lia|].
        destruct (lookup_lt_is_Some_2 sarr (Z.to_nat (p_off src + f a i))) as [w ->]; [lia|].
        done.
      + rewrite Hf2.
        * apply Hcp; lia.
        * intros i' Hi' Heq.
          destruct (Hin a i') as [_ Hdi']; [lia|lia|].
          destruct (Hinj a' i a i') as [? _]; [lia|lia|lia|lia|lia|lia].
    - intros k Hk. rewrite Hf2.
      + apply Hfr. intros a' i Ha' Ha'' Hi. apply Hk; lia.
      + intros i Hi. apply Hk; lia. }
  exists d. split; [|split; [done|split]].
  - unfold for_range. exact Hl.
  - intros a i Ha Hi. apply Hcp; lia.
  - intros k Hk. apply Hfr. intros a i Ha Ha' Hi. apply Hk; lia.
Qed.


End WebCopyFacts.

(** ** The food web example: array bounds *)

Section WebSafetyFacts.
Import Iwebpk.
Context {R : RealType} {RM : RealMath R} {WM : WebMath R}.

Implicit Types (m t : gmap block (list realtype)).

Lemma same_lengths_refl m : same_lengths m m.
Proof. intros b. done. Qed.

Lemma load_ok m t p k arr :
  same_lengths m t -> m !! p_block p = Some arr ->
  0 <= p_off p + k < Z.of_nat (length arr) ->
  exists v, load t p k = Some v.
Proof.
  intros Hs Harr Hk. unfold load. case_decide; [|lia].
  specialize (Hs (p_block p)). rewrite Harr in Hs. simpl in Hs.
  destruct (t !! p_block p) as [a|]; [|done]. simpl in *.
  injection Hs as Hs. apply lookup_lt_is_Some_2. lia.
Qed.

Lemma store_ok m t p k v arr :
  same_lengths m t -> m !! p_block p = Some arr ->
  0 <= p_off p + k < Z.of_nat (length arr) ->
  exists t', store t p k v = Some t' /\ same_lengths m t' /\
    (forall b, b ≠ p_block p -> t' !! b = t !! b).
Proof.
  intros Hs Harr Hk. unfold store.
  pose proof (Hs (p_block p)) as Hb. rewrite Harr in Hb. simpl in Hb.
  destruct (t !! p_block p) as [a|] eqn:Ha; [|done]. simpl in *.
  injection Hb as Hb. case_decide; [|lia].
  eexists. split; [done|]. split.
  - intros b. destruct (decide (b = p_block p)) as [->|Hne].
    + rewrite lookup_insert_eq, Harr. simpl. rewrite length_insert. congruence.
    + rewrite lookup_insert_ne by done. apply Hs.
  - intros b Hne. by rewrite lookup_insert_ne.
Qed.

(** A loop whose rounds keep a property of the state. *)
Lemma for_range_ok {St : Type} (Q : St -> Prop)
    (body : Z -> St -> option St) lo hi s :
  Q s ->
  (forall i u, lo <= i < hi -> Q u -> exists u', body i u = Some u' /\ Q u') ->
  exists u, for_range lo hi body s = Some u /\ Q u.
Proof.
  intros Hs Hstep. unfold for_range.
  destruct (for_loop_inv (λ _, Q) body (Z.to_nat (hi - lo)) lo s) as (u & Hl & Hu);
    [done| |by exists u].
  intros i u Hi Hu. apply Hstep; [lia|done].
Qed.

Lemma dotprod_ok m t size x1 x2 arr1 arr2 :
  same_lengths m t ->
  m !! p_block x1 = Some arr1 -> m !! p_block x2 = Some arr2 ->
  0 <= p_off x1 -> p_off x1 + size <= Z.of_nat (length arr1) ->
  0 <= p_off x2 -> p_off x2 + size <= Z.of_nat (length arr2) ->
  exists d, dotprod size x1 x2 t = Some d.
Proof.
  intros Hs H1 H2 Ho1 Hl1 Ho2 Hl2. unfold dotprod, for_range.
  destruct (for_loop_inv
              (λ i (s : realtype * ptr * ptr), s.1.2 = ptr_add x1 i /\ s.2 = ptr_add x2 i)
              (λ i '(temp, xx1, xx2),
                 a ← load t xx1 0; b ← load t xx2 0;
                 Some (radd temp (rmul a b), ptr_add xx1 1, ptr_add xx2 1))
              (Z.to_nat (size - 0)) 0 (ZERO, x1, x2)) as (s & Hl & _).
  { simpl. unfold ptr_add. destruct x1, x2. simpl. split; f_equal; lia. }
  { intros i [[temp xx1] xx2] Hi [E1 E2]. simpl in E1, E2. subst xx1 xx2.
    destruct (load_ok m t (ptr_add x1 i) 0 arr1) as [a Ha]; [done|done|simpl; lia|].
    destruct (load_ok m t (ptr_add x2 i) 0 arr2) as [b Hb]; [done|done|simpl; lia|].
    rewrite Ha. simpl. rewrite Hb. simpl.
    eexists. split; [done|]. simpl. unfold ptr_add. simpl.
    split; f_equal; lia. }
  rewrite Hl. simpl. eauto.
Qed.

Lemma load_at m t p n k :
  same_lengths m t -> array_at m p n -> 0 <= k < n ->
  exists v, load t p k = Some v.
Proof.
  intros Hs (arr & Harr & Ho & Hl) Hk. apply (load_ok m t p k arr); [done|done|lia].
Qed.

Lemma store_at m t p n k v :
  same_lengths m t -> array_at m p n -> 0 <= k < n ->
  exists t', store t p k v = Some t' /\ same_lengths m t' /\
    (forall b, b ≠ p_block p -> t' !! b = t !! b).
Proof.
  intros Hs (arr & Harr & Ho & Hl) Hk. apply (store_ok m t p k v arr); [done|done|lia].
Qed.

Lemma array_at_add m p n a n' :
  array_at m p n -> 0 <= a -> a + n' <= n -> array_at m (ptr_add p a) n'.
Proof.
  intros (arr & Harr & Ho & Hl) Ha Hn. exists arr. simpl. split; [done|lia].
Qed.

Lemma WebRates_ok m t xx yy cxy ratesxy webdata :
  same_lengths m t ->
  array_at m cxy NUM_SPECIES -> array_at m ratesxy NUM_SPECIES ->
  array_at m (ud_bcoef webdata) NUM_SPECIES ->
  (forall i, 0 <= i < NUM_SPECIES ->
     exists row, acoef_row webdata i = Some row /\ array_at m row NUM_SPECIES) ->
  exists t', WebRates xx yy cxy ratesxy webdata t = Some t' /\ same_lengths m t' /\
    (forall b, b ≠ p_block ratesxy -> t' !! b = t !! b).
Proof.
  intros Hs Hc Hr Hb Hrows. unfold WebRates.
  set (Q := λ u : gmap block (list realtype),
         same_lengths m u /\ forall b, b ≠ p_block ratesxy -> u !! b = t !! b).
  destruct (for_range_ok Q
              (λ is_ m0, row ← acoef_row webdata is_;
                         d ← dotprod NUM_SPECIES cxy row m0;
                         store m0 ratesxy is_ d) 0 NUM_SPECIES t)
    as (t1 & -> & Hs1 & Hf1).
  { split; [done|done]. }
  { intros i u Hi [Hsu Hfu].
    destruct (Hrows i Hi) as (row & -> & Hrow). simpl.
    destruct Hc as (carr & Hca & Hco & Hcl). destruct Hrow as (rarr & Hra & Hro & Hrl).
    destruct (dotprod_ok m u NUM_SPECIES cxy row carr rarr) as [d ->]; try done.
    simpl.
    destruct (store_at m u ratesxy NUM_SPECIES i d) as (u' & -> & Hsu' & Hfu'); try done.
    exists u'. split; [done|]. split; [done|].
    intros b Hne. rewrite Hfu' by done. by apply Hfu. }
  simpl.
  destruct (for_range_ok Q
              (λ is_ m0, c ← load m0 cxy is_;
                         b ← load m0 (ud_bcoef webdata) is_;
                         r ← load m0 ratesxy is_;
                         store m0 ratesxy is_
                           (rmul c (radd (rmul b
                              (radd (radd ONE (rmul (rmul ALPHA xx) yy))
                                 (rmul (rmul BETA (rsin (rmul FOURPI xx)))
                                    (rsin (rmul FOURPI yy))))) r))) 0 NUM_SPECIES t1)
    as (t2 & Hl2 & Hs2 & Hf2).
  { split; [done|done]. }
  { intros i u Hi [Hsu Hfu].
    destruct (load_at m u cxy NUM_SPECIES i) as [c ->]; try done. simpl.
    destruct (load_at m u (ud_bcoef webdata) NUM_SPECIES i) as [b ->]; try done. simpl.
    destruct (load_at m u ratesxy NUM_SPECIES i) as [r ->]; try done. simpl.
    destruct (store_at m u ratesxy NUM_SPECIES i
                (rmul c (radd (rmul b
                   (radd (radd ONE (rmul (rmul ALPHA xx) yy))
                      (rmul (rmul BETA (rsin (rmul FOURPI xx)))
                         (rsin (rmul FOURPI yy))))) r)))
      as (u' & -> & Hsu' & Hfu'); try done.
    exists u'. split; [done|]. split; [done|].
    intros b' Hne. rewrite Hfu' by done. by apply Hfu. }
  exists t2. split; [exact Hl2|]. split; [done|done].
Qed.

End WebSafetyFacts.

Section WebResidualFacts.
Import Iwebpk.
Context {R : RealType} {RM : RealMath R} {WM : WebMath R}.

Implicit Types (m t : gmap block (list realtype)).

Lemma for_range_inv {St : Type} (P : Z -> St -> Prop)
    (body : Z -> St -> option St) lo hi s :
  lo <= hi -> P lo s ->
  (forall i u, lo <= i < hi -> P i u -> exists u', body i u = Some u' /\ P (i + 1) u') ->
  exists u, for_range lo hi body s = Some u /\ P hi u.
Proof.
  intros Hle Hs Hstep. unfold for_range.
  destruct (for_loop_inv P body (Z.to_nat (hi - lo)) lo s) as (u & Hl & Hu); [done| |].
  - intros i u Hi Hu. apply Hstep; [lia|done].
  - exists u. split; [done|]. by replace hi with (lo + Z.of_nat (Z.to_nat (hi - lo))) by lia.
Qed.

Lemma frame_step (W : list block) m t t' pb :
  pb ∈ W ->
  (forall b, b ∉ W -> t !! b = m !! b) ->
  (forall b, b ≠ pb -> t' !! b = t !! b) ->
  forall b, b ∉ W -> t' !! b = m !! b.
Proof.
  intros Hin Hf Hs b Hb. rewrite Hs; [by apply Hf|]. intros ->. done.
Qed.

Lemma copy_line_ok m t n cext locce cdata locc nE nC :
  same_lengths m t -> array_at m cext nE -> array_at m cdata nC ->
  0 <= locce -> locce + n <= nE -> 0 <= locc -> locc + n <= nC ->
  exists t', copy_line n cext locce cdata locc t = Some t' /\ same_lengths m t' /\
    (forall b, b ≠ p_block cext -> t' !! b = t !! b).
Proof.
  intros Hs HE HC He1 He2 Hc1 Hc2. unfold copy_line.
  destruct (for_range_ok
              (λ u, same_lengths m u /\ forall b, b ≠ p_block cext -> u !! b = t !! b)
              (λ i m0, v ← load m0 cdata (locc + i); store m0 cext (locce + i) v) 0 n t)
    as (t' & Hl & Hs' & Hf'); [done| |by exists t'].
  intros i u Hi [Hsu Hfu].
  destruct (load_at m u cdata nC (locc + i)) as [v ->]; [done|done|lia|]. simpl.
  destruct (store_at m u cext nE (locce + i) v) as (u' & -> & Hsu' & Hfu'); [done|done|lia|].
  exists u'. split; [done|]. split; [done|].
  intros b Hne. rewrite Hfu' by done. by apply Hfu.
Qed.

Lemma reslocal_ok tt cc cp res webdata m :
  ud_mxsub webdata = MXSUB -> ud_mysub webdata = MYSUB ->
  ud_nsmxsub webdata = MXSUB * NUM_SPECIES ->
  ud_nsmxsub2 webdata = (MXSUB + 2) * NUM_SPECIES ->
  ud_np webdata = NPREY ->
  array_at m cc (MXSUB * MYSUB * NUM_SPECIES) ->
  array_at m cp (MXSUB * MYSUB * NUM_SPECIES) ->
  array_at m res (MXSUB * MYSUB * NUM_SPECIES) ->
  array_at m (ud_rates webdata) (MXSUB * MYSUB * NUM_SPECIES) ->
  array_at m (ud_cext webdata) ((MXSUB + 2) * (MYSUB + 2) * NUM_SPECIES) ->
  array_at m (ud_cox webdata) NUM_SPECIES -> array_at m (ud_coy webdata) NUM_SPECIES ->
  array_at m (ud_bcoef webdata) NUM_SPECIES -> array_at m (ud_rhs webdata) NUM_SPECIES ->
  (forall i, 0 <= i < NUM_SPECIES ->
     exists row, acoef_row webdata i = Some row /\ array_at m row NUM_SPECIES) ->
  exists m',
    reslocal tt cc cp res webdata m = Some (0, m') /\
    same_lengths m m' /\
    (forall b, b ∉ [p_block (ud_cext webdata); p_block (ud_rates webdata);
                    p_block (ud_rhs webdata); p_block res] ->
       m' !! b = m !! b).
Proof.
  intros Emx Emy Ensx Ensx2 Enp Hcc Hcp Hres Hrates Hcext Hcox Hcoy Hbcoef Hrhs Hrows.
  unfold reslocal. cbv zeta. rewrite Emx, Emy, Ensx, Ensx2, Enp.
  set (cext := ud_cext webdata) in *. set (rates := ud_rates webdata) in *.
  set (rhs := ud_rhs webdata) in *.
  set (W := [p_block cext; p_block rates; p_block rhs; p_block res]).
  set (Inv := λ u : gmap block (list realtype),
         same_lengths m u /\ forall b, b ∉ W -> u !! b = m !! b).
  assert (HWc : p_block cext ∈ W) by (unfold W; rewrite !elem_of_cons; auto).
  assert (HWr : p_block rates ∈ W) by (unfold W; rewrite !elem_of_cons; auto).
  assert (HWh : p_block rhs ∈ W) by (unfold W; rewrite !elem_of_cons; auto).
  assert (HWs : p_block res ∈ W) by (unfold W; rewrite !elem_of_cons; auto).
  assert (Hcopy : forall u n locce locc,
            Inv u -> 0 <= locce -> locce + n <= (MXSUB + 2) * (MYSUB + 2) * NUM_SPECIES ->
            0 <= locc -> locc + n <= MXSUB * MYSUB * NUM_SPECIES ->
            exists u', copy_line n cext locce cc locc u = Some u' /\ Inv u').
  { intros u n locce locc [Hsu Hfu] H1 H2 H3 H4.
    destruct (copy_line_ok m u n cext locce cc locc _ _ Hsu Hcext Hcc H1 H2 H3 H4)
      as (u' & -> & Hsu' & Hfu').
    exists u'. split; [done|]. split; [done|].
    by apply (frame_step W m u u' (p_block cext)). }
  (* the local segment of cc *)
  match goal with |- context [for_range 0 MYSUB ?f ?s0] =>
    destruct (for_range_inv
              (λ jy (s : gmap block (list realtype) * Z * Z),
                 Inv s.1.1 /\ s.1.2 = jy * (MXSUB * NUM_SPECIES) /\
                 s.2 = (MXSUB + 2) * NUM_SPECIES + NUM_SPECIES
                       + jy * ((MXSUB + 2) * NUM_SPECIES))
              f 0 MYSUB s0)
      as ([[t1 l1] l1'] & Hl1 & Hinv1 & _)
  end.
  { done. }
  { simpl. split; [split; [apply same_lengths_refl|done]|]. lia. }
  { intros jy [[u locc] locce] Hjy (Hu & Hc & He). simpl in Hu, Hc, He. subst locc locce.
    destruct (Hcopy u (MXSUB * NUM_SPECIES)
                ((MXSUB + 2) * NUM_SPECIES + NUM_SPECIES + jy * ((MXSUB + 2) * NUM_SPECIES))
                (jy * (MXSUB * NUM_SPECIES))) as (u' & -> & Hu'); [done|..].
    1-4: unfold MXSUB, MYSUB, NUM_SPECIES, NPREY in *; lia.
    simpl. eexists. split; [done|]. simpl. split; [done|]. lia. }
  rewrite Hl1.
  simpl in Hinv1. simpl.
  (* the mirrored lines at the boundary of the domain *)
  assert (Hbot : exists t2,
            (if decide (ud_jysub webdata = 0)
             then copy_line (MXSUB * NUM_SPECIES) cext NUM_SPECIES cc (MXSUB * NUM_SPECIES) t1
             else Some t1) = Some t2 /\ Inv t2).
  { case_decide; [|by exists t1].
    apply Hcopy; [done|..]; unfold MXSUB, MYSUB, NUM_SPECIES, NPREY; lia. }
  destruct Hbot as (t2 & -> & Hinv2). simpl.
  assert (Htop : exists t3,
            (if decide (ud_jysub webdata = ud_npey webdata - 1)
             then copy_line (MXSUB * NUM_SPECIES) cext
                    ((MYSUB + 1) * ((MXSUB + 2) * NUM_SPECIES) + NUM_SPECIES) cc
                    ((MYSUB - 2) * (MXSUB * NUM_SPECIES)) t2
             else Some t2) = Some t3 /\ Inv t3).
  { case_decide; [|by exists t2].
    apply Hcopy; [done|..]; unfold MXSUB, MYSUB, NUM_SPECIES, NPREY; lia. }
  destruct Htop as (t3 & -> & Hinv3). simpl.
  assert (Hleft : exists t4,
            (if decide (ud_ixsub webdata = 0)
             then for_range 0 MYSUB
                    (λ jy m0, copy_line NUM_SPECIES cext
                                ((jy + 1) * ((MXSUB + 2) * NUM_SPECIES)) cc
                                (jy * (MXSUB * NUM_SPECIES) + NUM_SPECIES) m0) t3
             else Some t3) = Some t4 /\ Inv t4).
  { case_decide; [|by exists t3].
    apply for_range_ok; [done|]. intros jy u Hjy Hu.
    apply Hcopy; [done|..]; unfold MXSUB, MYSUB, NUM_SPECIES, NPREY in *; lia. }
  destruct Hleft as (t4 & -> & Hinv4). simpl.
  assert (Hright : exists t5,
            (if decide (ud_ixsub webdata = ud_npex webdata - 1)
             then for_range 0 MYSUB
                    (λ jy m0, copy_line NUM_SPECIES cext
                                ((jy + 2) * ((MXSUB + 2) * NUM_SPECIES) - NUM_SPECIES) cc
                                ((jy + 1) * (MXSUB * NUM_SPECIES) - 2 * NUM_SPECIES) m0) t4
             else Some t4) = Some t5 /\ Inv t5).
  { case_decide; [|by exists t4].
    apply for_range_ok; [done|]. intros jy u Hjy Hu.
    apply Hcopy; [done|..]; unfold MXSUB, MYSUB, NUM_SPECIES, NPREY in *; lia. }
  destruct Hright as (t5 & -> & Hinv5). simpl.
  (* the grid points *)
  match goal with |- context [for_range 0 MYSUB ?f t5] => set (body := f) end.
  destruct (for_range_ok Inv body 0 MYSUB t5) as (t6 & -> & Hs6 & Hf6); [done| |].
  2: { simpl. exists t6. done. }
  intros jy u Hjy Hu. unfold body.
  apply for_range_ok; [done|]. clear u Hu. intros ix u Hix [Hsu Hfu].
  assert (Hpt : forall v, array_at m v (MXSUB * MYSUB * NUM_SPECIES) ->
            array_at m (IJ_Vptr v ix jy) NUM_SPECIES).
  { intros v Hv. apply (array_at_add m v (MXSUB * MYSUB * NUM_SPECIES)); [done|..];
      unfold NSMXSUB, MXSUB, MYSUB, NUM_SPECIES, NPREY in *; lia. }
  destruct (WebRates_ok m u
              (rmul (rofZ (ix + ud_ixsub webdata * MXSUB)) (ud_dx webdata))
              (rmul (rofZ (jy + ud_jysub webdata * MYSUB)) (ud_dy webdata))
              (ptr_add cext ((jy + 1) * ((MXSUB + 2) * NUM_SPECIES) + (ix + 1) * NUM_SPECIES))
              (IJ_Vptr rates ix jy) webdata)
    as (u1 & -> & Hsu1 & Hfu1); try done.
  { apply (array_at_add m cext ((MXSUB + 2) * (MYSUB + 2) * NUM_SPECIES)); [done|..];
      unfold MXSUB, MYSUB, NUM_SPECIES, NPREY in *; lia. }
  { by apply Hpt. }
  simpl.
  assert (Hu1 : Inv u1).
  { split; [done|]. by apply (frame_step W m u u1 (p_block rates)). }
  apply for_range_ok; [done|]. clear u Hsu Hfu u1 Hsu1 Hfu1 Hu1.
  intros is_ u His [Hsu Hfu].
  set (locce := (jy + 1) * ((MXSUB + 2) * NUM_SPECIES) + (ix + 1) * NUM_SPECIES).
  assert (Hlocce : 0 <= locce + is_ - (MXSUB + 2) * NUM_SPECIES /\
                   locce + is_ + (MXSUB + 2) * NUM_SPECIES
                   < (MXSUB + 2) * (MYSUB + 2) * NUM_SPECIES)
    by (unfold locce, MXSUB, MYSUB, NUM_SPECIES, NPREY in *; lia).
  assert (HNS : NUM_SPECIES = 2) by done.
  assert (HN2 : 0 < (MXSUB + 2) * NUM_SPECIES) by done.
  destruct (load_at m u cext _ (locce + is_) Hsu Hcext) as [c ->]; [lia|]. simpl.
  destruct (load_at m u cext _ (locce + is_ - (MXSUB + 2) * NUM_SPECIES) Hsu Hcext)
    as [cyl ->]; [lia|]. simpl.
  destruct (load_at m u cext _ (locce + is_ + (MXSUB + 2) * NUM_SPECIES) Hsu Hcext)
    as [cyu ->]; [lia|]. simpl.
  destruct (load_at m u cext _ (locce + is_ - NUM_SPECIES) Hsu Hcext)
    as [cxl ->]; [lia|]. simpl.
  destruct (load_at m u cext _ (locce + is_ + NUM_SPECIES) Hsu Hcext)
    as [cxu ->]; [lia|]. simpl.
  destruct (load_at m u (ud_cox webdata) _ is_ Hsu Hcox) as [cx ->]; [lia|]. simpl.
  destruct (load_at m u (ud_coy webdata) _ is_ Hsu Hcoy) as [cy ->]; [lia|]. simpl.
  destruct (load_at m u (IJ_Vptr rates ix jy) _ is_ Hsu (Hpt _ Hrates)) as [rt ->]; [lia|].
  simpl.
  match goal with |- context [store u rhs is_ ?v] =>
    destruct (store_at m u rhs _ is_ v Hsu Hrhs) as (u2 & -> & Hsu2 & Hfu2); [lia|]
  end. simpl.
  assert (Hf2 : forall b, b ∉ W -> u2 !! b = m !! b)
    by (by apply (frame_step W m u u2 (p_block rhs))).
  destruct (load_at m u2 rhs _ is_ Hsu2 Hrhs) as [rh ->]; [lia|]. simpl.
  case_decide.
  - destruct (load_at m u2 (IJ_Vptr cp ix jy) _ is_ Hsu2 (Hpt _ Hcp)) as [cpv ->]; [lia|].
    simpl.
    destruct (store_at m u2 (IJ_Vptr res ix jy) _ is_ (rsub cpv rh) Hsu2 (Hpt _ Hres))
      as (u3 & -> & Hsu3 & Hfu3); [lia|].
    exists u3. split; [done|]. split; [done|].
    by apply (frame_step W m u2 u3 (p_block res)).
  - destruct (store_at m u2 (IJ_Vptr res ix jy) _ is_ (rneg rh) Hsu2 (Hpt _ Hres))
      as (u3 & -> & Hsu3 & Hfu3); [lia|].
    exists u3. split; [done|]. split; [done|].
    by apply (frame_step W m u2 u3 (p_block res)).
Qed.

(** reslocal, on a UserData with the sizes InitUserData sets and any
    position (ixsub, jysub) and process array: with the local vectors cc,
    cp, res and rates of MXSUB*MYSUB*NUM_SPECIES elements, cext of
    (MXSUB+2)*(MYSUB+2)*NUM_SPECIES elements, and cox, coy, bcoef, rhs and
    the rows of acoef of NUM_SPECIES elements, every access stays inside
    its array; reslocal returns 0, writes into cext, rates, rhs and res
    only and changes no array length. *)
Theorem reslocal_defined tt cc cp res webdata m :
  ud_mxsub webdata = MXSUB -> ud_mysub webdata = MYSUB ->
  ud_nsmxsub webdata = MXSUB * NUM_SPECIES ->
  ud_nsmxsub2 webdata = (MXSUB + 2) * NUM_SPECIES ->
  ud_np webdata = NPREY ->
  array_at m cc (MXSUB * MYSUB * NUM_SPECIES) ->
  array_at m cp (MXSUB * MYSUB * NUM_SPECIES) ->
  array_at m res (MXSUB * MYSUB * NUM_SPECIES) ->
  array_at m (ud_rates webdata) (MXSUB * MYSUB * NUM_SPECIES) ->
  array_at m (ud_cext webdata) ((MXSUB + 2) * (MYSUB + 2) * NUM_SPECIES) ->
  array_at m (ud_cox webdata) NUM_SPECIES -> array_at m (ud_coy webdata) NUM_SPECIES ->
  array_at m (ud_bcoef webdata) NUM_SPECIES -> array_at m (ud_rhs webdata) NUM_SPECIES ->
  (forall i, 0 <= i < NUM_SPECIES ->
     exists row, acoef_row webdata i = Some row /\ array_at m row NUM_SPECIES) ->
  exists m',
    reslocal tt cc cp res webdata m = Some (0, m') /\
    same_lengths m m' /\
    (forall b, b ∉ [p_block (ud_cext webdata); p_block (ud_rates webdata);
                    p_block (ud_rhs webdata); p_block res] ->
       m' !! b = m !! b).
Proof. apply reslocal_ok. Qed.

End WebResidualFacts.

Section WebResidualSafety.
Import Iwebpk.
Context {R : RealType} {RM : RealMath R} {WM : WebMath R}.

Implicit Types (m t : gmap block (list realtype)).

Lemma same_lengths_trans m t u : same_lengths m t -> same_lengths t u -> same_lengths m u.
Proof. intros H1 H2 b. by rewrite H2, H1. Qed.

Lemma array_at_same m t p n : same_lengths m t -> array_at m p n -> array_at t p n.
Proof.
  intros Hs (arr & Harr & Ho & Hl). specialize (Hs (p_block p)). rewrite Harr in Hs.
  destruct (t !! p_block p) as [a|] eqn:Ha; [|done]. simpl in Hs. injection Hs as Hs.
  exists a. split; [done|]. split; [done|lia].
Qed.

Lemma copy_nest_ok m t src dst nS nD (f g : Z -> Z -> Z) n1 n2 :
  same_lengths m t -> array_at m src nS -> array_at m dst nD ->
  (forall a i, 0 <= a < n1 -> 0 <= i < n2 -> 0 <= f a i < nS /\ 0 <= g a i < nD) ->
  exists t',
    for_range 0 n1
      (λ a m, for_range 0 n2
                (λ i m, v ← load m src (f a i); store m dst (g a i) v) m) t = Some t' /\
    same_lengths m t' /\ (forall b, b ≠ p_block dst -> t' !! b = t !! b).
Proof.
  intros Hs HS HD Hin.
  apply (for_range_ok
           (λ u, same_lengths m u /\ forall b, b ≠ p_block dst -> u !! b = t !! b));
    [done|].
  intros a u Ha Hu. apply for_range_ok; [done|]. clear u Hu.
  intros i u Hi [Hsu Hfu]. destruct (Hin a i Ha Hi) as [Hf Hg].
  destruct (load_at m u src nS (f a i)) as [v ->]; [done|done|lia|]. simpl.
  destruct (store_at m u dst nD (g a i) v) as (u' & -> & Hsu' & Hfu'); [done|done|lia|].
  exists u'. split; [done|]. split; [done|].
  intros b Hne. rewrite Hfu' by done. by apply Hfu.
Qed.

Lemma BSend_ok m t my_pe ixsub jysub dsizey cdata bufleft bufright :
  same_lengths m t ->
  array_at m cdata (MXSUB * MYSUB * NUM_SPECIES) ->
  array_at m bufleft (NUM_SPECIES * MYSUB) -> array_at m bufright (NUM_SPECIES * MYSUB) ->
  exists r,
    BSend my_pe ixsub jysub (MXSUB * NUM_SPECIES) dsizey cdata bufleft bufright t = Some r /\
    same_lengths m r.2 /\
    (forall b, b ≠ p_block bufleft -> b ≠ p_block bufright -> r.2 !! b = t !! b).
Proof.
  intros Hs Hc Hl Hr. unfold BSend. cbv zeta.
  assert (H1 : forall u, same_lengths m u ->
            exists u', for_range 0 MYSUB
              (λ ly m0, for_range 0 NUM_SPECIES
                 (λ i m1, v ← load m1 cdata (ly * (MXSUB * NUM_SPECIES) + i);
                          store m1 bufleft (ly * NUM_SPECIES + i) v) m0) u = Some u' /\
              same_lengths m u' /\ (forall b, b ≠ p_block bufleft -> u' !! b = u !! b)).
  { intros u Hu.
    apply (copy_nest_ok m u cdata bufleft (MXSUB * MYSUB * NUM_SPECIES) (NUM_SPECIES * MYSUB)
             (λ ly i, ly * (MXSUB * NUM_SPECIES) + i) (λ ly i, ly * NUM_SPECIES + i));
      [done|done|done|].
    unfold NUM_SPECIES, NPREY, MXSUB, MYSUB. intros a i Ha Hi. lia. }
  assert (H2 : forall u, same_lengths m u ->
            exists u', for_range 0 MYSUB
              (λ ly m0, for_range 0 NUM_SPECIES
                 (λ i m1, v ← load m1 cdata
                                (ly * NUM_SPECIES * MXSUB + (MXSUB - 1) * NUM_SPECIES + i);
                          store m1 bufright (ly * NUM_SPECIES + i) v) m0) u = Some u' /\
              same_lengths m u' /\ (forall b, b ≠ p_block bufright -> u' !! b = u !! b)).
  { intros u Hu.
    apply (copy_nest_ok m u cdata bufright (MXSUB * MYSUB * NUM_SPECIES) (NUM_SPECIES * MYSUB)
             (λ ly i, ly * NUM_SPECIES * MXSUB + (MXSUB - 1) * NUM_SPECIES + i)
             (λ ly i, ly * NUM_SPECIES + i));
      [done|done|done|].
    unfold NUM_SPECIES, NPREY, MXSUB, MYSUB. intros a i Ha Hi. lia. }
  destruct (decide (ixsub ≠ 0)) as [Hix0|Hix0];
    destruct (decide (ixsub ≠ NPEX - 1)) as [Hix1|Hix1].
  - destruct (H1 t Hs) as (u1 & -> & Hs1 & Hf1). simpl.
    destruct (H2 u1 Hs1) as (u2 & -> & Hs2 & Hf2). simpl.
    eexists. split; [done|]. simpl. split; [done|].
    intros b Hb1 Hb2. by rewrite Hf2, Hf1.
  - destruct (H1 t Hs) as (u1 & -> & Hs1 & Hf1). simpl.
    eexists. split; [done|]. simpl. split; [done|].
    intros b Hb1 Hb2. by rewrite Hf1.
  - simpl. destruct (H2 t Hs) as (u2 & -> & Hs2 & Hf2). simpl.
    eexists. split; [done|]. simpl. split; [done|].
    intros b Hb1 Hb2. by rewrite Hf2.
  - simpl. eexists. split; [done|]. simpl. split; [done|]. done.
Qed.

Lemma BRecvWait_ok wait m t ixsub jysub cext buffer :
  (forall r u, same_lengths u (wait r u)) ->
  (forall r u b, b ≠ p_block cext -> b ≠ p_block buffer -> wait r u !! b = u !! b) ->
  same_lengths m t ->
  array_at m cext ((MXSUB + 2) * (MYSUB + 2) * NUM_SPECIES) ->
  array_at m buffer (2 * NUM_SPECIES * MYSUB) ->
  exists r,
    BRecvWait wait ixsub jysub (MXSUB * NUM_SPECIES) cext buffer t = Some r /\
    same_lengths m r.2 /\
    (forall b, b ≠ p_block cext -> b ≠ p_block buffer -> r.2 !! b = t !! b).
Proof.
  intros Hwl Hwf Hs Hc Hb. unfold BRecvWait. cbv zeta.
  set (Q := λ u : gmap block (list realtype),
         same_lengths m u /\
         forall b, b ≠ p_block cext -> b ≠ p_block buffer -> u !! b = t !! b).
  assert (HW : forall r u, Q u -> Q (wait r u)).
  { intros r u [Hu Hf]. split; [by apply (same_lengths_trans m u)|].
    intros b Hb1 Hb2. rewrite Hwf by done. by apply Hf. }
  assert (H1 : forall u, Q u ->
            exists u', for_range 0 MYSUB
              (λ ly m0, for_range 0 NUM_SPECIES
                 (λ i m1, v ← load m1 buffer (ly * NUM_SPECIES + i);
                          store m1 cext
                            ((ly + 1) * (MXSUB * NUM_SPECIES + 2 * NUM_SPECIES) + i) v) m0) u
              = Some u' /\ Q u').
  { intros u [Hu Hf].
    destruct (copy_nest_ok m u buffer cext (2 * NUM_SPECIES * MYSUB)
                ((MXSUB + 2) * (MYSUB + 2) * NUM_SPECIES) (λ ly i, ly * NUM_SPECIES + i)
                (λ ly i, (ly + 1) * (MXSUB * NUM_SPECIES + 2 * NUM_SPECIES) + i)
                MYSUB NUM_SPECIES Hu Hb Hc) as (u' & Hl & Hs' & Hf').
    { unfold NUM_SPECIES, NPREY, MXSUB, MYSUB. intros a i Ha Hi. lia. }
    exists u'. split; [exact Hl|]. split; [done|].
    intros b Hb1 Hb2. rewrite Hf' by done. by apply Hf. }
  assert (H2 : forall u, Q u ->
            exists u', for_range 0 MYSUB
              (λ ly m0, for_range 0 NUM_SPECIES
                 (λ i m1, v ← load m1 (ptr_add buffer (NUM_SPECIES * MYSUB))
                                (ly * NUM_SPECIES + i);
                          store m1 cext
                            ((ly + 2) * (MXSUB * NUM_SPECIES + 2 * NUM_SPECIES)
                             - NUM_SPECIES + i) v) m0) u
              = Some u' /\ Q u').
  { intros u [Hu Hf].
    destruct (copy_nest_ok m u (ptr_add buffer (NUM_SPECIES * MYSUB)) cext
                (NUM_SPECIES * MYSUB) ((MXSUB + 2) * (MYSUB + 2) * NUM_SPECIES)
                (λ ly i, ly * NUM_SPECIES + i)
                (λ ly i, (ly + 2) * (MXSUB * NUM_SPECIES + 2 * NUM_SPECIES) - NUM_SPECIES + i)
                MYSUB NUM_SPECIES Hu) as (u' & Hl & Hs' & Hf').
    { apply (array_at_add m buffer (2 * NUM_SPECIES * MYSUB)); [done|done|done]. }
    { done. }
    { unfold NUM_SPECIES, NPREY, MXSUB, MYSUB. intros a i Ha Hi. lia. }
    exists u'. split; [exact Hl|]. split; [done|].
    intros b Hb1 Hb2. rewrite Hf' by done. by apply Hf. }
  set (s1 := if decide (jysub ≠ 0) then ([MPI_Wait 0], wait 0 t) else ([], t)).
  assert (Q1 : Q s1.2).
  { unfold s1. case_decide; simpl; [apply HW|]; by split. }
  set (s2 := if decide (jysub ≠ NPEY - 1) then (s1.1 ++ [MPI_Wait 1], wait 1 s1.2) else s1).
  assert (Q2 : Q s2.2).
  { unfold s2. case_decide; simpl; [by apply HW|done]. }
  clearbody s2. clear s1 Q1.
  destruct (decide (ixsub ≠ 0)) as [Hix0|Hix0];
    destruct (decide (ixsub ≠ NPEX - 1)) as [Hix1|Hix1].
  - destruct (H1 (wait 2 s2.2)) as (u1 & -> & Q3); [by apply HW|]. simpl.
    destruct (H2 (wait 3 u1)) as (u2 & -> & Q4); [by apply HW|]. simpl.
    eexists. split; [done|]. exact Q4.
  - destruct (H1 (wait 2 s2.2)) as (u1 & -> & Q3); [by apply HW|]. simpl.
    eexists. split; [done|]. exact Q3.
  - simpl. destruct (H2 (wait 3 s2.2)) as (u2 & -> & Q4); [by apply HW|]. simpl.
    eexists. split; [done|]. exact Q4.
  - simpl. eexists. split; [done|]. exact Q2.
Qed.

(** resweb, on a UserData with the sizes InitUserData sets, whatever the
    position of the process: with cc, cp, res and rates of
    MXSUB*MYSUB*NUM_SPECIES elements, cext of
    (MXSUB+2)*(MYSUB+2)*NUM_SPECIES, the local arrays buffer of
    2*NUM_SPECIES*MYSUB and bufleft, bufright of NUM_SPECIES*MYSUB, and
    MPI_Wait writing into cext and buffer only, without changing a length,
    every array access of rescomm, BSend, BRecvWait and reslocal is inside
    its array.  resweb returns 0, keeps all lengths and writes only into
    cext, rates, rhs, res and the three buffers. *)
Theorem resweb_defined wait tt cc cp res webdata buffer bufleft bufright m :
  (forall r u, same_lengths u (wait r u)) ->
  (forall r u b, b ≠ p_block (ud_cext webdata) -> b ≠ p_block buffer ->
     wait r u !! b = u !! b) ->
  ud_mxsub webdata = MXSUB -> ud_mysub webdata = MYSUB ->
  ud_nsmxsub webdata = MXSUB * NUM_SPECIES ->
  ud_nsmxsub2 webdata = (MXSUB + 2) * NUM_SPECIES ->
  ud_np webdata = NPREY ->
  array_at m cc (MXSUB * MYSUB * NUM_SPECIES) ->
  array_at m cp (MXSUB * MYSUB * NUM_SPECIES) ->
  array_at m res (MXSUB * MYSUB * NUM_SPECIES) ->
  array_at m (ud_rates webdata) (MXSUB * MYSUB * NUM_SPECIES) ->
  array_at m (ud_cext webdata) ((MXSUB + 2) * (MYSUB + 2) * NUM_SPECIES) ->
  array_at m (ud_cox webdata) NUM_SPECIES -> array_at m (ud_coy webdata) NUM_SPECIES ->
  array_at m (ud_bcoef webdata) NUM_SPECIES -> array_at m (ud_rhs webdata) NUM_SPECIES ->
  (forall i, 0 <= i < NUM_SPECIES ->
     exists row, acoef_row webdata i = Some row /\ array_at m row NUM_SPECIES) ->
  array_at m buffer (2 * NUM_SPECIES * MYSUB) ->
  array_at m bufleft (NUM_SPECIES * MYSUB) -> array_at m bufright (NUM_SPECIES * MYSUB) ->
  exists calls m',
    resweb wait tt cc cp res webdata buffer bufleft bufright m = Some (0, calls, m') /\
    same_lengths m m' /\
    (forall b, b ∉ [p_block (ud_cext webdata); p_block (ud_rates webdata);
                    p_block (ud_rhs webdata); p_block res;
                    p_block buffer; p_block bufleft; p_block bufright] ->
       m' !! b = m !! b).
Proof.
  intros Hwl Hwf Emx Emy Ensx Ensx2 Enp Hcc Hcp Hres Hrates Hcext Hcox Hcoy Hbcoef Hrhs
    Hrows Hbuf Hbl Hbr.
  unfold resweb, rescomm. cbv zeta. rewrite Ensx.
  destruct (BSend_ok m m (ud_thispe webdata) (ud_ixsub webdata) (ud_jysub webdata)
              (ud_ns webdata * ud_mysub webdata) cc bufleft bufright)
    as (sent & -> & Hs1 & Hf1); [apply same_lengths_refl|done|done|done|].
  simpl.
  destruct (BRecvWait_ok wait m sent.2 (ud_ixsub webdata) (ud_jysub webdata)
              (ud_cext webdata) buffer)
    as (waited & -> & Hs2 & Hf2); [done|done|done|done|done|].
  simpl.
  destruct (reslocal_ok tt cc cp res webdata waited.2)
    as (m' & -> & Hs3 & Hf3); try done; try (by apply (array_at_same m)).
  { intros i Hi. destruct (Hrows i Hi) as (row & Hrow & Harr).
    exists row. split; [done|]. by apply (array_at_same m). }
  simpl. eexists _, m'. split; [done|]. split; [by apply (same_lengths_trans m waited.2)|].
  intros b Hb. repeat (apply not_elem_of_cons in Hb as [? Hb]).
  rewrite Hf3 by (rewrite !not_elem_of_cons; auto using not_elem_of_nil).
  rewrite Hf2 by done. by apply Hf1.
Qed.

End WebResidualSafety.

(** ** The food web example: the residual *)

Section WebRateFacts.
Import Iwebpk.
Context {R : RealType} {RM : RealMath R} {WM : WebMath R}.

Implicit Types (m t : gmap block (list realtype)).

Lemma holds_insert_ne m p xs b a :
  p_block p ≠ b -> holds m p xs -> holds (<[b:=a]> m) p xs.
Proof. intros Hne H i x Hx. rewrite load_insert_ne by done. by apply H. Qed.

Lemma dot_snoc xs ys x y :
  length xs = length ys -> dot (xs ++ [x]) (ys ++ [y]) = radd (dot xs ys) (rmul x y).
Proof.
  intros Hlen. unfold dot. rewrite zip_with_app by done. by rewrite foldl_app.
Qed.

Lemma dotprod_spec m size x1 x2 xs ys :
  holds m x1 xs -> holds m x2 ys ->
  length xs = Z.to_nat size -> length ys = Z.to_nat size ->
  dotprod size x1 x2 m = Some (dot xs ys).
Proof.
  intros H1 H2 L1 L2. unfold dotprod, for_range.
  match goal with |- context [for_loop ?n 0 ?body ?s0] =>
    destruct (for_loop_inv
                (λ i (s : realtype * ptr * ptr),
                   0 <= i /\
                   s = (dot (take (Z.to_nat i) xs) (take (Z.to_nat i) ys),
                        ptr_add x1 i, ptr_add x2 i))
                body n 0 s0) as (s & -> & _ & ->)
  end.
  { split; [done|]. simpl. unfold ptr_add. destruct x1, x2. simpl.
    rewrite !Z.add_0_r. done. }
  { intros i [[temp xx1] xx2] Hi [_ E]. injection E as -> -> ->.
    destruct (lookup_lt_is_Some_2 xs (Z.to_nat i)) as [x Hx]; [lia|].
    destruct (lookup_lt_is_Some_2 ys (Z.to_nat i)) as [y Hy]; [lia|].
    rewrite !load_ptr_add, Z.add_0_r.
    pose proof (H1 _ _ Hx) as E1. pose proof (H2 _ _ Hy) as E2.
    rewrite Z2Nat.id in E1, E2 by lia. rewrite E1, E2. simpl.
    eexists. split; [done|]. split; [lia|].
    replace (Z.to_nat (i + 1)) with (S (Z.to_nat i)) by lia.
    rewrite (take_S_r xs _ x Hx), (take_S_r ys _ y Hy).
    rewrite dot_snoc by (rewrite !length_take; lia).
    unfold ptr_add. simpl. by rewrite !Z.add_assoc. }
  simpl. f_equal. f_equal; apply take_ge; lia.
Qed.

Lemma WebRates_spec xx yy cxy ratesxy webdata m cs bs acs :
  holds m cxy cs -> length cs = Z.to_nat NUM_SPECIES ->
  holds m (ud_bcoef webdata) bs -> length bs = Z.to_nat NUM_SPECIES ->
  length acs = Z.to_nat NUM_SPECIES ->
  (forall i row_i, acs !! i = Some row_i ->
     exists row, ud_acoef webdata !! i = Some row /\ holds m row row_i /\
       length row_i = Z.to_nat NUM_SPECIES /\ p_block row ≠ p_block ratesxy) ->
  array_at m ratesxy NUM_SPECIES ->
  p_block cxy ≠ p_block ratesxy -> p_block (ud_bcoef webdata) ≠ p_block ratesxy ->
  let fac := radd (radd ONE (rmul (rmul ALPHA xx) yy))
                  (rmul (rmul BETA (rsin (rmul FOURPI xx))) (rsin (rmul FOURPI yy))) in
  exists m',
    WebRates xx yy cxy ratesxy webdata m = Some m' /\
    (forall i c b row_i,
       cs !! i = Some c -> bs !! i = Some b -> acs !! i = Some row_i ->
       load m' ratesxy (Z.of_nat i)
       = Some (rmul c (radd (rmul b fac) (dot cs row_i)))) /\
    same_lengths m m' /\
    (forall b, b ≠ p_block ratesxy -> m' !! b = m !! b) /\
    (forall q j, p_block q = p_block ratesxy ->
       ~ (p_off ratesxy <= p_off q + j < p_off ratesxy + NUM_SPECIES) ->
       load m' q j = load m q j).
Proof.
  intros Hcs Lcs Hbs Lbs Lacs Hrows (rarr & Hr & Ho & Hl) Nc Nb fac.
  assert (HN : Z.of_nat (Z.to_nat (NUM_SPECIES - 0)) = 2) by done.
  assert (HN' : Z.to_nat NUM_SPECIES = 2%nat) by done.
  assert (HNS : NUM_SPECIES = 2) by done.
  unfold WebRates, for_range. cbv zeta. fold fac.
  set (yb := p_block ratesxy) in *.
  set (idx := λ i : Z, p_off ratesxy + i).
  set (g1 := λ (i : Z) (_ : realtype), dot cs (default [] (acs !! Z.to_nat i))).
  set (g2 := λ (i : Z) (r : realtype),
         rmul (default ZERO (cs !! Z.to_nat i))
              (radd (rmul (default ZERO (bs !! Z.to_nat i)) fac) r)).
  match goal with |- context [for_loop ?n 0 ?b m] =>
    destruct (for_loop_pointwise idx g1 b m yb n 0 rarr) as (ys1 & Hl1 & Hlen1 & Hu1 & Hf1)
  end.
  { intros i Hi. unfold idx. lia. }
  { intros i i' Hi Hi'. unfold idx. lia. }
  { intros i ys' v Hi Hlen Hv.
    destruct (lookup_lt_is_Some_2 acs (Z.to_nat i)) as [row_i Hrow_i]; [lia|].
    destruct (Hrows _ _ Hrow_i) as (row & Hrow & Hhold & Lrow & Nrow).
    unfold acoef_row. case_decide; [|lia]. rewrite Hrow. simpl.
    rewrite (dotprod_spec _ NUM_SPECIES cxy row cs row_i); try done.
    2: { by apply holds_insert_ne. }
    2: { by apply holds_insert_ne. }
    simpl. unfold yb. rewrite store_insert_eq by (unfold idx in *; lia).
    unfold g1, idx. by rewrite Hrow_i. }
  rewrite (insert_id m yb rarr Hr) in Hl1. rewrite Hl1. cbn -[for_loop NUM_SPECIES].
  match goal with |- context [for_loop ?n 0 ?b (<[yb:=ys1]> m)] =>
    destruct (for_loop_pointwise idx g2 b m yb n 0 ys1) as (ys2 & Hl2 & Hlen2 & Hu2 & Hf2)
  end.
  { intros i Hi. unfold idx. lia. }
  { intros i i' Hi Hi'. unfold idx. lia. }
  { intros i ys' v Hi Hlen Hv.
    destruct (lookup_lt_is_Some_2 cs (Z.to_nat i)) as [c Hc]; [lia|].
    destruct (lookup_lt_is_Some_2 bs (Z.to_nat i)) as [b Hb]; [lia|].
    pose proof (Hcs _ _ Hc) as E1. pose proof (Hbs _ _ Hb) as E2.
    rewrite Z2Nat.id in E1, E2 by lia.
    rewrite !(load_insert_ne _ cxy) by done. rewrite E1. simpl.
    rewrite !(load_insert_ne _ (ud_bcoef webdata)) by done. rewrite E2. simpl.
    unfold yb. rewrite load_insert_eq by (unfold idx in *; lia).
    unfold idx in Hv. rewrite Hv. simpl.
    rewrite store_insert_eq by (unfold idx in *; lia).
    unfold g2, idx. by rewrite Hc, Hb. }
  rewrite Hl2. exists (<[yb:=ys2]> m). split; [done|]. split; [|split; [|split]].
  - intros i c b row_i Hc Hb Hrow_i.
    assert (Hi : (i < 2)%nat) by (apply lookup_lt_Some in Hc; lia).
    unfold yb. rewrite load_insert_eq by lia.
    fold (idx (Z.of_nat i)). rewrite Hu2, Hu1 by lia.
    destruct (lookup_lt_is_Some_2 rarr (Z.to_nat (idx (Z.of_nat i)))) as [w ->];
      [unfold idx; lia|].
    simpl. unfold g2, g1. rewrite Nat2Z.id, Hc, Hb, Hrow_i. done.
  - intros b. destruct (decide (b = yb)) as [->|Hne].
    + rewrite lookup_insert_eq, Hr. simpl. congruence.
    + by rewrite lookup_insert_ne.
  - intros b Hne. by rewrite lookup_insert_ne.
  - intros q j Hq Hout. unfold load. rewrite Hq. fold yb.
    case_decide; [|done]. rewrite lookup_insert_eq, Hr. simpl.
    rewrite HNS in Hout.
    rewrite Hf2, Hf1; [done| |]; intros i Hi; unfold idx in *; rewrite HN in Hi; lia.
Qed.

(** The reaction rates WebRates leaves in ratesxy, for a point with the
    concentrations cs at cxy, the coefficients bs in bcoef and the rows acs
    of acoef, ratesxy lying in an array of its own: with
    fac = 1 + ALPHA*xx*yy + BETA*sin(FOURPI*xx)*sin(FOURPI*yy),
    ratesxy[i] = cs[i]*(bs[i]*fac + dot(cs, acs[i])) for each species i.
    Nothing else is written. *)
Theorem WebRates_rates xx yy cxy ratesxy webdata m cs bs acs :
  holds m cxy cs -> length cs = Z.to_nat NUM_SPECIES ->
  holds m (ud_bcoef webdata) bs -> length bs = Z.to_nat NUM_SPECIES ->
  length acs = Z.to_nat NUM_SPECIES ->
  (forall i row_i, acs !! i = Some row_i ->
     exists row, ud_acoef webdata !! i = Some row /\ holds m row row_i /\
       length row_i = Z.to_nat NUM_SPECIES /\ p_block row ≠ p_block ratesxy) ->
  array_at m ratesxy NUM_SPECIES ->
  p_block cxy ≠ p_block ratesxy -> p_block (ud_bcoef webdata) ≠ p_block ratesxy ->
  let fac := radd (radd ONE (rmul (rmul ALPHA xx) yy))
                  (rmul (rmul BETA (rsin (rmul FOURPI xx))) (rsin (rmul FOURPI yy))) in
  exists m',
    WebRates xx yy cxy ratesxy webdata m = Some m' /\
    (forall i c b row_i,
       cs !! i = Some c -> bs !! i = Some b -> acs !! i = Some row_i ->
       load m' ratesxy (Z.of_nat i)
       = Some (rmul c (radd (rmul b fac) (dot cs row_i)))) /\
    same_lengths m m' /\
    (forall b, b ≠ p_block ratesxy -> m' !! b = m !! b).
Proof.
  intros Hcs Lcs Hbs Lbs Lacs Hrows Hr Nc Nb fac.
  destruct (WebRates_spec xx yy cxy ratesxy webdata m cs bs acs)
    as (m' & Hw & Hv & Hs & Hf & _); try done.
  exists m'. done.
Qed.

End WebRateFacts.

Section WebResidualValues.
Import Iwebpk.
Context {R : RealType} {RM : RealMath R} {WM : WebMath R}.

Implicit Types (m t u : gmap block (list realtype)).

Lemma reslocal_parts tt cc cp res rdata m :
  reslocal tt cc cp res rdata m
  = m1 ← reslocal_extend cc rdata m; m2 ← reslocal_points cp res rdata m1; Some (0, m2).
Proof.
  unfold reslocal, reslocal_extend, reslocal_points. cbv zeta.
  repeat match goal with
         | |- context [mbind _ ?x] =>
             lazymatch x with
             | mbind _ _ => fail
             | _ => destruct x; cbn [mbind option_bind]; [|reflexivity]
             end
         end.
  reflexivity.
Qed.

Lemma load_block_eq t t' p k :
  t' !! p_block p = t !! p_block p -> load t' p k = load t p k.
Proof. intros H. unfold load. by rewrite H. Qed.

Lemma holds_block_eq t t' p xs :
  t' !! p_block p = t !! p_block p -> holds t p xs -> holds t' p xs.
Proof. intros H Hh i x Hx. rewrite (load_block_eq t t') by done. by apply Hh. Qed.

Lemma holds_exists t p n :
  array_at t p n -> exists xs, holds t p xs /\ length xs = Z.to_nat n.
Proof.
  intros (arr & Harr & Ho & Hl).
  exists (take (Z.to_nat n) (drop (Z.to_nat (p_off p)) arr)). split.
  - intros i x Hx. apply lookup_take_Some in Hx as [Hx _]. rewrite lookup_drop in Hx.
    unfold load. case_decide; [|lia]. rewrite Harr. simpl.
    by replace (Z.to_nat (p_off p + Z.of_nat i)) with (Z.to_nat (p_off p) + i)%nat by lia.
  - rewrite length_take, length_drop. lia.
Qed.

Lemma store_cell m t p n k v :
  same_lengths m t -> array_at m p n -> 0 <= k < n ->
  exists t', store t p k v = Some t' /\ same_lengths m t' /\
    load t' p k = Some v /\
    (forall b, b ≠ p_block p -> t' !! b = t !! b) /\
    (forall q j, p_block q = p_block p -> p_off q + j ≠ p_off p + k ->
       load t' q j = load t q j).
Proof.
  intros Hs (arr & Harr & Ho & Hl) Hk. unfold store.
  pose proof (Hs (p_block p)) as Hb. rewrite Harr in Hb. simpl in Hb.
  destruct (t !! p_block p) as [a|] eqn:Ha; [|done]. simpl in *.
  injection Hb as Hb. case_decide; [|lia].
  eexists. split; [done|]. split; [|split; [|split]].
  - intros b. destruct (decide (b = p_block p)) as [->|Hne].
    + rewrite lookup_insert_eq, Harr. simpl. rewrite length_insert. congruence.
    + rewrite lookup_insert_ne by done. apply Hs.
  - unfold load. case_decide; [|lia]. rewrite lookup_insert_eq. simpl.
    apply list_lookup_insert_eq. lia.
  - intros b Hne. by rewrite lookup_insert_ne.
  - intros q j Hq Hne. unfold load. rewrite Hq. case_decide; [|done].
    rewrite lookup_insert_eq, Ha. simpl. apply list_lookup_insert_ne. lia.
Qed.

(** Two nested loops over a grid: each round establishes the property of
    its own point and keeps those of the other points. *)
Lemma grid_loops {St : Type} (Base : St -> Prop) (Cell : Z -> Z -> St -> Prop)
    (g : Z -> Z -> St -> option St) n1 n2 s :
  0 <= n1 -> 0 <= n2 ->
  Base s ->
  (forall jy ix (w : St), 0 <= jy < n1 -> 0 <= ix < n2 -> Base w ->
     exists w' : St, g jy ix w = Some w' /\ Base w' /\ Cell ix jy w' /\
       forall ix' jy', 0 <= ix' < n2 -> 0 <= jy' < n1 -> (ix' ≠ ix \/ jy' ≠ jy) ->
         Cell ix' jy' w -> Cell ix' jy' w') ->
  exists w : St, for_range 0 n1 (λ jy s0, for_range 0 n2 (g jy) s0) s = Some w /\ Base w /\
    forall ix jy, 0 <= ix < n2 -> 0 <= jy < n1 -> Cell ix jy w.
Proof.
  intros H1 H2 Hs Hstep.
  destruct (for_range_inv
              (λ jy (w : St), Base w /\
                 forall ix jy', 0 <= ix < n2 -> 0 <= jy' < jy -> Cell ix jy' w)
              (λ jy s0, for_range 0 n2 (g jy) s0) 0 n1 s) as (w & Hl & Hb & Hc); [done| | |].
  - split; [done|]. intros; lia.
  - intros jy w Hjy [Hb Hc].
    destruct (for_range_inv
                (λ ix (w' : St), Base w' /\
                   (forall ix' jy', 0 <= ix' < n2 -> 0 <= jy' < jy -> Cell ix' jy' w') /\
                   (forall ix', 0 <= ix' < ix -> Cell ix' jy w'))
                (g jy) 0 n2 w) as (w' & Hl' & Hb' & Hc1 & Hc2); [done| | |].
    + split; [done|]. split; [done|]. intros; lia.
    + intros ix w1 Hix (Hb1 & Hc1 & Hc2).
      destruct (Hstep jy ix w1) as (w2 & Hg & Hb2 & Hcell & Hpres); [lia|lia|done|].
      exists w2. split; [done|]. split; [done|]. split.
      * intros ix' jy' Hix' Hjy'. apply Hpres; [lia|lia|right; lia|]. by apply Hc1.
      * intros ix' Hix'. destruct (decide (ix' = ix)) as [->|Hne]; [done|].
        apply Hpres; [lia|lia|by left|]. apply Hc2. lia.
    + exists w'. split; [done|]. split; [done|]. intros ix jy' Hix Hjy'.
      destruct (decide (jy' = jy)) as [->|]; [apply Hc2; lia|apply Hc1; lia].
  - exists w. split; [done|]. split; [done|]. intros ix jy Hix Hjy. by apply Hc.
Qed.

Lemma residual_at_out webdata cp res t u u' ix jy is_ :
  load u' (IJ_Vptr (ud_rates webdata) ix jy) is_
  = load u (IJ_Vptr (ud_rates webdata) ix jy) is_ ->
  load u' (IJ_Vptr res ix jy) is_ = load u (IJ_Vptr res ix jy) is_ ->
  residual_at webdata cp res t u ix jy is_ -> residual_at webdata cp res t u' ix jy is_.
Proof.
  intros E1 E2 H. unfold residual_at in *. cbv zeta in *.
  destruct H as (cs & row & as_ & c & b & cxl & cxu & cyl & cyu & co_x & co_y & cpv & H).
  exists cs, row, as_, c, b, cxl, cxu, cyl, cyu, co_x, co_y, cpv.
  rewrite E1, E2. exact H.
Qed.

Lemma residual_at_in webdata cp res t t' u ix jy is_ :
  (forall p, p ∈ [ud_cext webdata; ud_cox webdata; ud_coy webdata; ud_bcoef webdata; cp]
               ++ ud_acoef webdata ->
     t' !! p_block p = t !! p_block p) ->
  residual_at webdata cp res t u ix jy is_ -> residual_at webdata cp res t' u ix jy is_.
Proof.
  intros Hin H. unfold residual_at in *. cbv zeta in *.
  destruct H as (cs & row & as_ & c & b & cxl & cxu & cyl & cyu & co_x & co_y & cpv &
                 H1 & H2 & H3 & H4 & H5 & H6 & H7 & H8 & H9 & H10 & H11 & H12 & H13 & H14 & H).
  assert (Hrow : row ∈ ud_acoef webdata).
  { unfold acoef_row in H3. destruct (decide (0 <= is_)); [|discriminate H3].
    by apply list_elem_of_lookup_2 in H3. }
  assert (Hb : forall p, p ∈ [ud_cext webdata; ud_cox webdata; ud_coy webdata;
                              ud_bcoef webdata; cp] -> t' !! p_block p = t !! p_block p).
  { intros p Hp. apply Hin. rewrite elem_of_app. by left. }
  assert (Hcext : t' !! p_block (ud_cext webdata) = t !! p_block (ud_cext webdata))
    by (apply Hb; rewrite !elem_of_cons; auto 10).
  assert (Hcox : t' !! p_block (ud_cox webdata) = t !! p_block (ud_cox webdata))
    by (apply Hb; rewrite !elem_of_cons; auto 10).
  assert (Hcoy : t' !! p_block (ud_coy webdata) = t !! p_block (ud_coy webdata))
    by (apply Hb; rewrite !elem_of_cons; auto 10).
  assert (Hbc : t' !! p_block (ud_bcoef webdata) = t !! p_block (ud_bcoef webdata))
    by (apply Hb; rewrite !elem_of_cons; auto 10).
  assert (Hcp : t' !! p_block cp = t !! p_block cp)
    by (apply Hb; rewrite !elem_of_cons; auto 10).
  assert (Hr : t' !! p_block row = t !! p_block row)
    by (apply Hin; rewrite elem_of_app; by right).
  exists cs, row, as_, c, b, cxl, cxu, cyl, cyu, co_x, co_y, cpv.
  rewrite !(load_block_eq t t' (ud_cext webdata)) by done.
  rewrite (load_block_eq t t' (ud_cox webdata)), (load_block_eq t t' (ud_coy webdata)),
    (load_block_eq t t' (ud_bcoef webdata)), (load_block_eq t t' (IJ_Vptr cp ix jy)) by done.
  split; [by apply (holds_block_eq t)|]. split; [done|]. split; [done|].
  split; [by apply (holds_block_eq t)|]. done.
Qed.

End WebResidualValues.

Section WebResidualPoints.
Import Iwebpk.
Context {R : RealType} {RM : RealMath R} {WM : WebMath R}.

Implicit Types (m t u : gmap block (list realtype)).

Lemma reslocal_points_spec cp res webdata t :
  ud_mxsub webdata = MXSUB -> ud_mysub webdata = MYSUB ->
  ud_nsmxsub2 webdata = (MXSUB + 2) * NUM_SPECIES ->
  array_at t cp (MXSUB * MYSUB * NUM_SPECIES) ->
  array_at t res (MXSUB * MYSUB * NUM_SPECIES) ->
  array_at t (ud_rates webdata) (MXSUB * MYSUB * NUM_SPECIES) ->
  array_at t (ud_cext webdata) ((MXSUB + 2) * (MYSUB + 2) * NUM_SPECIES) ->
  array_at t (ud_cox webdata) NUM_SPECIES -> array_at t (ud_coy webdata) NUM_SPECIES ->
  array_at t (ud_bcoef webdata) NUM_SPECIES -> array_at t (ud_rhs webdata) NUM_SPECIES ->
  (forall i, 0 <= i < NUM_SPECIES ->
     exists row, acoef_row webdata i = Some row /\ array_at t row NUM_SPECIES) ->
  NoDup [p_block (ud_rates webdata); p_block (ud_rhs webdata); p_block res] ->
  (forall p, p ∈ [ud_cext webdata; ud_cox webdata; ud_coy webdata; ud_bcoef webdata; cp]
               ++ ud_acoef webdata ->
     p_block p ∉ [p_block (ud_rates webdata); p_block (ud_rhs webdata); p_block res]) ->
  exists t',
    reslocal_points cp res webdata t = Some t' /\
    same_lengths t t' /\
    (forall b, b ∉ [p_block (ud_rates webdata); p_block (ud_rhs webdata); p_block res] ->
       t' !! b = t !! b) /\
    (forall ix jy is_, 0 <= ix < MXSUB -> 0 <= jy < MYSUB -> 0 <= is_ < NUM_SPECIES ->
       residual_at webdata cp res t t' ix jy is_).
Proof.
  intros Emx Emy Ensx2 Hcp Hres Hrates Hcext Hcox Hcoy Hbcoef Hrhs Hrows Hnd Hin.
  set (Wb := [p_block (ud_rates webdata); p_block (ud_rhs webdata); p_block res]) in *.
  assert (HNS : NUM_SPECIES = 2) by done.
  assert (HNS' : Z.to_nat NUM_SPECIES = 2%nat) by done.
  (* the blocks *)
  assert (Hb : forall p, p ∈ [ud_cext webdata; ud_cox webdata; ud_coy webdata;
                              ud_bcoef webdata; cp] -> p_block p ∉ Wb).
  { intros p Hp. apply Hin. rewrite elem_of_app. by left. }
  assert (Ncext : p_block (ud_cext webdata) ∉ Wb)
    by (apply Hb; rewrite !elem_of_cons; auto 10).
  assert (Ncox : p_block (ud_cox webdata) ∉ Wb)
    by (apply Hb; rewrite !elem_of_cons; auto 10).
  assert (Ncoy : p_block (ud_coy webdata) ∉ Wb)
    by (apply Hb; rewrite !elem_of_cons; auto 10).
  assert (Nbc : p_block (ud_bcoef webdata) ∉ Wb)
    by (apply Hb; rewrite !elem_of_cons; auto 10).
  assert (Ncp : p_block cp ∉ Wb) by (apply Hb; rewrite !elem_of_cons; auto 10).
  assert (Nrow : forall i row, acoef_row webdata i = Some row -> p_block row ∉ Wb).
  { intros i row Hrow. apply Hin. rewrite elem_of_app. right.
    unfold acoef_row in Hrow. case_decide; [|done]. by apply list_elem_of_lookup_2 in Hrow. }
  assert (Hin_W : forall b, b ∉ Wb ->
            b ≠ p_block (ud_rates webdata) /\ b ≠ p_block (ud_rhs webdata) /\
            b ≠ p_block res).
  { intros b N. unfold Wb in N. apply not_elem_of_cons in N as [? N].
    apply not_elem_of_cons in N as [? N]. apply not_elem_of_cons in N as [? _]. done. }
  assert (Drr : p_block (ud_rates webdata) ≠ p_block (ud_rhs webdata) /\
                p_block (ud_rates webdata) ≠ p_block res /\
                p_block (ud_rhs webdata) ≠ p_block res).
  { unfold Wb in Hnd. apply NoDup_cons in Hnd as [N1 Hnd]. apply NoDup_cons in Hnd as [N2 _].
    apply not_elem_of_cons in N1 as [? N1]. apply not_elem_of_cons in N1 as [? _].
    apply not_elem_of_cons in N2 as [? _]. done. }
  destruct Drr as (Drh & Drs & Dhs).
  (* the coefficients *)
  destruct (holds_exists t (ud_bcoef webdata) NUM_SPECIES Hbcoef) as (bs & Hbs & Lbs).
  destruct (Hrows 0) as (row0 & Hrow0 & Harr0); [lia|].
  destruct (Hrows 1) as (row1 & Hrow1 & Harr1); [lia|].
  destruct (holds_exists t row0 NUM_SPECIES Harr0) as (as0 & Has0 & Las0).
  destruct (holds_exists t row1 NUM_SPECIES Harr1) as (as1 & Has1 & Las1).
  unfold reslocal_points. cbv zeta. rewrite Emx, Emy, Ensx2.
  set (Base := λ w : gmap block (list realtype),
         same_lengths t w /\ forall b, b ∉ Wb -> w !! b = t !! b).
  set (Cell := λ (ix jy : Z) (w : gmap block (list realtype)),
         forall is_, 0 <= is_ < NUM_SPECIES -> residual_at webdata cp res t w ix jy is_).
  match goal with |- context [for_range 0 MYSUB ?f t] =>
    match f with (λ jy s0, for_range 0 MXSUB (@?g jy) s0) =>
      destruct (grid_loops Base Cell g MYSUB MXSUB t) as (t' & Hl & [Hs Hf] & Hc)
    end
  end.
  1, 2: done.
  { split; [apply same_lengths_refl|done]. }
  2: { cbv beta in Hl. rewrite Hl. cbn [mbind option_bind].
       exists t'. split; [done|]. split; [done|]. split; [done|].
       intros ix jy is_ Hix Hjy His. by apply Hc. }
  intros jy ix u Hjy Hix [Hsu Hfu]. cbv beta.
  set (locce := (jy + 1) * ((MXSUB + 2) * NUM_SPECIES) + (ix + 1) * NUM_SPECIES).
  set (xx := rmul (rofZ (ix + ud_ixsub webdata * MXSUB)) (ud_dx webdata)).
  set (yy := rmul (rofZ (jy + ud_jysub webdata * MYSUB)) (ud_dy webdata)).
  set (ratesxy := IJ_Vptr (ud_rates webdata) ix jy).
  set (resxy := IJ_Vptr res ix jy).
  set (cpxy := IJ_Vptr cp ix jy).
  assert (Hpt : forall v, array_at t v (MXSUB * MYSUB * NUM_SPECIES) ->
            array_at t (IJ_Vptr v ix jy) NUM_SPECIES).
  { intros v Hv. apply (array_at_add t v (MXSUB * MYSUB * NUM_SPECIES)); [done|..];
      unfold NSMXSUB, MXSUB, MYSUB, NUM_SPECIES, NPREY in *; lia. }
  assert (Hcxy : array_at t (ptr_add (ud_cext webdata) locce) NUM_SPECIES).
  { apply (array_at_add t _ ((MXSUB + 2) * (MYSUB + 2) * NUM_SPECIES)); [done|..];
      unfold locce, MXSUB, MYSUB, NUM_SPECIES, NPREY in *; lia. }
  destruct (holds_exists t _ NUM_SPECIES Hcxy) as (cs & Hcs & Lcs).
  (* WebRates *)
  destruct (WebRates_spec xx yy (ptr_add (ud_cext webdata) locce) ratesxy webdata u
              cs bs [as0; as1]) as (u1 & Hw & Hv & Hs1 & Hf1 & Hc1); try done.
  { apply (holds_block_eq t); [by apply Hfu|done]. }
  { apply (holds_block_eq t); [by apply Hfu|done]. }
  { intros [|[|i]] row_i [=<-].
    - exists row0. unfold acoef_row in Hrow0. simpl in Hrow0.
      split; [done|]. split; [|split; [done|]].
      + apply (holds_block_eq t); [apply Hfu; by apply (Nrow 0)|done].
      + apply (Hin_W _ (Nrow 0 row0 Hrow0)).
    - exists row1. unfold acoef_row in Hrow1. simpl in Hrow1.
      split; [done|]. split; [|split; [done|]].
      + apply (holds_block_eq t); [apply Hfu; by apply (Nrow 1)|done].
      + apply (Hin_W _ (Nrow 1 row1 Hrow1)). }
  { apply (array_at_same t); [done|]. by apply Hpt. }
  { apply (Hin_W _ Ncext). }
  { apply (Hin_W _ Nbc). }
  rewrite Hw. cbn [mbind option_bind].
  (* what the species loop reads *)
  assert (Hval : forall k, 0 <= k < (MXSUB + 2) * (MYSUB + 2) * NUM_SPECIES ->
            exists v, load t (ud_cext webdata) k = Some v).
  { intros k Hk. by apply (load_at t t (ud_cext webdata) _ k (same_lengths_refl t) Hcext). }
  assert (Hcsv : forall i : nat, (i < 2)%nat ->
            exists c, cs !! i = Some c /\
                      load t (ud_cext webdata) (locce + Z.of_nat i) = Some c).
  { intros i Hi. destruct (lookup_lt_is_Some_2 cs i) as [c Hc]; [lia|].
    exists c. split; [done|]. rewrite <- load_ptr_add. by apply Hcs. }
  assert (Hrate : forall i c b row_i,
            cs !! i = Some c -> bs !! i = Some b -> [as0; as1] !! i = Some row_i ->
            load u1 ratesxy (Z.of_nat i)
            = Some (rmul c (radd (rmul b
                 (radd (radd ONE (rmul (rmul ALPHA xx) yy))
                    (rmul (rmul BETA (rsin (rmul FOURPI xx))) (rsin (rmul FOURPI yy)))))
                 (dot cs row_i)))) by exact Hv.
  clear Hv.
  assert (Hs1' : same_lengths t u1) by (by apply (same_lengths_trans t u)).
  assert (Hf1' : forall b, b ∉ Wb -> u1 !! b = t !! b).
  { intros b Hb'. rewrite Hf1; [by apply Hfu|]. apply (Hin_W _ Hb'). }
  (* the species loop *)
  match goal with |- context [for_range 0 NUM_SPECIES ?f u1] =>
    destruct (for_range_inv
                (λ is_ (w : gmap block (list realtype)),
                   same_lengths t w /\
                   (forall b, b ∉ Wb -> w !! b = t !! b) /\
                   w !! p_block (ud_rates webdata) = u1 !! p_block (ud_rates webdata) /\
                   (forall q j, p_block q = p_block res ->
                      ~ (p_off resxy <= p_off q + j < p_off resxy + NUM_SPECIES) ->
                      load w q j = load u1 q j) /\
                   (forall is', 0 <= is' < is_ ->
                      residual_at webdata cp res t w ix jy is'))
                f 0 NUM_SPECIES u1) as (u2 & Hl2 & Hs2 & Hf2 & Hr2 & Hc2 & Hres2)
  end.
  { done. }
  { split; [done|]. split; [done|]. split; [done|]. split; [done|]. intros; lia. }
  2: { exists u2. split; [exact Hl2|]. split; [by split|]. split; [done|].
       intros ix' jy' Hix' Hjy' Hne Hcell is_ His.
       apply (residual_at_out webdata cp res t u); [| |by apply Hcell].
       - rewrite (load_block_eq u1 u2) by exact Hr2.
         apply Hc1; [done|].
         unfold ratesxy, IJ_Vptr, ptr_add, NSMXSUB, NUM_SPECIES, NPREY, MXSUB, MYSUB in *.
         simpl. lia.
       - rewrite Hc2.
         + apply load_block_eq. apply Hf1. simpl. by apply not_eq_sym.
         + done.
         + unfold resxy, IJ_Vptr, ptr_add, NSMXSUB, NUM_SPECIES, NPREY, MXSUB, MYSUB in *.
           simpl. lia. }
  intros is_ w His (Hsw & Hfw & Hrw & Hcw & Hresw).
  assert (Hinp : forall p k, p_block p ∉ Wb -> load w p k = load t p k).
  { intros p k Hp. apply load_block_eq. by apply Hfw. }
  assert (Hlocce : 0 <= locce + is_ - (MXSUB + 2) * NUM_SPECIES /\
                   locce + is_ + (MXSUB + 2) * NUM_SPECIES
                   < (MXSUB + 2) * (MYSUB + 2) * NUM_SPECIES)
    by (unfold locce, MXSUB, MYSUB, NUM_SPECIES, NPREY in *; lia).
  assert (HN2 : 0 < (MXSUB + 2) * NUM_SPECIES) by done.
  destruct (Hval (locce + is_)) as [c Hc]; [lia|].
  destruct (Hval (locce + is_ - (MXSUB + 2) * NUM_SPECIES)) as [cyl Hcyl]; [lia|].
  destruct (Hval (locce + is_ + (MXSUB + 2) * NUM_SPECIES)) as [cyu Hcyu]; [lia|].
  destruct (Hval (locce + is_ - NUM_SPECIES)) as [cxl Hcxl]; [lia|].
  destruct (Hval (locce + is_ + NUM_SPECIES)) as [cxu Hcxu]; [lia|].
  destruct (load_at t t (ud_cox webdata) _ is_ (same_lengths_refl t) Hcox) as [co_x Hco_x];
    [lia|].
  destruct (load_at t t (ud_coy webdata) _ is_ (same_lengths_refl t) Hcoy) as [co_y Hco_y];
    [lia|].
  destruct (load_at t t (ud_bcoef webdata) _ is_ (same_lengths_refl t) Hbcoef) as [b Hb_];
    [lia|].
  destruct (load_at t t cpxy _ is_ (same_lengths_refl t) (Hpt _ Hcp)) as [cpv Hcpv]; [lia|].
  destruct (Hrows is_ His) as (row & Hrow & Harr).
  assert (Hrow_as : exists as_, [as0; as1] !! Z.to_nat is_ = Some as_ /\
                      holds t row as_ /\ length as_ = Z.to_nat NUM_SPECIES).
  { assert (is_ = 0 \/ is_ = 1) as [->| ->] by lia.
    - exists as0. rewrite Hrow0 in Hrow. injection Hrow as <-. done.
    - exists as1. rewrite Hrow1 in Hrow. injection Hrow as <-. done. }
  destruct Hrow_as as (as_ & Hlk & Has & Las).
  destruct (Hcsv (Z.to_nat is_)) as (c' & Hcs_is & Hc'); [lia|].
  rewrite Z2Nat.id in Hc' by lia. rewrite Hc in Hc'. injection Hc' as <-.
  assert (Hbs_is : bs !! Z.to_nat is_ = Some b).
  { destruct (lookup_lt_is_Some_2 bs (Z.to_nat is_)) as [b' Hb']; [lia|].
    pose proof (Hbs _ _ Hb') as E. rewrite Z2Nat.id in E by lia. congruence. }
  pose proof (Hrate _ _ _ _ Hcs_is Hbs_is Hlk) as Hrt. rewrite Z2Nat.id in Hrt by lia.
  rewrite !(Hinp (ud_cext webdata)) by done.
  rewrite Hc, Hcyl, Hcyu, Hcxl, Hcxu. cbn [mbind option_bind].
  rewrite (Hinp (ud_cox webdata)), (Hinp (ud_coy webdata)) by done.
  rewrite Hco_x, Hco_y. cbn [mbind option_bind].
  rewrite (load_block_eq u1 w ratesxy) by exact Hrw. rewrite Hrt. cbn [mbind option_bind].
  match goal with |- context [store w (ud_rhs webdata) is_ ?v] =>
    destruct (store_cell t w (ud_rhs webdata) NUM_SPECIES is_ v)
      as (w1 & -> & Hsw1 & Hv1 & Hfw1 & _); [done|done|lia|]
  end.
  cbn [mbind option_bind]. rewrite Hv1. cbn [mbind option_bind].
  assert (Hcp1 : load w1 cpxy is_ = Some cpv).
  { rewrite <- Hcpv. apply load_block_eq. rewrite Hfw1; [by apply Hfw|].
    apply (Hin_W _ Ncp). }
  assert (Hfin : forall v w2,
            same_lengths t w2 -> load w2 resxy is_ = Some v ->
            (forall b0, b0 ≠ p_block resxy -> w2 !! b0 = w1 !! b0) ->
            (forall q j, p_block q = p_block resxy -> p_off q + j ≠ p_off resxy + is_ ->
               load w2 q j = load w1 q j) ->
            v = (if decide (is_ < ud_np webdata)
                 then rsub cpv
                        (radd (radd (rmul co_x (rsub (rsub cxu c) (rsub c cxl)))
                                 (rmul co_y (rsub (rsub cyu c) (rsub c cyl))))
                           (rmul c (radd (rmul b
                              (radd (radd ONE (rmul (rmul ALPHA xx) yy))
                                 (rmul (rmul BETA (rsin (rmul FOURPI xx)))
                                    (rsin (rmul FOURPI yy))))) (dot cs as_))))
                 else rneg
                        (radd (radd (rmul co_x (rsub (rsub cxu c) (rsub c cxl)))
                                 (rmul co_y (rsub (rsub cyu c) (rsub c cyl))))
                           (rmul c (radd (rmul b
                              (radd (radd ONE (rmul (rmul ALPHA xx) yy))
                                 (rmul (rmul BETA (rsin (rmul FOURPI xx)))
                                    (rsin (rmul FOURPI yy))))) (dot cs as_))))) ->
            same_lengths t w2 /\
            (forall b0, b0 ∉ Wb -> w2 !! b0 = t !! b0) /\
            w2 !! p_block (ud_rates webdata) = u1 !! p_block (ud_rates webdata) /\
            (forall q j, p_block q = p_block res ->
               ~ (p_off resxy <= p_off q + j < p_off resxy + NUM_SPECIES) ->
               load w2 q j = load u1 q j) /\
            (forall is', 0 <= is' < is_ + 1 -> residual_at webdata cp res t w2 ix jy is')).
  { intros v w2 Hsw2 Hv2 Hfw2 Hcw2 Ev.
    split; [done|]. split; [|split; [|split]].
    - intros b0 Hb0. destruct (Hin_W _ Hb0) as (? & ? & ?).
      rewrite Hfw2 by done. rewrite Hfw1 by done. by apply Hfw.
    - rewrite Hfw2 by (simpl; by apply not_eq_sym). rewrite Hfw1 by done. exact Hrw.
    - intros q j Hq Hout. rewrite Hcw2; [|done|lia].
      rewrite (load_block_eq w w1) by (apply Hfw1; rewrite Hq; by apply not_eq_sym).
      by apply Hcw.
    - intros is' His'. destruct (decide (is' = is_)) as [->|Hne].
      + unfold residual_at. cbv zeta. rewrite Emx, Emy, Ensx2.
        fold locce xx yy ratesxy resxy cpxy.
        exists cs, row, as_, c, b, cxl, cxu, cyl, cyu, co_x, co_y, cpv.
        do 14 (split; [done|]). split.
        * rewrite (load_block_eq u1 w2 ratesxy); [exact Hrt|].
          rewrite Hfw2 by (simpl; by apply not_eq_sym). rewrite Hfw1 by done. exact Hrw.
        * rewrite Hv2, Ev. done.
      + apply (residual_at_out webdata cp res t w); [| |apply Hresw; lia].
        * apply load_block_eq. fold ratesxy.
          rewrite Hfw2 by (simpl; by apply not_eq_sym). by rewrite Hfw1.
        * fold resxy. rewrite Hcw2; [|done|lia].
          apply load_block_eq. apply Hfw1. simpl. by apply not_eq_sym. }
  case_decide.
  - rewrite Hcp1. cbn [mbind option_bind].
    match goal with |- context [store w1 resxy is_ ?v] =>
      destruct (store_cell t w1 resxy NUM_SPECIES is_ v)
        as (w2 & -> & Hsw2 & Hv2 & Hfw2 & Hcw2); [done|by apply Hpt|lia|]
    end.
    eexists. split; [done|]. eapply Hfin; done.
  - match goal with |- context [store w1 resxy is_ ?v] =>
      destruct (store_cell t w1 resxy NUM_SPECIES is_ v)
        as (w2 & -> & Hsw2 & Hv2 & Hfw2 & Hcw2); [done|by apply Hpt|lia|]
    end.
    eexists. split; [done|]. eapply Hfin; done.
Qed.

End WebResidualPoints.

Section WebExtendedArray.
Import Iwebpk.
Context {R : RealType} {RM : RealMath R} {WM : WebMath R}.

Implicit Types (m t u : gmap block (list realtype)).

Lemma extended_iff (S S' : Z -> Z -> Prop) src dst m u :
  (forall k j, S k j <-> S' k j) -> extended S src dst m u -> extended S' src dst m u.
Proof.
  intros Hiff (Hs & Hf & Hc & Hu). split; [done|]. split; [done|]. split.
  - intros k j HS. apply Hc. by apply Hiff.
  - intros k Hk. apply Hu. intros j HS. apply (Hk j). by apply Hiff.
Qed.

Lemma extended_start src dst m : extended (λ _ _, False) src dst m m.
Proof.
  split; [apply same_lengths_refl|]. split; [done|]. split; [done|done].
Qed.

Lemma extended_line (S : Z -> Z -> Prop) src dst m u n locce locc nE nC :
  extended S src dst m u ->
  array_at m dst nE -> array_at m src nC -> p_block src ≠ p_block dst ->
  0 <= locce -> locce + n <= nE -> 0 <= locc -> locc + n <= nC ->
  (forall k j i, S k j -> 0 <= i < n -> k ≠ locce + i) ->
  exists u',
    copy_line n dst locce src locc u = Some u' /\
    extended (λ k j, S k j \/ exists i, 0 <= i < n /\ k = locce + i /\ j = locc + i)
      src dst m u'.
Proof.
  intros (Hs & Hf & Hc & Hu) HE HC Hne He1 He2 Hc1 Hc2 Hdis. unfold copy_line.
  match goal with |- context [for_range 0 n ?f u] =>
    destruct (for_loop_inv
                (λ i (w : gmap block (list realtype)),
                   same_lengths m w /\
                   (forall b, b ≠ p_block dst -> w !! b = m !! b) /\
                   (forall i', 0 <= i' < i ->
                      load w dst (locce + i') = load m src (locc + i')) /\
                   (forall k, ~ (locce <= k < locce + i) -> load w dst k = load u dst k))
                f (Z.to_nat (n - 0)) 0 u) as (u' & Hl & Hs' & Hf' & Hc' & Hu')
  end.
  { split; [done|]. split; [done|]. split; [intros; lia|done]. }
  { intros i w Hi (Hsw & Hfw & Hcw & Huw).
    destruct (load_at m m src nC (locc + i) (same_lengths_refl m) HC) as [v Hv]; [lia|].
    rewrite (load_block_eq m w src) by (by apply Hfw). rewrite Hv. simpl.
    destruct (store_cell m w dst nE (locce + i) v) as (w' & -> & Hsw' & Hv' & Hfw' & Hcw');
      [done|done|lia|].
    exists w'. split; [done|]. split; [done|]. split; [|split].
    - intros b Hb. rewrite Hfw' by done. by apply Hfw.
    - intros i' Hi'. destruct (decide (i' = i)) as [->|Hn]; [congruence|].
      rewrite Hcw'; [apply Hcw; lia|done|lia].
    - intros k Hk. rewrite Hcw'; [apply Huw; lia|done|lia]. }
  exists u'. split; [exact Hl|]. split; [done|]. split; [done|]. split.
  - intros k j [HS|(i & Hi & -> & ->)].
    + rewrite Hu'; [by apply Hc|]. intros Hk.
      apply (Hdis k j (k - locce) HS); lia.
    + apply Hc'. lia.
  - intros k Hk. rewrite Hu'.
    + apply Hu. intros j HS. apply (Hk j). by left.
    + intros Hin. apply (Hk (locc + (k - locce))). right. exists (k - locce). lia.
Qed.

Lemma copy_lines_spec (S : Z -> Z -> Prop) src dst m u n1 n2 (f g : Z -> Z) nE nC :
  extended S src dst m u ->
  array_at m dst nE -> array_at m src nC -> p_block src ≠ p_block dst ->
  0 <= n1 ->
  (forall a, 0 <= a < n1 -> 0 <= g a /\ g a + n2 <= nE /\ 0 <= f a /\ f a + n2 <= nC) ->
  (forall k j a i, S k j -> 0 <= a < n1 -> 0 <= i < n2 -> k ≠ g a + i) ->
  (forall a a' i i', 0 <= a < a' -> a' < n1 -> 0 <= i < n2 -> 0 <= i' < n2 ->
     g a + i ≠ g a' + i') ->
  exists u',
    for_range 0 n1 (λ a w, copy_line n2 dst (g a) src (f a) w) u = Some u' /\
    extended (λ k j, S k j \/ copied n1 n2 f g k j) src dst m u'.
Proof.
  intros Hext HE HC Hne Hn1 Hb Hdis Hinj.
  apply (for_range_inv
           (λ a (w : gmap block (list realtype)),
              extended (λ k j, S k j \/ copied a n2 f g k j) src dst m w)); [done| |].
  - apply (extended_iff S); [|done]. intros k j. split; [by left|].
    intros [H|(a & i & Ha & _)]; [done|lia].
  - intros a w Ha Hw. destruct (Hb a Ha) as (B1 & B2 & B3 & B4).
    destruct (extended_line _ src dst m w n2 (g a) (f a) nE nC Hw HE HC Hne B1 B2 B3 B4)
      as (w' & Hl & Hw').
    { intros k j i [HS|(a' & i' & Ha' & Hi' & -> & _)] Hi.
      - by apply (Hdis k j a i).
      - apply (Hinj a' a i' i); lia. }
    exists w'. split; [done|]. eapply extended_iff; [|exact Hw'].
    intros k j. cbv beta. unfold copied. split.
    + intros [[HS|(a' & i & Ha' & Hi & -> & ->)]|(i & Hi & -> & ->)].
      * by left.
      * right. exists a', i. split; [lia|done].
      * right. exists a, i. split; [lia|done].
    + intros [HS|(a' & i & Ha' & Hi & -> & ->)].
      * left. by left.
      * destruct (decide (a' = a)) as [->|Hna].
        -- right. by exists i.
        -- left. right. exists a', i. split; [lia|done].
Qed.

End WebExtendedArray.

Section WebExtend.
Import Iwebpk.
Context {R : RealType} {RM : RealMath R} {WM : WebMath R}.

Implicit Types (m t u : gmap block (list realtype)).

Lemma extended_if (C : Prop) {D : Decision C} (S New : Z -> Z -> Prop) src dst m u
    (step : option (gmap block (list realtype))) :
  extended S src dst m u ->
  (C -> exists u', step = Some u' /\ extended (λ k j, S k j \/ New k j) src dst m u') ->
  exists u', (if decide C then step else Some u) = Some u' /\
    extended (λ k j, S k j \/ (C /\ New k j)) src dst m u'.
Proof.
  intros Hu Hstep. case_decide as HC.
  - destruct (Hstep HC) as (u' & Hl & Hu'). exists u'. split; [done|].
    eapply extended_iff; [|exact Hu']. intros k j. cbv beta. tauto.
  - exists u. split; [done|].
    eapply extended_iff; [|exact Hu]. intros k j. cbv beta. tauto.
Qed.

(** A loop that carries two counters along with its state. *)
Lemma for_loop_counters {St : Type} (body : Z -> St -> option St) (c1 c2 : Z -> Z)
    (body' : Z -> St * Z * Z -> option (St * Z * Z)) n lo (s : St) :
  (forall i (w : St), lo <= i < lo + Z.of_nat n ->
     body' i (w, c1 i, c2 i) = w' ← body i w; Some (w', c1 (i + 1), c2 (i + 1))) ->
  for_loop n lo body' (s, c1 lo, c2 lo)
  = w' ← for_loop n lo body s; Some (w', c1 (lo + Z.of_nat n), c2 (lo + Z.of_nat n)).
Proof.
  revert lo s. induction n as [|n IH]; intros lo s Hb.
  - simpl. by rewrite Z.add_0_r.
  - cbn [for_loop]. rewrite Hb by lia.
    destruct (body lo s) as [w|]; [|done]. cbn [mbind option_bind].
    rewrite IH.
    + by replace (lo + 1 + Z.of_nat n) with (lo + Z.of_nat (S n)) by lia.
    + intros i w' Hi. apply Hb. lia.
Qed.

Lemma for_range_counters {St : Type} (body : Z -> St -> option St) (c1 c2 : Z -> Z)
    (body' : Z -> St * Z * Z -> option (St * Z * Z)) lo hi (s : St) :
  (forall i (w : St), lo <= i < hi ->
     body' i (w, c1 i, c2 i) = w' ← body i w; Some (w', c1 (i + 1), c2 (i + 1))) ->
  lo <= hi ->
  for_range lo hi body' (s, c1 lo, c2 lo)
  = w' ← for_range lo hi body s; Some (w', c1 hi, c2 hi).
Proof.
  intros Hb Hle. unfold for_range. rewrite (for_loop_counters body c1 c2).
  - by replace (lo + Z.of_nat (Z.to_nat (hi - lo))) with hi by lia.
  - intros i w Hi. apply Hb. lia.
Qed.

Lemma reslocal_extend_spec cc webdata m :
  ud_mysub webdata = MYSUB ->
  ud_nsmxsub webdata = MXSUB * NUM_SPECIES ->
  ud_nsmxsub2 webdata = (MXSUB + 2) * NUM_SPECIES ->
  array_at m cc (MXSUB * MYSUB * NUM_SPECIES) ->
  array_at m (ud_cext webdata) ((MXSUB + 2) * (MYSUB + 2) * NUM_SPECIES) ->
  p_block cc ≠ p_block (ud_cext webdata) ->
  let E := λ ex ey is_ : Z, ey * ((MXSUB + 2) * NUM_SPECIES) + ex * NUM_SPECIES + is_ in
  exists t,
    reslocal_extend cc webdata m = Some t /\
    same_lengths m t /\
    (forall b, b ≠ p_block (ud_cext webdata) -> t !! b = m !! b) /\
    (forall ix jy is_, 0 <= ix < MXSUB -> 0 <= jy < MYSUB -> 0 <= is_ < NUM_SPECIES ->
       load t (ud_cext webdata) (E (ix + 1) (jy + 1) is_)
       = load m (IJ_Vptr cc ix jy) is_) /\
    (ud_jysub webdata = 0 ->
     forall ix is_, 0 <= ix < MXSUB -> 0 <= is_ < NUM_SPECIES ->
       load t (ud_cext webdata) (E (ix + 1) 0 is_) = load m (IJ_Vptr cc ix 1) is_) /\
    (ud_jysub webdata = ud_npey webdata - 1 ->
     forall ix is_, 0 <= ix < MXSUB -> 0 <= is_ < NUM_SPECIES ->
       load t (ud_cext webdata) (E (ix + 1) (MYSUB + 1) is_)
       = load m (IJ_Vptr cc ix (MYSUB - 2)) is_) /\
    (ud_ixsub webdata = 0 ->
     forall jy is_, 0 <= jy < MYSUB -> 0 <= is_ < NUM_SPECIES ->
       load t (ud_cext webdata) (E 0 (jy + 1) is_) = load m (IJ_Vptr cc 1 jy) is_) /\
    (ud_ixsub webdata = ud_npex webdata - 1 ->
     forall jy is_, 0 <= jy < MYSUB -> 0 <= is_ < NUM_SPECIES ->
       load t (ud_cext webdata) (E (MXSUB + 1) (jy + 1) is_)
       = load m (IJ_Vptr cc (MXSUB - 2) jy) is_) /\
    (forall ex ey is_,
       0 <= ex < MXSUB + 2 -> 0 <= ey < MYSUB + 2 -> 0 <= is_ < NUM_SPECIES ->
       (ey = 0 /\ ud_jysub webdata ≠ 0) \/
       (ey = MYSUB + 1 /\ ud_jysub webdata ≠ ud_npey webdata - 1) \/
       (ex = 0 /\ ud_ixsub webdata ≠ 0) \/
       (ex = MXSUB + 1 /\ ud_ixsub webdata ≠ ud_npex webdata - 1) ->
       load t (ud_cext webdata) (E ex ey is_) = load m (ud_cext webdata) (E ex ey is_)).
Proof.
  intros Emy Ensx Ensx2 Hcc Hcext Hne E.
  unfold reslocal_extend. cbv zeta. rewrite Emy, Ensx, Ensx2.
  set (cext := ud_cext webdata) in *.
  (* the local segment of cc *)
  set (f1 := λ a : Z, a * (MXSUB * NUM_SPECIES)).
  set (g1 := λ a : Z, (MXSUB + 2) * NUM_SPECIES + NUM_SPECIES
                      + a * ((MXSUB + 2) * NUM_SPECIES)).
  destruct (copy_lines_spec (λ _ _, False) cc cext m m MYSUB (MXSUB * NUM_SPECIES) f1 g1
              ((MXSUB + 2) * (MYSUB + 2) * NUM_SPECIES) (MXSUB * MYSUB * NUM_SPECIES))
    as (t1 & Hl1 & H1); [apply extended_start|done|done|done|done| |done|..].
  { unfold f1, g1, MXSUB, MYSUB, NUM_SPECIES, NPREY. intros a Ha. lia. }
  { unfold f1, g1, MXSUB, MYSUB, NUM_SPECIES, NPREY. intros a a' i i' Ha Ha' Hi Hi'. lia. }
  match goal with |- context [for_range 0 MYSUB ?b' ?s0] =>
    assert (HC : for_range 0 MYSUB b' s0
                 = w' ← for_range 0 MYSUB
                          (λ a w, copy_line (MXSUB * NUM_SPECIES) cext (g1 a) cc (f1 a) w) m;
                   Some (w', f1 MYSUB, g1 MYSUB))
  end.
  { apply (for_range_counters
             (λ a w, copy_line (MXSUB * NUM_SPECIES) cext (g1 a) cc (f1 a) w) f1 g1);
      [|done].
    intros i w Hi. cbv beta iota.
    destruct (copy_line (MXSUB * NUM_SPECIES) cext (g1 i) cc (f1 i) w); [|done].
    cbn [mbind option_bind]. unfold f1, g1. do 2 f_equal; [f_equal|]; lia. }
  rewrite HC. clear HC.
  rewrite Hl1. cbn [mbind option_bind fst snd].
  (* the mirrored lines *)
  set (S1 := λ k j : Z, False \/ copied MYSUB (MXSUB * NUM_SPECIES) f1 g1 k j) in H1.
  set (N2 := λ k j : Z, exists i, 0 <= i < MXSUB * NUM_SPECIES /\
                          k = NUM_SPECIES + i /\ j = MXSUB * NUM_SPECIES + i).
  assert (H2 : exists t2,
            (if decide (ud_jysub webdata = 0)
             then copy_line (MXSUB * NUM_SPECIES) cext NUM_SPECIES cc (MXSUB * NUM_SPECIES) t1
             else Some t1) = Some t2 /\
            extended (λ k j, S1 k j \/ (ud_jysub webdata = 0 /\ N2 k j)) cc cext m t2).
  { apply extended_if; [done|]. intros _.
    apply (extended_line S1 cc cext m t1 _ _ _
             ((MXSUB + 2) * (MYSUB + 2) * NUM_SPECIES) (MXSUB * MYSUB * NUM_SPECIES));
      try done.
    unfold S1, copied, f1, g1, MXSUB, MYSUB, NUM_SPECIES, NPREY.
    intros k j i [[]|(a & i' & Ha & Hi' & -> & _)] Hi. lia. }
  destruct H2 as (t2 & -> & H2). cbn [mbind option_bind].
  set (S2 := λ k j : Z, S1 k j \/ (ud_jysub webdata = 0 /\ N2 k j)) in H2.
  set (N3 := λ k j : Z, exists i, 0 <= i < MXSUB * NUM_SPECIES /\
                          k = (MYSUB + 1) * ((MXSUB + 2) * NUM_SPECIES) + NUM_SPECIES + i /\
                          j = (MYSUB - 2) * (MXSUB * NUM_SPECIES) + i).
  assert (H3 : exists t3,
            (if decide (ud_jysub webdata = ud_npey webdata - 1)
             then copy_line (MXSUB * NUM_SPECIES) cext
                    ((MYSUB + 1) * ((MXSUB + 2) * NUM_SPECIES) + NUM_SPECIES) cc
                    ((MYSUB - 2) * (MXSUB * NUM_SPECIES)) t2
             else Some t2) = Some t3 /\
            extended (λ k j, S2 k j \/ (ud_jysub webdata = ud_npey webdata - 1 /\ N3 k j))
              cc cext m t3).
  { apply extended_if; [done|]. intros _.
    apply (extended_line S2 cc cext m t2 _ _ _
             ((MXSUB + 2) * (MYSUB + 2) * NUM_SPECIES) (MXSUB * MYSUB * NUM_SPECIES));
      try done.
    unfold S2, S1, N2, copied, f1, g1, MXSUB, MYSUB, NUM_SPECIES, NPREY.
    intros k j i [[[]|(a & i' & Ha & Hi' & -> & _)]|(_ & i' & Hi' & -> & _)] Hi; lia. }
  destruct H3 as (t3 & -> & H3). cbn [mbind option_bind].
  set (S3 := λ k j : Z, S2 k j \/ (ud_jysub webdata = ud_npey webdata - 1 /\ N3 k j)) in H3.
  set (f4 := λ a : Z, a * (MXSUB * NUM_SPECIES) + NUM_SPECIES).
  set (g4 := λ a : Z, (a + 1) * ((MXSUB + 2) * NUM_SPECIES)).
  assert (H4 : exists t4,
            (if decide (ud_ixsub webdata = 0)
             then for_range 0 MYSUB
                    (λ jy m0, copy_line NUM_SPECIES cext
                                ((jy + 1) * ((MXSUB + 2) * NUM_SPECIES)) cc
                                (jy * (MXSUB * NUM_SPECIES) + NUM_SPECIES) m0) t3
             else Some t3) = Some t4 /\
            extended (λ k j, S3 k j \/ (ud_ixsub webdata = 0 /\
                                         copied MYSUB NUM_SPECIES f4 g4 k j))
              cc cext m t4).
  { apply extended_if; [done|]. intros _.
    apply (copy_lines_spec S3 cc cext m t3 MYSUB NUM_SPECIES f4 g4
             ((MXSUB + 2) * (MYSUB + 2) * NUM_SPECIES) (MXSUB * MYSUB * NUM_SPECIES));
      try done.
    - unfold f4, g4, MXSUB, MYSUB, NUM_SPECIES, NPREY. intros a Ha. lia.
    - unfold S3, S2, S1, N2, N3, copied, f1, g1, f4, g4, MXSUB, MYSUB, NUM_SPECIES, NPREY.
      intros k j a i
        [[[[]|(a' & i' & Ha' & Hi' & -> & _)]|(_ & i' & Hi' & -> & _)]
         |(_ & i' & Hi' & -> & _)] Ha Hi; lia.
    - unfold f4, g4, MXSUB, MYSUB, NUM_SPECIES, NPREY. intros a a' i i' Ha Ha' Hi Hi'. lia. }
  destruct H4 as (t4 & -> & H4). cbn [mbind option_bind].
  set (S4 := λ k j : Z, S3 k j \/ (ud_ixsub webdata = 0 /\
                                   copied MYSUB NUM_SPECIES f4 g4 k j)) in H4.
  set (f5 := λ a : Z, (a + 1) * (MXSUB * NUM_SPECIES) - 2 * NUM_SPECIES).
  set (g5 := λ a : Z, (a + 2) * ((MXSUB + 2) * NUM_SPECIES) - NUM_SPECIES).
  assert (H5 : exists t5,
            (if decide (ud_ixsub webdata = ud_npex webdata - 1)
             then for_range 0 MYSUB
                    (λ jy m0, copy_line NUM_SPECIES cext
                                ((jy + 2) * ((MXSUB + 2) * NUM_SPECIES) - NUM_SPECIES) cc
                                ((jy + 1) * (MXSUB * NUM_SPECIES) - 2 * NUM_SPECIES) m0) t4
             else Some t4) = Some t5 /\
            extended (λ k j, S4 k j \/ (ud_ixsub webdata = ud_npex webdata - 1 /\
                                         copied MYSUB NUM_SPECIES f5 g5 k j))
              cc cext m t5).
  { apply extended_if; [done|]. intros _.
    apply (copy_lines_spec S4 cc cext m t4 MYSUB NUM_SPECIES f5 g5
             ((MXSUB + 2) * (MYSUB + 2) * NUM_SPECIES) (MXSUB * MYSUB * NUM_SPECIES));
      try done.
    - unfold f5, g5, MXSUB, MYSUB, NUM_SPECIES, NPREY. intros a Ha. lia.
    - unfold S4, S3, S2, S1, N2, N3, copied, f1, g1, f4, g4, f5, g5,
        MXSUB, MYSUB, NUM_SPECIES, NPREY.
      intros k j a i
        [[[[[]|(a' & i' & Ha' & Hi' & -> & _)]|(_ & i' & Hi' & -> & _)]
          |(_ & i' & Hi' & -> & _)]|(_ & a' & i' & Ha' & Hi' & -> & _)] Ha Hi; lia.
    - unfold f5, g5, MXSUB, MYSUB, NUM_SPECIES, NPREY. intros a a' i i' Ha Ha' Hi Hi'. lia. }
  destruct H5 as (t5 & -> & Hs5 & Hf5 & Hc5 & Hu5). cbn [mbind option_bind].
  exists t5. split; [done|]. split; [done|]. split; [done|].
  assert (Hcc_at : forall ix jy is_, load m (IJ_Vptr cc ix jy) is_
                     = load m cc (ix * NUM_SPECIES + jy * NSMXSUB + is_)).
  { intros ix jy is_. unfold IJ_Vptr. by rewrite load_ptr_add. }
  split; [|split; [|split; [|split; [|split]]]].
  - intros ix jy is_ Hix Hjy His. rewrite Hcc_at. apply Hc5.
    left. left. left. left. right. exists jy, (ix * NUM_SPECIES + is_).
    unfold E, f1, g1, NSMXSUB, MXSUB, MYSUB, NUM_SPECIES, NPREY in *. lia.
  - intros Hj ix is_ Hix His. rewrite Hcc_at. apply Hc5.
    left. left. left. right. split; [done|]. exists (ix * NUM_SPECIES + is_).
    unfold E, NSMXSUB, MXSUB, MYSUB, NUM_SPECIES, NPREY in *. lia.
  - intros Hj ix is_ Hix His. rewrite Hcc_at. apply Hc5.
    left. left. right. split; [done|]. exists (ix * NUM_SPECIES + is_).
    unfold E, NSMXSUB, MXSUB, MYSUB, NUM_SPECIES, NPREY in *. lia.
  - intros Hi jy is_ Hjy His. rewrite Hcc_at. apply Hc5.
    left. right. split; [done|]. exists jy, is_.
    unfold E, f4, g4, NSMXSUB, MXSUB, MYSUB, NUM_SPECIES, NPREY in *. lia.
  - intros Hi jy is_ Hjy His. rewrite Hcc_at. apply Hc5.
    right. split; [done|]. exists jy, is_.
    unfold E, f5, g5, NSMXSUB, MXSUB, MYSUB, NUM_SPECIES, NPREY in *. lia.
  - intros ex ey is_ Hex Hey His Hside. apply Hu5.
    unfold S4, S3, S2, S1, N2, N3, copied, E, f1, g1, f4, g4, f5, g5,
      MXSUB, MYSUB, NUM_SPECIES, NPREY in *.
    intros j
      [[[[[[]|(a' & i' & Ha' & Hi' & Hk & _)]|(Hc & i' & Hi' & Hk & _)]
         |(Hc & i' & Hi' & Hk & _)]|(Hc & a' & i' & Ha' & Hi' & Hk & _)]
       |(Hc & a' & i' & Ha' & Hi' & Hk & _)]; lia.
Qed.

End WebExtend.

Section WebResidualTheorems.
Import Iwebpk.
Context {R : RealType} {RM : RealMath R} {WM : WebMath R}.

Implicit Types (m t u : gmap block (list realtype)).

Lemma reslocal_spec tt cc cp res webdata m :
  ud_mxsub webdata = MXSUB -> ud_mysub webdata = MYSUB ->
  ud_nsmxsub webdata = MXSUB * NUM_SPECIES ->
  ud_nsmxsub2 webdata = (MXSUB + 2) * NUM_SPECIES ->
  array_at m cc (MXSUB * MYSUB * NUM_SPECIES) ->
  array_at m cp (MXSUB * MYSUB * NUM_SPECIES) ->
  array_at m res (MXSUB * MYSUB * NUM_SPECIES) ->
  array_at m (ud_rates webdata) (MXSUB * MYSUB * NUM_SPECIES) ->
  array_at m (ud_cext webdata) ((MXSUB + 2) * (MYSUB + 2) * NUM_SPECIES) ->
  array_at m (ud_cox webdata) NUM_SPECIES -> array_at m (ud_coy webdata) NUM_SPECIES ->
  array_at m (ud_bcoef webdata) NUM_SPECIES -> array_at m (ud_rhs webdata) NUM_SPECIES ->
  (forall i, 0 <= i < NUM_SPECIES ->
     exists row, acoef_row webdata i = Some row /\ array_at m row NUM_SPECIES) ->
  p_block cc ≠ p_block (ud_cext webdata) ->
  NoDup [p_block (ud_rates webdata); p_block (ud_rhs webdata); p_block res] ->
  (forall p, p ∈ [ud_cext webdata; ud_cox webdata; ud_coy webdata; ud_bcoef webdata; cp]
               ++ ud_acoef webdata ->
     p_block p ∉ [p_block (ud_rates webdata); p_block (ud_rhs webdata); p_block res]) ->
  exists t m',
    reslocal_extend cc webdata m = Some t /\
    reslocal tt cc cp res webdata m = Some (0, m') /\
    (forall k, load m' (ud_cext webdata) k = load t (ud_cext webdata) k) /\
    (forall ix jy is_, 0 <= ix < MXSUB -> 0 <= jy < MYSUB -> 0 <= is_ < NUM_SPECIES ->
       residual_at webdata cp res m' m' ix jy is_).
Proof.
  intros Emx Emy Ensx Ensx2 Hcc Hcp Hres Hrates Hcext Hcox Hcoy Hbcoef Hrhs Hrows
    Hne Hnd Hin.
  rewrite reslocal_parts.
  destruct (reslocal_extend_spec cc webdata m Emy Ensx Ensx2 Hcc Hcext Hne)
    as (t & Ht & Hst & _).
  rewrite Ht. cbn [mbind option_bind].
  destruct (reslocal_points_spec cp res webdata t) as (m' & -> & Hs & Hf & Hc);
    try done; try (by apply (array_at_same m)).
  { intros i Hi. destruct (Hrows i Hi) as (row & Hrow & Harr).
    exists row. split; [done|]. by apply (array_at_same m). }
  cbn [mbind option_bind]. exists t, m'. split; [done|]. split; [done|].
  assert (Hblk : forall p,
            p ∈ [ud_cext webdata; ud_cox webdata; ud_coy webdata; ud_bcoef webdata; cp]
                ++ ud_acoef webdata -> m' !! p_block p = t !! p_block p).
  { intros p Hp. apply Hf. by apply Hin. }
  split.
  - intros k. apply load_block_eq. apply Hblk. rewrite elem_of_app, !elem_of_cons. auto 10.
  - intros ix jy is_ Hix Hjy His. apply (residual_at_in webdata cp res t); [done|].
    by apply Hc.
Qed.

(** The residual reslocal computes, on the array sizes of the example, with
    cc and cext in different arrays, rates, rhs and res in three arrays of
    their own that hold none of cext, cox, coy, bcoef, cp and the rows of
    acoef: reslocal returns 0, and at every grid point (ix,jy) and species
    is, with c, cxl, cxu, cyl, cyu the entries of cext at the point and at
    its left, right, lower and upper neighbour,
      rates[ix,jy,is] = c*(bcoef[is]*fac + dot(cext at the point, acoef[is])),
      res[ix,jy,is] = cp[ix,jy,is] - rhs for is < np, and -rhs otherwise,
    where rhs = cox[is]*((cxu-c)-(c-cxl)) + coy[is]*((cyu-c)-(c-cyl))
    + rates[ix,jy,is] and fac = 1 + ALPHA*x*y + BETA*sin(4 pi x)*sin(4 pi y)
    at x = (ix + ixsub*mxsub)*dx, y = (jy + jysub*mysub)*dy. *)
Theorem reslocal_residual tt cc cp res webdata m :
  ud_mxsub webdata = MXSUB -> ud_mysub webdata = MYSUB ->
  ud_nsmxsub webdata = MXSUB * NUM_SPECIES ->
  ud_nsmxsub2 webdata = (MXSUB + 2) * NUM_SPECIES ->
  array_at m cc (MXSUB * MYSUB * NUM_SPECIES) ->
  array_at m cp (MXSUB * MYSUB * NUM_SPECIES) ->
  array_at m res (MXSUB * MYSUB * NUM_SPECIES) ->
  array_at m (ud_rates webdata) (MXSUB * MYSUB * NUM_SPECIES) ->
  array_at m (ud_cext webdata) ((MXSUB + 2) * (MYSUB + 2) * NUM_SPECIES) ->
  array_at m (ud_cox webdata) NUM_SPECIES -> array_at m (ud_coy webdata) NUM_SPECIES ->
  array_at m (ud_bcoef webdata) NUM_SPECIES -> array_at m (ud_rhs webdata) NUM_SPECIES ->
  (forall i, 0 <= i < NUM_SPECIES ->
     exists row, acoef_row webdata i = Some row /\ array_at m row NUM_SPECIES) ->
  p_block cc ≠ p_block (ud_cext webdata) ->
  NoDup [p_block (ud_rates webdata); p_block (ud_rhs webdata); p_block res] ->
  (forall p, p ∈ [ud_cext webdata; ud_cox webdata; ud_coy webdata; ud_bcoef webdata; cp]
               ++ ud_acoef webdata ->
     p_block p ∉ [p_block (ud_rates webdata); p_block (ud_rhs webdata); p_block res]) ->
  exists m',
    reslocal tt cc cp res webdata m = Some (0, m') /\
    (forall ix jy is_, 0 <= ix < MXSUB -> 0 <= jy < MYSUB -> 0 <= is_ < NUM_SPECIES ->
       residual_at webdata cp res m' m' ix jy is_).
Proof.
  intros Emx Emy Ensx Ensx2 Hcc Hcp Hres Hrates Hcext Hcox Hcoy Hbcoef Hrhs Hrows
    Hne Hnd Hin.
  destruct (reslocal_spec tt cc cp res webdata m) as (t & m' & _ & Hr & _ & Hc); try done.
  by exists m'.
Qed.

(** The extended array cext after reslocal, on the array sizes of the
    example, with cc and cext in different arrays and rates, rhs and res in
    arrays that hold none of the data reslocal reads.
    With cext[ex,ey,is] the element ey*nsmxsub2 + ex*NUM_SPECIES + is of
    cext, for 0 <= ex <= MXSUB+1 and 0 <= ey <= MYSUB+1: the interior holds
    the local vector, cext[ix+1,jy+1,is] = cc[ix,jy,is]; on a side of the
    subgrid that lies on the boundary of the domain the ghost cells mirror
    the first interior line (cext[ix+1,0] = cc[ix,1] when jysub = 0,
    cext[ix+1,MYSUB+1] = cc[ix,MYSUB-2] when jysub = npey-1, cext[0,jy+1] =
    cc[1,jy] when ixsub = 0, cext[MXSUB+1,jy+1] = cc[MXSUB-2,jy] when ixsub
    = npex-1); on a side with a neighbour the ghost cells are left as they
    were, that is as rescomm received them. *)
Theorem reslocal_extended_array tt cc cp res webdata m :
  ud_mxsub webdata = MXSUB -> ud_mysub webdata = MYSUB ->
  ud_nsmxsub webdata = MXSUB * NUM_SPECIES ->
  ud_nsmxsub2 webdata = (MXSUB + 2) * NUM_SPECIES ->
  array_at m cc (MXSUB * MYSUB * NUM_SPECIES) ->
  array_at m cp (MXSUB * MYSUB * NUM_SPECIES) ->
  array_at m res (MXSUB * MYSUB * NUM_SPECIES) ->
  array_at m (ud_rates webdata) (MXSUB * MYSUB * NUM_SPECIES) ->
  array_at m (ud_cext webdata) ((MXSUB + 2) * (MYSUB + 2) * NUM_SPECIES) ->
  array_at m (ud_cox webdata) NUM_SPECIES -> array_at m (ud_coy webdata) NUM_SPECIES ->
  array_at m (ud_bcoef webdata) NUM_SPECIES -> array_at m (ud_rhs webdata) NUM_SPECIES ->
  (forall i, 0 <= i < NUM_SPECIES ->
     exists row, acoef_row webdata i = Some row /\ array_at m row NUM_SPECIES) ->
  p_block cc ≠ p_block (ud_cext webdata) ->
  NoDup [p_block (ud_rates webdata); p_block (ud_rhs webdata); p_block res] ->
  (forall p, p ∈ [ud_cext webdata; ud_cox webdata; ud_coy webdata; ud_bcoef webdata; cp]
               ++ ud_acoef webdata ->
     p_block p ∉ [p_block (ud_rates webdata); p_block (ud_rhs webdata); p_block res]) ->
  let E := λ ex ey is_ : Z, ey * ((MXSUB + 2) * NUM_SPECIES) + ex * NUM_SPECIES + is_ in
  exists m',
    reslocal tt cc cp res webdata m = Some (0, m') /\
    (forall ix jy is_, 0 <= ix < MXSUB -> 0 <= jy < MYSUB -> 0 <= is_ < NUM_SPECIES ->
       load m' (ud_cext webdata) (E (ix + 1) (jy + 1) is_)
       = load m (IJ_Vptr cc ix jy) is_) /\
    (ud_jysub webdata = 0 ->
     forall ix is_, 0 <= ix < MXSUB -> 0 <= is_ < NUM_SPECIES ->
       load m' (ud_cext webdata) (E (ix + 1) 0 is_) = load m (IJ_Vptr cc ix 1) is_) /\
    (ud_jysub webdata = ud_npey webdata - 1 ->
     forall ix is_, 0 <= ix < MXSUB -> 0 <= is_ < NUM_SPECIES ->
       load m' (ud_cext webdata) (E (ix + 1) (MYSUB + 1) is_)
       = load m (IJ_Vptr cc ix (MYSUB - 2)) is_) /\
    (ud_ixsub webdata = 0 ->
     forall jy is_, 0 <= jy < MYSUB -> 0 <= is_ < NUM_SPECIES ->
       load m' (ud_cext webdata) (E 0 (jy + 1) is_) = load m (IJ_Vptr cc 1 jy) is_) /\
    (ud_ixsub webdata = ud_npex webdata - 1 ->
     forall jy is_, 0 <= jy < MYSUB -> 0 <= is_ < NUM_SPECIES ->
       load m' (ud_cext webdata) (E (MXSUB + 1) (jy + 1) is_)
       = load m (IJ_Vptr cc (MXSUB - 2) jy) is_) /\
    (forall ex ey is_,
       0 <= ex < MXSUB + 2 -> 0 <= ey < MYSUB + 2 -> 0 <= is_ < NUM_SPECIES ->
       (ey = 0 /\ ud_jysub webdata ≠ 0) \/
       (ey = MYSUB + 1 /\ ud_jysub webdata ≠ ud_npey webdata - 1) \/
       (ex = 0 /\ ud_ixsub webdata ≠ 0) \/
       (ex = MXSUB + 1 /\ ud_ixsub webdata ≠ ud_npex webdata - 1) ->
       load m' (ud_cext webdata) (E ex ey is_) = load m (ud_cext webdata) (E ex ey is_)).
Proof.
  intros Emx Emy Ensx Ensx2 Hcc Hcp Hres Hrates Hcext Hcox Hcoy Hbcoef Hrhs Hrows
    Hne Hnd Hin E.
  destruct (reslocal_spec tt cc cp res webdata m) as (t & m' & Ht & Hr & Hk & _);
    try done.
  destruct (reslocal_extend_spec cc webdata m Emy Ensx Ensx2 Hcc Hcext Hne)
    as (t0 & Ht0 & _ & _ & H1 & H2 & H3 & H4 & H5 & H6).
  rewrite Ht in Ht0. injection Ht0 as <-.
  exists m'. split; [done|].
  split; [intros ix jy is_ Hix Hjy His; rewrite Hk; by apply H1|].
  split; [intros Hc ix is_ Hix His; rewrite Hk; by apply H2|].
  split; [intros Hc ix is_ Hix His; rewrite Hk; by apply H3|].
  split; [intros Hc jy is_ Hjy His; rewrite Hk; by apply H4|].
  split; [intros Hc jy is_ Hjy His; rewrite Hk; by apply H5|].
  intros ex ey is_ Hex Hey His Hside. rewrite Hk. by apply H6.
Qed.

End WebResidualTheorems.

Section WebGhostColumns.
Import Iwebpk.
Context {R : RealType} {RM : RealMath R} {WM : WebMath R}.

Implicit Types (m t u : gmap block (list realtype)).

(** Where BRecvWait puts the columns it has received, for a process of the
    NPEX x NPEY array with dsizex = MXSUB*NUM_SPECIES, cext and buffer in
    different arrays of (MXSUB+2)*(MYSUB+2)*NUM_SPECIES and
    2*NUM_SPECIES*MYSUB elements, and MPI_Wait changing no array length:
    BRecvWait returns; if there is a left neighbour it waits for request 2
    and on return the ghost column ex = 0 of cext holds the first half of
    buffer, cext[0,ly+1,i] = buffer[ly*NUM_SPECIES + i]; if there is a
    right neighbour it waits for request 3 and the ghost column ex =
    MXSUB+1 holds the second half, cext[MXSUB+1,ly+1,i] =
    buffer[NUM_SPECIES*MYSUB + ly*NUM_SPECIES + i]. *)
Theorem BRecvWait_ghost_columns wait ixsub jysub cext buffer m :
  (forall r u, same_lengths u (wait r u)) ->
  0 <= ixsub < NPEX ->
  array_at m cext ((MXSUB + 2) * (MYSUB + 2) * NUM_SPECIES) ->
  array_at m buffer (2 * NUM_SPECIES * MYSUB) ->
  p_block buffer ≠ p_block cext ->
  exists calls m',
    BRecvWait wait ixsub jysub (MXSUB * NUM_SPECIES) cext buffer m = Some (calls, m') /\
    same_lengths m m' /\
    (ixsub ≠ 0 ->
       MPI_Wait 2 ∈ calls /\
       forall ly i, 0 <= ly < MYSUB -> 0 <= i < NUM_SPECIES ->
         load m' cext ((ly + 1) * ((MXSUB + 2) * NUM_SPECIES) + i)
         = load m' buffer (ly * NUM_SPECIES + i)) /\
    (ixsub ≠ NPEX - 1 ->
       MPI_Wait 3 ∈ calls /\
       forall ly i, 0 <= ly < MYSUB -> 0 <= i < NUM_SPECIES ->
         load m' cext ((ly + 1) * ((MXSUB + 2) * NUM_SPECIES) + (MXSUB + 1) * NUM_SPECIES + i)
         = load m' buffer (NUM_SPECIES * MYSUB + ly * NUM_SPECIES + i)).
Proof.
  intros Hwl Hix Hc Hb Hne. unfold BRecvWait. cbv zeta.
  set (s1 := if decide (jysub ≠ 0) then ([MPI_Wait 0], wait 0 m) else ([], m)).
  assert (Q1 : same_lengths m s1.2).
  { unfold s1. case_decide; simpl; [apply Hwl|apply same_lengths_refl]. }
  set (s2 := if decide (jysub ≠ NPEY - 1) then (s1.1 ++ [MPI_Wait 1], wait 1 s1.2) else s1).
  assert (Q2 : same_lengths m s2.2).
  { unfold s2. case_decide; simpl; [|done]. by apply (same_lengths_trans m s1.2). }
  clearbody s2. clear s1 Q1.
  assert (Hcopy : forall w src (f g : Z -> Z),
            same_lengths m w -> array_at m src (NUM_SPECIES * MYSUB) ->
            p_block src = p_block buffer ->
            (forall a, 0 <= a < MYSUB ->
               0 <= g a /\ g a + NUM_SPECIES <= (MXSUB + 2) * (MYSUB + 2) * NUM_SPECIES /\
               0 <= f a /\ f a + NUM_SPECIES <= NUM_SPECIES * MYSUB) ->
            (forall a a' i i', 0 <= a < a' -> a' < MYSUB ->
               0 <= i < NUM_SPECIES -> 0 <= i' < NUM_SPECIES -> g a + i ≠ g a' + i') ->
            exists w',
              for_range 0 MYSUB
                (λ a w0, for_range 0 NUM_SPECIES
                           (λ i w1, v ← load w1 src (f a + i); store w1 cext (g a + i) v)
                           w0) w = Some w' /\
              same_lengths m w' /\
              forall a i, 0 <= a < MYSUB -> 0 <= i < NUM_SPECIES ->
                load w' cext (g a + i) = load w' src (f a + i)).
  { intros w src f g Hw Hsrc Hblk Hbd Hinj.
    destruct (copy_lines_spec (λ _ _, False) src cext w w MYSUB NUM_SPECIES f g
                ((MXSUB + 2) * (MYSUB + 2) * NUM_SPECIES) (NUM_SPECIES * MYSUB))
      as (w' & Hl & Hs' & Hf' & Hc' & _);
      [apply extended_start|by apply (array_at_same m)|by apply (array_at_same m)
      |by rewrite Hblk|done|done|done|done|].
    exists w'. split; [exact Hl|]. split; [by apply (same_lengths_trans m w)|].
    intros a i Ha Hi. rewrite (load_block_eq w w' src) by (apply Hf'; by rewrite Hblk).
    apply Hc'. right. by exists a, i. }
  assert (ixsub = 0 \/ ixsub = 1) as [->| ->] by (unfold NPEX in Hix; lia).
  - rewrite (decide_False (P := 0 ≠ 0)) by lia. cbn [mbind option_bind].
    rewrite (decide_True (P := 0 ≠ NPEX - 1)) by (unfold NPEX; lia).
    destruct (Hcopy (wait 3 s2.2) (ptr_add buffer (NUM_SPECIES * MYSUB))
                (λ ly, ly * NUM_SPECIES)
                (λ ly, (ly + 2) * (MXSUB * NUM_SPECIES + 2 * NUM_SPECIES) - NUM_SPECIES))
      as (w' & Hl & Hs' & Hv').
    { by apply (same_lengths_trans m s2.2). }
    { by apply (array_at_add m buffer (2 * NUM_SPECIES * MYSUB)). }
    { done. }
    { unfold MXSUB, MYSUB, NUM_SPECIES, NPREY. intros a Ha. lia. }
    { unfold MXSUB, MYSUB, NUM_SPECIES, NPREY. intros a a' i i' Ha Ha' Hi Hi'. lia. }
    cbv beta in Hl. rewrite Hl. cbn [mbind option_bind].
    eexists _, w'. split; [done|]. split; [done|]. split; [done|].
    intros _. split; [rewrite elem_of_app, list_elem_of_singleton; by right|].
    intros ly i Hly Hi.
    replace ((ly + 1) * ((MXSUB + 2) * NUM_SPECIES) + (MXSUB + 1) * NUM_SPECIES + i)
      with ((ly + 2) * (MXSUB * NUM_SPECIES + 2 * NUM_SPECIES) - NUM_SPECIES + i)
      by (unfold MXSUB, MYSUB, NUM_SPECIES, NPREY; lia).
    rewrite Hv' by done. rewrite load_ptr_add. by rewrite Z.add_assoc.
  - rewrite (decide_True (P := 1 ≠ 0)) by lia.
    destruct (Hcopy (wait 2 s2.2) buffer (λ ly, ly * NUM_SPECIES)
                (λ ly, (ly + 1) * (MXSUB * NUM_SPECIES + 2 * NUM_SPECIES)))
      as (w' & Hl & Hs' & Hv').
    { by apply (same_lengths_trans m s2.2). }
    { destruct Hb as (arr & Harr & Ho & Hlen). exists arr. split; [done|].
      unfold NUM_SPECIES, NPREY, MYSUB in *. lia. }
    { done. }
    { unfold MXSUB, MYSUB, NUM_SPECIES, NPREY. intros a Ha. lia. }
    { unfold MXSUB, MYSUB, NUM_SPECIES, NPREY. intros a a' i i' Ha Ha' Hi Hi'. lia. }
    cbv beta in Hl. rewrite Hl. cbn [mbind option_bind].
    rewrite (decide_False (P := 1 ≠ NPEX - 1)) by (unfold NPEX; lia).
    eexists _, w'. split; [done|]. split; [done|]. split; [|done].
    intros _. split; [rewrite elem_of_app, list_elem_of_singleton; by right|].
    intros ly i Hly Hi.
    replace ((ly + 1) * ((MXSUB + 2) * NUM_SPECIES) + i)
      with ((ly + 1) * (MXSUB * NUM_SPECIES + 2 * NUM_SPECIES) + i)
      by (unfold MXSUB, MYSUB, NUM_SPECIES, NPREY; lia).
    by apply Hv'.
Qed.

End WebGhostColumns.

(** ** The food web example on the sample objects *)

Section WebSamples.
Import Iwebpk.

Ltac web_lia := unfold NSMXSUB, NUM_SPECIES, NPREY, MXSUB, MYSUB, NPEX, NPEY in *; lia.

Ltac web_array :=
  eexists; split; [vm_compute; reflexivity|]; split; [done|]; vm_compute; congruence.

Lemma web_mem_rows i :
  0 <= i < NUM_SPECIES ->
  exists row, acoef_row (web_data 0) i = Some row /\ array_at web_mem row NUM_SPECIES.
Proof.
  intros Hi. assert (i = 0 \/ i = 1) as [->| ->] by web_lia;
    (eexists; split; [reflexivity|web_array]).
Defined.

Lemma web_mem_rows3 i :
  0 <= i < NUM_SPECIES ->
  exists row, acoef_row (web_data 3) i = Some row /\ array_at web_mem row NUM_SPECIES.
Proof.
  intros Hi. assert (i = 0 \/ i = 1) as [->| ->] by web_lia;
    (eexists; split; [reflexivity|web_array]).
Defined.

Lemma IJ_Vptr_layout_witness :
  p_block (IJ_Vptr web_cc 3 4) = p_block web_cc /\
  p_off web_cc <= p_off (IJ_Vptr web_cc 3 4) + 1
  < p_off web_cc + MXSUB * MYSUB * NUM_SPECIES.
Proof. apply (proj1 IJ_Vptr_layout web_cc 3 4 1); web_lia. Defined.

Lemma InitUserData_subgrid_witness :
  ud_thispe (web_data 3) = 3 /\ ud_npes (web_data 3) = 4 /\
  3 = ud_jysub (web_data 3) * NPEX + ud_ixsub (web_data 3) /\
  0 <= ud_ixsub (web_data 3) < NPEX /\ 0 <= ud_jysub (web_data 3) /\
  (ud_jysub (web_data 3) < NPEY <-> 3 < NPEX * NPEY).
Proof.
  apply (proj1 InitUserData_subgrid web_data0 3 4 web_mem0 (web_data 3) web_mem);
    [vm_compute; reflexivity|lia].
Defined.

Lemma InitUserData_coefficients_witness :
  exists w m',
    InitUserData web_data0 0 4 web_mem0 = Some (w, m') /\
    ud_ns w = NUM_SPECIES /\ ud_np w = NPREY /\
    ud_npex w = NPEX /\ ud_npey w = NPEY /\
    ud_mxsub w = MXSUB /\ ud_mysub w = MYSUB /\
    ud_nsmxsub w = NUM_SPECIES * MXSUB /\ ud_nsmxsub2 w = NUM_SPECIES * (MXSUB + 2) /\
    ud_dx w = rdiv AX (rofZ (MX - 1)) /\ ud_dy w = rdiv AY (rofZ (MY - 1)) /\
    ud_acoef w = ud_acoef web_data0 /\ ud_bcoef w = ud_bcoef web_data0 /\
    ud_cox w = ud_cox web_data0 /\ ud_coy w = ud_coy web_data0 /\
    ud_rhs w = ud_rhs web_data0 /\ ud_cext w = ud_cext web_data0 /\
    ud_rates w = ud_rates web_data0 /\
    m' !! 9%nat = Some [rneg AA; rneg GG] /\
    m' !! 10%nat = Some [EE; rneg AA] /\
    m' !! 7%nat = Some [BB; rneg BB] /\
    m' !! 5%nat = Some [rdiv DPREY (rmul (ud_dx w) (ud_dx w));
                        rdiv DPRED (rmul (ud_dx w) (ud_dx w))] /\
    m' !! 6%nat = Some [rdiv DPREY (rmul (ud_dy w) (ud_dy w));
                        rdiv DPRED (rmul (ud_dy w) (ud_dy w))] /\
    (forall b, b ∉ [9; 10; 7; 5; 6]%nat -> m' !! b = web_mem0 !! b).
Proof.
  apply (InitUserData_coefficients web_data0 0 4 web_mem0 9%nat 10%nat 7%nat 5%nat 6%nat);
    try reflexivity.
  - repeat (apply NoDup_cons; split; [rewrite ?elem_of_cons, elem_of_nil; lia|]).
    apply NoDup_nil_2.
  - intros b Hb. rewrite !elem_of_cons, elem_of_nil in Hb.
    destruct Hb as [->|[->|[->|[->|[->|[]]]]]]; eexists; split; reflexivity.
Defined.

Lemma rescomm_messages_match_witness :
  (forall count tag,
     (exists buf, MPI_Send buf count 1 tag ∈ web_calls0) <->
     (exists buf rq, MPI_Irecv buf count 0 tag rq ∈ web_calls1)) /\
  (forall buf count dest tag,
     MPI_Send buf count dest tag ∈ web_calls0 -> 0 <= dest < NPEX * NPEY /\ dest ≠ 0) /\
  (forall buf count source tag rq,
     MPI_Irecv buf count source tag rq ∈ web_calls0 ->
     0 <= source < NPEX * NPEY /\ source ≠ 0) /\
  (forall rq,
     (exists buf count source tag, MPI_Irecv buf count source tag rq ∈ web_calls0) <->
     MPI_Wait rq ∈ web_calls0).
Proof.
  eapply (rescomm_messages_match
            web_data0 0 4 web_mem0 (web_data 0) web_mem
            web_wait web_cc web_cp web_buffer web_bufleft web_bufright web_mem
            0 web_calls0 _
            web_data0 1 4 web_mem0 (web_data 1) web_mem
            web_wait web_cc web_cp web_buffer web_bufleft web_bufright web_mem
            0 web_calls1 _);
    first [web_lia | vm_compute; reflexivity].
Defined.


Lemma reslocal_defined_witness :
  exists m',
    reslocal web_t0 web_cc web_cp web_res (web_data 0) web_mem = Some (0, m') /\
    same_lengths web_mem m' /\
    (forall b, b ∉ [p_block (ud_cext (web_data 0)); p_block (ud_rates (web_data 0));
                    p_block (ud_rhs (web_data 0)); p_block web_res] ->
       m' !! b = web_mem !! b).
Proof.
  apply (reslocal_defined web_t0 web_cc web_cp web_res (web_data 0) web_mem);
    first [reflexivity | exact web_mem_rows | web_array].
Defined.

Lemma resweb_defined_witness :
  exists calls m',
    resweb web_wait web_t0 web_cc web_cp web_res (web_data 3)
      web_buffer web_bufleft web_bufright web_mem = Some (0, calls, m') /\
    same_lengths web_mem m' /\
    (forall b, b ∉ [p_block (ud_cext (web_data 3)); p_block (ud_rates (web_data 3));
                    p_block (ud_rhs (web_data 3)); p_block web_res;
                    p_block web_buffer; p_block web_bufleft; p_block web_bufright] ->
       m' !! b = web_mem !! b).
Proof.
  apply (resweb_defined web_wait web_t0 web_cc web_cp web_res (web_data 3)
           web_buffer web_bufleft web_bufright web_mem);
    first [reflexivity | exact web_mem_rows3 | web_array
          | intros r u b; reflexivity | intros r u b _ _; reflexivity].
Defined.

Lemma WebRates_rates_witness :
  let fac := radd (radd ONE (rmul (rmul ALPHA web_t0) web_t0))
               (rmul (rmul BETA (rsin (rmul FOURPI web_t0)))
                  (rsin (rmul FOURPI web_t0))) in
  exists m',
    WebRates web_t0 web_t0 (IJ_Vptr web_cc 1 0) (Ptr 3%nat 0) (web_data 0) web_mem
    = Some m' /\
    (forall i c b row_i,
       web_c10 !! i = Some c -> web_bcoef !! i = Some b ->
       web_acoef !! i = Some row_i ->
       load m' (Ptr 3%nat 0) (Z.of_nat i)
       = Some (rmul c (radd (rmul b fac) (dot web_c10 row_i)))) /\
    same_lengths web_mem m' /\
    (forall b, b ≠ p_block (Ptr 3%nat 0) -> m' !! b = web_mem !! b).
Proof.
  apply (WebRates_rates web_t0 web_t0 (IJ_Vptr web_cc 1 0) (Ptr 3%nat 0)
           (web_data 0) web_mem web_c10 web_bcoef web_acoef);
    try reflexivity; try done.
  - intros [|[|i]] x [=<-]; vm_compute; reflexivity.
  - intros [|[|i]] x [=<-]; vm_compute; reflexivity.
  - intros [|[|i]] row_i [=<-]; (eexists; split; [reflexivity|]);
      (split; [|split; [reflexivity|done]]);
      intros [|[|j]] x [=<-]; vm_compute; reflexivity.
  - web_array.
Defined.

Lemma web_outputs_apart :
  NoDup [p_block (ud_rates (web_data 0)); p_block (ud_rhs (web_data 0)); p_block web_res].
Proof.
  repeat (apply NoDup_cons; split; [rewrite ?elem_of_cons, elem_of_nil; simpl; lia|]).
  apply NoDup_nil_2.
Defined.

Lemma web_inputs_apart p :
  p ∈ [ud_cext (web_data 0); ud_cox (web_data 0); ud_coy (web_data 0);
       ud_bcoef (web_data 0); web_cp] ++ ud_acoef (web_data 0) ->
  p_block p ∉ [p_block (ud_rates (web_data 0)); p_block (ud_rhs (web_data 0));
               p_block web_res].
Proof.
  intros Hp. simpl in Hp.
  repeat (apply elem_of_cons in Hp as [->|Hp]); [..|by apply elem_of_nil in Hp];
    simpl; rewrite !elem_of_cons, elem_of_nil; lia.
Defined.

Lemma reslocal_residual_witness :
  exists m',
    reslocal web_t0 web_cc web_cp web_res (web_data 0) web_mem = Some (0, m') /\
    (forall ix jy is_, 0 <= ix < MXSUB -> 0 <= jy < MYSUB -> 0 <= is_ < NUM_SPECIES ->
       residual_at (web_data 0) web_cp web_res m' m' ix jy is_).
Proof.
  apply (reslocal_residual web_t0 web_cc web_cp web_res (web_data 0) web_mem);
    first [reflexivity | exact web_mem_rows | exact web_outputs_apart
          | exact web_inputs_apart | web_array | done].
Defined.

Lemma reslocal_extended_array_witness :
  exists m',
    reslocal web_t0 web_cc web_cp web_res (web_data 0) web_mem = Some (0, m') /\
    (forall ix jy is_, 0 <= ix < MXSUB -> 0 <= jy < MYSUB -> 0 <= is_ < NUM_SPECIES ->
       load m' (ud_cext (web_data 0))
         ((jy + 1) * ((MXSUB + 2) * NUM_SPECIES) + (ix + 1) * NUM_SPECIES + is_)
       = load web_mem (IJ_Vptr web_cc ix jy) is_) /\
    (ud_jysub (web_data 0) = 0 ->
     forall ix is_, 0 <= ix < MXSUB -> 0 <= is_ < NUM_SPECIES ->
       load m' (ud_cext (web_data 0))
         (0 * ((MXSUB + 2) * NUM_SPECIES) + (ix + 1) * NUM_SPECIES + is_)
       = load web_mem (IJ_Vptr web_cc ix 1) is_) /\
    (ud_jysub (web_data 0) = ud_npey (web_data 0) - 1 ->
     forall ix is_, 0 <= ix < MXSUB -> 0 <= is_ < NUM_SPECIES ->
       load m' (ud_cext (web_data 0))
         ((MYSUB + 1) * ((MXSUB + 2) * NUM_SPECIES) + (ix + 1) * NUM_SPECIES + is_)
       = load web_mem (IJ_Vptr web_cc ix (MYSUB - 2)) is_) /\
    (ud_ixsub (web_data 0) = 0 ->
     forall jy is_, 0 <= jy < MYSUB -> 0 <= is_ < NUM_SPECIES ->
       load m' (ud_cext (web_data 0))
         ((jy + 1) * ((MXSUB + 2) * NUM_SPECIES) + 0 * NUM_SPECIES + is_)
       = load web_mem (IJ_Vptr web_cc 1 jy) is_) /\
    (ud_ixsub (web_data 0) = ud_npex (web_data 0) - 1 ->
     forall jy is_, 0 <= jy < MYSUB -> 0 <= is_ < NUM_SPECIES ->
       load m' (ud_cext (web_data 0))
         ((jy + 1) * ((MXSUB + 2) * NUM_SPECIES) + (MXSUB + 1) * NUM_SPECIES + is_)
       = load web_mem (IJ_Vptr web_cc (MXSUB - 2) jy) is_) /\
    (forall ex ey is_,
       0 <= ex < MXSUB + 2 -> 0 <= ey < MYSUB + 2 -> 0 <= is_ < NUM_SPECIES ->
       (ey = 0 /\ ud_jysub (web_data 0) ≠ 0) \/
       (ey = MYSUB + 1 /\ ud_jysub (web_data 0) ≠ ud_npey (web_data 0) - 1) \/
       (ex = 0 /\ ud_ixsub (web_data 0) ≠ 0) \/
       (ex = MXSUB + 1 /\ ud_ixsub (web_data 0) ≠ ud_npex (web_data 0) - 1) ->
       load m' (ud_cext (web_data 0))
         (ey * ((MXSUB + 2) * NUM_SPECIES) + ex * NUM_SPECIES + is_)
       = load web_mem (ud_cext (web_data 0))
         (ey * ((MXSUB + 2) * NUM_SPECIES) + ex * NUM_SPECIES + is_)).
Proof.
  apply (reslocal_extended_array web_t0 web_cc web_cp web_res (web_data 0) web_mem);
    first [reflexivity | exact web_mem_rows | exact web_outputs_apart
          | exact web_inputs_apart | web_array | done].
Defined.

Lemma BRecvWait_ghost_columns_witness :
  exists calls m',
    BRecvWait web_wait 1 1 (MXSUB * NUM_SPECIES) (Ptr 4%nat 0) web_buffer web_mem
    = Some (calls, m') /\
    same_lengths web_mem m' /\
    (1 ≠ 0 ->
       MPI_Wait 2 ∈ calls /\
       forall ly i, 0 <= ly < MYSUB -> 0 <= i < NUM_SPECIES ->
         load m' (Ptr 4%nat 0) ((ly + 1) * ((MXSUB + 2) * NUM_SPECIES) + i)
         = load m' web_buffer (ly * NUM_SPECIES + i)) /\
    (1 ≠ NPEX - 1 ->
       MPI_Wait 3 ∈ calls /\
       forall ly i, 0 <= ly < MYSUB -> 0 <= i < NUM_SPECIES ->
         load m' (Ptr 4%nat 0)
           ((ly + 1) * ((MXSUB + 2) * NUM_SPECIES) + (MXSUB + 1) * NUM_SPECIES + i)
         = load m' web_buffer (NUM_SPECIES * MYSUB + ly * NUM_SPECIES + i)).
Proof.
  apply (BRecvWait_ghost_columns web_wait 1 1 (Ptr 4%nat 0) web_buffer web_mem);
    first [web_array | web_lia | done | intros r u b; reflexivity].
Defined.

End WebSamples.

(** ** CVODES: return codes and array bounds *)

Import Cvodes.

(** C1: the return values of CVode are SUCCESS = 0, TSTOP_RETURN = 1 and
    the failure codes CVODE_NO_MEM, CVODE_NO_MALLOC, ILL_INPUT,
    TOO_MUCH_WORK, TOO_MUCH_ACC, ERR_FAILURE, CONV_FAILURE, SETUP_FAILURE,
    SOLVE_FAILURE, which are negative and pairwise distinct; the getter
    codes OKAY, BAD_K, BAD_T, BAD_DKY are pairwise distinct with
    OKAY = 0. *)
Theorem return_codes :
  SUCCESS = 0 /\ TSTOP_RETURN = 1 /\
  Forall (λ c, c < 0)
    [CVODE_NO_MEM; CVODE_NO_MALLOC; ILL_INPUT; TOO_MUCH_WORK; TOO_MUCH_ACC;
     ERR_FAILURE; CONV_FAILURE; SETUP_FAILURE; SOLVE_FAILURE] /\
  NoDup
    [CVODE_NO_MEM; CVODE_NO_MALLOC; ILL_INPUT; TOO_MUCH_WORK; TOO_MUCH_ACC;
     ERR_FAILURE; CONV_FAILURE; SETUP_FAILURE; SOLVE_FAILURE] /\
  OKAY = 0 /\ NoDup [OKAY; BAD_K; BAD_T; BAD_DKY].
Proof.
  split; [reflexivity|]. split; [reflexivity|]. split; [|split; [|split]].
  - repeat constructor.
  - apply (bool_decide_unpack _). vm_compute. reflexivity.
  - reflexivity.
  - apply (bool_decide_unpack _). vm_compute. reflexivity.
Qed.

Section CvodesFacts.
Context {R : RealType} {RM : RealMath R}.

Lemma cget_Some {T n} (a : carray T n) j : 0 <= j < n -> is_Some (cget a j).
Proof.
  intros Hj. unfold cget. case_decide; [|lia].
  apply lookup_lt_is_Some_2. unfold cells. rewrite (proj2_sig a). lia.
Qed.

Lemma cget_None {T n} (a : carray T n) j : n <= j -> cget a j = None.
Proof.
  intros Hj. unfold cget. case_decide; [|done].
  apply lookup_ge_None_2. unfold cells. rewrite (proj2_sig a). lia.
Qed.

Lemma cget_carray_set_ne {T n} (a : carray T n) (v : T) (j : Z) :
  j ≠ 0 -> cget (carray_set a 0 v) j = cget a j.
Proof.
  intros Hj. unfold cget. case_decide; [|done].
  unfold carray_set, cells. simpl. apply list_lookup_insert_ne. lia.
Qed.

Lemma cget_carray_set_eq {T n} (a : carray T n) (v : T) :
  0 < n -> cget (carray_set a 0 v) 0 = Some v.
Proof.
  intros Hn. unfold cget. case_decide; [|lia].
  unfold carray_set, cells. simpl. apply list_lookup_insert_eq.
  rewrite (proj2_sig a). lia.
Qed.

(** ** Dense output *)

Section AtTn.
Hypothesis rsub_diag : forall a, rsub a a = ZERO.
Hypothesis rdiv_0_l : forall a, rdiv ZERO a = ZERO.
Hypothesis rmul_0_l : forall a, rmul ZERO a = ZERO.
Hypothesis radd_0_r : forall a, radd a ZERO = a.

Lemma N_VLinearSum_zero c (x d : N_Vector) :
  length d = length x -> N_VLinearSum c x ZERO d = N_VScale c x.
Proof.
  unfold N_VLinearSum, N_VScale. revert d.
  induction x as [|a x IH]; intros [|b d] Hl; simpl in *; try done.
  rewrite rmul_0_l, radd_0_r. f_equal. apply IH. lia.
Qed.

Lemma dky_rounds_zero cv k n jtop (dky : N_Vector) N :
  (forall j, jtop - Z.of_nat n <= j <= jtop -> length (zn cv j) = N) ->
  length dky = N ->
  dky_rounds cv ZERO k (S n) jtop dky
  = N_VScale (rofZ (falling (jtop - Z.of_nat n) k)) (zn cv (jtop - Z.of_nat n)).
Proof.
  revert jtop dky. induction n as [|n IH]; intros jtop dky Hzn Hd.
  - replace (jtop - Z.of_nat 0) with jtop by lia. simpl.
    apply N_VLinearSum_zero. rewrite Hzn by lia. done.
  - change (dky_rounds cv ZERO k (S (S n)) jtop dky)
      with (dky_rounds cv ZERO k (S n) (jtop - 1)
              (N_VLinearSum (rofZ (falling jtop k)) (zn cv jtop) ZERO dky)).
    rewrite IH.
    + by replace (jtop - 1 - Z.of_nat n) with (jtop - Z.of_nat (S n)) by lia.
    + intros j Hj. apply Hzn. lia.
    + rewrite N_VLinearSum_zero by (rewrite Hzn by lia; done).
      unfold N_VScale. rewrite length_fmap. apply Hzn. lia.
Qed.

(** At t = tn the k-th derivative is k!/h^k times column k. *)
Lemma dky_horner_at_tn cv k N :
  0 <= k <= cv_q cv ->
  (forall j, k <= j <= cv_q cv -> length (zn cv j) = N) ->
  dky_horner cv (cv_tn cv) k
  = if decide (k = 0) then N_VScale (rofZ (falling k (Z.to_nat k))) (zn cv k)
    else N_VScale (rdiv ONE (RPowerI (cv_h cv) (Z.to_nat k)))
           (N_VScale (rofZ (falling k (Z.to_nat k))) (zn cv k)).
Proof.
  intros Hk Hzn. unfold dky_horner. rewrite rsub_diag, rdiv_0_l.
  assert (Hsum :
    dky_rounds cv ZERO (Z.to_nat k) (Z.to_nat (cv_q cv - k)) (cv_q cv - 1)
      (N_VScale (rofZ (falling (cv_q cv) (Z.to_nat k))) (zn cv (cv_q cv)))
    = N_VScale (rofZ (falling k (Z.to_nat k))) (zn cv k)).
  { destruct (decide (cv_q cv = k)) as [->|Hne].
    - by rewrite Z.sub_diag.
    - replace (Z.to_nat (cv_q cv - k)) with (S (Z.to_nat (cv_q cv - k - 1))) by lia.
      rewrite (dky_rounds_zero cv _ _ _ _ N).
      + by replace (cv_q cv - 1 - Z.of_nat (Z.to_nat (cv_q cv - k - 1))) with k by lia.
      + intros j Hj. apply Hzn. lia.
      + unfold N_VScale. rewrite length_fmap. apply Hzn. lia. }
  by rewrite Hsum.
Qed.
End AtTn.

(** C7, amended: ADAMS_Q_MAX = 12, BDF_Q_MAX = 5, Q_MAX = 12,
    L_MAX = Q_MAX + 1 = 13 and NUM_TESTS = 5; the Nordsieck history cv_zn
    is a fixed-size array of L_MAX = 13 vectors zn[0..L_MAX-1], that is
    zn[0..Q_MAX], the index L_MAX lying outside it; column zn[j] holds
    h^j/j! times the j-th derivative of the interpolating polynomial: in
    exact arithmetic the dense output of order j at tn is j!/h^j times
    zn[j]. *)
Theorem nordsieck_array_size :
  ADAMS_Q_MAX = 12 /\ BDF_Q_MAX = 5 /\ Q_MAX = 12 /\ L_MAX = Q_MAX + 1 /\
  L_MAX = 13 /\ NUM_TESTS = 5 /\
  (forall cv : CVodeMemRec,
     length (cells (cv_zn cv)) = 13%nat /\
     (forall j, 0 <= j <= Q_MAX -> is_Some (cget (cv_zn cv) j)) /\
     cget (cv_zn cv) L_MAX = None) /\
  ((forall a, rsub a a = ZERO) -> (forall a, rdiv ZERO a = ZERO) ->
   (forall a, rmul ZERO a = ZERO) -> (forall a, radd a ZERO = a) ->
   forall (cv : CVodeMemRec) (j : Z) (N : nat),
     0 <= j <= cv_q cv ->
     (forall i, j <= i <= cv_q cv -> length (zn cv i) = N) ->
     dky_horner cv (cv_tn cv) j
     = if decide (j = 0) then N_VScale (rofZ (falling j (Z.to_nat j))) (zn cv j)
       else N_VScale (rdiv ONE (RPowerI (cv_h cv) (Z.to_nat j)))
              (N_VScale (rofZ (falling j (Z.to_nat j))) (zn cv j))).
Proof.
  do 6 (split; [reflexivity|]). split.
  - intros cv. split; [|split].
    + unfold cells. rewrite (proj2_sig (cv_zn cv)). reflexivity.
    + intros j Hj. apply cget_Some. unfold L_MAX. lia.
    + apply cget_None. lia.
  - intros H1 H2 H3 H4 cv j N Hj Hlen. by apply (dky_horner_at_tn H1 H2 H3 H4 cv j N).
Qed.

(** The Horner rounds against the explicit sum, in a commutative semiring. *)

Section Horner.
Hypothesis real_semiring : semi_ring_theory ZERO ONE radd rmul eq.
Add Ring real_ring : real_semiring.

Lemma deriv_sum_horner z s k n jlow :
  deriv_sum z s k (S n) jlow
  = radd (rmul (rofZ (falling jlow k)) (z jlow)) (rmul s (deriv_sum z s k n (jlow + 1))).
Proof.
  induction n as [|n IH].
  - simpl. replace (jlow + Z.of_nat 0) with jlow by lia. ring.
  - change (deriv_sum z s k (S (S n)) jlow)
      with (radd (deriv_sum z s k (S n) jlow)
              (rmul (rmul (rofZ (falling (jlow + Z.of_nat (S n)) k))
                       (z (jlow + Z.of_nat (S n))))
                    (RPowerI s (S n)))).
    rewrite IH.
    change (deriv_sum z s k (S n) (jlow + 1))
      with (radd (deriv_sum z s k n (jlow + 1))
              (rmul (rmul (rofZ (falling (jlow + 1 + Z.of_nat n) k))
                       (z (jlow + 1 + Z.of_nat n)))
                    (RPowerI s n))).
    replace (jlow + Z.of_nat (S n)) with (jlow + 1 + Z.of_nat n) by lia.
    simpl. ring.
Qed.

(** The Horner rounds add the terms jtop, jtop-1, ... below a partial sum. *)
Lemma dky_rounds_sum cv s k n jtop (dky : N_Vector) (i : nat) m :
  (forall j, jtop - Z.of_nat n < j <= jtop -> is_Some (zn cv j !! i)) ->
  dky !! i = Some (deriv_sum (λ j, default ZERO (zn cv j !! i)) s k m (jtop + 1)) ->
  dky_rounds cv s k n jtop dky !! i
  = Some (deriv_sum (λ j, default ZERO (zn cv j !! i)) s k (n + m)
            (jtop + 1 - Z.of_nat n)).
Proof.
  revert jtop dky m. induction n as [|n IH]; intros jtop dky m Hz Hd.
  - simpl. by replace (jtop + 1 - Z.of_nat 0) with (jtop + 1) by lia.
  - simpl dky_rounds. rewrite (IH (jtop - 1) _ (S m)).
    + f_equal. replace (n + S m)%nat with (S n + m)%nat by lia.
      f_equal. lia.
    + intros j Hj. apply Hz. lia.
    + unfold N_VLinearSum. rewrite lookup_zip_with.
      destruct (Hz jtop) as [zj Hzj]; [lia|]. rewrite Hzj, Hd.
      replace (jtop - 1 + 1) with jtop by lia.
      rewrite deriv_sum_horner. rewrite Hzj. done.
Qed.

(** Component i of the dense output is the k-th derivative of the
    interpolating polynomial sum_j zn[j][i] s^j, s = (t - tn)/h, in t:
    (1/h^k) sum_(j=k..q) j(j-1)...(j-k+1) zn[j][i] s^(j-k). *)
Lemma dky_horner_sum cv t k (i : nat) :
  0 <= k <= cv_q cv ->
  (forall j, k <= j <= cv_q cv -> is_Some (zn cv j !! i)) ->
  dky_horner cv t k !! i
  = Some (let sum := deriv_sum (λ j, default ZERO (zn cv j !! i))
                       (rdiv (rsub t (cv_tn cv)) (cv_h cv))
                       (Z.to_nat k) (Z.to_nat (cv_q cv - k + 1)) k in
          if decide (k = 0) then sum
          else rmul (rdiv ONE (RPowerI (cv_h cv) (Z.to_nat k))) sum).
Proof.
  intros Hk Hz. unfold dky_horner.
  set (s := rdiv (rsub t (cv_tn cv)) (cv_h cv)).
  assert (Hsum :
    dky_rounds cv s (Z.to_nat k) (Z.to_nat (cv_q cv - k)) (cv_q cv - 1)
      (N_VScale (rofZ (falling (cv_q cv) (Z.to_nat k))) (zn cv (cv_q cv))) !! i
    = Some (deriv_sum (λ j, default ZERO (zn cv j !! i)) s
              (Z.to_nat k) (Z.to_nat (cv_q cv - k + 1)) k)).
  { rewrite (dky_rounds_sum cv s _ _ _ _ i 1).
    - f_equal. replace (Z.to_nat (cv_q cv - k) + 1)%nat
        with (Z.to_nat (cv_q cv - k + 1)) by lia.
      f_equal. lia.
    - intros j Hj. apply Hz. lia.
    - unfold N_VScale. rewrite list_lookup_fmap.
      destruct (Hz (cv_q cv)) as [zq Hzq]; [lia|]. rewrite Hzq. simpl.
      replace (cv_q cv - 1 + 1) with (cv_q cv) by lia.
      replace (cv_q cv + Z.of_nat 0) with (cv_q cv) by lia.
      rewrite Hzq. simpl. f_equal. ring. }
  case_decide; [done|].
  unfold N_VScale at 1. rewrite list_lookup_fmap, Hsum. done.
Qed.

End Horner.

(** ** CVodeGetDky *)

(** No flag can be BAD_K exactly for an illegal k and BAD_T exactly for an
    illegal t: a call with both illegal would need both values. *)
Lemma CVodeGetDky_flag_not_both (cv : CVodeMemRec) (t : realtype) (k : Z) (flag : Z) :
  ~ (0 <= k <= cv_qu cv) -> t_legal cv t = false ->
  ~ ((flag = BAD_K <-> ~ (0 <= k <= cv_qu cv)) /\
     (flag = BAD_T <-> t_legal cv t = false)).
Proof.
  intros Hk Ht [HK HT]. apply HK in Hk. apply HT in Ht.
  rewrite Hk in Ht. discriminate Ht.
Qed.

(** The flag of CVodeGetDky for a handle and an output vector that are
    not NULL. *)
Lemma CVodeGetDky_flags (cv : CVodeMemRec) (t : realtype) (k : Z) (dky : N_Vector) :
  (fst (CVodeGetDky (Some cv) t k (Some dky)) = BAD_K <-> ~ (0 <= k <= cv_qu cv)) /\
  (fst (CVodeGetDky (Some cv) t k (Some dky)) = BAD_T
   <-> 0 <= k <= cv_qu cv /\ t_legal cv t = false) /\
  (0 <= k <= cv_qu cv -> t_legal cv t = true ->
   CVodeGetDky (Some cv) t k (Some dky) = (OKAY, Some (dky_horner cv t k))).
Proof.
  unfold CVodeGetDky.
  destruct ((k <? 0) || (cv_qu cv <? k)) eqn:Hk.
  - apply orb_true_iff in Hk. rewrite !Z.ltb_lt in Hk. simpl.
    split; [|split].
    + split; [lia|done].
    + split; [discriminate|lia].
    + lia.
  - apply orb_false_iff in Hk. rewrite !Z.ltb_ge in Hk.
    destruct (t_legal cv t) eqn:Ht; simpl.
    + split; [|split].
      * split; [discriminate|lia].
      * split; [discriminate|]. intros [_ ?]. discriminate.
      * done.
    + split; [|split].
      * split; [discriminate|lia].
      * split; [|done]. intros _. split; [lia|done].
      * discriminate.
Qed.



(** ** Error weights and the WRMS norm *)

Lemma sum_sq_app (p : N_Vector) a n :
  (n <= length p)%nat -> sum_sq (p ++ [a]) n = sum_sq p n.
Proof.
  induction n as [|n IH]; intros Hn; [done|].
  cbn [sum_sq]. rewrite IH by lia. by rewrite lookup_app_l by lia.
Qed.

Lemma dot_squares (p : N_Vector) :
  foldl radd ZERO (zip_with rmul p p) = sum_sq p (length p).
Proof.
  induction p as [|a p IH] using rev_ind; [done|].
  rewrite zip_with_app by done. rewrite foldl_app. simpl.
  rewrite length_app. simpl. rewrite Nat.add_1_r. cbn [sum_sq].
  rewrite lookup_app_r by lia. rewrite Nat.sub_diag. simpl.
  f_equal. rewrite IH. symmetry. by apply sum_sq_app.
Qed.

Lemma wsum_prod (v w : N_Vector) n :
  (n <= length v)%nat -> length w = length v ->
  wsum v w n = sum_sq (N_VProd v w) n.
Proof.
  intros Hn Hl. induction n as [|n IH]; [done|].
  cbn [wsum sum_sq]. rewrite IH by lia. unfold N_VProd. rewrite lookup_zip_with.
  destruct (lookup_lt_is_Some_2 v n) as [a ->]; [lia|].
  destruct (lookup_lt_is_Some_2 w n) as [b ->]; [lia|]. done.
Qed.

(** C4: the weights are ewt[i] = 1/(rtol*|y[i]| + atol) for itol = SS and
    ewt[i] = 1/(rtol*|y[i]| + atol[i]) for itol = SV, and the norm of a
    vector v under them is sqrt((1/N) * sum over i of (v[i]*ewt[i])^2),
    N being the dimension. *)
Theorem error_weights_and_norm (RSqrt : realtype -> realtype) :
  (forall rtol atol (y : N_Vector) (i : nat) yi,
     y !! i = Some yi ->
     CVEwtSet (TolSS rtol atol) y !! i
     = Some (rdiv ONE (radd (rmul rtol (rabs yi)) atol))) /\
  (forall rtol (atol y : N_Vector) (i : nat) yi ai,
     y !! i = Some yi -> atol !! i = Some ai ->
     CVEwtSet (TolSV rtol atol) y !! i
     = Some (rdiv ONE (radd (rmul rtol (rabs yi)) ai))) /\
  (forall v ewt : N_Vector,
     length ewt = length v ->
     N_VWrmsNorm RSqrt v ewt
     = RSqrt (rmul (rdiv ONE (rofZ (Z.of_nat (length v)))) (wsum v ewt (length v)))).
Proof.
  split; [|split].
  - intros rtol atol y i yi Hy. unfold CVEwtSet, N_VInv, N_VAxpy, N_VAbs, N_VConst.
    rewrite list_lookup_fmap, lookup_zip_with, list_lookup_fmap, Hy. simpl.
    rewrite lookup_replicate_2 by (by eapply lookup_lt_Some). done.
  - intros rtol atol y i yi ai Hy Ha. unfold CVEwtSet, N_VInv, N_VAxpy, N_VAbs.
    rewrite list_lookup_fmap, lookup_zip_with, list_lookup_fmap, Hy. simpl.
    by rewrite Ha.
  - intros v ewt Hl. unfold N_VWrmsNorm, N_VDotProd. do 2 f_equal.
    fold (N_VProd (N_VProd v ewt) (N_VProd v ewt)). unfold N_VProd at 1.
    rewrite dot_squares.
    replace (length (N_VProd v ewt)) with (length v)
      by (unfold N_VProd; rewrite length_zip_with; lia).
    symmetry. by apply wsum_prod.
Qed.


(** ** The weights along the integration *)

Lemma ewt_nonpositive_false (ewt : N_Vector) :
  ewt_nonpositive ewt = false -> Forall (λ e, rleb e ZERO = false) ewt.
Proof.
  unfold ewt_nonpositive. induction ewt as [|e ewt IH]; simpl; [constructor|].
  intros He. apply orb_false_iff in He as [He Hr]. constructor; auto.
Qed.

Lemma ewt_nonpositive_true (ewt : N_Vector) :
  ewt_nonpositive ewt = true <-> exists i e, ewt !! i = Some e /\ rleb e ZERO = true.
Proof.
  unfold ewt_nonpositive. induction ewt as [|e ewt IH]; simpl.
  - split; [done|]. intros (i & e & Hi & _). done.
  - rewrite orb_true_iff, IH. split.
    + intros [He|(i & e' & Hi & He')].
      * exists 0%nat, e. done.
      * exists (S i), e'. done.
    + intros ([|i] & e' & Hi & He').
      * left. simpl in Hi. congruence.
      * right. exists i, e'. done.
Qed.

Section Driver.
Variable CVStep : CVodeMemRec -> Z + CVodeMemRec.
Variable reached : realtype -> CVodeMemRec -> bool.
Hypothesis rleb_total : forall a, rleb a ZERO = false -> rltb ZERO a = true.

Lemma CVode_loop_used n tout cv used flag cv' used' :
  CVode_loop CVStep reached n tout cv used = (flag, cv', used') ->
  Forall (Forall (λ e, rltb ZERO e = true)) used ->
  Forall (Forall (λ e, rltb ZERO e = true)) used'.
Proof.
  revert cv used. induction n as [|n IH]; intros cv used; simpl.
  - intros [= <- <- <-]. done.
  - destruct (ewt_nonpositive _) eqn:He.
    + intros [= <- <- <-]. done.
    + intros Hrun Hused.
      assert (Hnew : Forall (Forall (λ e, rltb ZERO e = true))
                (CVEwtSet (cv_tol cv) (zn cv 0) :: used)).
      { constructor; [|done]. apply ewt_nonpositive_false in He.
        eapply Forall_impl; [exact He|]. intros e. apply rleb_total. }
      destruct (CVStep _) as [fl|cv1].
      * injection Hrun as <- <- <-. done.
      * destruct (reached tout cv1).
        -- injection Hrun as <- <- <-. done.
        -- by eapply IH.
Qed.

End Driver.


(** ** The Newton corrector and cv_lsetup *)

Section Newton.
Variable LMem : Type.
Variable lsetup : LMem -> Z -> Z * bool * LMem.
Variable iterations : LMem -> newton_outcome.

Lemma nls_newton_stale_loops :
  (forall lm cf, exists lm', lsetup lm cf = (0, false, lm')) ->
  (forall lm, iterations lm = NotConverged) ->
  forall fuel callSetup convfail lm,
    nls_newton LMem lsetup iterations fuel callSetup convfail false lm = None.
Proof.
  intros Hstale Hfail. induction fuel as [|fuel IH]; intros cs cf lm; [done|].
  simpl. destruct cs.
  - destruct (Hstale lm cf) as [lm' ->]. simpl. by rewrite Hfail.
  - simpl. by rewrite Hfail.
Qed.

Lemma nls_newton_setup_fail fuel cs cf jc lm :
  nls_newton LMem lsetup iterations fuel cs cf jc lm = Some NLS_SETUP_FAIL_UNREC ->
  exists lm' cf', (lsetup lm' cf').1.1 < 0.
Proof.
  revert cs cf jc lm. induction fuel as [|fuel IH]; intros cs cf jc lm; [done|].
  simpl. destruct cs.
  - destruct (lsetup lm cf) as [[ier jc1] lm1] eqn:Hs.
    destruct (ier <? 0) eqn:Hneg.
    + intros _. exists lm, cf. rewrite Hs. simpl. by apply Z.ltb_lt.
    + destruct (0 <? ier); [done|].
      destruct (iterations lm1); try done.
      destruct jc1; [done|]. apply IH.
  - simpl. destruct (iterations lm); try done.
    destruct jc; [done|]. apply IH.
Qed.

End Newton.


(** ** CVodeReInit *)

Section ReInit.
Variable legal_input : realtype -> option N_Vector -> Z -> bool.

End ReInit.


End CvodesFacts.

(** ** The integrator on the sample objects *)

(** s = (3/4 - 1)/(1/2) = -1/2: y = zn[0] + s zn[1] + s^2 zn[2]. *)
Example dense_output_demo :
  this <$> dky_horner cv_demo (qc 3 4) 0 = [13 # 16; 3 # 2]%Q.
Proof. vm_compute. reflexivity. Qed.

(** y' = (zn[1] + 2 s zn[2]) / h *)
Example dense_output_demo_1 :
  this <$> dky_horner cv_demo (qc 3 4) 1 = [1 # 2; 2 # 1]%Q.
Proof. vm_compute. reflexivity. Qed.

(** Two steps of 1/2 from tn = 1 reach tout = 2. *)
Example CVode_demo :
  fst (fst (CVode CVStep_demo reached_demo (Some cv_demo) (qc 2 1))) = SUCCESS.
Proof. vm_compute. reflexivity. Qed.

Lemma Qc_order_total (a : Qc) : rleb a ZERO = false -> rltb ZERO a = true.
Proof. simpl. intros ->. reflexivity. Defined.

Lemma Qc_sub_diag (a : Qc) : rsub a a = ZERO.
Proof. apply Qcplus_opp_r. Defined.

Lemma Qc_div_0_l (a : Qc) : rdiv ZERO a = ZERO.
Proof. apply Qcmult_0_l. Defined.

Lemma Qc_mul_0_l (a : Qc) : rmul ZERO a = ZERO.
Proof. apply Qcmult_0_l. Defined.

Lemma Qc_add_0_r (a : Qc) : radd a ZERO = a.
Proof. apply Qcplus_0_r. Defined.

(** With cv_zn declared as L_MAX vectors, L_MAX + 1 is 14 and not the
    number of cells. *)
Lemma nordsieck_array_not_L_MAX_plus_1 :
  L_MAX + 1 ≠ 13 /\ length (cells (cv_zn cv_demo)) ≠ Z.to_nat (L_MAX + 1).
Proof. split; vm_compute; congruence. Qed.

Lemma nordsieck_array_size_witness :
  dky_horner cv_demo (cv_tn cv_demo) 1
  = N_VScale (rdiv ONE (RPowerI (cv_h cv_demo) 1))
      (N_VScale (rofZ (falling 1 1)) (zn cv_demo 1)).
Proof.
  apply (proj2 (proj2 (proj2 (proj2 (proj2 (proj2 (proj2
           (nordsieck_array_size (R:=Qc_real))))))))
           Qc_sub_diag Qc_div_0_l Qc_mul_0_l Qc_add_0_r cv_demo 1 2%nat).
  - simpl. lia.
  - intros i Hi. assert (i = 1 \/ i = 2) as [-> | ->] by (simpl in Hi; lia);
      reflexivity.
Defined.




Lemma error_weights_and_norm_witness :
  CVEwtSet (R:=Qc_real) (TolSS (qc 1 10) (qc 1 100)) [qc 2 1] !! 0%nat
  = Some (rdiv ONE (radd (rmul (qc 1 10) (rabs (qc 2 1))) (qc 1 100))).
Proof.
  apply (proj1 (error_weights_and_norm (R:=Qc_real) (λ x, x))). reflexivity.
Defined.



